(** * Rebus puzzle server: guess evaluation, scoring and the room state machine

    A shallow embedding of [server.js].  The pure helpers ([levenshtein],
    [normalize], [checkGuess], [calcScore]) are total functions; the REST and
    socket handlers are state transformers over a record that holds the room
    registry, the room objects, the pending timeouts and the emitted events.

    Conventions.
    - A JavaScript string is the list of its UTF-16 code units ([list N]).
    - JavaScript numbers that the handlers compute with (times, similarity)
      are exact rationals ([Q]), and a division is meaningful for a non-zero
      divisor only.  Scores are integers ([Z]): every summand is a
      [Math.round] result.  The rounding of the doubles is modelled for the
      scorer alone: [Double.calcScore] is [calcScore] on binary64 numbers.
    - [Date.now()], [uuidv4()] and [Math.random()] are inputs of the handler
      that calls them.
    - A handler that throws (a property read on [undefined]) returns [None]. *)

From Stdlib Require Import QArith Qround Qminmax Ascii Lqa Floats.SpecFloat.
From stdpp Require Import base option list gmap strings sorting pretty.

Set Default Proof Using "Type".

(** * Part I: the program *)

(** ** Strings *)

Abbreviation jsstring := (list N).

(** A string literal, for readable examples. *)
Definition js (s : string) : jsstring :=
  N_of_ascii <$> String.list_ascii_of_string s.

(** The case mappings of [String.prototype] are taken as given. *)
Class JSBuiltins := {
  toLowerCase : jsstring -> jsstring;
  toUpperCase : jsstring -> jsstring
}.

Definition in_range (lo hi c : N) : bool := ((lo <=? c) && (c <=? hi))%N.

(** The case mappings on strings of ASCII code units. *)
Definition ascii_lower (c : N) : N := if in_range 65 90 c then (c + 32)%N else c.
Definition ascii_upper (c : N) : N := if in_range 97 122 c then (c - 32)%N else c.

#[export] Instance ascii_builtins : JSBuiltins := {|
  toLowerCase := fmap ascii_lower;
  toUpperCase := fmap ascii_upper
|}.

(** The character class [[a-z0-9 ]]. *)
Definition is_kept (c : N) : bool :=
  in_range 97 122 c || in_range 48 57 c || (c =? 32)%N.

(** The character class [\w]. *)
Definition is_word (c : N) : bool :=
  in_range 97 122 c || in_range 65 90 c || in_range 48 57 c || (c =? 95)%N.

(** The character class [\s], which is also what [trim] removes. *)
Definition is_space (c : N) : bool :=
  in_range 9 13 c || (c =? 32)%N || (c =? 160)%N || (c =? 5760)%N ||
  in_range 8192 8202 c || (c =? 8232)%N || (c =? 8233)%N || (c =? 8239)%N ||
  (c =? 8287)%N || (c =? 12288)%N || (c =? 65279)%N.

(** ** Edit distance *)

Section Levenshtein.
Context {A : Type} `{EqDecision A}.

(** One alignment of [a] with [b] that uses [n] single-character
    insertions, deletions and substitutions. *)
Inductive edit : list A -> list A -> nat -> Prop :=
| edit_nil : edit [] [] 0
| edit_keep x a b n : edit a b n -> edit (x :: a) (x :: b) n
| edit_subst x y a b n : edit a b n -> edit (x :: a) (y :: b) (S n)
| edit_delete x a b n : edit a b n -> edit (x :: a) b (S n)
| edit_insert y a b n : edit a b n -> edit a (y :: b) (S n).

(** [d] is the minimum number of operations that turn [a] into [b]. *)
Definition edit_distance (a b : list A) (d : nat) : Prop :=
  edit a b d /\ forall n, edit a b n -> d <= n.

(** The recurrence the table of [levenshtein] is filled with, read on the
    last characters first: [lev (reverse a) (reverse b)] is the entry for
    the prefixes [a] and [b]. *)
Fixpoint lev (a : list A) : list A -> nat :=
  match a with
  | [] => fun b => length b
  | x :: a' =>
      fix row (b : list A) : nat :=
        match b with
        | [] => S (length a')
        | y :: b' =>
            if decide (x = y) then lev a' b'
            else S (Nat.min (lev a' b) (Nat.min (row b') (lev a' b')))
        end
  end.

(** The table [dp] of the source: [m + 1] rows of [n + 1] numbers. *)
Definition mget (dp : list (list nat)) (i j : nat) : nat :=
  default 0 (dp !! i ≫= (.!! j)).

Definition mset (dp : list (list nat)) (i j v : nat) : list (list nat) :=
  alter (<[j := v]>) i dp.

(** [for (let k = from; k < from + count; k++) s = body(s, k)] *)
Definition for_loop {St : Type} (from count : nat) (body : St -> nat -> St) (s : St) : St :=
  foldl body s (seq from count).

Definition levenshtein (a b : list A) : nat :=
  let m := length a in
  let n := length b in
  let dp := replicate (m + 1) (replicate (n + 1) 0) in
  let dp := for_loop 0 (m + 1) (fun dp i => mset dp i 0 i) dp in
  let dp := for_loop 0 (n + 1) (fun dp j => mset dp 0 j j) dp in
  let dp :=
    for_loop 1 m (fun dp i =>
      for_loop 1 n (fun dp j =>
        mset dp i j
          (if decide (a !! (i - 1) = b !! (j - 1))
           then mget dp (i - 1) (j - 1)
           else 1 + Nat.min (mget dp (i - 1) j)
                      (Nat.min (mget dp i (j - 1)) (mget dp (i - 1) (j - 1)))))
        dp)
      dp in
  mget dp m n.

End Levenshtein.

(** ** The guess evaluator *)

(** [str.replace(/[^a-z0-9 ]/g, '')] *)
Definition strip_other (s : jsstring) : jsstring := filter (fun c => is_kept c = true) s.

(** The assertion [\b] between the character before the position and the
    character at it ([None] at either end of the string). *)
Definition word_boundary (prev next : option N) : bool :=
  xorb (from_option is_word false prev) (from_option is_word false next).

(** [s] continues with the literal [p]: what follows it. *)
Fixpoint match_literal (p s : jsstring) : option jsstring :=
  match p, s with
  | [], _ => Some s
  | c :: p', d :: s' => if decide (c = d) then match_literal p' s' else None
  | _ :: _, [] => None
  end.

(** One alternative of [(the|a|an)] followed by [\b]: the length matched. *)
Definition match_alternative (p s : jsstring) : option nat :=
  match match_literal p s with
  | Some rest => if word_boundary (last p) (head rest) then Some (length p) else None
  | None => None
  end.

Definition articles : list jsstring := [js "the"; js "a"; js "an"].

(** An attempt of [/\b(the|a|an)\b/] at a position: the alternatives are
    tried from left to right, and the first that matches wins. *)
Definition match_article (prev : option N) (s : jsstring) : option nat :=
  if word_boundary prev (head s)
  then foldr (fun p later => match match_alternative p s with
                             | Some n => Some n
                             | None => later
                             end) None articles
  else None.

(** [str.replace(/\b(the|a|an)\b/g, '')]: the string is scanned from left
    to right; [prev] is the character before the position and [skip] the
    number of characters of the current match still to be dropped.  A
    match is never empty, so the search resumes right after it. *)
Fixpoint remove_articles (prev : option N) (skip : nat) (s : jsstring) : jsstring :=
  match s with
  | [] => []
  | c :: rest =>
      match skip with
      | S k => remove_articles (Some c) k rest
      | O =>
          match match_article prev s with
          | Some n => remove_articles (Some c) (Nat.pred n) rest
          | None => c :: remove_articles (Some c) 0 rest
          end
      end
  end.

(** [str.replace(/\s+/g, ' ')]; [in_run] says that the character before
    belongs to the run of blanks being replaced. *)
Fixpoint collapse_spaces (in_run : bool) (s : jsstring) : jsstring :=
  match s with
  | [] => []
  | c :: rest =>
      if is_space c
      then (if in_run then collapse_spaces true rest else 32%N :: collapse_spaces true rest)
      else c :: collapse_spaces false rest
  end.

Fixpoint trimStart (s : jsstring) : jsstring :=
  match s with
  | [] => []
  | c :: rest => if is_space c then trimStart rest else s
  end.

Definition trim (s : jsstring) : jsstring :=
  reverse (trimStart (reverse (trimStart s))).

Definition normalize `{JSBuiltins} (str : jsstring) : jsstring :=
  trim (collapse_spaces false (remove_articles None 0 (strip_other (toLowerCase str)))).

(** [s.includes(t)] *)
Fixpoint includes (s t : jsstring) : bool :=
  bool_decide (is_Some (match_literal t s)) ||
  match s with
  | [] => false
  | _ :: s' => includes s' t
  end.

Inductive match_kind := correct | partial | wrong.

#[export] Instance match_kind_eq_dec : EqDecision match_kind.
Proof. solve_decision. Defined.

Record guess_result := GuessResult {
  match_ : match_kind;
  similarity : Q
}.

Definition checkGuess `{JSBuiltins} (guess answer : jsstring) : guess_result :=
  let g := normalize guess in
  let a := normalize answer in
  if decide (g = []) then GuessResult wrong 0
  else if decide (g = a) then GuessResult correct 1
  else
    let dist := levenshtein g a in
    let maxLen := Nat.max (length g) (length a) in
    let similarity := (1 - inject_Z (Z.of_nat dist) / inject_Z (Z.of_nat maxLen))%Q in
    let threshold := if length a <=? 6 then 2 else 3 in
    if dist <=? threshold then GuessResult correct similarity
    else if includes g a || includes a g then GuessResult correct 0.9
    else if Qle_bool 0.6 similarity then GuessResult partial similarity
    else GuessResult wrong similarity.

(** *** The evaluator as the specification words it *)

(** The pieces of [s] between its blanks (code unit 32). *)
Fixpoint split_spaces (s : jsstring) : list jsstring :=
  match s with
  | [] => [[]]
  | c :: rest =>
      if decide (c = 32%N) then [] :: split_spaces rest
      else match split_spaces rest with
           | w :: ws => (c :: w) :: ws
           | [] => [[c]]
           end
  end.

Definition words (s : jsstring) : list jsstring :=
  filter (fun w => w <> []) (split_spaces s).

Fixpoint unwords (ws : list jsstring) : jsstring :=
  match ws with
  | [] => []
  | [w] => w
  | w :: ws' => w ++ 32%N :: unwords ws'
  end.

(** Lowercase; strip what is not a letter, a digit or a blank; drop the
    words "the", "a" and "an"; one blank between the words that are left
    and none around them. *)
Definition normalize_spec `{JSBuiltins} (str : jsstring) : jsstring :=
  let kept := filter (fun c => is_kept c = true) (toLowerCase str) in
  unwords (filter (fun w => w ∉ articles) (words kept)).

Definition substring (t s : jsstring) : Prop :=
  exists before after, s = before ++ t ++ after.

Definition typo_threshold (a : jsstring) : nat :=
  if decide (length a <= 6) then 2 else 3.

(** The six steps in their order: each step applies only when all the
    steps before it did not. *)
Definition reference_classification (g a : jsstring) (r : guess_result) : Prop :=
  exists d : nat,
    edit_distance g a d /\
    let sim := (1 - inject_Z (Z.of_nat d) / inject_Z (Z.of_nat (Nat.max (length g) (length a))))%Q in
    let step1 := g = [] in
    let step2 := g = a in
    let step3 := d <= typo_threshold a in
    let step4 := substring g a \/ substring a g in
    let step5 := (0.6 <= sim)%Q in
    (step1 -> match_ r = wrong /\ (similarity r == 0)%Q) /\
    (~ step1 -> step2 -> match_ r = correct /\ (similarity r == 1)%Q) /\
    (~ step1 -> ~ step2 -> step3 -> match_ r = correct /\ (similarity r == sim)%Q) /\
    (~ step1 -> ~ step2 -> ~ step3 -> step4 ->
       match_ r = correct /\ (similarity r == 0.9)%Q) /\
    (~ step1 -> ~ step2 -> ~ step3 -> ~ step4 -> step5 ->
       match_ r = partial /\ (similarity r == sim)%Q) /\
    (~ step1 -> ~ step2 -> ~ step3 -> ~ step4 -> ~ step5 ->
       match_ r = wrong /\ (similarity r == sim)%Q).

(** ** The scorer *)

(** [Math.round]: the nearest integer, a tie going up. *)
Definition Math_round (x : Q) : Z := Qfloor (x + (1 # 2)).

Definition calcScore (timeRemaining totalTime : Q) (matchType : match_kind) (similarity : Q) : Z :=
  let timeRatio := (timeRemaining / totalTime)%Q in
  let base := Math_round (1000 * timeRatio) in
  let base := Z.max base 50 in
  if decide (matchType = partial)
  then Math_round (inject_Z base * 0.5 * similarity)
  else base.

(** The scorer as the specification words it. *)
Definition score_base (remaining total : Q) : Z :=
  Z.max (Math_round (1000 * (remaining / total))) 50.

Definition calcScore_spec (remaining total : Q) (kind : match_kind) (sim : Q) : Z :=
  match kind with
  | partial => Math_round (inject_Z (score_base remaining total) * (1 # 2) * sim)
  | _ => score_base remaining total
  end.

(** ** The scorer on doubles *)

(** The numbers of JavaScript are the binary64 numbers of IEEE 754, and
    [/] and [*] round to the nearest of them, a tie going to the even one:
    [SFdiv] and [SFmul] at precision 53.  [calcScore] above computes with
    exact fractions instead; this is the function as Node computes it. *)
Module Double.

Definition float : Type := spec_float.
Definition prec : Z := 53.
Definition emax : Z := 1024.

Definition mul : float -> float -> float := SFmul prec emax.
Definition div : float -> float -> float := SFdiv prec emax.
Definition sub : float -> float -> float := SFsub prec emax.

(** The double of a whole number, and of the decimal literal [n/d]. *)
Definition of_Z (n : Z) : float := binary_normalize prec emax n 0 false.
Definition of_decimal (n d : Z) : float := div (of_Z n) (of_Z d).

(** [x <= y] and [x < y]: false when one of them is [NaN]. *)
Definition le (x y : float) : Prop := SFleb x y = true.
Definition lt (x y : float) : Prop := SFltb x y = true.

(** [Math.round]: [NaN], the infinities, the zeros and the whole numbers
    are returned as they are; otherwise the result is [floor(x + 1/2)],
    computed exactly, with the sign of [x] when it is zero. *)
Definition Math_round (x : float) : float :=
  match x with
  | S754_finite s m e =>
      if (0 <=? e)%Z then x
      else
        let n := ((2 * cond_Zopp s (Zpos m) + 2 ^ (- e)) / 2 ^ (1 - e))%Z in
        if (n =? 0)%Z then S754_zero s else of_Z n
  | _ => x
  end.

(** [Math.max] of two numbers: [NaN] when one of them is, and [+0] is
    greater than [-0]. *)
Definition Math_max (a b : float) : float :=
  match SFcompare a b with
  | None => S754_nan
  | Some Lt => b
  | Some Gt => a
  | Some Eq => match a with S754_zero true => b | _ => a end
  end.

Definition calcScore (timeRemaining totalTime : float) (matchType : match_kind)
    (similarity : float) : float :=
  let timeRatio := div timeRemaining totalTime in
  let base := Math_round (mul (of_Z 1000) timeRatio) in
  let base := Math_max base (of_Z 50) in
  if decide (matchType = partial)
  then Math_round (mul (mul base (of_decimal 5 10)) similarity)
  else base.

End Double.

(** ** The server state *)

Record Hints := { hint1 : jsstring; hint2 : jsstring }.

Record Puzzle := { image : jsstring; answer : jsstring; hints : Hints }.

Record Player := {
  id : jsstring;
  socketId : option jsstring;
  name : jsstring;
  score : Z;
  online : bool;
  guessedThisRound : bool
}.

Inductive RoomState := setup | lobby | playing | finished.

#[export] Instance RoomState_eq_dec : EqDecision RoomState.
Proof. solve_decision. Defined.

(** A timeout is identified by a number; a room object by its address. *)
Abbreviation timer_id := nat (only parsing).
Abbreviation room_ref := nat (only parsing).

Record Room := {
  code : jsstring;
  hostId : option jsstring;
  hostSessionId : option jsstring;
  puzzles : list Puzzle;
  players : gmap jsstring Player;
  sessions : gmap jsstring jsstring;
  state : RoomState;
  currentRound : nat;
  totalRounds : Z;
  timePerRound : Q;
  roundTimer : option timer_id;
  hintTimers : list timer_id;
  roundStartTime : option Z;
  roundAnswered : gset jsstring
}.

(** What the handlers store on the socket object. *)
Record Socket := {
  roomCode : option jsstring;
  playerId : option jsstring;
  sessionId : option jsstring;
  isHost : bool;
  joinedRooms : gset jsstring
}.

Record LeaderboardEntry := {
  entry_id : jsstring;
  entry_name : jsstring;
  entry_score : Z;
  entry_online : bool;
  entry_guessedThisRound : bool
}.

(** The events of the wire protocol, with their payloads in the order of
    the source's object literals. *)
Inductive Event :=
| error_msg (message : jsstring)
| host_joined (roomCode : jsstring) (puzzleCount : nat)
| joined (playerId roomCode playerName : jsstring) (sessionId : option jsstring)
         (state : RoomState) (score : Z) (restored : bool)
| new_round (roundNum : nat) (totalRounds : Z) (image : jsstring) (timePerRound : Q)
            (remainingTime : option Q)
| already_answered
| leaderboard_update (leaderboard : list LeaderboardEntry)
| player_joined (playerName : jsstring) (playerCount : nat) (players : list (jsstring * bool))
| player_left (playerName : jsstring) (playerCount : nat) (players : list (jsstring * bool))
| guess_result_wrong (guess : jsstring)
| guess_result_scored (match_ : match_kind) (score totalScore : Z) (answer : option jsstring)
| player_guessed (playerName : jsstring) (match_ : match_kind)
| host_promoted
| hint (level : nat) (text : jsstring)
| round_end (correctAnswer : jsstring) (roundNum : nat) (totalRounds : Z)
            (leaderboard : list LeaderboardEntry) (isLastRound : bool)
| game_over (leaderboard : list LeaderboardEntry)
| http_room_code (roomCode : jsstring)
| http_upload_ok (puzzleCount : nat)
| http_not_found.

(** [socket.emit], [io.to(room).emit] and [res.json]. *)
Inductive Target :=
| socket_emit (socket : jsstring)
| io_to (room : option jsstring)
| http_response.

(** The callbacks handed to [setTimeout], with what each closure captures. *)
Inductive Task :=
| hint1_task (room : room_ref) (puzzle : Puzzle)
| hint2_task (room : room_ref) (puzzle : Puzzle)
| round_end_task (room : room_ref)
| advance_task (room : room_ref)
| end_game_task (room : room_ref)
| reap_task (roomCode : jsstring).

Record World := {
  rooms : gmap jsstring room_ref;
  heap : gmap room_ref Room;
  timers : gmap timer_id (Q * Task);
  next_timer : timer_id;
  sockets : gmap jsstring Socket;
  emitted : list (Target * Event)
}.

Definition initial_world : World :=
  {| rooms := ∅; heap := ∅; timers := ∅; next_timer := 0; sockets := ∅; emitted := [] |}.

(** *** Field updates *)

Definition set_hostId (v : option jsstring) (r : Room) : Room :=
  {| code := code r; hostId := v; hostSessionId := hostSessionId r; puzzles := puzzles r;
     players := players r; sessions := sessions r; state := state r;
     currentRound := currentRound r; totalRounds := totalRounds r;
     timePerRound := timePerRound r; roundTimer := roundTimer r;
     hintTimers := hintTimers r; roundStartTime := roundStartTime r;
     roundAnswered := roundAnswered r |}.

Definition set_hostSessionId (v : option jsstring) (r : Room) : Room :=
  {| code := code r; hostId := hostId r; hostSessionId := v; puzzles := puzzles r;
     players := players r; sessions := sessions r; state := state r;
     currentRound := currentRound r; totalRounds := totalRounds r;
     timePerRound := timePerRound r; roundTimer := roundTimer r;
     hintTimers := hintTimers r; roundStartTime := roundStartTime r;
     roundAnswered := roundAnswered r |}.

Definition set_puzzles (v : list Puzzle) (r : Room) : Room :=
  {| code := code r; hostId := hostId r; hostSessionId := hostSessionId r; puzzles := v;
     players := players r; sessions := sessions r; state := state r;
     currentRound := currentRound r; totalRounds := totalRounds r;
     timePerRound := timePerRound r; roundTimer := roundTimer r;
     hintTimers := hintTimers r; roundStartTime := roundStartTime r;
     roundAnswered := roundAnswered r |}.

Definition set_players (v : gmap jsstring Player) (r : Room) : Room :=
  {| code := code r; hostId := hostId r; hostSessionId := hostSessionId r;
     puzzles := puzzles r; players := v; sessions := sessions r; state := state r;
     currentRound := currentRound r; totalRounds := totalRounds r;
     timePerRound := timePerRound r; roundTimer := roundTimer r;
     hintTimers := hintTimers r; roundStartTime := roundStartTime r;
     roundAnswered := roundAnswered r |}.

Definition set_sessions (v : gmap jsstring jsstring) (r : Room) : Room :=
  {| code := code r; hostId := hostId r; hostSessionId := hostSessionId r;
     puzzles := puzzles r; players := players r; sessions := v; state := state r;
     currentRound := currentRound r; totalRounds := totalRounds r;
     timePerRound := timePerRound r; roundTimer := roundTimer r;
     hintTimers := hintTimers r; roundStartTime := roundStartTime r;
     roundAnswered := roundAnswered r |}.

Definition set_state (v : RoomState) (r : Room) : Room :=
  {| code := code r; hostId := hostId r; hostSessionId := hostSessionId r;
     puzzles := puzzles r; players := players r; sessions := sessions r; state := v;
     currentRound := currentRound r; totalRounds := totalRounds r;
     timePerRound := timePerRound r; roundTimer := roundTimer r;
     hintTimers := hintTimers r; roundStartTime := roundStartTime r;
     roundAnswered := roundAnswered r |}.

Definition set_currentRound (v : nat) (r : Room) : Room :=
  {| code := code r; hostId := hostId r; hostSessionId := hostSessionId r;
     puzzles := puzzles r; players := players r; sessions := sessions r; state := state r;
     currentRound := v; totalRounds := totalRounds r;
     timePerRound := timePerRound r; roundTimer := roundTimer r;
     hintTimers := hintTimers r; roundStartTime := roundStartTime r;
     roundAnswered := roundAnswered r |}.

Definition set_totalRounds (v : Z) (r : Room) : Room :=
  {| code := code r; hostId := hostId r; hostSessionId := hostSessionId r;
     puzzles := puzzles r; players := players r; sessions := sessions r; state := state r;
     currentRound := currentRound r; totalRounds := v;
     timePerRound := timePerRound r; roundTimer := roundTimer r;
     hintTimers := hintTimers r; roundStartTime := roundStartTime r;
     roundAnswered := roundAnswered r |}.

Definition set_timePerRound (v : Q) (r : Room) : Room :=
  {| code := code r; hostId := hostId r; hostSessionId := hostSessionId r;
     puzzles := puzzles r; players := players r; sessions := sessions r; state := state r;
     currentRound := currentRound r; totalRounds := totalRounds r;
     timePerRound := v; roundTimer := roundTimer r;
     hintTimers := hintTimers r; roundStartTime := roundStartTime r;
     roundAnswered := roundAnswered r |}.

Definition set_roundTimer (v : option timer_id) (r : Room) : Room :=
  {| code := code r; hostId := hostId r; hostSessionId := hostSessionId r;
     puzzles := puzzles r; players := players r; sessions := sessions r; state := state r;
     currentRound := currentRound r; totalRounds := totalRounds r;
     timePerRound := timePerRound r; roundTimer := v;
     hintTimers := hintTimers r; roundStartTime := roundStartTime r;
     roundAnswered := roundAnswered r |}.

Definition set_hintTimers (v : list timer_id) (r : Room) : Room :=
  {| code := code r; hostId := hostId r; hostSessionId := hostSessionId r;
     puzzles := puzzles r; players := players r; sessions := sessions r; state := state r;
     currentRound := currentRound r; totalRounds := totalRounds r;
     timePerRound := timePerRound r; roundTimer := roundTimer r;
     hintTimers := v; roundStartTime := roundStartTime r;
     roundAnswered := roundAnswered r |}.

Definition set_roundStartTime (v : option Z) (r : Room) : Room :=
  {| code := code r; hostId := hostId r; hostSessionId := hostSessionId r;
     puzzles := puzzles r; players := players r; sessions := sessions r; state := state r;
     currentRound := currentRound r; totalRounds := totalRounds r;
     timePerRound := timePerRound r; roundTimer := roundTimer r;
     hintTimers := hintTimers r; roundStartTime := v;
     roundAnswered := roundAnswered r |}.

Definition set_roundAnswered (v : gset jsstring) (r : Room) : Room :=
  {| code := code r; hostId := hostId r; hostSessionId := hostSessionId r;
     puzzles := puzzles r; players := players r; sessions := sessions r; state := state r;
     currentRound := currentRound r; totalRounds := totalRounds r;
     timePerRound := timePerRound r; roundTimer := roundTimer r;
     hintTimers := hintTimers r; roundStartTime := roundStartTime r;
     roundAnswered := v |}.

Definition set_rooms (v : gmap jsstring room_ref) (w : World) : World :=
  {| rooms := v; heap := heap w; timers := timers w; next_timer := next_timer w;
     sockets := sockets w; emitted := emitted w |}.

Definition set_heap (v : gmap room_ref Room) (w : World) : World :=
  {| rooms := rooms w; heap := v; timers := timers w; next_timer := next_timer w;
     sockets := sockets w; emitted := emitted w |}.

Definition set_timers (v : gmap timer_id (Q * Task)) (w : World) : World :=
  {| rooms := rooms w; heap := heap w; timers := v; next_timer := next_timer w;
     sockets := sockets w; emitted := emitted w |}.

Definition set_sockets (v : gmap jsstring Socket) (w : World) : World :=
  {| rooms := rooms w; heap := heap w; timers := timers w; next_timer := next_timer w;
     sockets := v; emitted := emitted w |}.

(** *** Primitives *)

Definition emit (t : Target) (e : Event) (w : World) : World :=
  {| rooms := rooms w; heap := heap w; timers := timers w; next_timer := next_timer w;
     sockets := sockets w; emitted := emitted w ++ [(t, e)] |}.

(** [setTimeout(task, delay)]: the new timeout and the state after. *)
Definition setTimeout (task : Task) (delay : Q) (w : World) : timer_id * World :=
  (next_timer w,
   {| rooms := rooms w; heap := heap w;
      timers := <[next_timer w := (delay, task)]> (timers w);
      next_timer := S (next_timer w);
      sockets := sockets w; emitted := emitted w |}).

Definition clearTimeout (t : timer_id) (w : World) : World :=
  set_timers (delete t (timers w)) w.

(** A mutation of the room object at [r]. *)
Definition update_room (r : room_ref) (f : Room -> Room) (w : World) : World :=
  set_heap (alter f r (heap w)) w.

(** [rooms.get(roomCode)]: the address and the current value of the object. *)
Definition rooms_get (roomCode : jsstring) (w : World) : option (room_ref * Room) :=
  r ← rooms w !! roomCode; room ← heap w !! r; Some (r, room).

Definition empty_socket : Socket :=
  {| roomCode := None; playerId := None; sessionId := None; isHost := false;
     joinedRooms := ∅ |}.

Definition socket_of (sock : jsstring) (w : World) : Socket :=
  default empty_socket (sockets w !! sock).

Definition update_socket (sock : jsstring) (f : Socket -> Socket) (w : World) : World :=
  set_sockets (<[sock := f (socket_of sock w)]> (sockets w)) w.

(** A string is falsy when it is missing or empty. *)
Definition truthy (s : option jsstring) : option jsstring :=
  match s with
  | Some (c :: s') => Some (c :: s')
  | _ => None
  end.

(** [o[k] = v] for a string [v]: an assignment to the key [__proto__] of
    a plain object is ignored.  A read [o[k]] is a lookup of the map: a
    property inherited from [Object.prototype] is a function or an object,
    never the identifier of a player. *)
Definition obj_set (k v : jsstring) (o : gmap jsstring jsstring) : gmap jsstring jsstring :=
  if decide (k = js "__proto__") then o else <[k := v]> o.

(** [Object.values(o)]; the enumeration order of the keys is the one of the
    map, which no statement below depends on. *)
Definition Object_values {V : Type} (o : gmap jsstring V) : list V :=
  (map_to_list o).*2.

(** *** Helpers of the source *)

Definition chars : jsstring := js "ABCDEFGHJKLMNPQRSTUVWXYZ23456789".

(** [rand i] is the value of [Math.floor(Math.random() * chars.length)] in
    the [i]-th turn of the loop, a number below [length chars]. *)
Definition generateRoomCode (rand : nat -> nat) : jsstring :=
  for_loop 0 6 (fun code i => code ++ [chars !!! (rand i `mod` length chars)]) [].

Definition leaderboard_entry (p : Player) : LeaderboardEntry :=
  {| entry_id := id p; entry_name := name p; entry_score := score p;
     entry_online := online p; entry_guessedThisRound := guessedThisRound p || false |}.

(** [sort((a, b) => b.score - a.score)], a stable sort. *)
Fixpoint insert_by_score (e : LeaderboardEntry) (l : list LeaderboardEntry) : list LeaderboardEntry :=
  match l with
  | [] => [e]
  | x :: l' =>
      if (entry_score x <=? entry_score e)%Z then e :: l else x :: insert_by_score e l'
  end.

Definition getLeaderboard (room : Room) : list LeaderboardEntry :=
  foldr insert_by_score [] (leaderboard_entry <$> Object_values (players room)).

Definition onlinePlayers (room : Room) : list Player :=
  filter (fun p => online p = true) (Object_values (players room)).

Definition player_list (room : Room) : list (jsstring * bool) :=
  (fun p => (name p, online p)) <$> Object_values (players room).

Definition clearTimers (r : room_ref) (w : World) : World :=
  match heap w !! r with
  | None => w
  | Some room =>
      let w := match roundTimer room with
               | Some t => update_room r (set_roundTimer None) (clearTimeout t w)
               | None => w
               end in
      let w := foldl (fun w t => clearTimeout t w) w (hintTimers room) in
      update_room r (set_hintTimers []) w
  end.

Definition reset_guessed (p : Player) : Player :=
  {| id := id p; socketId := socketId p; name := name p; score := score p;
     online := online p; guessedThisRound := false |}.

Definition startRound (r : room_ref) (now : Z) (w : World) : option World :=
  room ← heap w !! r;
  let puzzle := puzzles room !! currentRound room in
  let w := update_room r (fun room =>
             set_players (reset_guessed <$> players room)
               (set_roundAnswered ∅ (set_roundStartTime (Some now) room))) w in
  let w := clearTimers r w in
  room ← heap w !! r;
  puzzle ← puzzle;
  let w := emit (io_to (Some (code room)))
             (new_round (currentRound room + 1) (totalRounds room) (image puzzle)
                (timePerRound room) None) w in
  let w := emit (io_to (Some (code room))) (leaderboard_update (getLeaderboard room)) w in
  let '(hint1Timer, w) := setTimeout (hint1_task r puzzle) (timePerRound room * 500) w in
  let '(hint2Timer, w) := setTimeout (hint2_task r puzzle) (timePerRound room * 750) w in
  let '(roundTimer, w) := setTimeout (round_end_task r) (timePerRound room * 1000) w in
  Some (update_room r (fun room =>
          set_roundTimer (Some roundTimer) (set_hintTimers [hint1Timer; hint2Timer] room)) w).

Definition endRound (r : room_ref) (w : World) : option World :=
  let w := clearTimers r w in
  room ← heap w !! r;
  puzzle ← puzzles room !! currentRound room;
  let w := emit (io_to (Some (code room)))
             (round_end (answer puzzle) (currentRound room + 1) (totalRounds room)
                (getLeaderboard room)
                (bool_decide (totalRounds room - 1 <= Z.of_nat (currentRound room))%Z)) w in
  let '(t, w) :=
    if bool_decide (Z.of_nat (currentRound room) < totalRounds room - 1)%Z
    then setTimeout (advance_task r) 5000 w
    else setTimeout (end_game_task r) 3000 w in
  Some (update_room r (set_roundTimer (Some t)) w).

Definition endGame (r : room_ref) (w : World) : option World :=
  let w := clearTimers r w in
  let w := update_room r (set_state finished) w in
  room ← heap w !! r;
  Some (emit (io_to (Some (code room))) (game_over (getLeaderboard room)) w).

(** ** REST endpoints *)

Definition new_room (roomCode : jsstring) : Room :=
  {| code := roomCode; hostId := None; hostSessionId := None; puzzles := [];
     players := ∅; sessions := ∅; state := setup; currentRound := 0;
     totalRounds := 0; timePerRound := 30; roundTimer := None; hintTimers := [];
     roundStartTime := None; roundAnswered := ∅ |}.

(** [POST /api/create-room]; the new object gets an address not in use. *)
Definition create_room (rand : nat -> nat) (w : World) : World :=
  let roomCode := generateRoomCode rand in
  let r := fresh (dom (heap w)) in
  let w := set_heap (<[r := new_room roomCode]> (heap w)) w in
  let w := set_rooms (<[roomCode := r]> (rooms w)) w in
  emit http_response (http_room_code roomCode) w.

(** [POST /api/upload/:roomCode]; [newPuzzles] is the list the handler
    builds from the uploaded files and answers. *)
Definition upload (roomCode : jsstring) (newPuzzles : list Puzzle) (w : World) : World :=
  match rooms_get roomCode w with
  | None => emit http_response http_not_found w
  | Some (r, _) =>
      let w := update_room r (fun room =>
                 set_state lobby
                   (set_totalRounds (Z.of_nat (length newPuzzles))
                      (set_puzzles newPuzzles room))) w in
      emit http_response (http_upload_ok (length newPuzzles)) w
  end.

(** ** Socket handlers *)

Section Handlers.
Context `{JSBuiltins}.

(** [socket.join(code); socket.roomCode = code; socket.isHost = true] *)
Definition host_socket (code : jsstring) (s : Socket) : Socket :=
  {| roomCode := Some code; playerId := playerId s; sessionId := sessionId s;
     isHost := true; joinedRooms := {[code]} ∪ joinedRooms s |}.

Definition host_join (sock roomCode : jsstring) (sessionId : option jsstring) (w : World) : World :=
  match rooms_get roomCode w with
  | None => emit (socket_emit sock) (error_msg (js "Room not found")) w
  | Some (r, room) =>
      let w := update_room r (fun room =>
                 set_hostSessionId sessionId (set_hostId (Some sock) room)) w in
      let w := update_socket sock (host_socket roomCode) w in
      emit (socket_emit sock) (host_joined roomCode (length (puzzles room))) w
  end.

(** The session token of a join names a player of the room. *)
Definition session_player (room : Room) (sessionId : option jsstring) : option (jsstring * Player) :=
  sid ← truthy sessionId;
  playerId ← truthy (sessions room !! sid);
  existingPlayer ← players room !! playerId;
  Some (playerId, existingPlayer).

(** [(Date.now() - room.roundStartTime) / 1000]; a missing start time
    counts as 0, as [null] does in the subtraction. *)
Definition elapsed (room : Room) (now : Z) : Q :=
  (inject_Z (now - default 0%Z (roundStartTime room)) / 1000)%Q.

Definition remaining_time (room : Room) (now : Z) : Q :=
  Qmax 0 (timePerRound room - elapsed room now).

Definition join_socket (sock roomCode playerId sessionId : jsstring) (w : World) : World :=
  update_socket sock (fun s =>
    {| roomCode := Some roomCode; playerId := Some playerId;
       sessionId := Some sessionId; isHost := isHost s;
       joinedRooms := {[roomCode]} ∪ joinedRooms s |}) w.

Definition emit_player_joined (r : room_ref) (roomCode playerName : jsstring) (w : World) : option World :=
  room ← heap w !! r;
  let w := emit (io_to (Some roomCode)) (leaderboard_update (getLeaderboard room)) w in
  Some (emit (io_to (Some roomCode))
          (player_joined playerName (length (onlinePlayers room)) (player_list room)) w).

(** [uuid1] and [uuid2] are the results of the two calls of [uuidv4()]. *)
Definition join_room (sock roomCode playerName : jsstring) (sessionId : option jsstring)
    (now : Z) (uuid1 uuid2 : jsstring) (w : World) : option World :=
  let roomCode := toUpperCase roomCode in
  match rooms_get roomCode w with
  | None => Some (emit (socket_emit sock) (error_msg (js "Room not found")) w)
  | Some (r, room) =>
      if decide (state room = setup)
      then Some (emit (socket_emit sock) (error_msg (js "Room is not ready yet")) w)
      else
        match session_player room sessionId with
        | Some (playerId, existingPlayer) =>
            let existingPlayer :=
              {| id := id existingPlayer; socketId := Some sock;
                 name := default (name existingPlayer) (truthy (Some playerName));
                 score := score existingPlayer; online := true;
                 guessedThisRound := guessedThisRound existingPlayer |} in
            let w := update_room r (fun room =>
                       set_players (<[playerId := existingPlayer]> (players room)) room) w in
            let w := join_socket sock roomCode playerId (default [] sessionId) w in
            let w := emit (socket_emit sock)
                       (joined playerId roomCode (name existingPlayer) None (state room)
                          (score existingPlayer) true) w in
            w ← (if decide (state room = playing)
                 then
                   puzzle ← puzzles room !! currentRound room;
                   let w := emit (socket_emit sock)
                              (new_round (currentRound room + 1) (totalRounds room)
                                 (image puzzle) (timePerRound room)
                                 (Some (remaining_time room now))) w in
                   Some (if decide (playerId ∈ roundAnswered room)
                         then emit (socket_emit sock) already_answered w
                         else w)
                 else Some w);
            emit_player_joined r roomCode (name existingPlayer) w
        | None =>
            let playerId := take 8 uuid1 in
            let newSessionId := default uuid2 (truthy sessionId) in
            let w := update_room r (fun room =>
                       set_sessions (obj_set newSessionId playerId (sessions room))
                         (set_players
                            (<[playerId :=
                                 {| id := playerId; socketId := Some sock; name := playerName;
                                    score := 0; online := true; guessedThisRound := false |}]>
                               (players room)) room)) w in
            let w := join_socket sock roomCode playerId newSessionId w in
            let w := emit (socket_emit sock)
                       (joined playerId roomCode playerName (Some newSessionId) (state room)
                          0 false) w in
            emit_player_joined r roomCode playerName w
        end
  end.

Definition reset_player (p : Player) : Player :=
  {| id := id p; socketId := socketId p; name := name p; score := 0;
     online := online p; guessedThisRound := false |}.

(** [x || y] on numbers: 0 is falsy. *)
Definition or_default_Z (x y : Z) : Z := if decide (x = 0%Z) then y else x.
Definition or_default_Q (x y : Q) : Q := if Qeq_bool x 0 then y else x.

Definition start_game (sock roomCode : jsstring) (rounds : Z) (timePerRound : Q) (now : Z)
    (w : World) : option World :=
  match rooms_get roomCode w with
  | None => Some w
  | Some (r, room) =>
      if decide (Some sock = hostId room)
      then
        let w := update_room r (fun room =>
                   set_players (reset_player <$> players room)
                     (set_state playing
                        (set_currentRound 0
                           (set_timePerRound (or_default_Q timePerRound 30)
                              (set_totalRounds
                                 (Z.min (or_default_Z rounds (Z.of_nat (length (puzzles room))))
                                    (Z.of_nat (length (puzzles room))))
                                 room))))) w in
        startRound r now w
      else Some w
  end.

Definition add_score (points : Z) (p : Player) : Player :=
  {| id := id p; socketId := socketId p; name := name p; score := score p + points;
     online := online p; guessedThisRound := true |}.

Definition allAnswered (room : Room) : bool :=
  forallb (fun p => bool_decide (id p ∈ roundAnswered room)) (onlinePlayers room).

Definition submit_guess (sock roomCode guess : jsstring) (now : Z) (w : World) : option World :=
  match rooms_get roomCode w with
  | None => Some w
  | Some (r, room) =>
      if decide (state room <> playing) then Some w
      else
        match playerId (socket_of sock w) with
        | None => Some w
        | Some playerId =>
            match players room !! playerId with
            | None => Some w
            | Some player =>
                if decide (playerId ∈ roundAnswered room) then Some w
                else
                  puzzle ← puzzles room !! currentRound room;
                  let result := checkGuess guess (answer puzzle) in
                  if decide (match_ result = wrong)
                  then Some (emit (socket_emit sock) (guess_result_wrong guess) w)
                  else
                    let remaining := remaining_time room now in
                    let points :=
                      calcScore remaining (timePerRound room) (match_ result)
                        (similarity result) in
                    let player := add_score points player in
                    let w := update_room r (fun room =>
                               set_roundAnswered ({[playerId]} ∪ roundAnswered room)
                                 (set_players (<[playerId := player]> (players room)) room))
                               w in
                    room ← heap w !! r;
                    let w := emit (socket_emit sock)
                               (guess_result_scored (match_ result) points (score player)
                                  (if decide (match_ result = correct)
                                   then Some (answer puzzle) else None)) w in
                    let w := emit (io_to (Some roomCode))
                               (leaderboard_update (getLeaderboard room)) w in
                    let w := emit (io_to (Some roomCode))
                               (player_guessed (name player) (match_ result)) w in
                    if allAnswered room then endRound r w else Some w
            end
        end
  end.

Definition next_round (sock roomCode : jsstring) (now : Z) (w : World) : option World :=
  match rooms_get roomCode w with
  | None => Some w
  | Some (r, room) =>
      if decide (Some sock = hostId room)
      then
        if bool_decide (totalRounds room - 1 <= Z.of_nat (currentRound room))%Z
        then endGame r w
        else startRound r now
               (update_room r (fun room => set_currentRound (currentRound room + 1) room) w)
      else Some w
  end.

Definition go_offline (p : Player) : Player :=
  {| id := id p; socketId := None; name := name p; score := score p;
     online := false; guessedThisRound := guessedThisRound p |}.

Definition disconnect (sock : jsstring) (w : World) : option World :=
  match truthy (roomCode (socket_of sock w)) with
  | None => Some w
  | Some roomCode =>
      match rooms_get roomCode w with
      | None => Some w
      | Some (r, room) =>
          (* the player goes offline *)
          w ← match truthy (playerId (socket_of sock w)) ≫= fun playerId =>
                      (fun p => (playerId, p)) <$> players room !! playerId with
              | Some (playerId, p) =>
                  let w := update_room r (fun room =>
                             set_players (<[playerId := go_offline p]> (players room)) room)
                             w in
                  room ← heap w !! r;
                  let w := emit (io_to (Some roomCode))
                             (player_left (name p) (length (onlinePlayers room))
                                (player_list room)) w in
                  Some (emit (io_to (Some roomCode))
                          (leaderboard_update (getLeaderboard room)) w)
              | None => Some w
              end;
          (* the host role moves to an online player *)
          room ← heap w !! r;
          let w := if isHost (socket_of sock w)
                   then match head (onlinePlayers room) with
                        | Some onlinePlayer =>
                            emit (io_to (socketId onlinePlayer)) host_promoted
                              (update_room r (set_hostId (socketId onlinePlayer)) w)
                        | None => w
                        end
                   else w in
          (* an empty room is reaped after ten minutes *)
          room ← heap w !! r;
          Some (if decide (length (onlinePlayers room) = 0 /\ truthy (hostId room) = None)
                then (setTimeout (reap_task roomCode) (10 * 60 * 1000) w).2
                else w)
      end
  end.

(** *** Timeouts *)

Definition run_task (task : Task) (now : Z) (w : World) : option World :=
  match task with
  | hint1_task r puzzle =>
      room ← heap w !! r;
      Some (emit (io_to (Some (code room))) (hint 1 (hint1 (hints puzzle))) w)
  | hint2_task r puzzle =>
      room ← heap w !! r;
      Some (emit (io_to (Some (code room))) (hint 2 (hint2 (hints puzzle))) w)
  | round_end_task r => endRound r w
  | advance_task r =>
      startRound r now
        (update_room r (fun room => set_currentRound (currentRound room + 1) room) w)
  | end_game_task r => endGame r w
  | reap_task roomCode =>
      match rooms_get roomCode w with
      | Some (r, room) =>
          if decide (length (onlinePlayers room) = 0)
          then Some (set_rooms (delete roomCode (rooms w)) (clearTimers r w))
          else Some w
      | None => Some w
      end
  end.

(** The event loop runs the callback of a pending timeout; a timeout that
    was cleared, or that has run, is not pending. *)
Definition fire (t : timer_id) (now : Z) (w : World) : option World :=
  match timers w !! t with
  | None => Some w
  | Some (_, task) => run_task task now (clearTimeout t w)
  end.

(** *** The inputs of the server and its runs *)

Inductive Input :=
| CreateRoom (rand : nat -> nat)
| Upload (roomCode : jsstring) (newPuzzles : list Puzzle)
| HostJoin (sock roomCode : jsstring) (sessionId : option jsstring)
| JoinRoom (sock roomCode playerName : jsstring) (sessionId : option jsstring)
           (now : Z) (uuid1 uuid2 : jsstring)
| StartGame (sock roomCode : jsstring) (rounds : Z) (timePerRound : Q) (now : Z)
| SubmitGuess (sock roomCode guess : jsstring) (now : Z)
| NextRound (sock roomCode : jsstring) (now : Z)
| Disconnect (sock : jsstring)
| Timeout (t : timer_id) (now : Z).

Definition step (w : World) (i : Input) : option World :=
  match i with
  | CreateRoom rand => Some (create_room rand w)
  | Upload roomCode newPuzzles => Some (upload roomCode newPuzzles w)
  | HostJoin sock roomCode sessionId => Some (host_join sock roomCode sessionId w)
  | JoinRoom sock roomCode playerName sessionId now uuid1 uuid2 =>
      join_room sock roomCode playerName sessionId now uuid1 uuid2 w
  | StartGame sock roomCode rounds timePerRound now =>
      start_game sock roomCode rounds timePerRound now w
  | SubmitGuess sock roomCode guess now => submit_guess sock roomCode guess now w
  | NextRound sock roomCode now => next_round sock roomCode now w
  | Disconnect sock => disconnect sock w
  | Timeout t now => fire t now w
  end.

Fixpoint run (w : World) (inputs : list Input) : option World :=
  match inputs with
  | [] => Some w
  | i :: inputs' => w' ← step w i; run w' inputs'
  end.

Definition reachable (w : World) : Prop :=
  exists inputs, run initial_world inputs = Some w.

End Handlers.

(** ** Hints and uploads *)

(** [str.split(/\s+/)]: the pieces between the runs of blanks; a run at
    either end of the string leaves an empty piece there.  [in_run] says
    that the character before belongs to the run being read. *)
Fixpoint split_whitespace (in_run : bool) (s : jsstring) : list jsstring :=
  match s with
  | [] => [[]]
  | c :: rest =>
      if is_space c
      then (if in_run then split_whitespace true rest else [] :: split_whitespace true rest)
      else match split_whitespace false rest with
           | w :: ws => (c :: w) :: ws
           | [] => [[c]]
           end
  end.

(** [w[0].toUpperCase() + '_'.repeat(w.length - 1)]; on the empty piece
    [w[0]] is [undefined] and the call throws. *)
Definition hint1_word `{JSBuiltins} (w : jsstring) : option jsstring :=
  match w with
  | [] => None
  | c :: _ => Some (toUpperCase [c] ++ replicate (length w - 1) 95%N)
  end.

(** [w.split('').map((c, i) => i % 2 === 0 ? c.toUpperCase() : '_').join('')] *)
Definition hint2_word `{JSBuiltins} (w : jsstring) : jsstring :=
  concat (imap (fun i c => if decide (i `mod` 2 = 0) then toUpperCase [c] else [95%N]) w).

(** [generateHints(answer)]; [None] when it throws. *)
Definition generateHints `{JSBuiltins} (answer : jsstring) : option Hints :=
  let words := split_whitespace false answer in
  letters ← mapM hint1_word words;
  let hint1Letters := unwords letters in
  let hint1 :=
    hint1Letters ++ js " (" ++ js (pretty (length words)) ++ js " word" ++
    (if decide (1 < length words) then js "s" else []) ++ js ")" in
  let hint2 := unwords (hint2_word <$> words) in
  Some {| hint1 := hint1; hint2 := hint2 |}.

(** A file of the upload: its MIME type and [file.buffer.toString('base64')],
    which is taken as given. *)
Record UploadedFile := { mimetype : jsstring; base64 : jsstring }.

(** The puzzle made of the [i]-th file; [answers] is the array of strings
    that [JSON.parse] returned. *)
Definition make_puzzle `{JSBuiltins} (answers : list jsstring) (i : nat) (file : UploadedFile) :
    option Puzzle :=
  let answer := default (js "Unknown") (truthy (answers !! i)) in
  hints ← generateHints answer;
  Some {| image := js "data:" ++ mimetype file ++ js ";base64," ++ base64 file;
          answer := answer; hints := hints |}.

Definition make_puzzles `{JSBuiltins} (files : list UploadedFile) (answers : list jsstring) :
    option (list Puzzle) :=
  mapM (fun puzzle => puzzle) (imap (make_puzzle answers) files).

(** [POST /api/upload/:roomCode] from the request: the room is looked up
    before the puzzles are made.  [None]: the handler throws, and the
    state is the one before the request. *)
Definition upload_request `{JSBuiltins} (roomCode : jsstring) (files : list UploadedFile)
    (answers : list jsstring) (w : World) : option World :=
  match rooms_get roomCode w with
  | None => Some (emit http_response http_not_found w)
  | Some _ => puzzles ← make_puzzles files answers; Some (upload roomCode puzzles w)
  end.

(** The characters of [w] at the even positions. *)
Fixpoint even_positions (w : jsstring) : jsstring :=
  match w with
  | c :: _ :: w' => c :: even_positions w'
  | _ => w
  end.

(** The string ends with a blank. *)
Definition ends_blank (s : jsstring) : Prop :=
  exists c, last s = Some c /\ is_space c = true.

(** ** The bot simulator ([simulate-players.js]) *)

Definition FIRST_NAMES : list string :=
  [ "Speedy"; "Brainy"; "Lucky"; "Clever"; "Swift"; "Quick"; "Smart"; "Witty";
    "Bright"; "Sharp"; "Keen"; "Bold"; "Cool"; "Epic"; "Pro"; "Mega";
    "Super"; "Ultra"; "Hyper"; "Turbo"; "Ninja"; "Pixel"; "Cyber"; "Neo";
    "Ace"; "Star"; "Flash"; "Storm"; "Thunder"; "Blaze"; "Shadow"; "Fury";
    "Mystic"; "Cosmic"; "Atomic"; "Iron"; "Golden"; "Silver"; "Crystal"; "Dark";
    "Mighty"; "Royal"; "Elite"; "Chief"; "Alpha"; "Omega"; "Delta"; "Sigma";
    "Zen"; "Neon" ]%string.

Definition LAST_NAMES : list string :=
  [ "Fox"; "Wolf"; "Hawk"; "Bear"; "Lion"; "Tiger"; "Eagle"; "Shark";
    "Panda"; "Cobra"; "Raven"; "Phoenix"; "Dragon"; "Falcon"; "Viper"; "Panther";
    "Gamer"; "Player"; "Solver"; "Thinker"; "Genius"; "Master"; "Wizard"; "Legend";
    "Boss"; "King"; "Queen"; "Champ"; "Hero"; "Knight"; "Sage"; "Guru";
    "Bot"; "Droid"; "Unit"; "Agent"; "Spark"; "Blitz"; "Pulse"; "Wave";
    "Byte"; "Node"; "Core"; "Bit"; "Code"; "Data"; "Link"; "Grid";
    "Chip"; "Dash" ]%string.

(** [getRandomName(index)] for an index that is a natural number. *)
Definition getRandomName (index : nat) : jsstring :=
  let first := FIRST_NAMES !!! (index `mod` length FIRST_NAMES) in
  let last := LAST_NAMES !!! ((index `div` length FIRST_NAMES) `mod` length LAST_NAMES) in
  js first ++ js last.


(** ** A sample run *)

Definition demo_puzzle (a : string) : Puzzle :=
  {| image := js "data:image/png;base64," ++ js a; answer := js a;
     hints := {| hint1 := js "first hint"; hint2 := js "second hint" |} |}.

Definition demo_code : jsstring := generateRoomCode (fun _ => 0).

(** A room with two puzzles, a host and two players, whose game has just
    been started. *)
Definition demo_inputs : list Input :=
  [ CreateRoom (fun _ => 0);
    Upload demo_code [demo_puzzle "The Eiffel Tower"; demo_puzzle "cat"];
    HostJoin (js "host") demo_code None;
    JoinRoom (js "socket-ann") demo_code (js "Ann") None 0
      (js "a1a1a1a1-0000") (js "token-ann");
    JoinRoom (js "socket-bob") demo_code (js "Bob") None 0
      (js "b2b2b2b2-0000") (js "token-bob");
    StartGame (js "host") demo_code 2 30 1000 ].

Definition run_demo (inputs : list Input) : World :=
  default initial_world (run (H := ascii_builtins) initial_world inputs).

Definition demo_world : World := run_demo demo_inputs.

(** Ann has answered the first puzzle after five seconds. *)
Definition demo_answered : World :=
  run_demo (demo_inputs ++ [SubmitGuess (js "socket-ann") demo_code (js "eifel tower") 6000]).

(** The room object of the sample run and its players. *)
Definition demo_room (w : World) : Room :=
  default (new_room []) (heap w !! 0).

Definition demo_player (w : World) (pid : string) : Player :=
  default {| id := []; socketId := None; name := []; score := 0; online := false;
             guessedThisRound := false |} (players (demo_room w) !! js pid).

(** Both players of the sample run have answered: the round has ended
    early. *)
Definition demo_round_over : list Input :=
  demo_inputs ++
  [ SubmitGuess (js "socket-ann") demo_code (js "eifel tower") 6000;
    SubmitGuess (js "socket-bob") demo_code (js "the eiffel tower") 7000 ].

(** A player who joins then, and guesses, within the five seconds before
    the next round. *)
Definition demo_late_guess : list Input :=
  [ JoinRoom (js "socket-cy") demo_code (js "Cy") None 8000
      (js "c3c3c3c3-0000") (js "token-cy");
    SubmitGuess (js "socket-cy") demo_code (js "eiffel tower") 9000 ].

(** Ann has answered and then disconnects. *)
Definition demo_ann_left : World :=
  run_demo (demo_inputs ++
    [ SubmitGuess (js "socket-ann") demo_code (js "eifel tower") 6000;
      Disconnect (js "socket-ann") ]).

(** Ann has answered, and Bob, who has not, disconnects. *)
Definition demo_bob_left : World :=
  run_demo (demo_inputs ++
    [ SubmitGuess (js "socket-ann") demo_code (js "eifel tower") 6000;
      Disconnect (js "socket-bob") ]).

(** Ann has answered and disconnects; the host starts the game again. *)
Definition demo_restart : list Input :=
  demo_inputs ++
  [ SubmitGuess (js "socket-ann") demo_code (js "eifel tower") 6000;
    Disconnect (js "socket-ann");
    StartGame (js "host") demo_code 2 30 20000 ].

(** Ann has answered and disconnects; Bob answers meanwhile. *)
Definition demo_ann_away : list Input :=
  demo_inputs ++
  [ SubmitGuess (js "socket-ann") demo_code (js "eifel tower") 6000;
    Disconnect (js "socket-ann");
    SubmitGuess (js "socket-bob") demo_code (js "the eiffel towr") 7000 ].

(** The room of the sample run before the game is started. *)
Definition demo_lobby : World := run_demo (take 5 demo_inputs).

(** A capital letter of [A-Z]; a word that is a capital letter followed by
    characters that are none. *)
Definition upper_case (c : N) : bool := (65 <=? c)%N && (c <=? 90)%N.

Definition capitalised (s : jsstring) : bool :=
  match s with
  | c :: s' => upper_case c && forallb (fun c => negb (upper_case c)) s'
  | [] => false
  end.

(** ** Devices of the proofs *)

(** The shape of the table of [levenshtein]. *)
Definition table_shape (dp : list (list nat)) (m n : nat) : Prop :=
  length dp = m /\ forall i row, dp !! i = Some row -> length row = n.

(** The entry of the table for the prefixes of lengths [i] and [j]. *)
Definition prefix_lev {A : Type} `{EqDecision A} (a b : list A) (i j : nat) : nat :=
  lev (reverse (take i a)) (reverse (take j b)).

(** The classes of characters the scan of [normalize] tells apart. *)
Definition solid (c : N) : Prop := is_word c = true /\ is_space c = false /\ c <> 32%N.

Definition blank (c : N) : Prop := is_space c = true.

Definition not_word (c : option N) : Prop := from_option is_word false c = false.

(** What the scan leaves of one word. *)
Definition drop_article (w : jsstring) : jsstring := if decide (w ∈ articles) then [] else w.

(** The character before the position once [u] has been read. *)
Definition prev_after (prev : option N) (u : jsstring) : option N :=
  match last u with Some c => Some c | None => prev end.

(** The vocabulary of the statements about rooms. *)

(** The score of a player of the room object at [r]. *)
Definition player_score (w : World) (r : nat) (pid : jsstring) : option Z :=
  room ← heap w !! r; score <$> players room !! pid.

(** The player is in [roundAnswered] of the room object at [r]. *)
Definition has_answered (w : World) (r : nat) (pid : jsstring) : Prop :=
  exists room, heap w !! r = Some room /\ pid ∈ roundAnswered room.

Definition is_guess (i : Input) : Prop :=
  match i with
  | SubmitGuess _ _ _ _ => True
  | _ => False
  end.

(** The socket [sock] may guess in the room [roomCode]: the room is
    playing, the socket carries the identifier of one of its players, and
    the current puzzle exists. *)
Definition may_guess (w : World) (sock roomCode : jsstring) (r : nat) (room : Room)
    (pid : jsstring) (player : Player) (puzzle : Puzzle) : Prop :=
  rooms_get roomCode w = Some (r, room) /\
  state room = playing /\
  playerId (socket_of sock w) = Some pid /\
  players room !! pid = Some player /\
  puzzles room !! currentRound room = Some puzzle.

(** Two values of a room object that differ in the timeout fields only. *)
Definition same_game (room room' : Room) : Prop :=
  code room' = code room /\ hostId room' = hostId room /\
  hostSessionId room' = hostSessionId room /\ puzzles room' = puzzles room /\
  players room' = players room /\ sessions room' = sessions room /\
  state room' = state room /\ currentRound room' = currentRound room /\
  totalRounds room' = totalRounds room /\ timePerRound room' = timePerRound room /\
  roundStartTime room' = roundStartTime room /\
  roundAnswered room' = roundAnswered room.

(** The identities, scores and session tokens of [room] are those of
    [room']. *)
Definition scores_kept (room room' : Room) : Prop :=
  sessions room' = sessions room /\
  forall pid p, players room !! pid = Some p ->
    exists p', players room' !! pid = Some p' /\ score p' = score p /\ id p' = id p.

Definition world_scores_kept (w w' : World) : Prop :=
  forall r room, heap w !! r = Some room ->
    exists room', heap w' !! r = Some room' /\ scores_kept room room'.

(** The input is a [join-room] with the session token [sid]. *)
Definition joins_with (sid : jsstring) (i : Input) : Prop :=
  match i with
  | JoinRoom _ _ _ (Some sid') _ _ _ => sid' = sid
  | _ => False
  end.

(** The input, handled in the state [w], leaves alone the player [pid] of
    the room object at [r] and the session token [sid]: it is not a
    [start-game] of the host of that room, not a [join-room] into that room
    that makes a new player under the identifier [pid] or with the token
    [sid], and not a guess for that room of a socket that carries [pid]. *)
Definition spares `{JSBuiltins} (r : nat) (sid pid : jsstring) (w : World) (i : Input) : bool :=
  match i with
  | StartGame sock roomCode _ _ _ =>
      match rooms_get roomCode w with
      | Some (r', room) => negb (bool_decide (r' = r /\ Some sock = hostId room))
      | None => true
      end
  | JoinRoom _ roomCode _ sessionId _ uuid1 uuid2 =>
      match rooms_get (toUpperCase roomCode) w with
      | Some (r', room) =>
          negb (bool_decide (r' = r)) ||
          bool_decide (is_Some (session_player room sessionId)) ||
          negb (bool_decide (take 8 uuid1 = pid)) &&
          negb (bool_decide (default uuid2 (truthy sessionId) = sid))
      | None => true
      end
  | SubmitGuess sock roomCode _ _ =>
      negb (bool_decide (rooms w !! roomCode = Some r /\
                         playerId (socket_of sock w) = Some pid))
  | _ => true
  end.

(** Every input of the run spares the player, in the state it is handled
    in. *)
Fixpoint spared_run `{JSBuiltins} (r : nat) (sid pid : jsstring) (w : World)
    (inputs : list Input) : bool :=
  match inputs with
  | [] => true
  | i :: inputs' =>
      spares r sid pid w i &&
      match step w i with
      | Some w' => spared_run r sid pid w' inputs'
      | None => true
      end
  end.

(** The room object at [r] keeps the token [sid] of the player [pid], and
    the player with its identifier and score. *)
Definition seat_kept (r : nat) (sid pid : jsstring) (w w' : World) : Prop :=
  forall room, heap w !! r = Some room ->
    exists room', heap w' !! r = Some room' /\
      (sessions room !! sid = Some pid -> sessions room' !! sid = Some pid) /\
      forall p, players room !! pid = Some p ->
        exists p', players room' !! pid = Some p' /\ score p' = score p /\ id p' = id p.

(** ** Invariants of the runs *)

(** The room object a callback works on. *)
Definition task_room (task : Task) : option nat :=
  match task with
  | hint1_task r _ | hint2_task r _ | round_end_task r | advance_task r
  | end_game_task r => Some r
  | reap_task _ => None
  end.

(** The room keeps the handle of the timeout [t]. *)
Definition tracks (room : Room) (t : nat) : Prop :=
  roundTimer room = Some t \/ t ∈ hintTimers room.

Record world_ok (w : World) : Prop := {
  (* timeouts are numbered in the order of their creation *)
  ok_pending : forall t x, timers w !! t = Some x -> t < next_timer w;
  ok_handles : forall r room t, heap w !! r = Some room -> tracks room t -> t < next_timer w;
  (* a pending callback of a room is one the room keeps the handle of *)
  ok_tracked : forall t d task r,
    timers w !! t = Some (d, task) -> task_room task = Some r ->
    exists room, heap w !! r = Some room /\ tracks room t;
  ok_registry : forall c r, rooms w !! c = Some r -> is_Some (heap w !! r);
  ok_answered : forall r room, heap w !! r = Some room ->
    roundAnswered room ⊆ dom (players room)
}.

(** A timeout that is not pending never becomes pending again. *)
Definition timers_fresh (w w' : World) : Prop :=
  next_timer w <= next_timer w' /\
  forall t, t < next_timer w -> timers w !! t = None -> timers w' !! t = None.

Definition good_step (w w' : World) : Prop :=
  (world_ok w -> world_ok w') /\ timers_fresh w w'.

Definition room_step (room room' : Room) : Prop :=
  roundTimer room' = roundTimer room /\ hintTimers room' = hintTimers room /\
  (roundAnswered room ⊆ dom (players room) ->
   roundAnswered room' ⊆ dom (players room')).

(** ** Events, rounds and callbacks *)

(** The identifiers of the players that are online. *)
Definition online_ids (room : Room) : gset jsstring :=
  list_to_set (id <$> onlinePlayers room).

(** The events that the step from [w] to [w'] emitted. *)
Definition new_events (w w' : World) : list (Target * Event) :=
  drop (length (emitted w)) (emitted w').

(** A [round-end] event sent to the room [roomCode]. *)
Definition is_round_end (roomCode : jsstring) (e : Target * Event) : bool :=
  match e with
  | (io_to (Some c), round_end _ _ _ _ _) => bool_decide (c = roomCode)
  | _ => false
  end.

(** A [hint] event sent to the room [roomCode]. *)
Definition is_hint (roomCode : jsstring) (e : Target * Event) : bool :=
  match e with
  | (io_to (Some c), hint _ _) => bool_decide (c = roomCode)
  | _ => false
  end.

(** The timeout [t] has been created and is not pending: it has run or it
    has been cleared. *)
Definition cancelled (t : nat) (w : World) : Prop :=
  t < next_timer w /\ timers w !! t = None.

(** The step from [w] to [w'] on the input [i] takes the room object at
    [r] out of its round: the host starts the game or the next round, a
    guess ends the round early, the round timer or the timer of the pause
    after the round runs, or the room is reaped. *)
Definition leaves_round (w : World) (i : Input) (w' : World) (r : nat) : Prop :=
  match i with
  | StartGame sock c _ _ _ | NextRound sock c _ =>
      exists room, rooms_get c w = Some (r, room) /\ Some sock = hostId room
  | SubmitGuess _ c _ _ =>
      exists room, rooms_get c w = Some (r, room) /\
        existsb (is_round_end (code room)) (new_events w w') = true
  | Timeout t0 _ =>
      exists d0 task0, timers w !! t0 = Some (d0, task0) /\
        (task0 = round_end_task r \/ task0 = advance_task r \/ task0 = end_game_task r \/
         exists c room, task0 = reap_task c /\ rooms_get c w = Some (r, room) /\
           length (onlinePlayers room) = 0)
  | _ => False
  end.

(** A [hint] event, whatever its addressee. *)
Definition is_hint_event (e : Target * Event) : bool :=
  match e.2 with
  | hint _ _ => true
  | _ => false
  end.

(** From [w] to [w'] events were only added, and no [hint] among them. *)
Definition no_hint_sent (w w' : World) : Prop :=
  exists es, emitted w' = emitted w ++ es /\ existsb is_hint_event es = false.

(** The callback of [task] sends a hint. *)
Definition is_hint_task (task : Task) : bool :=
  match task with
  | hint1_task _ _ | hint2_task _ _ => true
  | _ => false
  end.

(** ** The claims that the code does not meet, as they are stated *)

(** "Every room code assigned by create-room is distinct from the code of
    every room currently live in the registry." *)
Definition codes_never_reused `{JSBuiltins} : Prop :=
  forall w rand, reachable w -> rooms w !! generateRoomCode rand = None.

(** "In every reachable room state, roundAnswered is a subset of the set
    of online players." *)
Definition answered_subset_online `{JSBuiltins} : Prop :=
  forall w r room,
    reachable w -> heap w !! r = Some room -> roundAnswered room ⊆ online_ids room.

(** "Whenever roundAnswered equals the full set of online players the
    round ends immediately, including when that equality is first reached
    by a player disconnecting rather than by a guess." *)
Definition round_ends_when_all_answered `{JSBuiltins} : Prop :=
  forall w i w' r room room',
    reachable w -> step w i = Some w' ->
    heap w !! r = Some room -> heap w' !! r = Some room' ->
    state room' = playing ->
    roundAnswered room <> online_ids room ->
    roundAnswered room' = online_ids room' ->
    existsb (is_round_end (code room')) (new_events w w') = true.

(** "Once any transition out of a round occurs, no round-end event
    belonging to that round is ever delivered afterward": after a step
    that announced the end of the round, no later step announces it again
    while the room is in the same round. *)
Definition round_end_delivered_once `{JSBuiltins} : Prop :=
  forall w i w' inputs w'' r room room'',
    reachable w -> step w i = Some w' ->
    heap w' !! r = Some room ->
    existsb (is_round_end (code room)) (new_events w w') = true ->
    run w' inputs = Some w'' ->
    heap w'' !! r = Some room'' ->
    currentRound room'' = currentRound room ->
    roundStartTime room'' = roundStartTime room ->
    existsb (is_round_end (code room)) (new_events w' w'') = false.

(** "For every join-room whose session token is already mapped to an
    existing player, the reply restores that same player id with the score
    held at disconnect": the socket of the player disconnects, the token is
    not used until the [join-room], and the reply of the [join-room] starts
    with [joined], which carries the score that the player had when the
    socket disconnected. *)
Definition score_at_disconnect_restored `{JSBuiltins} : Prop :=
  forall w sock c r room sid pid p w1 inputs w2 sock' n now uuid1 uuid2 w3,
    reachable w ->
    rooms_get (toUpperCase c) w = Some (r, room) ->
    playerId (socket_of sock w) = Some pid ->
    session_player room (Some sid) = Some (pid, p) ->
    disconnect sock w = Some w1 ->
    run w1 inputs = Some w2 ->
    Forall (fun i => ~ joins_with sid i) inputs ->
    join_room sock' c n (Some sid) now uuid1 uuid2 w2 = Some w3 ->
    exists playerName st,
      new_events w2 w3 !! 0 =
        Some (socket_emit sock', joined pid (toUpperCase c) playerName None st (score p) true).

(** "For every join-room with an absent or unrecognized token, a fresh
    player id is allocated": the identifier that the socket gets is the
    identifier of no player of the room. *)
Definition unknown_token_fresh_id `{JSBuiltins} : Prop :=
  forall w sock c n sessionId now uuid1 uuid2 w' r room,
    reachable w ->
    rooms_get (toUpperCase c) w = Some (r, room) -> state room <> setup ->
    truthy sessionId = None \/
      (exists sid, sessionId = Some sid /\ sessions room !! sid = None) ->
    join_room sock c n sessionId now uuid1 uuid2 w = Some w' ->
    exists pid, playerId (socket_of sock w') = Some pid /\ players room !! pid = None.

(** ** Normal forms, invariants and steps *)

(** A word of a normal form: characters of [[a-z0-9]], at least one, and
    not an article. *)
Definition normal_word (w : jsstring) : Prop :=
  w <> [] /\ Forall (fun c => is_kept c = true /\ c <> 32%N) w /\ w ∉ articles.

(** A player is stored under its own identifier, its score is not
    negative, and it is online exactly when it has a socket. *)
Definition player_ok (pid : jsstring) (p : Player) : Prop :=
  id p = pid /\ (0 <= score p)%Z /\ (online p = true <-> is_Some (socketId p)).

(** The players are well formed, every session token names a player of
    the room, the room keeps at most two handles of hint timeouts, and it
    has at least as many puzzles as rounds. *)
Definition room_pre (room : Room) : Prop :=
  map_Forall player_ok (players room) /\
  (forall sid pid, sessions room !! sid = Some pid -> is_Some (players room !! pid)) /\
  length (hintTimers room) <= 2 /\
  (totalRounds room <= Z.of_nat (length (puzzles room)))%Z.

(** Moreover a room that is playing has a current puzzle. *)
Definition room_ok (room : Room) : Prop :=
  room_pre room /\
  (state room = playing -> is_Some (puzzles room !! currentRound room)).

Definition rooms_ok (w : World) : Prop :=
  forall r room, heap w !! r = Some room -> room_ok room.

(** The room objects but the one at [r] are well formed, and the one at
    [r] is but for its current puzzle. *)
Definition rooms_ok_but (r : nat) (w : World) : Prop :=
  forall r' room, heap w !! r' = Some room ->
    if decide (r' = r) then room_pre room else room_ok room.

(** The handler of the input [i] throws in the state [w]: the host starts
    a game in a room without puzzles, or a timeout ends a round or starts
    the next one and the room has no puzzle for it. *)
Definition crashes (w : World) (i : Input) : Prop :=
  match i with
  | StartGame sock c _ _ _ =>
      exists r room, rooms_get c w = Some (r, room) /\ Some sock = hostId room /\
        puzzles room = []
  | Timeout t _ =>
      exists d r room, heap w !! r = Some room /\
        ((timers w !! t = Some (d, round_end_task r) /\
          puzzles room !! currentRound room = None) \/
         (timers w !! t = Some (d, advance_task r) /\
          puzzles room !! (currentRound room + 1) = None))
  | _ => False
  end.

(** A later value of a room object: the code is the same, no player and no
    session token has gone, and a room that had a host identifier has
    one. *)
Definition room_grows (room room' : Room) : Prop :=
  code room' = code room /\
  dom (players room) ⊆ dom (players room') /\
  dom (sessions room) ⊆ dom (sessions room') /\
  (is_Some (hostId room) -> is_Some (hostId room')).

Definition heap_grows (w w' : World) : Prop :=
  forall r room, heap w !! r = Some room ->
    exists room', heap w' !! r = Some room' /\ room_grows room room'.

(** What a step does to the registry: [create-room] stores the address of
    the new room under the code drawn; the timeout of an empty room
    removes its code; nothing else changes the registry. *)
Definition registry_after (w : World) (i : Input) (w' : World) : Prop :=
  match i with
  | CreateRoom rand =>
      rooms w' = <[generateRoomCode rand := fresh (dom (heap w))]> (rooms w)
  | Timeout t _ =>
      rooms w' = rooms w \/
      exists d c r room,
        timers w !! t = Some (d, reap_task c) /\ rooms_get c w = Some (r, room) /\
        onlinePlayers room = [] /\ rooms w' = delete c (rooms w)
  | _ => rooms w' = rooms w
  end.

(** * Part II: the properties *)

(** ** Edit distance *)

Section LevenshteinFacts.
Context {A : Type} `{EqDecision A}.

(** *** Alignments *)

Lemma edit_length_r (a b : list A) n : edit a b n -> length b <= length a + n.
Proof. induction 1; simpl; lia. Qed.

Lemma edit_length_l (a b : list A) n : edit a b n -> length a <= length b + n.
Proof. induction 1; simpl; lia. Qed.

Lemma edit_from_nil (b : list A) : edit [] b (length b).
Proof. induction b; simpl; [constructor | by apply edit_insert]. Qed.

Lemma edit_to_nil (a : list A) : edit a [] (length a).
Proof. induction a; simpl; [constructor | by apply edit_delete]. Qed.

(** Dropping the first character of either string costs at most one
    more operation. *)
Lemma edit_drop_r (a : list A) y b n :
  edit a (y :: b) n -> exists n', n' <= S n /\ edit a b n'.
Proof.
  intros H. remember (y :: b) as yb eqn:E. revert y b E.
  induction H as [|x a b0 n H IH|x y0 a b0 n H IH|x a b0 n H IH|y0 a b0 n H IH];
    intros y b E; simplify_eq.
  - exists (S n). split; [lia | by apply edit_delete].
  - exists (S n). split; [lia | by apply edit_delete].
  - destruct (IH _ _ eq_refl) as (n' & Hle & He).
    exists (S n'). split; [lia | by apply edit_delete].
  - exists n. split; [lia | done].
Qed.

Lemma edit_drop_l x (a b : list A) n :
  edit (x :: a) b n -> exists n', n' <= S n /\ edit a b n'.
Proof.
  intros H. remember (x :: a) as xa eqn:E. revert x a E.
  induction H as [|x0 a0 b n H IH|x0 y a0 b n H IH|x0 a0 b n H IH|y a0 b n H IH];
    intros x a E; simplify_eq.
  - exists (S n). split; [lia | by apply edit_insert].
  - exists (S n). split; [lia | by apply edit_insert].
  - exists n. split; [lia | done].
  - destruct (IH _ _ eq_refl) as (n' & Hle & He).
    exists (S n'). split; [lia | by apply edit_insert].
Qed.

(** Alignments can be extended at the far end, hence read backwards. *)
Lemma edit_snoc_keep (a b : list A) n x : edit a b n -> edit (a ++ [x]) (b ++ [x]) n.
Proof.
  induction 1; simpl; try (by constructor).
  apply edit_keep, edit_nil.
Qed.

Lemma edit_snoc_subst (a b : list A) n x y : edit a b n -> edit (a ++ [x]) (b ++ [y]) (S n).
Proof.
  induction 1; simpl; try (by constructor).
  apply edit_subst, edit_nil.
Qed.

Lemma edit_snoc_delete (a b : list A) n x : edit a b n -> edit (a ++ [x]) b (S n).
Proof.
  induction 1; simpl; try (by constructor).
  apply edit_delete, edit_nil.
Qed.

Lemma edit_snoc_insert (a b : list A) n y : edit a b n -> edit a (b ++ [y]) (S n).
Proof.
  induction 1; simpl; try (by constructor).
  apply edit_insert, edit_nil.
Qed.

Lemma edit_reverse (a b : list A) n : edit a b n -> edit (reverse a) (reverse b) n.
Proof.
  induction 1; rewrite ?reverse_cons.
  - constructor.
  - by apply edit_snoc_keep.
  - by apply edit_snoc_subst.
  - by apply edit_snoc_delete.
  - by apply edit_snoc_insert.
Qed.

Lemma edit_reverse_iff (a b : list A) n : edit (reverse a) (reverse b) n <-> edit a b n.
Proof.
  split; [|apply edit_reverse].
  intros H. apply edit_reverse in H. by rewrite !reverse_involutive in H.
Qed.

Lemma edit_distance_reverse (a b : list A) d :
  edit_distance (reverse a) (reverse b) d <-> edit_distance a b d.
Proof.
  unfold edit_distance. rewrite edit_reverse_iff.
  split; intros [H1 H2]; split; try done; intros n Hn; apply H2;
    by apply edit_reverse_iff.
Qed.

Lemma edit_distance_unique (a b : list A) d1 d2 :
  edit_distance a b d1 -> edit_distance a b d2 -> d1 = d2.
Proof.
  intros [H1 L1] [H2 L2]. apply L1 in H2. apply L2 in H1. lia.
Qed.

(** *** The recurrence computes the minimum *)

Lemma lev_nil_r (a : list A) : lev a [] = length a.
Proof. by destruct a. Qed.

Lemma lev_cons (x : A) a y b :
  lev (x :: a) (y :: b) =
    if decide (x = y) then lev a b
    else S (Nat.min (lev a (y :: b)) (Nat.min (lev (x :: a) b) (lev a b))).
Proof. reflexivity. Qed.

Lemma lev_edit (a b : list A) : edit a b (lev a b).
Proof.
  revert b. induction a as [|x a IHa]; intros b.
  - apply edit_from_nil.
  - induction b as [|y b IHb].
    + apply (edit_to_nil (x :: a)).
    + rewrite lev_cons. destruct (decide (x = y)) as [->|Hne].
      * apply edit_keep, IHa.
      * destruct (Nat.min_spec (lev (x :: a) b) (lev a b)) as [[_ E1]|[_ E1]];
          rewrite E1;
          destruct (Nat.min_spec (lev a (y :: b)) (lev (x :: a) b)) as [[_ E2]|[_ E2]];
          destruct (Nat.min_spec (lev a (y :: b)) (lev a b)) as [[_ E3]|[_ E3]];
          rewrite ?E2, ?E3;
          first [ apply edit_delete, IHa
                | apply edit_insert, IHb
                | apply edit_subst, IHa ].
Qed.

Lemma lev_least (a b : list A) n : edit a b n -> lev a b <= n.
Proof.
  remember (length a + length b) as k eqn:Ek.
  revert a b n Ek. induction (lt_wf k) as [k _ IH].
  intros a b n -> H.
  destruct a as [|x a].
  { apply edit_length_r in H. simpl in *. lia. }
  destruct b as [|y b].
  { apply edit_length_l in H. simpl in *. lia. }
  rewrite lev_cons.
  assert (Hd : forall n', edit a b n' -> lev a b <= n').
  { intros n' H'. eapply IH; [|reflexivity|exact H']. simpl; lia. }
  assert (Hu : forall n', edit a (y :: b) n' -> lev a (y :: b) <= n').
  { intros n' H'. eapply IH; [|reflexivity|exact H']. simpl; lia. }
  assert (Hl : forall n', edit (x :: a) b n' -> lev (x :: a) b <= n').
  { intros n' H'. eapply IH; [|reflexivity|exact H']. simpl; lia. }
  destruct (decide (x = y)) as [->|Hne].
  - inversion H; subst.
    + by apply Hd.
    + etrans; [by apply Hd|lia].
    + match goal with E : edit a (y :: b) _ |- _ =>
        destruct (edit_drop_r _ _ _ _ E) as (n' & Hle & He) end.
      etrans; [by apply Hd|lia].
    + match goal with E : edit (y :: a) b _ |- _ =>
        destruct (edit_drop_l _ _ _ _ E) as (n' & Hle & He) end.
      etrans; [by apply Hd|lia].
  - inversion H; subst.
    + done.
    + match goal with E : edit a b _ |- _ => apply Hd in E end. lia.
    + match goal with E : edit a (y :: b) _ |- _ => apply Hu in E end. lia.
    + match goal with E : edit (x :: a) b _ |- _ => apply Hl in E end. lia.
Qed.

Lemma lev_edit_distance (a b : list A) : edit_distance a b (lev a b).
Proof. split; [apply lev_edit | apply lev_least]. Qed.

(** *** The table holds the recurrence *)

Lemma for_loop_ind {St : Type} (P : nat -> St -> Prop) from count body (s : St) :
  P from s ->
  (forall k s, from <= k < from + count -> P k s -> P (S k) (body s k)) ->
  P (from + count) (for_loop from count body s).
Proof.
  unfold for_loop. intros H0. induction count as [|count IH]; intros Hstep.
  - by rewrite Nat.add_0_r.
  - rewrite seq_S, foldl_snoc. replace (from + S count) with (S (from + count)) by lia.
    apply Hstep; [lia|]. apply IH. intros k s' Hk. apply Hstep. lia.
Qed.

Lemma mset_shape dp m n i j v :
  table_shape dp m n -> table_shape (mset dp i j v) m n.
Proof.
  intros [Hlen Hrows]. split.
  - unfold mset. by rewrite length_alter.
  - intros k row. unfold mset. rewrite list_lookup_alter.
    destruct (decide (i = k)) as [->|]; [|apply Hrows].
    destruct (dp !! k) as [row'|] eqn:E; simpl; [|done].
    intros [= <-]. rewrite length_insert. by eapply Hrows.
Qed.

Lemma mget_mset dp m n i j v i' j' :
  table_shape dp m n -> i < m -> j < n ->
  mget (mset dp i j v) i' j' = if decide (i = i' /\ j = j') then v else mget dp i' j'.
Proof.
  intros [Hlen Hrows] Hi Hj. unfold mget, mset. rewrite list_lookup_alter.
  destruct (decide (i = i')) as [<-|Hne].
  - destruct (lookup_lt_is_Some_2 dp i) as [row Hrow]; [lia|].
    rewrite Hrow. simpl. specialize (Hrows _ _ Hrow).
    destruct (decide (j = j')) as [<-|Hnej].
    + rewrite decide_True by done. by rewrite list_lookup_insert_eq by lia.
    + rewrite decide_False by tauto. by rewrite list_lookup_insert_ne.
  - by rewrite decide_False by tauto.
Qed.

Lemma mget_replicate m n i j : mget (replicate m (replicate n 0)) i j = 0.
Proof.
  unfold mget. destruct (replicate m (replicate n 0) !! i) as [row|] eqn:E; [|done].
  apply lookup_replicate in E as [-> _]. simpl.
  destruct (replicate n 0 !! j) as [x|] eqn:E'; [|done].
  by apply lookup_replicate in E' as [-> _].
Qed.

Lemma replicate_shape m n : table_shape (replicate m (replicate n 0)) m n.
Proof.
  split; [apply length_replicate|].
  intros i row [-> _]%lookup_replicate. apply length_replicate.
Qed.

Lemma prefix_lev_0_l (a b : list A) j :
  j <= length b -> prefix_lev a b 0 j = j.
Proof.
  intros Hj. unfold prefix_lev. simpl. by rewrite length_reverse, length_take_le.
Qed.

Lemma prefix_lev_0_r (a b : list A) i :
  i <= length a -> prefix_lev a b i 0 = i.
Proof.
  intros Hi. unfold prefix_lev. rewrite lev_nil_r.
  by rewrite length_reverse, length_take_le.
Qed.

Lemma prefix_lev_S (a b : list A) i j :
  i < length a -> j < length b ->
  prefix_lev a b (S i) (S j) =
    if decide (a !! i = b !! j) then prefix_lev a b i j
    else 1 + Nat.min (prefix_lev a b i (S j))
               (Nat.min (prefix_lev a b (S i) j) (prefix_lev a b i j)).
Proof.
  intros Hi Hj.
  destruct (lookup_lt_is_Some_2 a i Hi) as [x Hx].
  destruct (lookup_lt_is_Some_2 b j Hj) as [y Hy].
  unfold prefix_lev.
  rewrite (take_S_r a i x Hx), (take_S_r b j y Hy), !reverse_snoc, lev_cons.
  rewrite Hx, Hy.
  destruct (decide (x = y)) as [->|Hne].
  - by rewrite decide_True.
  - rewrite decide_False by congruence. done.
Qed.

Lemma levenshtein_lev (a b : list A) :
  levenshtein a b = lev (reverse a) (reverse b).
Proof.
  unfold levenshtein.
  set (m := length a). set (n := length b).
  set (dp0 := replicate (m + 1) (replicate (n + 1) 0)).
  set (dp1 := for_loop 0 (m + 1) _ dp0).
  set (dp2 := for_loop 0 (n + 1) _ dp1).
  set (dp3 := for_loop 1 m _ dp2).
  (* the first column *)
  assert (H1 : table_shape dp1 (m + 1) (n + 1) /\ forall i, i < 0 + (m + 1) -> mget dp1 i 0 = i).
  { subst dp1. apply (for_loop_ind (fun k dp =>
      table_shape dp (m + 1) (n + 1) /\ forall i, i < k -> mget dp i 0 = i)).
    - split; [apply replicate_shape | intros; lia].
    - intros k dp Hk [Hs Hc]. split; [by apply mset_shape|].
      intros i Hi. rewrite (mget_mset _ _ _ _ _ _ _ _ Hs) by lia.
      case_decide; [lia | apply Hc; lia]. }
  destruct H1 as [Hs1 Hc1].
  (* the first row *)
  assert (H2 : table_shape dp2 (m + 1) (n + 1) /\
               (forall i, i <= m -> mget dp2 i 0 = i) /\
               forall j, j < 0 + (n + 1) -> mget dp2 0 j = j).
  { subst dp2. apply (for_loop_ind (fun k dp =>
      table_shape dp (m + 1) (n + 1) /\
      (forall i, i <= m -> mget dp i 0 = i) /\ forall j, j < k -> mget dp 0 j = j)).
    - split; [done|]. split; [intros; apply Hc1; lia | intros; lia].
    - intros k dp Hk (Hs & Hc & Hr). split; [by apply mset_shape|]. split.
      + intros i Hi. rewrite (mget_mset _ _ _ _ _ _ _ _ Hs) by lia.
        case_decide; [lia | by apply Hc].
      + intros j Hj. rewrite (mget_mset _ _ _ _ _ _ _ _ Hs) by lia.
        case_decide; [lia | apply Hr; lia]. }
  destruct H2 as (Hs2 & Hc2 & Hr2).
  (* the rows below *)
  assert (H3 : table_shape dp3 (m + 1) (n + 1) /\
               (forall i, i <= m -> mget dp3 i 0 = i) /\
               forall i j, i < 1 + m -> j <= n -> mget dp3 i j = prefix_lev a b i j).
  { subst dp3. apply (for_loop_ind (fun k dp =>
      table_shape dp (m + 1) (n + 1) /\
      (forall i, i <= m -> mget dp i 0 = i) /\
      forall i j, i < k -> j <= n -> mget dp i j = prefix_lev a b i j)).
    - split; [done|]. split; [done|].
      intros i j Hi Hj. replace i with 0 by lia.
      rewrite prefix_lev_0_l by done. apply Hr2. lia.
    - intros i dp Hi (Hs & Hc & Hf).
      match goal with |- context [for_loop 1 n ?f dp] => set (inner := f) end.
      assert (H4 : table_shape (for_loop 1 n inner dp) (m + 1) (n + 1) /\
                   (forall i', i' <= m -> mget (for_loop 1 n inner dp) i' 0 = i') /\
                   (forall i' j, i' < i -> j <= n ->
                      mget (for_loop 1 n inner dp) i' j = prefix_lev a b i' j) /\
                   forall j, j < 1 + n -> mget (for_loop 1 n inner dp) i j = prefix_lev a b i j).
      { apply (for_loop_ind (fun k dp' =>
          table_shape dp' (m + 1) (n + 1) /\
          (forall i', i' <= m -> mget dp' i' 0 = i') /\
          (forall i' j, i' < i -> j <= n -> mget dp' i' j = prefix_lev a b i' j) /\
          forall j, j < k -> mget dp' i j = prefix_lev a b i j)).
        - split; [done|]. split; [done|]. split; [done|].
          intros j Hj. replace j with 0 by lia.
          rewrite prefix_lev_0_r by (unfold m in *; lia). apply Hc. lia.
        - intros j dp' Hj (Hs' & Hc' & Hf' & Hg'). subst inner. cbv beta.
          split; [by apply mset_shape|]. split; [|split].
          + intros i' Hi'. rewrite (mget_mset _ _ _ _ _ _ _ _ Hs') by lia.
            case_decide; [lia | by apply Hc'].
          + intros i' j' Hi' Hj'. rewrite (mget_mset _ _ _ _ _ _ _ _ Hs') by lia.
            case_decide; [lia | by apply Hf'].
          + intros j' Hj'. rewrite (mget_mset _ _ _ _ _ _ _ _ Hs') by lia.
            case_decide as Hd; [|apply Hg'; lia].
            destruct Hd as [_ <-].
            destruct i as [|i]; [lia|]. destruct j as [|j]; [lia|].
            replace (S i - 1) with i by lia. replace (S j - 1) with j by lia.
            rewrite prefix_lev_S by (unfold m, n in *; lia).
            rewrite (Hf' i j), (Hf' i (S j)), (Hg' j) by lia. done. }
      destruct H4 as (Hs4 & Hc4 & Hf4 & Hg4).
      split; [done|]. split; [done|].
      intros i' j Hi' Hj.
      destruct (decide (i' = i)) as [->|]; [apply Hg4; lia | apply Hf4; lia]. }
  destruct H3 as (_ & _ & Hf3).
  rewrite Hf3 by lia. unfold prefix_lev, m, n. by rewrite !firstn_all.
Qed.

(** [levenshtein] returns the minimum number of single-character
    insertions, deletions and substitutions that turn [a] into [b]. *)
Lemma levenshtein_edit_distance (a b : list A) :
  edit_distance a b (levenshtein a b).
Proof.
  rewrite levenshtein_lev. apply edit_distance_reverse, lev_edit_distance.
Qed.

Lemma levenshtein_le_max (a b : list A) :
  levenshtein a b <= Nat.max (length a) (length b).
Proof.
  destruct (levenshtein_edit_distance a b) as [_ Hmin]. apply Hmin.
  clear Hmin. revert b. induction a as [|x a IH]; intros b.
  - simpl. apply edit_from_nil.
  - destruct b as [|y b]; [apply (edit_to_nil (x :: a))|].
    simpl. apply edit_subst, IH.
Qed.

End LevenshteinFacts.

(** ** Normalization *)

Ltac char_facts :=
  unfold solid, blank, is_kept, is_word, is_space, in_range in *;
  repeat first
    [ rewrite orb_true_iff in * | rewrite orb_false_iff in *
    | rewrite andb_true_iff in * | rewrite andb_false_iff in *
    | rewrite N.leb_le in * | rewrite N.leb_gt in *
    | rewrite N.eqb_eq in * | rewrite N.eqb_neq in * ];
  lia.

Lemma kept_solid c : is_kept c = true -> c <> 32%N -> solid c.
Proof. intros Hk Hne. unfold solid. repeat split; [char_facts | char_facts | done]. Qed.

Lemma kept_blank c : is_kept c = true -> is_space c = true -> c = 32%N.
Proof. intros Hk Hs. char_facts. Qed.

Lemma space_32 : is_space 32 = true.
Proof. reflexivity. Qed.

Lemma word_32 : is_word 32 = false.
Proof. reflexivity. Qed.

(** *** Words *)

Lemma unwords_cons w ws : ws <> [] -> unwords (w :: ws) = w ++ 32%N :: unwords ws.
Proof. by destruct ws. Qed.

Lemma split_spaces_nonempty s : split_spaces s <> [].
Proof.
  destruct s as [|c s]; simpl; [done|].
  destruct (decide (c = 32%N)); [done|]. by destruct (split_spaces s).
Qed.

Lemma unwords_split_spaces s : unwords (split_spaces s) = s.
Proof.
  induction s as [|c s IH]; simpl; [done|].
  destruct (decide (c = 32%N)) as [->|Hne].
  - rewrite unwords_cons by apply split_spaces_nonempty. simpl. by rewrite IH.
  - pose proof (split_spaces_nonempty s) as Hs.
    destruct (split_spaces s) as [|w ws]; [done|].
    destruct ws as [|w' ws]; simpl in *; by rewrite <- IH.
Qed.

Lemma split_spaces_solid s :
  Forall (fun c => is_kept c = true) s ->
  Forall (Forall solid) (split_spaces s).
Proof.
  induction 1 as [|c s Hc Hs IH]; simpl.
  - by repeat constructor.
  - destruct (decide (c = 32%N)) as [->|Hne].
    + by constructor.
    + pose proof (split_spaces_nonempty s) as Hn.
      destruct (split_spaces s) as [|w ws]; [done|].
      inversion IH; subst. constructor; [|done].
      constructor; [by apply kept_solid | done].
Qed.

(** *** The scan for articles *)

Lemma match_literal_app p w tail :
  Forall (fun c => is_word c = true) p -> not_word (head tail) ->
  forall rest,
    match_literal p (w ++ tail) = Some rest <-> exists v, w = p ++ v /\ rest = v ++ tail.
Proof.
  intros Hp Ht. revert w. induction Hp as [|c p Hc Hp IH]; intros w rest; simpl.
  - split; [intros [= <-]; by exists w | intros (v & -> & ->); done].
  - destruct w as [|d w]; simpl.
    + destruct tail as [|d t]; simpl.
      * split; [done | intros (v & ? & _); done].
      * destruct (decide (c = d)) as [->|Hne].
        { unfold not_word in Ht. simpl in Ht. congruence. }
        split; [done | intros (v & ? & _); done].
    + destruct (decide (c = d)) as [->|Hne].
      * rewrite IH. split; intros (v & E & ->); exists v; split; congruence.
      * split; [done | intros (v & E & _); congruence].
Qed.

Lemma match_alternative_word p w tail :
  p <> [] -> Forall (fun c => is_word c = true) p ->
  Forall solid w -> not_word (head tail) ->
  match_alternative p (w ++ tail) = if decide (w = p) then Some (length p) else None.
Proof.
  intros Hne Hp Hw Ht. unfold match_alternative.
  destruct (match_literal p (w ++ tail)) as [rest|] eqn:E.
  - apply (match_literal_app p w tail Hp Ht) in E as (v & -> & ->).
    assert (Hl : from_option is_word false (last p) = true).
    { destruct (last p) as [c|] eqn:El.
      - simpl. apply last_Some in El as (p' & ->).
        by apply Forall_app in Hp as [_ [? _]%Forall_cons].
      - by apply last_None in El. }
    unfold word_boundary. rewrite Hl.
    destruct v as [|c v]; simpl.
    + unfold not_word in Ht. rewrite Ht. simpl.
      rewrite decide_True; [done | by rewrite app_nil_r].
    + apply Forall_app in Hw as [_ [[Hc _] _]%Forall_cons_1].
      rewrite Hc. simpl. rewrite decide_False; [done|].
      intros E. apply (f_equal length) in E. rewrite length_app in E. simpl in E. lia.
  - rewrite decide_False; [done|]. intros ->.
    assert (match_literal p (p ++ tail) = Some tail) as E'.
    { apply (match_literal_app p p tail Hp Ht). exists []. by rewrite app_nil_r. }
    congruence.
Qed.

Lemma match_article_word prev w tail :
  not_word prev -> w <> [] -> Forall solid w -> not_word (head tail) ->
  match_article prev (w ++ tail) = if decide (w ∈ articles) then Some (length w) else None.
Proof.
  intros Hp Hne Hw Ht. unfold match_article.
  assert (Hb : word_boundary prev (head (w ++ tail)) = true).
  { unfold word_boundary. unfold not_word in Hp. rewrite Hp.
    destruct w as [|c w]; [done|]. simpl.
    by apply Forall_cons_1 in Hw as [[-> _] _]. }
  rewrite Hb. unfold articles. simpl.
  rewrite !match_alternative_word; try done;
    try (by repeat constructor).
  repeat case_decide; subst; try done;
    repeat match goal with
    | H : ?w ∈ _ |- _ => rewrite ?elem_of_cons, elem_of_nil in H
    | H : ¬ (?w ∈ _) |- _ => rewrite ?not_elem_of_cons, elem_of_nil in H
    end; try tauto; try (exfalso; naive_solver).
Qed.

Lemma prev_after_cons prev c u : prev_after prev (c :: u) = prev_after (Some c) u.
Proof.
  unfold prev_after. destruct u as [|d u]; [done|].
  rewrite last_cons_cons.
  destruct (last (d :: u)) eqn:E; [done | by apply last_None in E].
Qed.

Lemma prev_after_word prev u :
  Forall solid u -> u <> [] -> from_option is_word false (prev_after prev u) = true.
Proof.
  intros Hu Hne. unfold prev_after.
  destruct (last u) as [c|] eqn:E; [|by apply last_None in E].
  apply last_Some in E as (u' & ->).
  by apply Forall_app in Hu as [_ [[? _] _]%Forall_cons_1].
Qed.

Lemma remove_articles_skip u prev tail :
  remove_articles prev (length u) (u ++ tail) = remove_articles (prev_after prev u) 0 tail.
Proof.
  revert prev. induction u as [|c u IH]; intros prev; [done|].
  simpl. by rewrite IH, prev_after_cons.
Qed.

Lemma remove_articles_inside w prev tail :
  is_word prev = true -> Forall solid w ->
  remove_articles (Some prev) 0 (w ++ tail) =
    w ++ remove_articles (prev_after (Some prev) w) 0 tail.
Proof.
  revert prev. induction w as [|c w IH]; intros prev Hp Hw; [done|].
  apply Forall_cons_1 in Hw as [[Hc ?] Hw].
  rewrite prev_after_cons. simpl.
  unfold match_article, word_boundary. simpl. rewrite Hp, Hc. simpl.
  by rewrite IH.
Qed.

Lemma remove_articles_blank prev s :
  remove_articles prev 0 (32%N :: s) = 32%N :: remove_articles (Some 32%N) 0 s.
Proof.
  simpl. unfold match_article.
  destruct (word_boundary prev (head (32%N :: s))); reflexivity.
Qed.

Lemma remove_articles_word prev w tail :
  not_word prev -> Forall solid w -> not_word (head tail) ->
  remove_articles prev 0 (w ++ tail) =
    drop_article w ++ remove_articles (prev_after prev w) 0 tail.
Proof.
  intros Hp Hw Ht. destruct w as [|c w].
  { unfold drop_article. rewrite decide_False; [done|].
    unfold articles. rewrite !not_elem_of_cons, elem_of_nil. naive_solver. }
  pose proof (match_article_word prev (c :: w) tail Hp ltac:(done) Hw Ht) as Hm.
  simpl in Hm. simpl. rewrite Hm. unfold drop_article.
  rewrite prev_after_cons.
  destruct (decide (c :: w ∈ articles)); simpl.
  - apply remove_articles_skip.
  - apply Forall_cons_1 in Hw as [[Hc ?] Hw]. by rewrite remove_articles_inside.
Qed.

Lemma remove_articles_pieces ps prev :
  not_word prev -> ps <> [] -> Forall (Forall solid) ps ->
  remove_articles prev 0 (unwords ps) = unwords (drop_article <$> ps).
Proof.
  intros Hp Hne Hps. revert prev Hp.
  induction Hps as [|w ps Hw Hps IH]; intros prev Hp; [done|].
  destruct ps as [|q qs].
  - simpl. rewrite <- (app_nil_r w) at 1.
    rewrite remove_articles_word by done. simpl. by rewrite app_nil_r.
  - rewrite unwords_cons by done. rewrite !fmap_cons, (unwords_cons (drop_article w)) by done.
    rewrite remove_articles_word; [|done|done|reflexivity].
    rewrite remove_articles_blank. rewrite IH; [by rewrite fmap_cons|done|reflexivity].
Qed.

(** *** Blanks *)

Lemma collapse_spaces_solid b q t :
  Forall solid q ->
  collapse_spaces b (q ++ t) = q ++ collapse_spaces (if decide (q = []) then b else false) t.
Proof.
  intros Hq. revert b. induction Hq as [|c q [_ [Hc _]] Hq IH]; intros b; [done|].
  simpl. rewrite Hc, IH. by destruct (decide (q = [])).
Qed.

Lemma collapse_spaces_pieces_run qs :
  qs <> [] -> Forall (Forall solid) qs ->
  exists trail, Forall blank trail /\
    collapse_spaces true (unwords qs) = unwords (filter (fun w => w <> []) qs) ++ trail.
Proof.
  intros Hne Hqs. induction Hqs as [|q qs Hq Hqs IH]; [done|].
  destruct qs as [|q' qs].
  - exists []. split; [constructor|]. simpl.
    rewrite <- (app_nil_r q) at 1. rewrite collapse_spaces_solid by done. simpl.
    rewrite filter_cons. destruct (decide (q <> [])) as [|E]; simpl.
    + by rewrite !app_nil_r.
    + apply dec_stable in E. by subst.
  - destruct IH as (trail & Htrail & IH); [done|].
    rewrite unwords_cons by done. rewrite filter_cons.
    destruct (decide (q = [])) as [->|Hq'].
    + rewrite decide_False by naive_solver.
      change (collapse_spaces true ([] ++ 32%N :: unwords (q' :: qs)))
        with (collapse_spaces true (unwords (q' :: qs))).
      rewrite IH. by exists trail.
    + rewrite collapse_spaces_solid, (decide_False (P := q = [])) by done.
      rewrite decide_True by done.
      change (collapse_spaces false (32%N :: unwords (q' :: qs)))
        with (32%N :: collapse_spaces true (unwords (q' :: qs))).
      rewrite IH.
      destruct (filter (fun w => w <> []) (q' :: qs)) as [|n ns] eqn:E.
      * exists (32%N :: trail). split; [by constructor|]. done.
      * exists trail. split; [done|].
        rewrite (unwords_cons q) by done. by rewrite <- app_assoc.
Qed.

Lemma collapse_spaces_pieces qs :
  qs <> [] -> Forall (Forall solid) qs ->
  exists lead trail, Forall blank lead /\ Forall blank trail /\
    collapse_spaces false (unwords qs) =
      lead ++ unwords (filter (fun w => w <> []) qs) ++ trail.
Proof.
  intros Hne Hqs. destruct qs as [|q qs]; [done|].
  apply Forall_cons_1 in Hqs as [Hq Hqs].
  destruct qs as [|q' qs].
  - exists [], []. split; [constructor|]. split; [constructor|]. simpl.
    rewrite <- (app_nil_r q) at 1. rewrite collapse_spaces_solid by done. simpl.
    rewrite filter_cons. destruct (decide (q <> [])) as [|E]; simpl.
    + by rewrite !app_nil_r.
    + apply dec_stable in E. by subst.
  - destruct (collapse_spaces_pieces_run (q' :: qs)) as (trail & Htrail & IH); [done..|].
    rewrite unwords_cons by done. rewrite filter_cons.
    destruct (decide (q = [])) as [->|Hq'].
    + rewrite decide_False by naive_solver.
      change (collapse_spaces false ([] ++ 32%N :: unwords (q' :: qs)))
        with (32%N :: collapse_spaces true (unwords (q' :: qs))).
      rewrite IH.
      exists [32%N], trail. split; [by repeat constructor|]. by split.
    + rewrite collapse_spaces_solid, (decide_False (P := q = [])) by done.
      rewrite decide_True by done.
      change (collapse_spaces false (32%N :: unwords (q' :: qs)))
        with (32%N :: collapse_spaces true (unwords (q' :: qs))).
      rewrite IH.
      destruct (filter (fun w => w <> []) (q' :: qs)) as [|n ns] eqn:E.
      * exists [], (32%N :: trail).
        split; [constructor|]. split; [by constructor|]. done.
      * exists [], trail. split; [constructor|]. split; [done|].
        rewrite (unwords_cons q) by done. simpl. by rewrite <- app_assoc.
Qed.

Lemma trimStart_blank lead s : Forall blank lead -> trimStart (lead ++ s) = trimStart s.
Proof. induction 1 as [|c lead Hc _ IH]; [done|]. simpl. by rewrite Hc. Qed.

Lemma trimStart_solid c s : is_space c = false -> trimStart (c :: s) = c :: s.
Proof. intros Hc. simpl. by rewrite Hc. Qed.

Lemma trim_core lead core trail :
  Forall blank lead -> Forall blank trail ->
  (core = [] \/ exists c core' d core'',
      core = c :: core' /\ core = core'' ++ [d] /\ is_space c = false /\ is_space d = false) ->
  trim (lead ++ core ++ trail) = core.
Proof.
  intros Hl Ht Hc. unfold trim. rewrite trimStart_blank by done.
  destruct Hc as [->|(c & core' & d & core'' & E1 & E2 & Hc & Hd)].
  - simpl. rewrite <- (app_nil_r trail), trimStart_blank by done. done.
  - rewrite E1. rewrite <- app_comm_cons, trimStart_solid by done.
    rewrite app_comm_cons, <- E1, E2. rewrite reverse_app, reverse_snoc.
    rewrite trimStart_blank by (by apply Forall_reverse).
    rewrite trimStart_solid by done. by rewrite <- reverse_snoc, reverse_involutive.
Qed.

Lemma unwords_ends ws :
  Forall (fun w => Forall solid w /\ w <> []) ws ->
  unwords ws = [] \/ exists c core' d core'',
    unwords ws = c :: core' /\ unwords ws = core'' ++ [d] /\
    is_space c = false /\ is_space d = false.
Proof.
  induction 1 as [|w ws [Hw Hne] Hws IH]; [by left|]. right.
  destruct w as [|c w]; [done|].
  destruct ws as [|w' ws].
  - simpl. destruct (last (c :: w)) as [d|] eqn:E; [|by apply last_None in E].
    apply last_Some in E as (u & E). exists c, w, d, u. repeat split; try done.
    + by apply Forall_cons_1 in Hw as [(_ & ? & _) _].
    + rewrite E in Hw. by apply Forall_app in Hw as [_ [(_ & ? & _) _]%Forall_cons_1].
  - destruct IH as [E|(c' & core' & d & core'' & E1 & E2 & Hc & Hd)].
    { simpl in E. destruct ws; [|by destruct w'].
      apply Forall_cons_1 in Hws as [[_ ?] _]. by subst. }
    rewrite unwords_cons by done.
    exists c, (w ++ 32%N :: unwords (w' :: ws)), d, ((c :: w) ++ 32%N :: core'').
    repeat split; try done.
    + rewrite E2. by rewrite <- app_assoc, <- app_comm_cons.
    + by apply Forall_cons_1 in Hw as [(_ & ? & _) _].
Qed.

Lemma filter_drop_article (ps : list jsstring) :
  filter (fun w => w <> []) (drop_article <$> ps) =
  filter (fun w => w ∉ articles) (filter (fun w => w <> []) ps).
Proof.
  induction ps as [|w ps IH]; [done|].
  rewrite fmap_cons, !filter_cons.
  assert (E : drop_article w = if decide (w ∈ articles) then [] else w) by done.
  destruct (decide (w ∈ articles)) as [Hin|Hout]; rewrite E.
  - rewrite decide_False by naive_solver.
    destruct (decide (w <> [])); [|done].
    by rewrite filter_cons, decide_False by naive_solver.
  - destruct (decide (w <> [])); [|done].
    by rewrite filter_cons, decide_True, IH by done.
Qed.

Lemma Forall_solid_drop_article (ps : list jsstring) :
  Forall (Forall solid) ps -> Forall (Forall solid) (drop_article <$> ps).
Proof.
  intros H. apply Forall_fmap. eapply Forall_impl; [exact H|].
  intros w Hw. simpl. unfold drop_article. by case_decide.
Qed.

(** [normalize] is the normalization of the specification. *)
Theorem normalize_refines `{JSBuiltins} (str : jsstring) :
  normalize str = normalize_spec str.
Proof.
  unfold normalize, normalize_spec, strip_other, words.
  set (kept := filter _ (toLowerCase str)).
  assert (Hk : Forall (fun c => is_kept c = true) kept).
  { apply Forall_forall. intros c Hc. by apply list_elem_of_filter in Hc as [? _]. }
  pose proof (split_spaces_solid kept Hk) as Hps.
  pose proof (split_spaces_nonempty kept) as Hne.
  rewrite <- (unwords_split_spaces kept) at 1.
  rewrite remove_articles_pieces; [|done..].
  destruct (collapse_spaces_pieces (drop_article <$> split_spaces kept))
    as (lead & trail & Hl & Ht & E).
  { by destruct (split_spaces kept). }
  { by apply Forall_solid_drop_article. }
  rewrite E, filter_drop_article. apply trim_core; [done..|].
  apply unwords_ends. apply Forall_forall. intros w Hw.
  apply list_elem_of_filter in Hw as [_ Hw].
  apply list_elem_of_filter in Hw as [Hw1 Hw].
  split; [|done]. rewrite Forall_forall in Hps. by apply Hps.
Qed.

(** ** The six steps *)

Lemma match_literal_Some (p s rest : jsstring) :
  match_literal p s = Some rest <-> s = p ++ rest.
Proof.
  revert s. induction p as [|c p IH]; intros s; simpl.
  - split; congruence.
  - destruct s as [|d s]; [done|].
    destruct (decide (c = d)) as [->|Hne].
    + rewrite IH. split; congruence.
    + split; [done | congruence].
Qed.

Lemma includes_substring (s t : jsstring) :
  includes s t = true <-> substring t s.
Proof.
  unfold substring. induction s as [|c s IH].
  - simpl. rewrite orb_false_r, bool_decide_eq_true. split.
    + intros [rest Hr]. apply match_literal_Some in Hr. by exists [], rest.
    + intros (before & after & E). symmetry in E.
      apply app_eq_nil in E as [-> [-> ->]%app_eq_nil].
      exists []. by apply match_literal_Some.
  - cbn [includes]. rewrite orb_true_iff, bool_decide_eq_true, IH. split.
    + intros [[rest Hr]|(before & after & ->)].
      * apply match_literal_Some in Hr. by exists [], rest.
      * by exists (c :: before), after.
    + intros (before & after & E). destruct before as [|b before].
      * left. exists after. by apply match_literal_Some.
      * right. exists before, after. simpl in E. congruence.
Qed.

Lemma typo_threshold_leb (a : jsstring) :
  (if length a <=? 6 then 2 else 3) = typo_threshold a.
Proof.
  unfold typo_threshold. destruct (Nat.leb_spec (length a) 6); case_decide; done || lia.
Qed.

Ltac six_steps :=
  repeat match goal with |- _ /\ _ => split end;
  intros; try (exfalso; tauto); simpl; try (split; reflexivity).

(** Claim C1. For every guess and answer, [checkGuess] returns the result
    of the six-step classification of the normalized strings, the first
    step that applies deciding: empty guess, equality, edit distance within
    the threshold (2 for an answer of at most six characters, else 3),
    containment (similarity 0.9), similarity at least 0.6, and else wrong;
    any result that the six steps allow is the one [checkGuess] returns. *)
Theorem checkGuess_six_steps `{JSBuiltins} (guess answer : jsstring) :
  reference_classification (normalize_spec guess) (normalize_spec answer)
    (checkGuess guess answer) /\
  forall r,
    reference_classification (normalize_spec guess) (normalize_spec answer) r ->
    match_ r = match_ (checkGuess guess answer) /\
    (similarity r == similarity (checkGuess guess answer))%Q.
Proof.
  unfold checkGuess. rewrite !normalize_refines.
  set (g := normalize_spec guess). set (a := normalize_spec answer).
  pose proof (levenshtein_edit_distance g a) as Hd.
  rewrite typo_threshold_leb.
  assert (Hinc : includes g a || includes a g = true <-> substring g a \/ substring a g).
  { rewrite orb_true_iff, !includes_substring. tauto. }
  set (sim := (1 - inject_Z (Z.of_nat (levenshtein g a)) /
                     inject_Z (Z.of_nat (Nat.max (length g) (length a))))%Q).
  split.
  - exists (levenshtein g a). split; [done|]. cbv zeta. fold sim.
    destruct (decide (g = [])) as [Hg|Hg]; [six_steps|].
    destruct (decide (g = a)) as [Hga|Hga]; [six_steps|].
    destruct (Nat.leb_spec (levenshtein g a) (typo_threshold a)) as [Hle|Hgt];
      [six_steps|].
    assert (~ levenshtein g a <= typo_threshold a) by lia.
    destruct (includes g a || includes a g) eqn:Hi.
    { assert (substring g a \/ substring a g) by (by apply Hinc). six_steps. }
    assert (~ (substring g a \/ substring a g)) by (by rewrite <- Hinc).
    destruct (Qle_bool 0.6 sim) eqn:Hq.
    { apply Qle_bool_iff in Hq. six_steps. }
    assert (~ (0.6 <= sim)%Q).
    { rewrite <- Qle_bool_iff. by rewrite Hq. }
    six_steps.
  - intros r (d & Hd' & Hr). cbv zeta in Hr.
    assert (d = levenshtein g a) as -> by (eapply edit_distance_unique; eauto).
    fold sim in Hr.
    destruct Hr as (H1 & H2 & H3 & H4 & H5 & H6).
    destruct (decide (g = [])) as [Hg|Hg]; [by apply H1|].
    destruct (decide (g = a)) as [Hga|Hga]; [by apply H2|].
    destruct (Nat.leb_spec (levenshtein g a) (typo_threshold a)) as [Hle|Hgt];
      [by apply H3|].
    assert (~ levenshtein g a <= typo_threshold a) by lia.
    destruct (includes g a || includes a g) eqn:Hi.
    { assert (substring g a \/ substring a g) by (by apply Hinc). by apply H4. }
    assert (~ (substring g a \/ substring a g)) by (by rewrite <- Hinc).
    destruct (Qle_bool 0.6 sim) eqn:Hq.
    { apply Qle_bool_iff in Hq. by apply H5. }
    assert (~ (0.6 <= sim)%Q).
    { rewrite <- Qle_bool_iff. by rewrite Hq. }
    by apply H6.
Qed.

(** ** The scorer *)

Lemma Math_round_le (x y : Q) : (x <= y)%Q -> (Math_round x <= Math_round y)%Z.
Proof.
  intros Hxy. unfold Math_round. apply Qfloor_resp_le.
  by apply Qplus_le_l.
Qed.

Lemma Math_round_comp (x y : Q) : (x == y)%Q -> Math_round x = Math_round y.
Proof. intros E. unfold Math_round. apply Qfloor_comp. by rewrite E. Qed.

Lemma calcScore_spec_eq (remaining total : Q) (kind : match_kind) (sim : Q) :
  calcScore remaining total kind sim = calcScore_spec remaining total kind sim.
Proof.
  unfold calcScore, calcScore_spec, score_base.
  destruct kind; simpl; try done.
  apply Math_round_comp. by apply Qmult_comp; [apply Qmult_comp|].
Qed.

Lemma score_base_floor (remaining total : Q) : (50 <= score_base remaining total)%Z.
Proof. unfold score_base. lia. Qed.


(** *** Rounding never makes [NaN] *)

Lemma shr_1_nonneg (mrs : shr_record) : (0 <= shr_m mrs)%Z -> (0 <= shr_m (shr_1 mrs))%Z.
Proof. destruct mrs as [[|[p|p|]|p] r s]; simpl; lia. Qed.

Lemma iter_pos_shr_1_nonneg (p : positive) (mrs : shr_record) :
  (0 <= shr_m mrs)%Z -> (0 <= shr_m (SpecFloat.iter_pos shr_1 p mrs))%Z.
Proof.
  revert mrs. induction p as [p IH|p IH|]; intros mrs Hm; simpl.
  - by apply IH, IH, shr_1_nonneg.
  - by apply IH, IH.
  - by apply shr_1_nonneg.
Qed.

Lemma shr_fexp_nonneg (prec emax m e : Z) (l : location) :
  (0 <= m)%Z -> (0 <= shr_m (shr_fexp prec emax m e l).1)%Z.
Proof.
  intros Hm. unfold shr_fexp, shr.
  assert (H0 : (0 <= shr_m (shr_record_of_loc m l))%Z) by (by destruct l as [|[]]).
  destruct (_ - e)%Z; simpl; [done| |done]. by apply iter_pos_shr_1_nonneg.
Qed.

Lemma round_nearest_even_nonneg (m : Z) (l : location) :
  (0 <= m)%Z -> (0 <= round_nearest_even m l)%Z.
Proof. intros Hm. destruct l as [|[]]; simpl; try lia. destruct (Z.even m); lia. Qed.

Lemma binary_round_aux_not_nan (prec emax : Z) (s : bool) (m e : Z) (l : location) :
  (0 <= m)%Z -> binary_round_aux prec emax s m e l <> S754_nan.
Proof.
  intros Hm. unfold binary_round_aux.
  pose proof (shr_fexp_nonneg prec emax m e l Hm) as H1.
  destruct (shr_fexp prec emax m e l) as [mrs' e'].
  pose proof (shr_fexp_nonneg prec emax
                (round_nearest_even (shr_m mrs') (loc_of_shr_record mrs')) e' loc_Exact
                (round_nearest_even_nonneg _ _ H1)) as H2.
  destruct (shr_fexp prec emax _ e' loc_Exact) as [mrs'' e'']. simpl in H2.
  destruct (shr_m mrs''); [done| |lia]. by destruct (_ <=? _)%Z.
Qed.

Lemma of_Z_not_nan (n : Z) : Double.of_Z n <> S754_nan.
Proof.
  unfold Double.of_Z, binary_normalize, binary_round.
  destruct n as [|p|p]; [done| |].
  - destruct (shl_align _ _ _). by apply binary_round_aux_not_nan.
  - destruct (shl_align _ _ _). by apply binary_round_aux_not_nan.
Qed.

Lemma Math_round_not_nan (x : Double.float) : x <> S754_nan -> Double.Math_round x <> S754_nan.
Proof.
  intros Hx. destruct x as [| | |s m e]; try done. unfold Double.Math_round.
  destruct (0 <=? e)%Z; [done|]. cbv zeta. destruct (_ =? 0)%Z; [done|]. apply of_Z_not_nan.
Qed.

Lemma mul_not_nan (s : bool) (m : positive) (e : Z) (y : Double.float) :
  y <> S754_nan -> Double.mul (S754_finite s m e) y <> S754_nan.
Proof.
  intros Hy. destruct y as [| | |sy my ey]; try done.
  unfold Double.mul, SFmul. by apply binary_round_aux_not_nan.
Qed.

(** A number from 0 that is not infinite, divided by a number above 0. *)
Lemma div_not_nan (x y : Double.float) :
  Double.le (S754_zero false) x -> x <> S754_infinity false ->
  Double.lt (S754_zero false) y -> Double.div x y <> S754_nan.
Proof.
  unfold Double.le, Double.lt, SFleb, SFltb. intros Hx Hinf Hy.
  destruct y as [sy|sy| |sy my ey]; try done; destruct x as [sx|sx| |sx mx ex]; try done.
  - by destruct sx.
  - unfold Double.div, SFdiv.
    destruct (SFdiv_core_binary _ _ _ _ _ _) as [[mz ez] lz] eqn:E.
    apply binary_round_aux_not_nan.
    unfold SFdiv_core_binary in E. cbv zeta in E.
    set (m' := match _ with Z0 => _ | Zpos _ => _ | Zneg _ => _ end) in E.
    assert (Hm' : (0 <= m')%Z).
    { subst m'. destruct (_ - _ - _)%Z; [lia| |lia]. apply Z.shiftl_nonneg. lia. }
    pose proof (Z.div_pos m' (Zpos my) Hm' ltac:(lia)) as Hq.
    unfold Z.div in Hq. destruct (Z.div_eucl m' (Z.pos my)) as [q r]. by simplify_eq.
Qed.

Lemma SFcompare_antisym (x y : Double.float) :
  SFcompare y x = CompOpp <$> SFcompare x y.
Proof.
  destruct x as [sx|sx| |sx mx ex], y as [sy|sy| |sy my ey]; simpl; try done;
    try (by destruct sx); try (by destruct sy); try (by destruct sx, sy).
  destruct sx, sy; simpl; try done.
  - rewrite (Z.compare_antisym ey ex). destruct (ey ?= ex)%Z; simpl; try done.
    f_equal. rewrite (Pos.compare_cont_antisym mx my Eq). simpl.
    by destruct (Pos.compare_cont Eq mx my).
  - rewrite (Z.compare_antisym ey ex). destruct (ey ?= ex)%Z; simpl; try done.
    f_equal. by rewrite (Pos.compare_cont_antisym mx my Eq).
Qed.

Lemma Math_max_ge (a b : Double.float) :
  a <> S754_nan -> b <> S754_nan -> Double.le b b -> Double.le b (Double.Math_max a b).
Proof.
  intros Ha Hb Hbb. unfold Double.le, Double.Math_max, SFleb in *.
  pose proof (SFcompare_antisym a b) as Hab.
  destruct (SFcompare a b) as [[]|] eqn:E; simpl in Hab.
  - destruct a as [[]| | |]; try done; by rewrite Hab.
  - done.
  - by rewrite Hab.
  - destruct a, b; done.
Qed.

(** Claim C2. For a remaining time from 0 that is not infinite and a
    total time above 0, whatever the similarity: a correct match scores at
    least 50; its score is [Math.round(1000 * (remaining / total))] when
    that is 50 or more, and 50 when it is less; a partial match scores
    [Math.round(base * 0.5 * similarity)] where [base] is the score of the
    correct match, so the floor of 50 is applied before the multiplier, and
    a partial match can score less than 50: 15, at similarity 0.6 when no
    time is left.  The operations are those of the doubles. *)
Theorem calcScore_base_floor (timeRemaining totalTime similarity : Double.float) :
  Double.le (S754_zero false) timeRemaining -> timeRemaining <> S754_infinity false ->
  Double.lt (S754_zero false) totalTime ->
  let rounded :=
    Double.Math_round (Double.mul (Double.of_Z 1000) (Double.div timeRemaining totalTime)) in
  let base := Double.calcScore timeRemaining totalTime correct similarity in
  Double.le (Double.of_Z 50) base /\
  (Double.le (Double.of_Z 50) rounded -> base = rounded) /\
  (Double.lt rounded (Double.of_Z 50) -> base = Double.of_Z 50) /\
  Double.calcScore timeRemaining totalTime partial similarity =
    Double.Math_round (Double.mul (Double.mul base (Double.of_decimal 5 10)) similarity) /\
  Double.calcScore (S754_zero false) totalTime partial (Double.of_decimal 6 10) =
    Double.of_Z 15 /\
  Double.lt (Double.of_Z 15) (Double.of_Z 50).
Proof.
  intros Hrem Hinf Htot rounded base.
  assert (Hr : rounded <> S754_nan).
  { subst rounded. apply Math_round_not_nan.
    assert (E : Double.of_Z 1000 = S754_finite false 8796093022208000 (-43))
      by (vm_compute; reflexivity).
    rewrite E. apply mul_not_nan. by apply div_not_nan. }
  assert (E50 : Double.of_Z 50 = S754_finite false 7036874417766400 (-47))
    by (vm_compute; reflexivity).
  assert (Hb : base = Double.Math_max rounded (Double.of_Z 50)) by done.
  split; [|split; [|split; [|split; [|split]]]].
  - rewrite Hb. apply Math_max_ge; [done|by rewrite E50|by rewrite E50].
  - rewrite Hb. unfold Double.le, SFleb, Double.Math_max.
    rewrite (SFcompare_antisym rounded (Double.of_Z 50)).
    destruct (SFcompare rounded (Double.of_Z 50)) as [[]|] eqn:E; simpl; try done.
    intros _. by destruct rounded as [[]| | |].
  - rewrite Hb. unfold Double.lt, SFltb, Double.Math_max.
    by destruct (SFcompare rounded (Double.of_Z 50)) as [[]|].
  - done.
  - unfold Double.lt, SFltb in Htot.
    destruct totalTime as [s|[]| |[] m e]; try done; vm_compute; reflexivity.
  - vm_compute. reflexivity.
Qed.

Lemma calcScore_base_floor_witness :
  Double.calcScore (Double.of_decimal 29985 1000) (Double.of_Z 30) correct (Double.of_Z 1) =
    Double.of_Z 1000 /\
  Double.calcScore (Double.of_Z 1) (Double.of_Z 16) correct (Double.of_Z 1) = Double.of_Z 63 /\
  Double.calcScore (Double.of_Z 10) (Double.of_Z 30) correct (Double.of_Z 1) =
    Double.of_Z 333 /\
  Double.calcScore (Double.of_Z 7) (Double.of_Z 100) partial
    (Double.sub (Double.of_Z 1) (Double.of_decimal 5 14)) = Double.of_Z 22.
Proof.
  destruct (calcScore_base_floor (Double.of_decimal 29985 1000) (Double.of_Z 30)
              (Double.of_Z 1))
    as (_ & Habove & _); [reflexivity|discriminate|reflexivity|].
  split; [|split; [|split]].
  - rewrite Habove; [reflexivity|reflexivity].
  - reflexivity.
  - reflexivity.
  - reflexivity.
Defined.

Lemma ratio_range (d m : nat) :
  d <= m -> 0 < m ->
  (0 <= 1 - inject_Z (Z.of_nat d) / inject_Z (Z.of_nat m) <= 1)%Q.
Proof.
  intros Hd Hm.
  assert (H0 : (0 < inject_Z (Z.of_nat m))%Q).
  { change 0%Q with (inject_Z 0). rewrite <- Zlt_Qlt. lia. }
  assert (H1 : (0 <= inject_Z (Z.of_nat d) / inject_Z (Z.of_nat m))%Q).
  { apply Qle_shift_div_l; [done|]. rewrite Qmult_0_l.
    change 0%Q with (inject_Z 0). rewrite <- Zle_Qle. lia. }
  assert (H2 : (inject_Z (Z.of_nat d) / inject_Z (Z.of_nat m) <= 1)%Q).
  { apply Qle_shift_div_r; [done|]. rewrite Qmult_1_l. rewrite <- Zle_Qle. lia. }
  lra.
Qed.

(** Every similarity that [checkGuess] returns lies between 0 and 1. *)
Lemma checkGuess_similarity_range `{JSBuiltins} (guess answer : jsstring) :
  (0 <= similarity (checkGuess guess answer) <= 1)%Q.
Proof.
  unfold checkGuess.
  set (g := normalize guess). set (a := normalize answer).
  destruct (decide (g = [])) as [Hg|Hg]; [simpl; lra|].
  destruct (decide (g = a)); [simpl; lra|].
  assert (0 < Nat.max (length g) (length a)) by (destruct g; [done | simpl; lia]).
  assert (Hr := ratio_range (levenshtein g a) (Nat.max (length g) (length a))
                  (levenshtein_le_max g a) ltac:(done)).
  cbv zeta.
  destruct (levenshtein g a <=? _); [exact Hr|].
  destruct (includes g a || includes a g); [simpl; lra|].
  destruct (Qle_bool _ _); exact Hr.
Qed.



(** ** The room state machine *)

Lemma heap_update_room_eq (r : nat) (f : Room -> Room) (w : World) (room : Room) :
  heap w !! r = Some room -> heap (update_room r f w) !! r = Some (f room).
Proof. intros E. unfold update_room. simpl. by rewrite lookup_alter_eq, E. Qed.

Lemma heap_update_room_ne (r r' : nat) (f : Room -> Room) (w : World) :
  r <> r' -> heap (update_room r f w) !! r' = heap w !! r'.
Proof. intros E. unfold update_room. simpl. by rewrite lookup_alter_ne. Qed.

Lemma same_game_refl room : same_game room room.
Proof. by repeat split. Qed.

Lemma same_game_trans r1 r2 r3 : same_game r1 r2 -> same_game r2 r3 -> same_game r1 r3.
Proof. unfold same_game. intros H1 H2. intuition congruence. Qed.

Lemma clearTimeouts_fields (ts : list nat) (w : World) :
  let w' := foldl (fun w t => clearTimeout t w) w ts in
  rooms w' = rooms w /\ heap w' = heap w /\ next_timer w' = next_timer w /\
  sockets w' = sockets w /\ emitted w' = emitted w /\
  forall t, timers w' !! t = if decide (t ∈ ts) then None else timers w !! t.
Proof.
  revert w. induction ts as [|t0 ts IH]; intros w; simpl.
  - by repeat split.
  - destruct (IH (clearTimeout t0 w)) as (H1 & H2 & H3 & H4 & H5 & H6).
    repeat split; try done.
    intros t. rewrite H6. simpl.
    destruct (decide (t ∈ ts)) as [Hin|Hout].
    + rewrite decide_True; [done | by right].
    + destruct (decide (t = t0)) as [->|Hne].
      * rewrite decide_True by left. apply lookup_delete_eq.
      * rewrite decide_False; [by apply lookup_delete_ne|].
        rewrite elem_of_cons. tauto.
Qed.

(** The timeouts a room object keeps track of. *)
Lemma clearTimers_spec (r : nat) (w : World) (room : Room) :
  heap w !! r = Some room ->
  let w' := clearTimers r w in
  rooms w' = rooms w /\ sockets w' = sockets w /\ emitted w' = emitted w /\
  next_timer w' = next_timer w /\
  (forall r', r' <> r -> heap w' !! r' = heap w !! r') /\
  (exists room', heap w' !! r = Some room' /\ same_game room room' /\
     roundTimer room' = None /\ hintTimers room' = []) /\
  forall t, timers w' !! t =
    if decide (roundTimer room = Some t \/ t ∈ hintTimers room) then None
    else timers w !! t.
Proof.
  intros E. unfold clearTimers. rewrite E.
  set (w1 := match roundTimer room with
             | Some t => update_room r (set_roundTimer None) (clearTimeout t w)
             | None => w
             end).
  assert (H1 : rooms w1 = rooms w /\ sockets w1 = sockets w /\ emitted w1 = emitted w /\
               next_timer w1 = next_timer w /\
               (forall r', r' <> r -> heap w1 !! r' = heap w !! r') /\
               (exists room1, heap w1 !! r = Some room1 /\ same_game room room1 /\
                  roundTimer room1 = None /\ hintTimers room1 = hintTimers room) /\
               forall t, timers w1 !! t =
                 if decide (roundTimer room = Some t) then None else timers w !! t).
  { subst w1. destruct (roundTimer room) as [t0|] eqn:Et.
    - repeat split; try done.
      + intros r' Hne. by rewrite heap_update_room_ne.
      + exists (set_roundTimer None room). split; [by apply heap_update_room_eq|].
        by repeat split.
      + intros t. simpl. destruct (decide (t = t0)) as [->|Hne].
        * rewrite decide_True by done. apply lookup_delete_eq.
        * rewrite decide_False by congruence. by apply lookup_delete_ne.
    - repeat split; try done.
      exists room. repeat split; done. }
  destruct H1 as (R1 & S1 & M1 & N1 & O1 & (room1 & E1 & G1 & T1 & HT1) & P1).
  destruct (clearTimeouts_fields (hintTimers room) w1) as (R2 & H2 & N2 & S2 & M2 & P2).
  cbv zeta in *. set (w2 := foldl _ w1 _) in *.
  split; [simpl; congruence|]. split; [simpl; congruence|].
  split; [simpl; congruence|]. split; [simpl; congruence|].
  split; [|split].
  - intros r' Hne. rewrite heap_update_room_ne by done. rewrite H2. by apply O1.
  - exists (set_hintTimers [] room1). split.
    + apply heap_update_room_eq. by rewrite H2.
    + split; [|done]. destruct G1 as (?&?&?&?&?&?&?&?&?&?&?&?). by repeat split.
  - intros t. change (timers (update_room r (set_hintTimers []) w2)) with (timers w2).
    rewrite P2, P1.
    repeat case_decide; try done; tauto.
Qed.

(** *** What the primitives leave alone *)

Lemma rooms_emit t e w : rooms (emit t e w) = rooms w.
Proof. reflexivity. Qed.
Lemma heap_emit t e w : heap (emit t e w) = heap w.
Proof. reflexivity. Qed.
Lemma timers_emit t e w : timers (emit t e w) = timers w.
Proof. reflexivity. Qed.
Lemma next_timer_emit t e w : next_timer (emit t e w) = next_timer w.
Proof. reflexivity. Qed.
Lemma sockets_emit t e w : sockets (emit t e w) = sockets w.
Proof. reflexivity. Qed.
Lemma emitted_emit t e w : emitted (emit t e w) = emitted w ++ [(t, e)].
Proof. reflexivity. Qed.

Lemma rooms_update_room r f w : rooms (update_room r f w) = rooms w.
Proof. reflexivity. Qed.
Lemma timers_update_room r f w : timers (update_room r f w) = timers w.
Proof. reflexivity. Qed.
Lemma next_timer_update_room r f w : next_timer (update_room r f w) = next_timer w.
Proof. reflexivity. Qed.
Lemma sockets_update_room r f w : sockets (update_room r f w) = sockets w.
Proof. reflexivity. Qed.
Lemma emitted_update_room r f w : emitted (update_room r f w) = emitted w.
Proof. reflexivity. Qed.

Lemma rooms_update_socket s f w : rooms (update_socket s f w) = rooms w.
Proof. reflexivity. Qed.
Lemma heap_update_socket s f w : heap (update_socket s f w) = heap w.
Proof. reflexivity. Qed.
Lemma timers_update_socket s f w : timers (update_socket s f w) = timers w.
Proof. reflexivity. Qed.
Lemma next_timer_update_socket s f w : next_timer (update_socket s f w) = next_timer w.
Proof. reflexivity. Qed.
Lemma emitted_update_socket s f w : emitted (update_socket s f w) = emitted w.
Proof. reflexivity. Qed.

Lemma rooms_setTimeout task d w : rooms (setTimeout task d w).2 = rooms w.
Proof. reflexivity. Qed.
Lemma heap_setTimeout task d w : heap (setTimeout task d w).2 = heap w.
Proof. reflexivity. Qed.
Lemma sockets_setTimeout task d w : sockets (setTimeout task d w).2 = sockets w.
Proof. reflexivity. Qed.
Lemma emitted_setTimeout task d w : emitted (setTimeout task d w).2 = emitted w.
Proof. reflexivity. Qed.
Lemma next_timer_setTimeout task d w :
  next_timer (setTimeout task d w).2 = S (next_timer w).
Proof. reflexivity. Qed.
Lemma timers_setTimeout task d w :
  timers (setTimeout task d w).2 = <[next_timer w := (d, task)]> (timers w).
Proof. reflexivity. Qed.
Lemma fst_setTimeout task d w : (setTimeout task d w).1 = next_timer w.
Proof. reflexivity. Qed.

Lemma rooms_clearTimeout t w : rooms (clearTimeout t w) = rooms w.
Proof. reflexivity. Qed.
Lemma heap_clearTimeout t w : heap (clearTimeout t w) = heap w.
Proof. reflexivity. Qed.
Lemma sockets_clearTimeout t w : sockets (clearTimeout t w) = sockets w.
Proof. reflexivity. Qed.
Lemma emitted_clearTimeout t w : emitted (clearTimeout t w) = emitted w.
Proof. reflexivity. Qed.
Lemma next_timer_clearTimeout t w : next_timer (clearTimeout t w) = next_timer w.
Proof. reflexivity. Qed.
Lemma timers_clearTimeout t w : timers (clearTimeout t w) = delete t (timers w).
Proof. reflexivity. Qed.

Lemma heap_set_rooms v w : heap (set_rooms v w) = heap w.
Proof. reflexivity. Qed.
Lemma timers_set_rooms v w : timers (set_rooms v w) = timers w.
Proof. reflexivity. Qed.
Lemma next_timer_set_rooms v w : next_timer (set_rooms v w) = next_timer w.
Proof. reflexivity. Qed.
Lemma rooms_set_rooms v w : rooms (set_rooms v w) = v.
Proof. reflexivity. Qed.

Create Rewrite HintDb world.
#[export] Hint Rewrite
  rooms_emit heap_emit timers_emit next_timer_emit sockets_emit emitted_emit
  rooms_update_room timers_update_room next_timer_update_room sockets_update_room
  emitted_update_room
  rooms_update_socket heap_update_socket timers_update_socket next_timer_update_socket
  emitted_update_socket
  rooms_setTimeout heap_setTimeout sockets_setTimeout emitted_setTimeout
  next_timer_setTimeout timers_setTimeout fst_setTimeout
  rooms_clearTimeout heap_clearTimeout sockets_clearTimeout emitted_clearTimeout
  next_timer_clearTimeout timers_clearTimeout
  heap_set_rooms timers_set_rooms next_timer_set_rooms rooms_set_rooms : world.

Lemma same_game_leaderboard room room' :
  same_game room room' -> getLeaderboard room' = getLeaderboard room.
Proof. intros (_&_&_&_&E&_). unfold getLeaderboard. by rewrite E. Qed.

Lemma endRound_spec (r : nat) (w : World) (room : Room) (puzzle : Puzzle) :
  heap w !! r = Some room ->
  puzzles room !! currentRound room = Some puzzle ->
  exists w',
    endRound r w = Some w' /\
    rooms w' = rooms w /\ sockets w' = sockets w /\
    next_timer w' = S (next_timer w) /\
    emitted w' = emitted w ++
      [(io_to (Some (code room)),
        round_end (answer puzzle) (currentRound room + 1) (totalRounds room)
          (getLeaderboard room)
          (bool_decide (totalRounds room - 1 <= Z.of_nat (currentRound room))%Z))] /\
    (forall r', r' <> r -> heap w' !! r' = heap w !! r') /\
    (exists room', heap w' !! r = Some room' /\ same_game room room' /\
       roundTimer room' = Some (next_timer w) /\ hintTimers room' = []) /\
    (forall t, t <> next_timer w ->
       timers w' !! t =
         if decide (roundTimer room = Some t \/ t ∈ hintTimers room) then None
         else timers w !! t) /\
    exists d task, timers w' !! next_timer w = Some (d, task) /\
      (task = advance_task r \/ task = end_game_task r).
Proof.
  intros E Hp. unfold endRound.
  destruct (clearTimers_spec r w room E) as (R1 & S1 & M1 & N1 & O1 & (room1 & E1 & G1 & T1 & HT1) & P1).
  cbv zeta in *. set (w1 := clearTimers r w) in *.
  rewrite E1. simpl.
  assert (G1' := G1). destruct G1' as (Gc&_&_&Gp&_&_&_&Gr&Gt&_).
  rewrite Gp, Gr, Hp. simpl.
  rewrite (same_game_leaderboard _ _ G1), Gc, Gt.
  set (ev := round_end _ _ _ _ _).
  set (w2 := emit _ ev w1).
  assert (exists t d task w3,
    (if bool_decide (Z.of_nat (currentRound room) < totalRounds room - 1)%Z
     then setTimeout (advance_task r) 5000 w2
     else setTimeout (end_game_task r) 3000 w2) = (t, w3) /\
    w3 = (setTimeout task d w2).2 /\ t = next_timer w2 /\
    (task = advance_task r \/ task = end_game_task r)) as (t & d & task & w3 & -> & -> & -> & Htask).
  { case_bool_decide; eexists _, _, _, _; (split; [reflexivity|]); eauto. }
  eexists. split; [reflexivity|].
  split; [simpl; congruence|]. split; [simpl; congruence|].
  split; [simpl; congruence|]. split; [simpl; congruence|].
  split; [|split; [|split]].
  - intros r' Hne. rewrite heap_update_room_ne by done. simpl. by apply O1.
  - exists (set_roundTimer (Some (next_timer w2)) room1). split.
    + by apply heap_update_room_eq.
    + split; [|split; [simpl; congruence | done]].
      destruct G1 as (?&?&?&?&?&?&?&?&?&?&?&?). by repeat split.
  - intros t Hne. simpl. rewrite lookup_insert_ne by congruence. apply P1.
  - exists d, task. split; [|done]. simpl. rewrite N1. by rewrite lookup_insert_eq.
Qed.

(** *** Guesses *)

Lemma rooms_get_Some (roomCode : jsstring) (w : World) (r : nat) (room : Room) :
  rooms_get roomCode w = Some (r, room) <->
  rooms w !! roomCode = Some r /\ heap w !! r = Some room.
Proof.
  unfold rooms_get. destruct (rooms w !! roomCode) as [r'|]; simpl.
  - destruct (heap w !! r') as [room'|] eqn:E; simpl.
    + split; [intros [= <- <-]; done | intros [[= <-] ?]; congruence].
    + split; [done | intros [[= <-] ?]; congruence].
  - split; [done | intros [? _]; done].
Qed.

Ltac step_simpl :=
  cbn -[update_room emit setTimeout clearTimeout clearTimers endRound startRound
        endGame getLeaderboard checkGuess calcScore remaining_time allAnswered
        onlinePlayers player_list].

Section GuessFacts.
Context `{JSBuiltins}.

(** Claim C10. A guess classified as wrong makes [submit-guess] emit one
    [guess-result] event to the submitter and nothing else: the registry,
    every room object (scores, [guessedThisRound], [roundAnswered]), the
    pending timeouts and the sockets are as before, and so the player may
    guess again. *)
Theorem submit_guess_wrong (w : World) (sock roomCode guess : jsstring) (now : Z)
    (r : nat) (room : Room) (pid : jsstring) (player : Player) (puzzle : Puzzle) :
  may_guess w sock roomCode r room pid player puzzle ->
  pid ∉ roundAnswered room ->
  match_ (checkGuess guess (answer puzzle)) = wrong ->
  exists w',
    submit_guess sock roomCode guess now w = Some w' /\
    emitted w' = emitted w ++ [(socket_emit sock, guess_result_wrong guess)] /\
    rooms w' = rooms w /\ heap w' = heap w /\ timers w' = timers w /\
    next_timer w' = next_timer w /\ sockets w' = sockets w /\
    may_guess w' sock roomCode r room pid player puzzle.
Proof.
  intros (Hget & Hst & Hpid & Hpl & Hpz) Hna Hwrong.
  exists (emit (socket_emit sock) (guess_result_wrong guess) w).
  split; [|by repeat split].
  unfold submit_guess. rewrite Hget.
  rewrite decide_False by (by intros []).
  rewrite Hpid, Hpl. rewrite decide_False by done.
  rewrite Hpz. simpl. by rewrite decide_True.
Qed.

(** A guess of a player who is already in [roundAnswered] is dropped. *)
Lemma submit_guess_duplicate (w : World) (sock roomCode guess : jsstring) (now : Z)
    (r : nat) (room : Room) (pid : jsstring) :
  rooms_get roomCode w = Some (r, room) ->
  playerId (socket_of sock w) = Some pid ->
  pid ∈ roundAnswered room ->
  submit_guess sock roomCode guess now w = Some w.
Proof.
  intros Hget Hpid Hin. unfold submit_guess. rewrite Hget.
  case_decide; [done|]. rewrite Hpid.
  destruct (players room !! pid); [|done]. by rewrite decide_True.
Qed.

(** The effect of a guess that scores. *)
Lemma submit_guess_scored (w : World) (sock roomCode guess : jsstring) (now : Z)
    (r : nat) (room : Room) (pid : jsstring) (player : Player) (puzzle : Puzzle) :
  may_guess w sock roomCode r room pid player puzzle ->
  pid ∉ roundAnswered room ->
  match_ (checkGuess guess (answer puzzle)) <> wrong ->
  let result := checkGuess guess (answer puzzle) in
  let points := calcScore (remaining_time room now) (timePerRound room)
                  (match_ result) (similarity result) in
  let room1 := set_roundAnswered ({[pid]} ∪ roundAnswered room)
                 (set_players (<[pid := add_score points player]> (players room)) room) in
  let events :=
    [(socket_emit sock,
      guess_result_scored (match_ result) points (score player + points)
        (if decide (match_ result = correct) then Some (answer puzzle) else None));
     (io_to (Some roomCode), leaderboard_update (getLeaderboard room1));
     (io_to (Some roomCode), player_guessed (name player) (match_ result))] in
  exists w' room',
    submit_guess sock roomCode guess now w = Some w' /\
    rooms w' = rooms w /\ sockets w' = sockets w /\
    (forall r', r' <> r -> heap w' !! r' = heap w !! r') /\
    heap w' !! r = Some room' /\ same_game room1 room' /\
    (allAnswered room1 = false ->
       emitted w' = emitted w ++ events /\ timers w' = timers w /\
       next_timer w' = next_timer w /\ room' = room1) /\
    (allAnswered room1 = true ->
       emitted w' = emitted w ++ events ++
         [(io_to (Some (code room)),
           round_end (answer puzzle) (currentRound room + 1) (totalRounds room)
             (getLeaderboard room1)
             (bool_decide (totalRounds room - 1 <= Z.of_nat (currentRound room))%Z))] /\
       roundTimer room' = Some (next_timer w) /\ hintTimers room' = [] /\
       (forall t, t <> next_timer w ->
          timers w' !! t =
            if decide (roundTimer room = Some t \/ t ∈ hintTimers room) then None
            else timers w !! t) /\
       exists d task, timers w' !! next_timer w = Some (d, task) /\
         (task = advance_task r \/ task = end_game_task r)).
Proof.
  intros (Hget & Hst & Hpid & Hpl & Hpz) Hna Hscore result points room1 events.
  apply rooms_get_Some in Hget as Hget'. destruct Hget' as [Hr Hh].
  unfold submit_guess. rewrite Hget.
  rewrite decide_False by (by intros []).
  rewrite Hpid, Hpl. rewrite decide_False by done.
  rewrite Hpz. step_simpl. fold result. rewrite decide_False by done.
  fold points.
  set (w1 := update_room r _ w).
  assert (E1 : heap w1 !! r = Some room1).
  { subst w1. by rewrite (heap_update_room_eq _ _ _ _ Hh). }
  rewrite E1. step_simpl.
  set (w2 := emit _ _ (emit _ _ (emit _ _ w1))).
  assert (Em : emitted w2 = emitted w ++ events).
  { subst w2. simpl. by rewrite <- !app_assoc. }
  destruct (allAnswered room1) eqn:Hall.
  - destruct (endRound_spec r w2 room1 puzzle) as
      (w' & -> & R & S & N & M & O & (room' & E' & G' & T' & HT') & P & Q); [done..|].
    exists w', room'. split; [done|].
    split; [done|]. split; [done|].
    split. { intros r' Hne. rewrite O by done. subst w2 w1. simpl.
             by rewrite lookup_alter_ne. }
    split; [done|]. split; [done|]. split; [done|]. intros _.
    split. { rewrite M, Em. by rewrite <- app_assoc. }
    done.
  - exists w2, room1. split; [done|].
    split; [done|]. split; [done|].
    split. { intros r' Hne. subst w2 w1. simpl. by rewrite lookup_alter_ne. }
    split; [done|]. split; [apply same_game_refl|]. split; [|done]. intros _.
    by repeat split.
Qed.

Lemma socket_of_sockets (sock : jsstring) (w w' : World) :
  sockets w' = sockets w -> socket_of sock w' = socket_of sock w.
Proof. intros E. unfold socket_of. by rewrite E. Qed.

(** A guess leaves an answered player's score and membership alone,
    whoever sends it and whatever room it names. *)
Lemma submit_guess_keeps_answered (w w' : World) (sock roomCode guess : jsstring)
    (now : Z) (r : nat) (pid : jsstring) :
  has_answered w r pid ->
  submit_guess sock roomCode guess now w = Some w' ->
  has_answered w' r pid /\ player_score w' r pid = player_score w r pid.
Proof.
  intros (room & Hh & Hin) Hs.
  assert (Hsame : heap w' = heap w -> has_answered w' r pid /\
                    player_score w' r pid = player_score w r pid).
  { intros E. unfold has_answered, player_score. rewrite E. eauto. }
  assert (Hs0 := Hs). revert Hs. unfold submit_guess.
  destruct (rooms_get roomCode w) as [[r0 room0]|] eqn:Hget;
    [|intros [= <-]; by apply Hsame].
  case_decide as Hst; [intros [= <-]; by apply Hsame|].
  destruct (playerId (socket_of sock w)) as [pid0|] eqn:Hpid;
    [|intros [= <-]; by apply Hsame].
  destruct (players room0 !! pid0) as [player0|] eqn:Hpl;
    [|intros [= <-]; by apply Hsame].
  case_decide as Hna; [intros [= <-]; by apply Hsame|].
  destruct (puzzles room0 !! currentRound room0) as [puzzle|] eqn:Hpz; [|done].
  step_simpl.
  case_decide as Hwrong; [intros [= <-]; by apply Hsame|].
  intros _.
  destruct (submit_guess_scored w sock roomCode guess now r0 room0 pid0 player0 puzzle)
    as (w'' & room' & Hs' & _ & _ & Hother & Hr0 & Hgame & _); [done..|].
  assert (w'' = w') as -> by congruence.
  destruct (decide (r = r0)) as [->|Hne].
  - apply rooms_get_Some in Hget as [_ Hh0].
    assert (room0 = room) as -> by congruence.
    destruct Hgame as (_&_&_&_&Hp&_&_&_&_&_&_&Ha). simpl in Hp, Ha.
    assert (pid <> pid0) by congruence.
    split.
    + exists room'. split; [done|]. rewrite Ha. apply elem_of_union. by right.
    + unfold player_score. rewrite Hr0, Hh. simpl.
      by rewrite Hp, lookup_insert_ne.
  - unfold has_answered, player_score. rewrite (Hother r) by done. eauto.
Qed.

Lemma guesses_keep_answered (inputs : list Input) (w w' : World) (r : nat) (pid : jsstring) :
  Forall is_guess inputs ->
  has_answered w r pid ->
  run w inputs = Some w' ->
  has_answered w' r pid /\ player_score w' r pid = player_score w r pid.
Proof.
  intros Hall. revert w. induction Hall as [|i inputs Hi _ IH]; intros w Ha Hrun.
  - simpl in Hrun. by simplify_eq.
  - simpl in Hrun. destruct (step w i) as [w1|] eqn:Hstep; [|done]. simpl in Hrun.
    destruct i; try done. simpl in Hstep.
    destruct (submit_guess_keeps_answered _ _ _ _ _ _ _ _ Ha Hstep) as [Ha1 Hs1].
    destruct (IH w1 Ha1 Hrun) as [Ha' Hs']. split; [done | congruence].
Qed.

(** Claim C3. In a playing room, a [submit-guess] of a player whose
    identifier is in [roundAnswered] is dropped: the handler returns the
    state it was given, so no event is emitted, no points are added and no
    room changes; and whatever guesses follow, from this player or from
    others, the score of this player stays the same. *)
Theorem duplicate_guess_dropped (w : World) (sock roomCode : jsstring) (r : nat)
    (room : Room) (pid : jsstring) :
  rooms_get roomCode w = Some (r, room) ->
  state room = playing ->
  playerId (socket_of sock w) = Some pid ->
  pid ∈ roundAnswered room ->
  (forall guess now, submit_guess sock roomCode guess now w = Some w) /\
  (forall inputs w',
     Forall is_guess inputs -> run w inputs = Some w' ->
     player_score w' r pid = player_score w r pid /\ has_answered w' r pid).
Proof.
  intros Hget Hst Hpid Hin. split.
  - intros guess now. by eapply submit_guess_duplicate.
  - intros inputs w' Hall Hrun.
    apply rooms_get_Some in Hget as [_ Hh].
    destruct (guesses_keep_answered inputs w w' r pid Hall) as [? ?]; [|done..].
    by exists room.
Qed.

(** Claim C9. A guess classified as partial adds the partial points to the
    player's score, sets [guessedThisRound] and puts the player into
    [roundAnswered]; from then on every guess of this player, the exact
    answer included, is dropped, and no guess of anybody changes the
    player's score. *)
Theorem partial_guess_consumes_round (w : World) (sock roomCode guess : jsstring)
    (now : Z) (r : nat) (room : Room) (pid : jsstring) (player : Player)
    (puzzle : Puzzle) :
  may_guess w sock roomCode r room pid player puzzle ->
  pid ∉ roundAnswered room ->
  match_ (checkGuess guess (answer puzzle)) = partial ->
  exists w' room' player',
    submit_guess sock roomCode guess now w = Some w' /\
    heap w' !! r = Some room' /\
    players room' !! pid = Some player' /\
    score player' =
      (score player +
       calcScore (remaining_time room now) (timePerRound room) partial
         (similarity (checkGuess guess (answer puzzle))))%Z /\
    guessedThisRound player' = true /\
    pid ∈ roundAnswered room' /\
    (forall guess' now', submit_guess sock roomCode guess' now' w' = Some w') /\
    (forall inputs w'',
       Forall is_guess inputs -> run w' inputs = Some w'' ->
       player_score w'' r pid = Some (score player')).
Proof.
  intros Hmay Hna Hpartial.
  destruct (submit_guess_scored w sock roomCode guess now r room pid player puzzle)
    as (w' & room' & Hs & Hrooms & Hsock & _ & Hr & Hgame & _);
    [done | done | by rewrite Hpartial |].
  destruct Hmay as (Hget & Hst & Hpid & Hpl & Hpz).
  destruct Hgame as (_&_&_&_&Hp&_&Hst'&_&_&_&_&Ha). simpl in Hp, Ha, Hst'.
  rewrite Hpartial in *.
  set (points := calcScore _ _ _ _) in *.
  exists w', room', (add_score points player).
  assert (Hin : pid ∈ roundAnswered room').
  { rewrite Ha. apply elem_of_union. left. by apply elem_of_singleton. }
  assert (Hget' : rooms_get roomCode w' = Some (r, room')).
  { apply rooms_get_Some. apply rooms_get_Some in Hget as [? _].
    split; [congruence | done]. }
  assert (Hpid' : playerId (socket_of sock w') = Some pid).
  { by rewrite (socket_of_sockets _ _ _ Hsock). }
  destruct (duplicate_guess_dropped w' sock roomCode r room' pid) as [Hdrop Hkeep];
    [done | congruence | done | done |].
  repeat split; try done.
  - by rewrite Hp, lookup_insert_eq.
  - intros inputs w'' Hall Hrun.
    destruct (Hkeep inputs w'' Hall Hrun) as [-> _].
    unfold player_score. rewrite Hr. simpl. by rewrite Hp, lookup_insert_eq.
Qed.

End GuessFacts.

(** *** Sessions *)

Section JoinFacts.
Context `{JSBuiltins}.

Lemma session_player_Some (room : Room) (sessionId : option jsstring) (pid : jsstring)
    (p : Player) :
  session_player room sessionId = Some (pid, p) <->
  exists sid, sessionId = Some sid /\ sid <> [] /\ sessions room !! sid = Some pid /\
    pid <> [] /\ players room !! pid = Some p.
Proof.
  unfold session_player. split.
  - destruct sessionId as [[|c sid]|]; simpl; try done.
    destruct (sessions room !! (c :: sid)) as [[|d pid']|] eqn:E; simpl; try done.
    destruct (players room !! (d :: pid')) as [p'|] eqn:E'; simpl; try done.
    intros [= <- <-]. by exists (c :: sid).
  - intros (sid & -> & Hsid & Hs & Hpid & Hp).
    destruct sid as [|c sid]; [done|]. simpl. rewrite Hs.
    destruct pid as [|d pid]; [done|]. simpl. by rewrite Hp.
Qed.

Lemma session_player_unknown (room : Room) (sessionId : option jsstring) :
  truthy sessionId = None \/
  (exists sid, sessionId = Some sid /\ sessions room !! sid = None) ->
  session_player room sessionId = None.
Proof.
  unfold session_player. intros [->|(sid & -> & Hs)]; [done|].
  destruct (truthy (Some sid)) as [sid'|] eqn:E; [|done]. simpl.
  assert (sid' = sid) as -> by (destruct sid; simpl in E; congruence).
  by rewrite Hs.
Qed.

Lemma join_room_reconnect (w : World) (sock roomCode playerName : jsstring)
    (sessionId : option jsstring) (now : Z) (uuid1 uuid2 : jsstring)
    (r : nat) (room : Room) (pid : jsstring) (p : Player) (puzzle : Puzzle) :
  rooms_get (toUpperCase roomCode) w = Some (r, room) ->
  state room <> setup ->
  session_player room sessionId = Some (pid, p) ->
  (state room = playing -> puzzles room !! currentRound room = Some puzzle) ->
  let p' := {| id := id p; socketId := Some sock;
               name := default (name p) (truthy (Some playerName));
               score := score p; online := true;
               guessedThisRound := guessedThisRound p |} in
  exists w' room',
    join_room sock roomCode playerName sessionId now uuid1 uuid2 w = Some w' /\
    heap w' !! r = Some room' /\
    room' = set_players (<[pid := p']> (players room)) room /\
    playerId (socket_of sock w') = Some pid /\
    rooms w' = rooms w /\ timers w' = timers w /\
    emitted w' = emitted w ++
      [(socket_emit sock,
        joined pid (toUpperCase roomCode) (name p') None (state room) (score p) true)] ++
      (if decide (state room = playing)
       then [(socket_emit sock,
              new_round (currentRound room + 1) (totalRounds room) (image puzzle)
                (timePerRound room) (Some (remaining_time room now)))] ++
            (if decide (pid ∈ roundAnswered room)
             then [(socket_emit sock, already_answered)] else [])
       else []) ++
      [(io_to (Some (toUpperCase roomCode)), leaderboard_update (getLeaderboard room'));
       (io_to (Some (toUpperCase roomCode)),
        player_joined (name p') (length (onlinePlayers room')) (player_list room'))].
Proof.
  intros Hget Hst Hsp Hpz p'.
  apply rooms_get_Some in Hget as Hget'. destruct Hget' as [Hr Hh].
  unfold join_room. rewrite Hget. rewrite decide_False by done. rewrite Hsp.
  fold p'.
  set (w1 := update_room r _ w).
  set (room' := set_players (<[pid := p']> (players room)) room).
  assert (E1 : heap w1 !! r = Some room').
  { subst w1. by rewrite (heap_update_room_eq _ _ _ _ Hh). }
  assert (Hsock : forall w4,
            sockets w4 =
              sockets (join_socket sock (toUpperCase roomCode) pid (default [] sessionId) w1) ->
            playerId (socket_of sock w4) = Some pid).
  { intros w4 E. unfold socket_of. rewrite E. unfold join_socket, update_socket. simpl.
    by rewrite lookup_insert_eq. }
  assert (Hfin : forall w4,
            heap w4 = heap w1 ->
            exists w', emit_player_joined r (toUpperCase roomCode) (name p') w4 = Some w' /\
              heap w' = heap w4 /\ sockets w' = sockets w4 /\ rooms w' = rooms w4 /\
              timers w' = timers w4 /\
              emitted w' = emitted w4 ++
                [(io_to (Some (toUpperCase roomCode)), leaderboard_update (getLeaderboard room'));
                 (io_to (Some (toUpperCase roomCode)),
                  player_joined (name p') (length (onlinePlayers room')) (player_list room'))]).
  { intros w4 E. unfold emit_player_joined. rewrite E, E1. step_simpl.
    eexists. split; [reflexivity|]. autorewrite with world.
    split; [done|]. split; [done|]. split; [done|]. split; [done|].
    by rewrite <- app_assoc. }
  destruct (decide (state room = playing)) as [Hplay|Hplay].
  - rewrite (Hpz Hplay). step_simpl.
    destruct (decide (pid ∈ roundAnswered room)).
    + edestruct Hfin as (w' & -> & E2 & E3 & E4 & E5 & E6); [|
        exists w', room'; split; [reflexivity|]]; [reflexivity|].
      split; [by rewrite E2; autorewrite with world|]. split; [done|].
      split; [by apply Hsock; rewrite E3; autorewrite with world|].
      split; [by rewrite E4; autorewrite with world|].
      split; [by rewrite E5; autorewrite with world|].
      rewrite E6. autorewrite with world. by rewrite <- !app_assoc.
    + edestruct Hfin as (w' & -> & E2 & E3 & E4 & E5 & E6); [|
        exists w', room'; split; [reflexivity|]]; [reflexivity|].
      split; [by rewrite E2; autorewrite with world|]. split; [done|].
      split; [by apply Hsock; rewrite E3; autorewrite with world|].
      split; [by rewrite E4; autorewrite with world|].
      split; [by rewrite E5; autorewrite with world|].
      rewrite E6. autorewrite with world. by rewrite <- !app_assoc.
  - step_simpl.
    edestruct Hfin as (w' & -> & E2 & E3 & E4 & E5 & E6); [|
      exists w', room'; split; [reflexivity|]]; [reflexivity|].
      split; [by rewrite E2; autorewrite with world|]. split; [done|].
      split; [by apply Hsock; rewrite E3; autorewrite with world|].
      split; [by rewrite E4; autorewrite with world|].
      split; [by rewrite E5; autorewrite with world|].
      rewrite E6. autorewrite with world. by rewrite <- !app_assoc.
Qed.

End JoinFacts.

Lemma scores_kept_refl room : scores_kept room room.
Proof. split; [done|]. intros pid p Hp. by exists p. Qed.

Lemma scores_kept_same room room' :
  sessions room' = sessions room -> players room' = players room ->
  scores_kept room room'.
Proof. intros E1 E2. split; [done|]. intros pid p Hp. exists p. by rewrite E2. Qed.

Lemma scores_kept_trans r1 r2 r3 :
  scores_kept r1 r2 -> scores_kept r2 r3 -> scores_kept r1 r3.
Proof.
  intros [S1 P1] [S2 P2]. split; [congruence|].
  intros pid p Hp. destruct (P1 _ _ Hp) as (p' & Hp' & ? & ?).
  destruct (P2 _ _ Hp') as (p'' & Hp'' & ? & ?). exists p''. split; [done|].
  split; congruence.
Qed.

Lemma world_scores_kept_refl w : world_scores_kept w w.
Proof. intros r room Hr. exists room. split; [done | apply scores_kept_refl]. Qed.

Lemma world_scores_kept_trans w1 w2 w3 :
  world_scores_kept w1 w2 -> world_scores_kept w2 w3 -> world_scores_kept w1 w3.
Proof.
  intros H1 H2 r room Hr. destruct (H1 _ _ Hr) as (room' & Hr' & K1).
  destruct (H2 _ _ Hr') as (room'' & Hr'' & K2). exists room''.
  split; [done | by eapply scores_kept_trans].
Qed.

Lemma world_scores_kept_heap w w' : heap w' = heap w -> world_scores_kept w w'.
Proof. intros E r room Hr. exists room. rewrite E. split; [done | apply scores_kept_refl]. Qed.

Lemma world_scores_kept_update r0 f w room0 :
  heap w !! r0 = Some room0 -> scores_kept room0 (f room0) ->
  world_scores_kept w (update_room r0 f w).
Proof.
  intros E K r room Hr. destruct (decide (r = r0)) as [->|Hne].
  - exists (f room0). split; [by apply heap_update_room_eq|]. by simplify_eq.
  - exists room. rewrite heap_update_room_ne by done. split; [done | apply scores_kept_refl].
Qed.

Section DisconnectFacts.
Context `{JSBuiltins}.

(** A disconnection keeps every player, score and session token. *)
Lemma disconnect_scores_kept (sock : jsstring) (w w' : World) :
  disconnect sock w = Some w' -> world_scores_kept w w'.
Proof.
  unfold disconnect.
  destruct (truthy (roomCode (socket_of sock w))) as [code|];
    [|intros [= <-]; apply world_scores_kept_refl].
  destruct (rooms_get code w) as [[r room]|] eqn:Hget;
    [|intros [= <-]; apply world_scores_kept_refl].
  apply rooms_get_Some in Hget as [_ Hh].
  set (ph1 := match _ with Some (playerId, p) => _ | None => Some w end).
  assert (H1 : forall w1, ph1 = Some w1 -> world_scores_kept w w1).
  { subst ph1. intros w1.
    destruct (truthy (playerId (socket_of sock w)) ≫= _) as [[pid p]|] eqn:E;
      [|intros [= <-]; apply world_scores_kept_refl].
    assert (Hp : players room !! pid = Some p).
    { destruct (truthy (playerId (socket_of sock w))) as [pid'|]; [|done].
      simpl in E. destruct (players room !! pid') eqn:E'; simpl in E; by simplify_eq. }
    set (w0 := update_room r _ w).
    assert (K0 : world_scores_kept w w0).
    { subst w0. eapply world_scores_kept_update; [done|].
      split; [done|]. intros pid0 p0 Hp0. simpl.
      destruct (decide (pid0 = pid)) as [->|Hne].
      - rewrite lookup_insert_eq. eexists. split; [done|]. by simplify_eq.
      - rewrite lookup_insert_ne by done. by exists p0. }
    destruct (heap w0 !! r) as [room1|]; [|done]. step_simpl. intros [= <-].
    eapply world_scores_kept_trans; [exact K0|]. by apply world_scores_kept_heap. }
  destruct ph1 as [w1|]; [|done]. specialize (H1 w1 eq_refl). step_simpl.
  destruct (heap w1 !! r) as [room1|] eqn:Hh1; [|done]. step_simpl.
  set (w2 := if isHost (socket_of sock w1) then _ else w1).
  assert (H2 : world_scores_kept w1 w2).
  { subst w2. destruct (isHost (socket_of sock w1)); [|apply world_scores_kept_refl].
    destruct (head (onlinePlayers room1)) as [op|]; [|apply world_scores_kept_refl].
    eapply world_scores_kept_trans; [|by apply world_scores_kept_heap].
    eapply world_scores_kept_update; [done|]. by apply scores_kept_same. }
  destruct (heap w2 !! r) as [room2|]; [|done]. step_simpl. intros [= <-].
  eapply world_scores_kept_trans; [exact H1|].
  eapply world_scores_kept_trans; [exact H2|].
  case_decide; [|apply world_scores_kept_refl]. by apply world_scores_kept_heap.
Qed.

End DisconnectFacts.

Section SessionFacts.
Context `{JSBuiltins}.

Lemma join_room_new (w : World) (sock roomCode playerName : jsstring)
    (sessionId : option jsstring) (now : Z) (uuid1 uuid2 : jsstring)
    (r : nat) (room : Room) :
  rooms_get (toUpperCase roomCode) w = Some (r, room) ->
  state room <> setup ->
  session_player room sessionId = None ->
  let pid := take 8 uuid1 in
  let sid := default uuid2 (truthy sessionId) in
  let p := {| id := pid; socketId := Some sock; name := playerName; score := 0;
              online := true; guessedThisRound := false |} in
  exists w' room',
    join_room sock roomCode playerName sessionId now uuid1 uuid2 w = Some w' /\
    heap w' !! r = Some room' /\
    room' = set_sessions (obj_set sid pid (sessions room))
              (set_players (<[pid := p]> (players room)) room) /\
    playerId (socket_of sock w') = Some pid /\
    rooms w' = rooms w /\ timers w' = timers w /\
    emitted w' = emitted w ++
      [(socket_emit sock,
        joined pid (toUpperCase roomCode) playerName (Some sid) (state room) 0 false);
       (io_to (Some (toUpperCase roomCode)), leaderboard_update (getLeaderboard room'));
       (io_to (Some (toUpperCase roomCode)),
        player_joined playerName (length (onlinePlayers room')) (player_list room'))].
Proof.
  intros Hget Hst Hsp pid sid p.
  apply rooms_get_Some in Hget as Hget'. destruct Hget' as [Hr Hh].
  unfold join_room. rewrite Hget. rewrite decide_False by done. rewrite Hsp.
  fold pid sid p.
  set (w1 := update_room r _ w).
  set (room' := set_sessions _ (set_players (<[pid := p]> (players room)) room)).
  assert (E1 : heap w1 !! r = Some room').
  { subst w1. by rewrite (heap_update_room_eq _ _ _ _ Hh). }
  unfold emit_player_joined. autorewrite with world.
  change (heap (join_socket sock (toUpperCase roomCode) pid sid w1)) with (heap w1).
  rewrite E1. step_simpl.
  eexists _, room'. split; [reflexivity|]. autorewrite with world.
  split; [done|]. split; [done|].
  split. { unfold socket_of, join_socket, update_socket. simpl. by rewrite lookup_insert_eq. }
  split; [done|]. split; [done|].
  change (emitted (join_socket sock (toUpperCase roomCode) pid sid w1)) with (emitted w).
  by rewrite <- !app_assoc.
Qed.

End SessionFacts.

(** ** Invariants of the runs *)

Lemma timers_fresh_refl w : timers_fresh w w.
Proof. split; [lia | done]. Qed.

Lemma timers_fresh_trans w1 w2 w3 :
  timers_fresh w1 w2 -> timers_fresh w2 w3 -> timers_fresh w1 w3.
Proof.
  intros [L1 F1] [L2 F2]. split; [lia|].
  intros t Ht Hn. apply F2; [lia|]. by apply F1.
Qed.

Lemma good_refl w : good_step w w.
Proof. split; [done | apply timers_fresh_refl]. Qed.

Lemma good_trans w1 w2 w3 : good_step w1 w2 -> good_step w2 w3 -> good_step w1 w3.
Proof.
  intros [O1 F1] [O2 F2]. split; [auto | by eapply timers_fresh_trans].
Qed.

Lemma good_same w w' :
  rooms w' = rooms w -> heap w' = heap w -> timers w' = timers w ->
  next_timer w' = next_timer w -> good_step w w'.
Proof.
  intros R Hp T N. split.
  - intros [P Hd Tr Rg A]. split; rewrite ?R, ?Hp, ?T, ?N; done.
  - split; [lia|]. rewrite T. done.
Qed.

Lemma good_emit t e w : good_step w (emit t e w).
Proof. by apply good_same. Qed.

Lemma good_update_socket s f w : good_step w (update_socket s f w).
Proof. by apply good_same. Qed.

Lemma good_update_room r f w :
  (forall room, room_step room (f room)) -> good_step w (update_room r f w).
Proof.
  intros Hf. split; [|exact (timers_fresh_refl w)].
  intros [P Hd Tr Rg A]. split; autorewrite with world; try done.
  - intros r' room' t Hr'. destruct (decide (r' = r)) as [->|Hne].
    + unfold update_room in Hr'. simpl in Hr'. rewrite lookup_alter_eq in Hr'.
      destruct (heap w !! r) as [room|] eqn:E; [|done]. simpl in Hr'. simplify_eq.
      destruct (Hf room) as (E1 & E2 & _). unfold tracks. rewrite E1, E2.
      by apply (Hd r room).
    + rewrite heap_update_room_ne in Hr' by done. by apply (Hd r').
  - intros t d task r' Ht Hr'. destruct (Tr t d task r' Ht Hr') as (room & Hroom & Htr).
    destruct (decide (r' = r)) as [->|Hne].
    + exists (f room). split; [by apply heap_update_room_eq|].
      destruct (Hf room) as (E1 & E2 & _). unfold tracks. by rewrite E1, E2.
    + exists room. by rewrite heap_update_room_ne.
  - intros c r' Hc. destruct (Rg c r' Hc) as [room Hroom].
    destruct (decide (r' = r)) as [->|Hne].
    + exists (f room). by apply heap_update_room_eq.
    + exists room. by rewrite heap_update_room_ne.
  - intros r' room' Hr'. destruct (decide (r' = r)) as [->|Hne].
    + unfold update_room in Hr'. simpl in Hr'. rewrite lookup_alter_eq in Hr'.
      destruct (heap w !! r) as [room|] eqn:E; [|done]. simpl in Hr'. simplify_eq.
      destruct (Hf room) as (_ & _ & E3). apply E3. by apply (A r).
    + rewrite heap_update_room_ne in Hr' by done. by apply (A r').
Qed.

Lemma good_clearTimeout t w : good_step w (clearTimeout t w).
Proof.
  split.
  - intros [P Hd Tr Rg A]. split; autorewrite with world; try done.
    + intros t' x Ht'. apply lookup_delete_Some in Ht' as [_ Ht']. by eapply P.
    + intros t' d task r Ht' Hr. apply lookup_delete_Some in Ht' as [_ Ht'].
      by eapply Tr.
  - split; [done|]. intros t' _ Hn. autorewrite with world.
    apply lookup_delete_None. by right.
Qed.

Lemma good_setTimeout_reap c d w : good_step w (setTimeout (reap_task c) d w).2.
Proof.
  split.
  - intros [P Hd Tr Rg A]. split; autorewrite with world; try done.
    + intros t x Ht. apply lookup_insert_Some in Ht as [[<- _]|[_ Ht]]; [lia|].
      apply P in Ht. lia.
    + intros r room t Hr Ht. specialize (Hd r room t Hr Ht). lia.
    + intros t d' task r Ht Hr. apply lookup_insert_Some in Ht as [[<- E]|[_ Ht]].
      * by simplify_eq.
      * by eapply Tr.
  - split; [autorewrite with world; lia|]. intros t Ht Hn. autorewrite with world.
    rewrite lookup_insert_ne by lia. done.
Qed.

Lemma clearTimers_None (r : nat) (w : World) :
  heap w !! r = None -> clearTimers r w = w.
Proof. intros E. unfold clearTimers. by rewrite E. Qed.

(** After [clearTimers] no callback of the room is pending. *)
Lemma clearTimers_ok (r : nat) (w : World) :
  world_ok w ->
  world_ok (clearTimers r w) /\
  forall t d task, timers (clearTimers r w) !! t = Some (d, task) ->
    task_room task <> Some r.
Proof.
  intros Hok. destruct (heap w !! r) as [room|] eqn:E.
  - destruct (clearTimers_spec r w room E) as
      (R & Sk & M & N & O & (room' & E' & G & T & HT) & P).
    cbv zeta in *. set (w' := clearTimers r w) in *.
    destruct Hok as [Pd Hd Tr Rg A].
    assert (Hold : forall t x, timers w' !! t = Some x ->
              timers w !! t = Some x /\ ~ tracks room t).
    { intros t x Ht. rewrite P in Ht. by case_decide. }
    split; [split|].
    + intros t x Ht. rewrite N. apply Hold in Ht as [Ht _]. by eapply Pd.
    + intros r' room1 t Hr' Ht. rewrite N.
      destruct (decide (r' = r)) as [->|Hne].
      * assert (room1 = room') as -> by congruence.
        destruct Ht as [Ht|Ht]; [congruence|]. rewrite HT in Ht. by apply elem_of_nil in Ht.
      * rewrite O in Hr' by done. by eapply Hd.
    + intros t d task r' Ht Hr'. apply Hold in Ht as [Ht Hnt].
      destruct (Tr t d task r' Ht Hr') as (room1 & Hroom1 & Htr).
      destruct (decide (r' = r)) as [->|Hne]; [by simplify_eq|].
      exists room1. by rewrite O.
    + intros c r' Hc. rewrite R in Hc. destruct (Rg c r' Hc) as [room1 Hroom1].
      destruct (decide (r' = r)) as [->|Hne]; [by eauto|]. rewrite O by done. by eauto.
    + intros r' room1 Hr'. destruct (decide (r' = r)) as [->|Hne].
      * assert (room1 = room') as -> by congruence.
        destruct G as (_&_&_&_&Gp&_&_&_&_&_&_&Ga). rewrite Gp, Ga. by apply (A r).
      * rewrite O in Hr' by done. by apply (A r').
    + intros t d task Ht Hr. apply Hold in Ht as [Ht Hnt].
      destruct (Tr t d task r Ht Hr) as (room1 & Hroom1 & Htr). by simplify_eq.
  - rewrite clearTimers_None by done. split; [done|].
    intros t d task Ht Hr. destruct Hok as [_ _ Tr _ _].
    destruct (Tr t d task r Ht Hr) as (room1 & Hroom1 & _). congruence.
Qed.

Lemma clearTimers_fresh (r : nat) (w : World) : timers_fresh w (clearTimers r w).
Proof.
  destruct (heap w !! r) as [room|] eqn:E.
  - destruct (clearTimers_spec r w room E) as (_ & _ & _ & N & _ & _ & P).
    cbv zeta in *. split; [lia|]. intros t _ Hn. rewrite P. by case_decide.
  - rewrite clearTimers_None by done. apply timers_fresh_refl.
Qed.

Lemma good_clearTimers (r : nat) (w : World) : good_step w (clearTimers r w).
Proof. split; [intros Hok; apply (clearTimers_ok r w Hok) | apply clearTimers_fresh]. Qed.

Lemma endRound_inv (r : nat) (w w' : World) :
  endRound r w = Some w' ->
  exists room puzzle, heap w !! r = Some room /\
    puzzles room !! currentRound room = Some puzzle.
Proof.
  unfold endRound. destruct (heap w !! r) as [room|] eqn:E.
  - destruct (clearTimers_spec r w room E) as (_ & _ & _ & _ & _ & (room' & E' & G & _) & _).
    cbv zeta in *. rewrite E'. step_simpl.
    destruct G as (_&_&_&Gp&_&_&_&Gr&_). rewrite Gp, Gr.
    destruct (puzzles room !! currentRound room) as [puzzle|] eqn:Hp; step_simpl; [|done].
    intros _. by eauto.
  - rewrite clearTimers_None by done. by rewrite E.
Qed.

Lemma good_endRound (r : nat) (w w' : World) :
  endRound r w = Some w' -> good_step w w'.
Proof.
  intros He. destruct (endRound_inv r w w' He) as (room & puzzle & E & Hp).
  destruct (endRound_spec r w room puzzle E Hp) as
    (w'' & He' & R & Sk & N & M & O & (room' & E' & G & T & HT) & P & (d & task & Qt & Htask)).
  assert (w'' = w') as -> by congruence.
  split.
  - intros [Pd Hd Tr Rg A].
    assert (Hold : forall t x, t <> next_timer w -> timers w' !! t = Some x ->
              timers w !! t = Some x /\ ~ tracks room t).
    { intros t x Hne Ht. rewrite P in Ht by done. by case_decide. }
    split.
    + intros t x Ht. rewrite N. destruct (decide (t = next_timer w)) as [->|Hne]; [lia|].
      apply Hold in Ht as [Ht _]; [|done]. apply Pd in Ht. lia.
    + intros r' room1 t Hr' Ht. rewrite N.
      destruct (decide (r' = r)) as [->|Hne].
      * assert (room1 = room') as -> by congruence.
        destruct Ht as [Ht|Ht]; [|rewrite HT in Ht; by apply elem_of_nil in Ht].
        rewrite T in Ht. simplify_eq. lia.
      * rewrite O in Hr' by done. specialize (Hd r' room1 t Hr' Ht). lia.
    + intros t d' task' r' Ht Hr'.
      destruct (decide (t = next_timer w)) as [->|Hne].
      * rewrite Qt in Ht. simplify_eq.
        assert (r' = r) as -> by (destruct Htask as [->| ->]; simpl in Hr'; congruence).
        exists room'. split; [done|]. by left.
      * apply Hold in Ht as [Ht Hnt]; [|done].
        destruct (Tr t d' task' r' Ht Hr') as (room1 & Hroom1 & Htr).
        destruct (decide (r' = r)) as [->|Hner]; [by simplify_eq|].
        exists room1. by rewrite O.
    + intros c r' Hc. rewrite R in Hc. destruct (Rg c r' Hc) as [room1 Hroom1].
      destruct (decide (r' = r)) as [->|Hne]; [by eauto|]. rewrite O by done. by eauto.
    + intros r' room1 Hr'. destruct (decide (r' = r)) as [->|Hne].
      * assert (room1 = room') as -> by congruence.
        destruct G as (_&_&_&_&Gp&_&_&_&_&_&_&Ga). rewrite Gp, Ga. by apply (A r).
      * rewrite O in Hr' by done. by apply (A r').
  - split; [lia|]. intros t Ht Hn. rewrite P by lia. by destruct (decide _).
Qed.

Lemma good_endGame (r : nat) (w w' : World) :
  endGame r w = Some w' -> good_step w w'.
Proof.
  unfold endGame.
  destruct (heap (update_room r (set_state finished) (clearTimers r w)) !! r); [|done].
  step_simpl. intros [= <-].
  eapply good_trans; [|apply good_emit].
  eapply good_trans; [apply good_clearTimers|].
  apply good_update_room. intros room. by repeat split.
Qed.

Lemma startRound_spec (r : nat) (now : Z) (w w' : World) :
  startRound r now w = Some w' ->
  exists room puzzle room',
    heap w !! r = Some room /\
    puzzles room !! currentRound room = Some puzzle /\
    rooms w' = rooms w /\ sockets w' = sockets w /\
    next_timer w' = next_timer w + 3 /\
    (forall r', r' <> r -> heap w' !! r' = heap w !! r') /\
    heap w' !! r = Some room' /\
    roundTimer room' = Some (next_timer w + 2) /\
    hintTimers room' = [next_timer w; next_timer w + 1] /\
    roundAnswered room' = ∅ /\
    players room' = reset_guessed <$> players room /\
    roundStartTime room' = Some now /\
    code room' = code room /\ state room' = state room /\
    currentRound room' = currentRound room /\ puzzles room' = puzzles room /\
    sessions room' = sessions room /\
    emitted w' = emitted w ++
      [(io_to (Some (code room)),
        new_round (currentRound room + 1) (totalRounds room) (image puzzle)
          (timePerRound room) None);
       (io_to (Some (code room)), leaderboard_update (getLeaderboard room'))] /\
    (exists d, timers w' !! next_timer w = Some (d, hint1_task r puzzle)) /\
    (exists d, timers w' !! (next_timer w + 1) = Some (d, hint2_task r puzzle)) /\
    (exists d, timers w' !! (next_timer w + 2) = Some (d, round_end_task r)) /\
    forall t, t <> next_timer w -> t <> next_timer w + 1 -> t <> next_timer w + 2 ->
      timers w' !! t =
        if decide (roundTimer room = Some t \/ t ∈ hintTimers room) then None
        else timers w !! t.
Proof.
  unfold startRound. destruct (heap w !! r) as [room|] eqn:E; [|done]. step_simpl.
  set (room1 := set_players (reset_guessed <$> players room)
                  (set_roundAnswered ∅ (set_roundStartTime (Some now) room))).
  set (w1 := update_room r _ w).
  assert (E1 : heap w1 !! r = Some room1).
  { subst w1. by rewrite (heap_update_room_eq _ _ _ _ E). }
  destruct (clearTimers_spec r w1 room1 E1) as
    (R & Sk & M & N & O & (room2 & E2 & G & T & HT) & P).
  cbv zeta in *. set (w2 := clearTimers r w1) in *.
  rewrite E2. step_simpl.
  destruct (puzzles room !! currentRound room) as [puzzle|] eqn:Hp; [|done]. step_simpl.
  intros [= <-]. exists room, puzzle. eexists.
  destruct G as (Gc&Gh&Ghs&Gpz&Gpl&Gs&Gst&Gcr&Gtr&Gtp&Grs&Gra).
  simpl in Gc, Gh, Ghs, Gpz, Gpl, Gs, Gst, Gcr, Gtr, Gtp, Grs, Gra.
  assert (N' : next_timer w2 = next_timer w) by (by rewrite N).
  split; [done|]. split; [done|].
  split; [simpl; by rewrite R|]. split; [simpl; by rewrite Sk|].
  split; [simpl; rewrite N'; lia|].
  split.
  { intros r' Hne. simpl. rewrite lookup_alter_ne by done. rewrite O by done.
    subst w1. by rewrite heap_update_room_ne. }
  split; [simpl; by rewrite lookup_alter_eq, E2|].
  simpl. rewrite N'.
  split; [f_equal; lia|]. split; [repeat f_equal; lia|].
  split; [done|]. split; [done|]. split; [done|]. split; [done|]. split; [done|].
  split; [done|]. split; [done|]. split; [done|].
  split.
  { rewrite M, <- app_assoc. simpl. by rewrite Gc, Gcr, Gtr, Gtp. }
  split.
  { eexists. rewrite lookup_insert_ne by lia. rewrite lookup_insert_ne by lia.
    by rewrite lookup_insert_eq. }
  split.
  { eexists. rewrite lookup_insert_ne by lia.
    replace (next_timer w + 1) with (S (next_timer w)) by lia. by rewrite lookup_insert_eq. }
  split.
  { eexists. replace (next_timer w + 2) with (S (S (next_timer w))) by lia.
    by rewrite lookup_insert_eq. }
  intros t H0 H1 H2. rewrite !lookup_insert_ne by lia. by rewrite P.
Qed.

Lemma good_startRound (r : nat) (now : Z) (w w' : World) :
  startRound r now w = Some w' -> good_step w w'.
Proof.
  intros Hs. destruct (startRound_spec r now w w' Hs) as
    (room & puzzle & room' & E & Hp & R & Sk & N & O & E' & T & HT & Ha & Hpl & _ & _ & _ &
     _ & _ & _ & _ & (d0 & Q0) & (d1 & Q1) & (d2 & Q2) & P).
  split.
  - intros [Pd Hd Tr Rg A].
    assert (Hold : forall t x, t <> next_timer w -> t <> next_timer w + 1 ->
              t <> next_timer w + 2 -> timers w' !! t = Some x ->
              timers w !! t = Some x /\ ~ tracks room t).
    { intros t x H0 H1 H2 Ht. rewrite P in Ht by done. by destruct (decide _). }
    assert (Hnew : forall t, t = next_timer w \/ t = next_timer w + 1 \/
              t = next_timer w + 2 -> tracks room' t).
    { intros t [->|[->| ->]]; unfold tracks; rewrite ?T, ?HT; [right|right|left];
        rewrite ?elem_of_cons; tauto. }
    split.
    + intros t x Ht. rewrite N.
      destruct (decide (t = next_timer w)); [lia|].
      destruct (decide (t = next_timer w + 1)); [lia|].
      destruct (decide (t = next_timer w + 2)); [lia|].
      apply Hold in Ht as [Ht _]; [|done..]. apply Pd in Ht. lia.
    + intros r' room1 t Hr' Ht. rewrite N.
      destruct (decide (r' = r)) as [->|Hne].
      * assert (room1 = room') as -> by congruence.
        destruct Ht as [Ht|Ht].
        { rewrite T in Ht. simplify_eq. lia. }
        { rewrite HT in Ht. rewrite !elem_of_cons, elem_of_nil in Ht. lia. }
      * rewrite O in Hr' by done. specialize (Hd r' room1 t Hr' Ht). lia.
    + intros t d' task' r' Ht Hr'.
      destruct (decide (t = next_timer w \/ t = next_timer w + 1 \/
                        t = next_timer w + 2)) as [Hin|Hout].
      * assert (r' = r) as ->.
        { destruct Hin as [->|[->| ->]]; rewrite ?Q0, ?Q1, ?Q2 in Ht; simplify_eq;
            simpl in Hr'; congruence. }
        exists room'. split; [done | by apply Hnew].
      * apply Hold in Ht as [Ht Hnt]; [|lia..].
        destruct (Tr t d' task' r' Ht Hr') as (room1 & Hroom1 & Htr).
        destruct (decide (r' = r)) as [->|Hner]; [by simplify_eq|].
        exists room1. by rewrite O.
    + intros c r' Hc. rewrite R in Hc. destruct (Rg c r' Hc) as [room1 Hroom1].
      destruct (decide (r' = r)) as [->|Hne]; [by eauto|]. rewrite O by done. by eauto.
    + intros r' room1 Hr'. destruct (decide (r' = r)) as [->|Hne].
      * assert (room1 = room') as -> by congruence. rewrite Ha. apply empty_subseteq.
      * rewrite O in Hr' by done. by apply (A r').
  - split; [lia|]. intros t Ht Hn. rewrite P by lia. by destruct (decide _).
Qed.

(** *** Every handler keeps the invariant *)

Lemma room_step_fields (room room' : Room) :
  roundTimer room' = roundTimer room -> hintTimers room' = hintTimers room ->
  roundAnswered room' = roundAnswered room -> dom (players room') = dom (players room) ->
  room_step room room'.
Proof. intros E1 E2 E3 E4. split; [done|]. split; [done|]. by rewrite E3, E4. Qed.

Lemma room_step_insert (room : Room) (pid : jsstring) (p : Player) :
  room_step room (set_players (<[pid := p]> (players room)) room).
Proof.
  split; [done|]. split; [done|]. simpl. intros Hs.
  etrans; [exact Hs | apply dom_insert_subseteq].
Qed.

Lemma room_step_answer (room : Room) (pid : jsstring) (p : Player) :
  room_step room
    (set_roundAnswered ({[pid]} ∪ roundAnswered room)
       (set_players (<[pid := p]> (players room)) room)).
Proof.
  split; [done|]. split; [done|]. simpl. intros Hs.
  rewrite dom_insert_L. by apply union_mono_l.
Qed.

Lemma good_emit_r w X t e : good_step w X -> good_step w (emit t e X).
Proof. intros. eapply good_trans; [done | apply good_emit]. Qed.

Lemma good_update_socket_r w X s f : good_step w X -> good_step w (update_socket s f X).
Proof. intros. eapply good_trans; [done | apply good_update_socket]. Qed.

Lemma good_update_room_r w X r f :
  (forall room, room_step room (f room)) -> good_step w X ->
  good_step w (update_room r f X).
Proof. intros. eapply good_trans; [done | by apply good_update_room]. Qed.

Lemma good_clearTimers_r w X r : good_step w X -> good_step w (clearTimers r X).
Proof. intros. eapply good_trans; [done | apply good_clearTimers]. Qed.

Lemma good_clearTimeout_r w X t : good_step w X -> good_step w (clearTimeout t X).
Proof. intros. eapply good_trans; [done | apply good_clearTimeout]. Qed.

Lemma good_setTimeout_reap_r w X c d :
  good_step w X -> good_step w (setTimeout (reap_task c) d X).2.
Proof. intros. eapply good_trans; [done | apply good_setTimeout_reap]. Qed.

Lemma good_create_room rand w : good_step w (create_room rand w).
Proof.
  unfold create_room. apply good_emit_r.
  set (r := fresh (dom (heap w))). set (c := generateRoomCode rand).
  assert (Hfresh : heap w !! r = None) by (apply not_elem_of_dom, is_fresh).
  split; [|by split].
  intros [Pd Hd Tr Rg A]. split; simpl.
  - done.
  - intros r' room t Hr'. apply lookup_insert_Some in Hr' as [[<- <-]|[_ Hr']].
    + intros [Ht|Ht]; [done | by apply elem_of_nil in Ht].
    + by apply (Hd r').
  - intros t d task r' Ht Hr'. destruct (Tr t d task r' Ht Hr') as (room & Hroom & Htr).
    exists room. split; [|done]. rewrite lookup_insert_ne; [done|]. congruence.
  - intros c' r' Hc'. apply lookup_insert_Some in Hc' as [[<- <-]|[_ Hc']].
    + rewrite lookup_insert_eq. by eauto.
    + destruct (Rg c' r' Hc') as [room Hroom]. exists room.
      rewrite lookup_insert_ne; [done|]. congruence.
  - intros r' room Hr'. apply lookup_insert_Some in Hr' as [[<- <-]|[_ Hr']].
    + simpl. apply empty_subseteq.
    + by apply (A r').
Qed.

Lemma rooms_clearTimers (r : nat) (w : World) : rooms (clearTimers r w) = rooms w.
Proof.
  destruct (heap w !! r) as [room|] eqn:E.
  - by destruct (clearTimers_spec r w room E) as (R & _).
  - by rewrite clearTimers_None.
Qed.

Lemma good_set_rooms (m : gmap jsstring nat) (w : World) :
  (forall c r, m !! c = Some r -> rooms w !! c = Some r) ->
  good_step w (set_rooms m w).
Proof.
  intros Hm. split; [|by split].
  intros [Pd Hd Tr Rg A]. split; simpl; try done.
  intros c' r' Hc'. apply Hm in Hc'. by eapply Rg.
Qed.

Lemma good_upload c ps w : good_step w (upload c ps w).
Proof.
  unfold upload. destruct (rooms_get c w) as [[r room]|].
  - apply good_emit_r, good_update_room_r; [|apply good_refl].
    intros room'. by apply room_step_fields.
  - apply good_emit_r, good_refl.
Qed.

Ltac good_chain :=
  repeat first
    [ apply good_refl
    | apply good_emit_r
    | apply good_update_socket_r
    | apply good_setTimeout_reap_r
    | apply good_clearTimers_r
    | apply good_clearTimeout_r
    | apply good_update_room_r;
        [ intros ?;
          first [ apply room_step_insert | apply room_step_answer
                | by apply room_step_fields
                | apply room_step_fields; simpl; try done; apply dom_fmap_L ] | ] ].

Section HandlersKeep.
Context `{JSBuiltins}.

Lemma good_host_join sock c sid w : good_step w (host_join sock c sid w).
Proof.
  unfold host_join. destruct (rooms_get c w) as [[r room]|]; good_chain.
Qed.

Lemma good_emit_player_joined r c n w w' X :
  emit_player_joined r c n X = Some w' -> good_step w X -> good_step w w'.
Proof.
  unfold emit_player_joined. destruct (heap X !! r); [|done]. step_simpl.
  intros [= <-] HX. by good_chain.
Qed.

Lemma good_join_room sock c n sid now u1 u2 w w' :
  join_room sock c n sid now u1 u2 w = Some w' -> good_step w w'.
Proof.
  unfold join_room. destruct (rooms_get (toUpperCase c) w) as [[r room]|];
    [|intros [= <-]; good_chain].
  case_decide; [intros [= <-]; good_chain|].
  destruct (session_player room sid) as [[pid p]|].
  - set (w1 := emit _ _ (join_socket _ _ _ _ (update_room _ _ w))).
    assert (G1 : good_step w w1).
    { subst w1. unfold join_socket. good_chain. }
    case_decide.
    + destruct (puzzles room !! currentRound room) as [puzzle|]; [|done].
      step_simpl. intros Hj. eapply good_emit_player_joined; [exact Hj|].
      case_decide; by good_chain.
    + step_simpl. intros Hj. by eapply good_emit_player_joined.
  - intros Hj. eapply good_emit_player_joined; [exact Hj|].
    unfold join_socket. good_chain.
Qed.

Lemma good_start_game sock c rounds tpr now w w' :
  start_game sock c rounds tpr now w = Some w' -> good_step w w'.
Proof.
  unfold start_game. destruct (rooms_get c w) as [[r room]|];
    [|intros [= <-]; good_chain].
  case_decide; [|intros [= <-]; good_chain].
  intros Hs. eapply good_trans; [|by eapply good_startRound].
  good_chain.
Qed.

Lemma good_submit_guess sock c guess now w w' :
  submit_guess sock c guess now w = Some w' -> good_step w w'.
Proof.
  unfold submit_guess. destruct (rooms_get c w) as [[r room]|];
    [|intros [= <-]; good_chain].
  case_decide; [intros [= <-]; good_chain|].
  destruct (playerId (socket_of sock w)) as [pid|]; [|intros [= <-]; good_chain].
  destruct (players room !! pid) as [player|]; [|intros [= <-]; good_chain].
  case_decide; [intros [= <-]; good_chain|].
  destruct (puzzles room !! currentRound room) as [puzzle|]; [|done]. step_simpl.
  case_decide; [intros [= <-]; good_chain|].
  destruct (heap (update_room r _ w) !! r) as [room1|]; [|done]. step_simpl.
  destruct (allAnswered room1).
  - intros He. eapply good_trans; [|by eapply good_endRound]. good_chain.
  - intros [= <-]. good_chain.
Qed.

Lemma good_next_round sock c now w w' :
  next_round sock c now w = Some w' -> good_step w w'.
Proof.
  unfold next_round. destruct (rooms_get c w) as [[r room]|];
    [|intros [= <-]; good_chain].
  case_decide; [|intros [= <-]; good_chain].
  case_bool_decide.
  - apply good_endGame.
  - intros Hs. eapply good_trans; [|by eapply good_startRound]. good_chain.
Qed.

Lemma good_disconnect sock w w' :
  disconnect sock w = Some w' -> good_step w w'.
Proof.
  unfold disconnect.
  destruct (truthy (roomCode (socket_of sock w))) as [c|]; [|intros [= <-]; good_chain].
  destruct (rooms_get c w) as [[r room]|]; [|intros [= <-]; good_chain].
  set (ph1 := match _ with Some (playerId, p) => _ | None => Some w end).
  assert (H1 : forall w1, ph1 = Some w1 -> good_step w w1).
  { subst ph1. intros w1.
    destruct (truthy (playerId (socket_of sock w)) ≫= _) as [[pid p]|];
      [|intros [= <-]; good_chain].
    destruct (heap (update_room r _ w) !! r) as [room1|]; [|done]. step_simpl.
    intros [= <-]. good_chain. }
  destruct ph1 as [w1|]; [|done]. specialize (H1 w1 eq_refl). step_simpl.
  destruct (heap w1 !! r) as [room1|]; [|done]. step_simpl.
  set (w2 := if isHost (socket_of sock w1) then _ else w1).
  assert (H2 : good_step w w2).
  { subst w2. destruct (isHost (socket_of sock w1)); [|done].
    destruct (head (onlinePlayers room1)); [|done]. by good_chain. }
  destruct (heap w2 !! r) as [room2|]; [|done]. step_simpl. intros [= <-].
  case_decide; [|done]. by good_chain.
Qed.

Lemma good_run_task task now w w' X :
  run_task task now X = Some w' -> good_step w X -> good_step w w'.
Proof.
  intros Hr HX. eapply good_trans; [exact HX|]. clear HX. revert Hr.
  destruct task as [r p|r p|r|r|r|c]; simpl.
  - destruct (heap X !! r); [|done]. step_simpl. intros [= <-]. good_chain.
  - destruct (heap X !! r); [|done]. step_simpl. intros [= <-]. good_chain.
  - apply good_endRound.
  - intros Hs. eapply good_trans; [|by eapply good_startRound]. good_chain.
  - apply good_endGame.
  - destruct (rooms_get c X) as [[r room]|]; [|intros [= <-]; good_chain].
    case_decide; intros [= <-]; [|good_chain].
    eapply good_trans; [apply good_clearTimers|]. apply good_set_rooms.
    intros c' r' Hc'. apply lookup_delete_Some in Hc' as [_ Hc'].
    by rewrite rooms_clearTimers.
Qed.

Lemma good_fire t now w w' : fire t now w = Some w' -> good_step w w'.
Proof.
  unfold fire. destruct (timers w !! t) as [[d task]|]; [|intros [= <-]; good_chain].
  intros Hr. eapply good_run_task; [exact Hr|]. good_chain.
Qed.

Lemma good_step_step (w w' : World) (i : Input) : step w i = Some w' -> good_step w w'.
Proof.
  destruct i; simpl.
  - intros [= <-]. apply good_create_room.
  - intros [= <-]. apply good_upload.
  - intros [= <-]. apply good_host_join.
  - apply good_join_room.
  - apply good_start_game.
  - apply good_submit_guess.
  - apply good_next_round.
  - apply good_disconnect.
  - apply good_fire.
Qed.

Lemma good_run (inputs : list Input) (w w' : World) :
  run w inputs = Some w' -> good_step w w'.
Proof.
  revert w. induction inputs as [|i inputs IH]; intros w; simpl.
  - intros [= <-]. apply good_refl.
  - destruct (step w i) as [w1|] eqn:E; [|done]. simpl. intros Hr.
    eapply good_trans; [by eapply good_step_step | by apply IH].
Qed.

Lemma initial_world_ok : world_ok initial_world.
Proof. split; simpl; intros *; try (rewrite lookup_empty); done. Qed.

(** Every reachable state satisfies the invariant. *)
Lemma reachable_ok (w : World) : reachable w -> world_ok w.
Proof. intros [inputs Hr]. apply (good_run inputs _ _ Hr), initial_world_ok. Qed.

End HandlersKeep.

(** *** The sample run *)

Ltac by_evaluation := vm_compute; reflexivity.
Ltac not_member :=
  match goal with |- ~ ?P => apply (bool_decide_eq_false_1 P); vm_compute; reflexivity end.
Ltac is_member :=
  match goal with |- ?P => apply (bool_decide_eq_true_1 P); vm_compute; reflexivity end.

Lemma submit_guess_wrong_witness :
  exists w',
    submit_guess (H := ascii_builtins) (js "socket-ann") demo_code (js "pizza") 5000
      demo_world = Some w' /\
    emitted w' = emitted demo_world ++
      [(socket_emit (js "socket-ann"), guess_result_wrong (js "pizza"))] /\
    heap w' = heap demo_world.
Proof.
  destruct (submit_guess_wrong (H := ascii_builtins) demo_world (js "socket-ann")
              demo_code (js "pizza") 5000 0 (demo_room demo_world) (js "a1a1a1a1")
              (demo_player demo_world "a1a1a1a1") (demo_puzzle "The Eiffel Tower"))
    as (w' & H1 & H2 & _ & H4 & _).
  - unfold may_guess. split; [by_evaluation|]. split; [by_evaluation|].
    split; [by_evaluation|]. split; by_evaluation.
  - not_member.
  - by_evaluation.
  - exists w'. split; [exact H1|]. split; [exact H2 | exact H4].
Defined.

Lemma duplicate_guess_dropped_witness :
  submit_guess (H := ascii_builtins) (js "socket-ann") demo_code
    (js "The Eiffel Tower") 7000 demo_answered = Some demo_answered.
Proof.
  destruct (duplicate_guess_dropped (H := ascii_builtins) demo_answered
              (js "socket-ann") demo_code 0 (demo_room demo_answered) (js "a1a1a1a1"))
    as [H1 _].
  - by_evaluation.
  - by_evaluation.
  - by_evaluation.
  - is_member.
  - apply H1.
Defined.

Lemma partial_guess_consumes_round_witness :
  exists w',
    submit_guess (H := ascii_builtins) (js "socket-bob") demo_code (js "aiffal tuwar")
      7000 demo_answered = Some w' /\
    player_score w' 0 (js "b2b2b2b2") = Some 267%Z /\
    submit_guess (H := ascii_builtins) (js "socket-bob") demo_code
      (js "The Eiffel Tower") 8000 w' = Some w'.
Proof.
  destruct (partial_guess_consumes_round (H := ascii_builtins) demo_answered
              (js "socket-bob") demo_code (js "aiffal tuwar") 7000 0
              (demo_room demo_answered) (js "b2b2b2b2")
              (demo_player demo_answered "b2b2b2b2") (demo_puzzle "The Eiffel Tower"))
    as (w' & room' & p' & H1 & H2 & H3 & H4 & _ & _ & H7 & _).
  - unfold may_guess. split; [by_evaluation|]. split; [by_evaluation|].
    split; [by_evaluation|]. split; by_evaluation.
  - not_member.
  - by_evaluation.
  - exists w'. split; [exact H1|]. split; [|apply H7].
    unfold player_score. rewrite H2. simpl. rewrite H3. simpl. rewrite H4.
    by_evaluation.
Defined.

(** ** The registry *)

Lemma generateRoomCode_eq (rand : nat -> nat) :
  generateRoomCode rand =
    (fun i => chars !!! (rand i `mod` length chars)) <$> seq 0 6.
Proof. reflexivity. Qed.

Lemma chars_lookup (k : nat) : chars !!! (k `mod` length chars) ∈ chars.
Proof.
  apply list_elem_of_lookup_total_2.
  apply Nat.mod_upper_bound. by vm_compute.
Qed.

(** The code drawn by two calls with the same random draws is the same,
    and the second room takes the place of the first. *)
Lemma create_room_reuses_code :
  ~ codes_never_reused (H := ascii_builtins) /\
  let w1 := create_room (fun _ => 0) initial_world in
  let w2 := create_room (fun _ => 0) w1 in
  rooms w1 !! demo_code = Some 0 /\ rooms w2 !! demo_code = Some 1 /\
  dom (rooms w2) = {[demo_code]}.
Proof.
  split.
  - intros Hc.
    specialize (Hc (create_room (fun _ => 0) initial_world) (fun _ => 0)).
    assert (Hr : reachable (H := ascii_builtins) (create_room (fun _ => 0) initial_world)).
    { by exists [CreateRoom (fun _ => 0)]. }
    specialize (Hc Hr). vm_compute in Hc. discriminate.
  - cbv zeta. split; [vm_compute; reflexivity|]. split; [vm_compute; reflexivity|].
    apply leibniz_equiv. intros c. rewrite elem_of_dom, elem_of_singleton.
    unfold create_room, emit, set_rooms, set_heap. simpl.
    fold demo_code. rewrite insert_insert_eq, lookup_insert. case_decide as E.
    + split; [done | by eauto].
    + rewrite lookup_empty. split; [by intros [? ?] | done].
Qed.

(** Claim C8, amended. [create-room] draws six characters from the
    alphabet of 32 and stores a new room in the [setup] state under that
    code; the rooms under every other code, and every room object there
    is, stay as they are, and no room is replaced when the code drawn is
    not in the registry. *)
Theorem create_room_registry (rand : nat -> nat) (w : World) :
  let roomCode := generateRoomCode rand in
  let w' := create_room rand w in
  let r := fresh (dom (heap w)) in
  length roomCode = 6 /\
  Forall (fun c => c ∈ chars) roomCode /\
  heap w !! r = None /\
  rooms_get roomCode w' = Some (r, new_room roomCode) /\
  (forall c, c <> roomCode -> rooms w' !! c = rooms w !! c) /\
  (forall r', is_Some (heap w !! r') -> heap w' !! r' = heap w !! r') /\
  (rooms w !! roomCode = None ->
   forall c r', rooms w !! c = Some r' -> rooms w' !! c = Some r') /\
  timers w' = timers w.
Proof.
  cbv zeta.
  assert (Hfresh : heap w !! fresh (dom (heap w)) = None).
  { apply not_elem_of_dom. apply is_fresh. }
  split; [by rewrite generateRoomCode_eq, length_fmap, length_seq|].
  split.
  { rewrite generateRoomCode_eq. apply Forall_fmap, Forall_forall.
    intros i _. apply chars_lookup. }
  split; [done|].
  split.
  { apply rooms_get_Some. unfold create_room, emit, set_rooms, set_heap. simpl.
    by rewrite !lookup_insert_eq. }
  split.
  { intros c Hne. unfold create_room, emit, set_rooms, set_heap. simpl.
    by rewrite lookup_insert_ne. }
  split.
  { intros r' [room Hr']. unfold create_room, emit, set_rooms, set_heap. simpl.
    rewrite lookup_insert_ne; [done|]. congruence. }
  split; [|done].
  intros Hnone c r' Hc. unfold create_room, emit, set_rooms, set_heap. simpl.
  rewrite lookup_insert_ne; [done|]. congruence.
Qed.

(** ** The end of a round *)

Lemma run_demo_reachable (inputs : list Input) :
  is_Some (run (H := ascii_builtins) initial_world inputs) ->
  reachable (H := ascii_builtins) (run_demo inputs).
Proof. intros [w Hw]. exists inputs. unfold run_demo. by rewrite Hw. Qed.

(** A player who answers and disconnects stays in [roundAnswered], and a
    disconnection after which every online player has answered does not
    end the round. *)
Lemma disconnect_keeps_round :
  ~ answered_subset_online (H := ascii_builtins) /\
  ~ round_ends_when_all_answered (H := ascii_builtins).
Proof.
  split.
  - intros Hc.
    assert (Hn : ~ roundAnswered (demo_room demo_ann_left) ⊆
                   online_ids (demo_room demo_ann_left)).
    { apply (bool_decide_eq_false_1 _). vm_compute. reflexivity. }
    apply Hn, (Hc demo_ann_left 0).
    + apply run_demo_reachable. vm_compute. eauto.
    + vm_compute. reflexivity.
  - intros Hc.
    assert (Hfalse : existsb (is_round_end (code (demo_room demo_bob_left)))
                       (new_events demo_answered demo_bob_left) = false)
      by (vm_compute; reflexivity).
    rewrite (Hc demo_answered (Disconnect (js "socket-bob")) demo_bob_left 0
               (demo_room demo_answered) (demo_room demo_bob_left)) in Hfalse;
      [discriminate| | | | | | |].
    + apply run_demo_reachable. vm_compute. eauto.
    + vm_compute. reflexivity.
    + vm_compute. reflexivity.
    + vm_compute. reflexivity.
    + vm_compute. reflexivity.
    + apply (bool_decide_eq_false_1 _). vm_compute. reflexivity.
    + apply (bool_decide_eq_true_1 _). vm_compute. reflexivity.
Qed.

Lemma allAnswered_spec (room : Room) :
  allAnswered room = true <->
  forall p, p ∈ onlinePlayers room -> id p ∈ roundAnswered room.
Proof.
  unfold allAnswered. rewrite forallb_forall. split.
  - intros Hall p Hp. apply list_elem_of_In in Hp. apply Hall in Hp.
    by apply bool_decide_eq_true_1 in Hp.
  - intros Hall p Hp. apply list_elem_of_In in Hp. apply bool_decide_eq_true_2. auto.
Qed.

Lemma same_game_allAnswered (room room' : Room) :
  same_game room room' -> allAnswered room' = allAnswered room.
Proof.
  intros (_&_&_&_&Hp&_&_&_&_&_&_&Ha). unfold allAnswered, onlinePlayers.
  by rewrite Hp, Ha.
Qed.

Lemma new_events_app (w w' : World) (es : list (Target * Event)) :
  emitted w' = emitted w ++ es -> new_events w w' = es.
Proof. intros E. unfold new_events. by rewrite E, drop_app_length. Qed.

Section EarlyEnd.
Context `{JSBuiltins}.

(** Claim C4, amended. In every reachable state [roundAnswered] holds
    players of the room, online or not; and when a guess that scores leaves
    every online player in [roundAnswered], the handler ends the round at
    once, whatever time remains: it sends [round-end] and clears every
    timeout that the room kept, the round timer among them, before any of
    them can run. *)
Theorem answered_players_and_early_end (w : World) :
  reachable w ->
  (forall r room, heap w !! r = Some room ->
     roundAnswered room ⊆ dom (players room)) /\
  (forall sock roomCode guess now r room pid player puzzle,
     may_guess w sock roomCode r room pid player puzzle ->
     pid ∉ roundAnswered room ->
     match_ (checkGuess guess (answer puzzle)) <> wrong ->
     exists w' room',
       submit_guess sock roomCode guess now w = Some w' /\
       heap w' !! r = Some room' /\
       roundAnswered room' = {[pid]} ∪ roundAnswered room /\
       ((forall p, p ∈ onlinePlayers room' -> id p ∈ roundAnswered room') ->
        existsb (is_round_end (code room)) (new_events w w') = true /\
        (forall t, tracks room t -> timers w' !! t = None) /\
        (forall t d, timers w' !! t = Some (d, round_end_task r) -> False))).
Proof.
  intros Hreach. pose proof (reachable_ok w Hreach) as Hok. split.
  - apply Hok.
  - intros sock roomCode guess now r room pid player puzzle Hmay Hna Hscore.
    destruct (submit_guess_scored w sock roomCode guess now r room pid player puzzle
                Hmay Hna Hscore) as (w' & room' & Hs & _ & _ & _ & Hr & Hgame & _ & Hend).
    exists w', room'. split; [done|]. split; [done|].
    split. { by destruct Hgame as (_&_&_&_&_&_&_&_&_&_&_&Ha). }
    intros Hall. apply allAnswered_spec in Hall.
    rewrite (same_game_allAnswered _ _ Hgame) in Hall.
    destruct (Hend Hall) as (He & _ & _ & Ht & (d & task & Hn & Htask)).
    destruct Hmay as (Hget & _). apply rooms_get_Some in Hget as [_ Hh].
    split; [|split].
    + rewrite (new_events_app _ _ _ He). rewrite existsb_app.
      apply orb_true_iff. right. simpl.
      by rewrite bool_decide_eq_true_2.
    + intros t Htr. pose proof (ok_handles w Hok r room t Hh Htr) as Hlt.
      rewrite Ht by lia. by rewrite decide_True.
    + intros t d' Ht'. destruct (decide (t = next_timer w)) as [->|Hne].
      * rewrite Hn in Ht'. destruct Htask as [->| ->]; by simplify_eq.
      * rewrite Ht in Ht' by done. case_decide as Htr; [done|].
        destruct (ok_tracked w Hok t d' (round_end_task r) r Ht' eq_refl)
          as (room0 & Hroom0 & Htr0).
        by simplify_eq.
Qed.

End EarlyEnd.

Lemma answered_players_and_early_end_witness :
  roundAnswered (demo_room demo_answered) ⊆ dom (players (demo_room demo_answered)) /\
  exists w',
    submit_guess (H := ascii_builtins) (js "socket-bob") demo_code
      (js "the eiffel tower") 7000 demo_answered = Some w' /\
    existsb (is_round_end demo_code) (new_events demo_answered w') = true.
Proof.
  destruct (answered_players_and_early_end (H := ascii_builtins) demo_answered)
    as [H1 H2].
  - apply run_demo_reachable. vm_compute. eauto.
  - split; [apply (H1 0); vm_compute; reflexivity|].
    destruct (H2 (js "socket-bob") demo_code (js "the eiffel tower") 7000%Z 0
                (demo_room demo_answered) (js "b2b2b2b2")
                (demo_player demo_answered "b2b2b2b2") (demo_puzzle "The Eiffel Tower"))
      as (w' & room' & Hs & Hr & Ha & Hend).
    + unfold may_guess. split; [by_evaluation|]. split; [by_evaluation|].
      split; [by_evaluation|]. split; by_evaluation.
    + not_member.
    + vm_compute. discriminate.
    + exists w'. split; [exact Hs|].
      assert (Hw : w' = run_demo demo_round_over).
      { apply (inj Some). rewrite <- Hs. vm_compute. reflexivity. }
      apply Hend. intros p Hp. rewrite Ha.
      assert (Hroom : room' = demo_room (run_demo demo_round_over)).
      { apply (inj Some). rewrite <- Hr, Hw. vm_compute. reflexivity. }
      rewrite Hroom in Hp. revert p Hp. apply Forall_forall.
      apply (bool_decide_eq_true_1 _). vm_compute. reflexivity.
Defined.

(** ** Timeouts of a round *)

Lemma cancelled_fresh (t : nat) (w w' : World) :
  timers_fresh w w' -> cancelled t w -> cancelled t w'.
Proof. intros [Hle Hf] [Hlt Hn]. split; [lia | by apply Hf]. Qed.

Lemma cancelled_endRound (r t : nat) (X w' : World) (room : Room) :
  heap X !! r = Some room -> tracks room t -> t < next_timer X ->
  endRound r X = Some w' -> cancelled t w'.
Proof.
  intros E Htr Hlt He.
  destruct (endRound_inv r X w' He) as (room0 & puzzle & E0 & Hp).
  assert (room0 = room) as -> by congruence.
  destruct (endRound_spec r X room puzzle E Hp) as (w'' & He' & _ & _ & N & _ & _ & _ & P & _).
  assert (w'' = w') as -> by congruence.
  split; [lia|]. rewrite P by lia. by rewrite decide_True.
Qed.

Lemma cancelled_startRound (r t : nat) (now : Z) (X w' : World) (room : Room) :
  heap X !! r = Some room -> tracks room t -> t < next_timer X ->
  startRound r now X = Some w' -> cancelled t w'.
Proof.
  intros E Htr Hlt Hs.
  destruct (startRound_spec r now X w' Hs) as
    (room0 & puzzle & room' & E0 & _ & _ & _ & N & _ & _ & _ & _ & _ & _ & _ & _ & _ & _ & _ &
     _ & _ & _ & _ & _ & P).
  assert (room0 = room) as -> by congruence.
  split; [lia|]. rewrite P by lia. by rewrite decide_True.
Qed.

Lemma cancelled_clearTimers (r t : nat) (X : World) (room : Room) :
  heap X !! r = Some room -> tracks room t -> t < next_timer X ->
  cancelled t (clearTimers r X).
Proof.
  intros E Htr Hlt.
  destruct (clearTimers_spec r X room E) as (_ & _ & _ & N & _ & _ & P).
  cbv zeta in *. split; [lia|]. rewrite P. by rewrite decide_True.
Qed.

Lemma cancelled_endGame (r t : nat) (X w' : World) (room : Room) :
  heap X !! r = Some room -> tracks room t -> t < next_timer X ->
  endGame r X = Some w' -> cancelled t w'.
Proof.
  intros E Htr Hlt. unfold endGame.
  destruct (heap (update_room r (set_state finished) (clearTimers r X)) !! r); [|done].
  step_simpl. intros [= <-].
  by apply (cancelled_clearTimers r t X room).
Qed.

(** *** Where hints come from *)

Lemma no_hint_refl (w : World) : no_hint_sent w w.
Proof. exists []. by rewrite app_nil_r. Qed.

Lemma no_hint_trans (w1 w2 w3 : World) :
  no_hint_sent w1 w2 -> no_hint_sent w2 w3 -> no_hint_sent w1 w3.
Proof.
  intros (es1 & E1 & H1) (es2 & E2 & H2). exists (es1 ++ es2).
  split; [by rewrite E2, E1, app_assoc|]. by rewrite existsb_app, H1, H2.
Qed.

Lemma no_hint_same (w w' : World) : emitted w' = emitted w -> no_hint_sent w w'.
Proof. intros E. exists []. by rewrite app_nil_r. Qed.

Lemma no_hint_emit_r (w X : World) (to : Target) (e : Event) :
  is_hint_event (to, e) = false -> no_hint_sent w X -> no_hint_sent w (emit to e X).
Proof.
  intros He HX. eapply no_hint_trans; [exact HX|].
  exists [(to, e)]. split; [by autorewrite with world|]. simpl. by rewrite He.
Qed.

Lemma no_hint_same_r (w X X' : World) :
  emitted X' = emitted X -> no_hint_sent w X -> no_hint_sent w X'.
Proof. intros E HX. eapply no_hint_trans; [exact HX|]. by apply no_hint_same. Qed.

Lemma emitted_clearTimers (r : nat) (w : World) : emitted (clearTimers r w) = emitted w.
Proof.
  destruct (heap w !! r) as [room|] eqn:E.
  - by destruct (clearTimers_spec r w room E) as (_ & _ & M & _).
  - by rewrite clearTimers_None.
Qed.

Lemma no_hint_new_events (w w' : World) (c : jsstring) :
  no_hint_sent w w' -> existsb (is_hint c) (new_events w w') = false.
Proof.
  intros (es & E & Hes). rewrite (new_events_app _ _ _ E).
  apply not_true_is_false. intros Hex. apply existsb_exists in Hex as (e & He & Hh).
  assert (Hn : existsb is_hint_event es = true).
  { apply existsb_exists. exists e. split; [done|].
    destruct e as [[?|[?|]|] []]; solve [done | reflexivity]. }
  congruence.
Qed.

Ltac no_hint_chain :=
  repeat first
    [ apply no_hint_refl
    | apply no_hint_emit_r; [reflexivity|]
    | eapply no_hint_same_r;
        [ first [ apply emitted_update_room | apply emitted_update_socket
                | apply emitted_setTimeout | apply emitted_clearTimeout
                | apply emitted_clearTimers ] | ] ].

Lemma no_hint_endRound (r : nat) (w w' : World) :
  endRound r w = Some w' -> no_hint_sent w w'.
Proof.
  intros He. destruct (endRound_inv r w w' He) as (room & puzzle & E & Hp).
  destruct (endRound_spec r w room puzzle E Hp) as (w'' & He' & _ & _ & _ & M & _).
  assert (w'' = w') as -> by congruence. by eexists.
Qed.

Lemma no_hint_startRound (r : nat) (now : Z) (w w' : World) :
  startRound r now w = Some w' -> no_hint_sent w w'.
Proof.
  intros Hs. destruct (startRound_spec r now w w' Hs) as
    (room & puzzle & room' & _ & _ & _ & _ & _ & _ & _ & _ & _ & _ & _ & _ & _ & _ & _ & _ &
     _ & M & _).
  by eexists.
Qed.

Lemma no_hint_endGame (r : nat) (w w' : World) :
  endGame r w = Some w' -> no_hint_sent w w'.
Proof.
  unfold endGame.
  destruct (heap (update_room r (set_state finished) (clearTimers r w)) !! r); [|done].
  step_simpl. intros [= <-]. no_hint_chain.
Qed.

Lemma no_hint_create_room (rand : nat -> nat) (w : World) :
  no_hint_sent w (create_room rand w).
Proof. unfold create_room. no_hint_chain. by apply no_hint_same. Qed.

Lemma no_hint_upload (c : jsstring) (ps : list Puzzle) (w : World) :
  no_hint_sent w (upload c ps w).
Proof. unfold upload. destruct (rooms_get c w) as [[r room]|]; no_hint_chain. Qed.

Section HintsFromCallbacks.
Context `{JSBuiltins}.

Lemma no_hint_host_join sock c sid w : no_hint_sent w (host_join sock c sid w).
Proof.
  unfold host_join. destruct (rooms_get c w) as [[r room]|]; no_hint_chain.
Qed.

Lemma no_hint_emit_player_joined r c n w w' X :
  emit_player_joined r c n X = Some w' -> no_hint_sent w X -> no_hint_sent w w'.
Proof.
  unfold emit_player_joined. destruct (heap X !! r); [|done]. step_simpl.
  intros [= <-] HX. by no_hint_chain.
Qed.

Lemma no_hint_join_room sock c n sid now u1 u2 w w' :
  join_room sock c n sid now u1 u2 w = Some w' -> no_hint_sent w w'.
Proof.
  unfold join_room. destruct (rooms_get (toUpperCase c) w) as [[r room]|];
    [|intros [= <-]; no_hint_chain].
  case_decide; [intros [= <-]; no_hint_chain|].
  destruct (session_player room sid) as [[pid p]|].
  - set (w1 := emit _ _ (join_socket _ _ _ _ (update_room _ _ w))).
    assert (G1 : no_hint_sent w w1).
    { subst w1. unfold join_socket. no_hint_chain. }
    case_decide.
    + destruct (puzzles room !! currentRound room) as [puzzle|]; [|done].
      step_simpl. intros Hj. eapply no_hint_emit_player_joined; [exact Hj|].
      case_decide; by no_hint_chain.
    + step_simpl. intros Hj. by eapply no_hint_emit_player_joined.
  - intros Hj. eapply no_hint_emit_player_joined; [exact Hj|].
    unfold join_socket. no_hint_chain.
Qed.

Lemma no_hint_start_game sock c rounds tpr now w w' :
  start_game sock c rounds tpr now w = Some w' -> no_hint_sent w w'.
Proof.
  unfold start_game. destruct (rooms_get c w) as [[r room]|];
    [|intros [= <-]; no_hint_chain].
  case_decide; [|intros [= <-]; no_hint_chain].
  intros Hs. eapply no_hint_trans; [|by eapply no_hint_startRound].
  no_hint_chain.
Qed.

Lemma no_hint_submit_guess sock c guess now w w' :
  submit_guess sock c guess now w = Some w' -> no_hint_sent w w'.
Proof.
  unfold submit_guess. destruct (rooms_get c w) as [[r room]|];
    [|intros [= <-]; no_hint_chain].
  case_decide; [intros [= <-]; no_hint_chain|].
  destruct (playerId (socket_of sock w)) as [pid|]; [|intros [= <-]; no_hint_chain].
  destruct (players room !! pid) as [player|]; [|intros [= <-]; no_hint_chain].
  case_decide; [intros [= <-]; no_hint_chain|].
  destruct (puzzles room !! currentRound room) as [puzzle|]; [|done]. step_simpl.
  case_decide; [intros [= <-]; no_hint_chain|].
  destruct (heap (update_room r _ w) !! r) as [room1|]; [|done]. step_simpl.
  destruct (allAnswered room1).
  - intros He. eapply no_hint_trans; [|by eapply no_hint_endRound]. no_hint_chain.
  - intros [= <-]. no_hint_chain.
Qed.

Lemma no_hint_next_round sock c now w w' :
  next_round sock c now w = Some w' -> no_hint_sent w w'.
Proof.
  unfold next_round. destruct (rooms_get c w) as [[r room]|];
    [|intros [= <-]; no_hint_chain].
  case_decide; [|intros [= <-]; no_hint_chain].
  case_bool_decide.
  - apply no_hint_endGame.
  - intros Hs. eapply no_hint_trans; [|by eapply no_hint_startRound]. no_hint_chain.
Qed.

Lemma no_hint_disconnect sock w w' :
  disconnect sock w = Some w' -> no_hint_sent w w'.
Proof.
  unfold disconnect.
  destruct (truthy (roomCode (socket_of sock w))) as [c|]; [|intros [= <-]; no_hint_chain].
  destruct (rooms_get c w) as [[r room]|]; [|intros [= <-]; no_hint_chain].
  set (ph1 := match _ with Some (playerId, p) => _ | None => Some w end).
  assert (H1 : forall w1, ph1 = Some w1 -> no_hint_sent w w1).
  { subst ph1. intros w1.
    destruct (truthy (playerId (socket_of sock w)) ≫= _) as [[pid p]|];
      [|intros [= <-]; no_hint_chain].
    destruct (heap (update_room r _ w) !! r) as [room1|]; [|done]. step_simpl.
    intros [= <-]. no_hint_chain. }
  destruct ph1 as [w1|]; [|done]. specialize (H1 w1 eq_refl). step_simpl.
  destruct (heap w1 !! r) as [room1|]; [|done]. step_simpl.
  set (w2 := if isHost (socket_of sock w1) then _ else w1).
  assert (H2 : no_hint_sent w w2).
  { subst w2. destruct (isHost (socket_of sock w1)); [|done].
    destruct (head (onlinePlayers room1)); [|done]. by no_hint_chain. }
  destruct (heap w2 !! r) as [room2|]; [|done]. step_simpl. intros [= <-].
  case_decide; [|done]. by no_hint_chain.
Qed.

Lemma no_hint_run_task task now w w' X :
  is_hint_task task = false ->
  run_task task now X = Some w' -> no_hint_sent w X -> no_hint_sent w w'.
Proof.
  intros Htask Hr HX. eapply no_hint_trans; [exact HX|]. clear HX. revert Hr.
  destruct task as [r p|r p|r|r|r|c]; simpl; try done.
  - apply no_hint_endRound.
  - intros Hs. eapply no_hint_trans; [|by eapply no_hint_startRound]. no_hint_chain.
  - apply no_hint_endGame.
  - destruct (rooms_get c X) as [[r room]|]; [|intros [= <-]; no_hint_chain].
    case_decide; intros [= <-]; [|no_hint_chain].
    apply no_hint_same. simpl. apply emitted_clearTimers.
Qed.

(** A step sends a hint only by running a pending hint callback. *)
Lemma hint_from_callback (w w' : World) (i : Input) (c : jsstring) :
  step w i = Some w' ->
  existsb (is_hint c) (new_events w w') = true ->
  exists t now d task,
    i = Timeout t now /\ timers w !! t = Some (d, task) /\ is_hint_task task = true.
Proof.
  intros Hstep Hex.
  destruct i; simpl in Hstep;
    try (exfalso; apply eq_true_false_abs in Hex; [done|];
         apply no_hint_new_events;
         first [ injection Hstep as <-;
                 first [apply no_hint_create_room | apply no_hint_upload
                       | apply no_hint_host_join]
               | by eapply no_hint_join_room
               | by eapply no_hint_start_game
               | by eapply no_hint_submit_guess
               | by eapply no_hint_next_round
               | by eapply no_hint_disconnect ]).
  unfold fire in Hstep. destruct (timers w !! t) as [[d task]|] eqn:Ht.
  - destruct (is_hint_task task) eqn:Htask; [by eauto 10|].
    exfalso. apply eq_true_false_abs in Hex; [done|]. apply no_hint_new_events.
    eapply no_hint_run_task; [exact Htask|exact Hstep|]. no_hint_chain.
  - injection Hstep as <-. unfold new_events in Hex. by rewrite drop_all in Hex.
Qed.

End HintsFromCallbacks.

Section Cancellation.
Context `{JSBuiltins}.

Lemma submit_guess_round_end (w w' : World) (sock c guess : jsstring) (now : Z)
    (r : nat) (room : Room) :
  rooms_get c w = Some (r, room) ->
  submit_guess sock c guess now w = Some w' ->
  existsb (is_round_end (code room)) (new_events w w') = true ->
  exists X room1, heap X !! r = Some room1 /\
    roundTimer room1 = roundTimer room /\ hintTimers room1 = hintTimers room /\
    next_timer X = next_timer w /\ endRound r X = Some w'.
Proof.
  intros Hget. unfold submit_guess. rewrite Hget.
  assert (Hnone : Some w = Some w' ->
            existsb (is_round_end (code room)) (new_events w w') = true -> False).
  { intros [= <-]. unfold new_events. by rewrite drop_all. }
  case_decide; [intros ??; exfalso; auto|].
  destruct (playerId (socket_of sock w)) as [pid|]; [|intros ??; exfalso; auto].
  destruct (players room !! pid) as [player|]; [|intros ??; exfalso; auto].
  case_decide; [intros ??; exfalso; auto|].
  destruct (puzzles room !! currentRound room) as [puzzle|]; [|done]. step_simpl.
  case_decide.
  { intros [= <-]. rewrite (new_events_app w _ [(socket_emit sock, guess_result_wrong guess)])
      by done. done. }
  apply rooms_get_Some in Hget as [_ Hh].
  set (X0 := update_room r _ w).
  assert (E0 : exists room1, heap X0 !! r = Some room1 /\
            roundTimer room1 = roundTimer room /\ hintTimers room1 = hintTimers room).
  { eexists. split; [subst X0; by apply heap_update_room_eq|]. by split. }
  destruct E0 as (room1 & E1 & T1 & HT1). rewrite E1. step_simpl.
  destruct (allAnswered room1).
  - intros He _. eexists _, room1. split; [|split; [done|split; [done|split; [|exact He]]]];
      by autorewrite with world.
  - intros [= <-] Hex. exfalso. revert Hex.
    erewrite new_events_app; [|by autorewrite with world; rewrite <- !app_assoc].
    done.
Qed.

(** Claim C6, amended. When a step takes a room out of its round, every
    callback of that room that was pending (the two hints and the round
    timer, or the timer of the pause) is cleared or has run by the end of
    the step. It is never pending again, and the event loop that is asked
    to run it does nothing. A hint is only ever sent by a pending hint
    callback, so every hint sent later comes from another callback. *)
Theorem round_callbacks_cancelled (w w' : World) (i : Input) (r : nat) :
  reachable w -> step w i = Some w' -> leaves_round w i w' r ->
  forall t d task,
    timers w !! t = Some (d, task) -> task_room task = Some r ->
    cancelled t w' /\
    forall inputs w'',
      run w' inputs = Some w'' ->
      cancelled t w'' /\
      (forall now, fire t now w'' = Some w'') /\
      (forall i' w3 c,
         step w'' i' = Some w3 ->
         existsb (is_hint c) (new_events w'' w3) = true ->
         exists t' now d' task',
           i' = Timeout t' now /\ t' <> t /\
           timers w'' !! t' = Some (d', task') /\ is_hint_task task' = true).
Proof.
  intros Hreach Hstep Hleave t d task Ht Hr.
  pose proof (reachable_ok w Hreach) as Hok.
  destruct (ok_tracked w Hok t d task r Ht Hr) as (room & Hh & Htr).
  pose proof (ok_handles w Hok r room t Hh Htr) as Hlt.
  assert (Hc : cancelled t w').
  { destruct i; simpl in Hleave, Hstep; try done.
    - (* start-game *)
      destruct Hleave as (room0 & Hget & Hhost). revert Hstep.
      unfold start_game. rewrite Hget, decide_True by done.
      apply rooms_get_Some in Hget as [_ Hh0]. assert (room0 = room) as -> by congruence.
      intros Hs. eapply cancelled_startRound; [| | |exact Hs].
      + by apply heap_update_room_eq.
      + done.
      + done.
    - (* submit-guess *)
      destruct Hleave as (room0 & Hget & Hex).
      destruct (submit_guess_round_end _ _ _ _ _ _ _ _ Hget Hstep Hex)
        as (X & room1 & E1 & T1 & HT1 & N & He).
      apply rooms_get_Some in Hget as [_ Hh0]. assert (room0 = room) as -> by congruence.
      eapply cancelled_endRound; [exact E1| |lia|exact He].
      unfold tracks. by rewrite T1, HT1.
    - (* next-round *)
      destruct Hleave as (room0 & Hget & Hhost). revert Hstep.
      unfold next_round. rewrite Hget, decide_True by done.
      apply rooms_get_Some in Hget as [_ Hh0]. assert (room0 = room) as -> by congruence.
      case_bool_decide.
      + by apply (cancelled_endGame r t w w' room).
      + intros Hs. eapply cancelled_startRound; [| | |exact Hs].
        * by apply heap_update_room_eq.
        * done.
        * done.
    - (* a timeout *)
      destruct Hleave as (d0 & task0 & Ht0 & Htask). revert Hstep.
      unfold fire. rewrite Ht0.
      assert (HX : heap (clearTimeout t0 w) !! r = Some room) by done.
      assert (NX : t < next_timer (clearTimeout t0 w)) by done.
      destruct Htask as [->|[->|[->|(c & room0 & -> & Hget & Hnone)]]]; simpl.
      + by apply (cancelled_endRound r t _ w' room).
      + intros Hs. eapply cancelled_startRound; [| | |exact Hs].
        * by apply heap_update_room_eq.
        * done.
        * done.
      + by apply (cancelled_endGame r t _ w' room).
      + assert (Hget' : rooms_get c (clearTimeout t0 w) = Some (r, room0)) by done.
        rewrite Hget'. rewrite decide_True by done. intros [= <-].
        by apply (cancelled_clearTimers r t _ room). }
  split; [done|].
  intros inputs w'' Hrun.
  assert (Hc' : cancelled t w'').
  { eapply cancelled_fresh; [|exact Hc]. by apply (good_run inputs). }
  split; [done|]. split.
  - intros now. unfold fire. destruct Hc' as [_ ->]. done.
  - intros i' w3 c Hstep' Hex.
    destruct (hint_from_callback w'' w3 i' c Hstep' Hex)
      as (t' & now & d' & task' & -> & Ht' & Hhint).
    exists t', now, d', task'. split; [done|]. split; [|done].
    intros ->. destruct Hc' as [_ Hn]. congruence.
Qed.

End Cancellation.

(** *** The sample run, continued *)

(** A player who joins during the pause after an early end of the round,
    and whose guess scores, ends the same round a second time: [round-end]
    is sent again, for the same round number and the same start time. *)
Lemma late_guess_repeats_round_end :
  ~ round_end_delivered_once (H := ascii_builtins) /\
  length (List.filter (is_round_end demo_code)
            (emitted (run_demo (demo_round_over ++ demo_late_guess)))) = 2.
Proof.
  split; [|by_evaluation].
  intros Hc.
  assert (Htrue : existsb (is_round_end (code (demo_room (run_demo demo_round_over))))
                    (new_events (run_demo demo_round_over)
                       (run_demo (demo_round_over ++ demo_late_guess))) = true)
    by by_evaluation.
  rewrite (Hc demo_answered
             (SubmitGuess (js "socket-bob") demo_code (js "the eiffel tower") 7000)
             (run_demo demo_round_over) demo_late_guess
             (run_demo (demo_round_over ++ demo_late_guess)) 0
             (demo_room (run_demo demo_round_over))
             (demo_room (run_demo (demo_round_over ++ demo_late_guess)))) in Htrue;
    [discriminate| | | | | | | |].
  - apply run_demo_reachable. vm_compute. eauto.
  - by_evaluation.
  - by_evaluation.
  - by_evaluation.
  - by_evaluation.
  - by_evaluation.
  - by_evaluation.
  - by_evaluation.
Qed.

Lemma round_callbacks_cancelled_witness :
  cancelled 1 (run_demo demo_round_over) /\
  cancelled 1 (run_demo (demo_round_over ++ demo_late_guess)) /\
  fire 1 23500 (run_demo (demo_round_over ++ demo_late_guess)) =
    Some (run_demo (demo_round_over ++ demo_late_guess)).
Proof.
  destruct (round_callbacks_cancelled (H := ascii_builtins) demo_answered
              (run_demo demo_round_over)
              (SubmitGuess (js "socket-bob") demo_code (js "the eiffel tower") 7000) 0)
    with (t := 1) (d := 22500%Q) (task := hint2_task 0 (demo_puzzle "The Eiffel Tower"))
    as [Hc Hlater].
  - apply run_demo_reachable. vm_compute. eauto.
  - by_evaluation.
  - exists (demo_room demo_answered). split; by_evaluation.
  - by_evaluation.
  - reflexivity.
  - split; [exact Hc|].
    destruct (Hlater demo_late_guess (run_demo (demo_round_over ++ demo_late_guess)))
      as (Hc' & Hfire & _); [by_evaluation|].
    split; [exact Hc' | apply Hfire].
Defined.

(** ** Who changes the score of a player *)

Lemma seat_kept_refl r sid pid w : seat_kept r sid pid w w.
Proof. intros room Hr. exists room. split; [done|]. split; [done|]. intros p Hp. by exists p. Qed.

Lemma seat_kept_trans r sid pid w1 w2 w3 :
  seat_kept r sid pid w1 w2 -> seat_kept r sid pid w2 w3 -> seat_kept r sid pid w1 w3.
Proof.
  intros H1 H2 room Hr. destruct (H1 room Hr) as (room' & Hr' & S1 & P1).
  destruct (H2 room' Hr') as (room'' & Hr'' & S2 & P2).
  exists room''. split; [done|]. split; [by auto|].
  intros p Hp. destruct (P1 p Hp) as (p' & Hp' & ? & ?).
  destruct (P2 p' Hp') as (p'' & Hp'' & ? & ?). exists p''. split; [done|]. split; congruence.
Qed.

Lemma seat_kept_frame r sid pid w w' :
  heap w' !! r = heap w !! r -> seat_kept r sid pid w w'.
Proof.
  intros E room Hr. exists room. rewrite E. split; [done|]. split; [done|].
  intros p Hp. by exists p.
Qed.

Lemma seat_kept_scores r sid pid w w' :
  world_scores_kept w w' -> seat_kept r sid pid w w'.
Proof.
  intros K room Hr. destruct (K r room Hr) as (room' & Hr' & Hs & Hp).
  exists room'. split; [done|]. split; [by rewrite Hs|]. intros p. apply Hp.
Qed.

Lemma clearTimers_scores_kept r w : world_scores_kept w (clearTimers r w).
Proof.
  destruct (heap w !! r) as [room|] eqn:E.
  - destruct (clearTimers_spec r w room E) as (_ & _ & _ & _ & F & (room' & E' & G & _) & _).
    cbv zeta in *. intros r0 room0 Hr0. destruct (decide (r0 = r)) as [->|Hne].
    + exists room'. split; [done|]. simplify_eq.
      destruct G as (_ & _ & _ & _ & Gp & Gs & _). by apply scores_kept_same.
    + exists room0. rewrite F by done. split; [done | apply scores_kept_refl].
  - rewrite clearTimers_None by done. apply world_scores_kept_refl.
Qed.

Section SeatFacts.
Context `{JSBuiltins}.

Lemma endRound_scores_kept r w w' : endRound r w = Some w' -> world_scores_kept w w'.
Proof.
  intros He. destruct (endRound_inv r w w' He) as (room & puzzle & E & Hp).
  destruct (endRound_spec r w room puzzle E Hp)
    as (w'' & He' & _ & _ & _ & _ & F & (room' & E' & G & _) & _).
  assert (w'' = w') as -> by congruence.
  intros r0 room0 Hr0. destruct (decide (r0 = r)) as [->|Hne].
  - exists room'. split; [done|]. simplify_eq.
    destruct G as (_ & _ & _ & _ & Gp & Gs & _). by apply scores_kept_same.
  - exists room0. rewrite F by done. split; [done | apply scores_kept_refl].
Qed.

Lemma startRound_scores_kept r now w w' : startRound r now w = Some w' -> world_scores_kept w w'.
Proof.
  intros Hs. destruct (startRound_spec r now w w' Hs)
    as (room & puzzle & room' & E & _ & _ & _ & _ & F & E' & _ & _ & _ & Hp & _ & _ & _ & _ & _ &
        Hse & _).
  intros r0 room0 Hr0. destruct (decide (r0 = r)) as [->|Hne].
  - exists room'. split; [done|]. simplify_eq. split; [done|].
    intros pid p Hpid. exists (reset_guessed p). rewrite Hp, lookup_fmap, Hpid. done.
  - exists room0. rewrite F by done. split; [done | apply scores_kept_refl].
Qed.

Lemma endGame_scores_kept r w w' : endGame r w = Some w' -> world_scores_kept w w'.
Proof.
  unfold endGame. intros He.
  eapply world_scores_kept_trans; [apply (clearTimers_scores_kept r)|].
  destruct (heap (clearTimers r w) !! r) as [room1|] eqn:E1.
  - rewrite (heap_update_room_eq _ _ _ _ E1) in He. revert He. step_simpl. intros [= <-].
    eapply world_scores_kept_trans; [|by apply world_scores_kept_heap].
    eapply world_scores_kept_update; [done|]. by apply scores_kept_same.
  - revert He. unfold update_room at 1. simpl. rewrite lookup_alter_eq, E1. done.
Qed.

(** The steps that keep every score and every token. *)
Lemma step_scores_kept (w w' : World) (i : Input) :
  match i with
  | JoinRoom _ _ _ _ _ _ _ | StartGame _ _ _ _ _ | SubmitGuess _ _ _ _ => False
  | _ => True
  end ->
  step w i = Some w' -> world_scores_kept w w'.
Proof.
  destruct i as [rand|c ps|sock c sid|sock c n sid now u1 u2|sock c rounds tpr now
                |sock c guess now|sock c now|sock|t now]; simpl; try done; intros _.
  - intros [= <-]. intros r room Hr. exists room. split; [|apply scores_kept_refl].
    unfold create_room, emit, set_rooms, set_heap. simpl.
    rewrite lookup_insert_ne; [done|]. intros <-.
    pose proof (is_fresh (dom (heap w))) as Hf. apply Hf. by apply elem_of_dom.
  - intros [= <-]. unfold upload.
    destruct (rooms_get c w) as [[r room]|] eqn:Hget; [|by apply world_scores_kept_heap].
    apply rooms_get_Some in Hget as [_ Hh].
    eapply world_scores_kept_trans; [|by apply world_scores_kept_heap].
    eapply world_scores_kept_update; [done|]. by apply scores_kept_same.
  - intros [= <-]. unfold host_join.
    destruct (rooms_get c w) as [[r room]|] eqn:Hget; [|by apply world_scores_kept_heap].
    apply rooms_get_Some in Hget as [_ Hh].
    eapply world_scores_kept_trans; [|by apply world_scores_kept_heap].
    eapply world_scores_kept_update; [done|]. by apply scores_kept_same.
  - unfold next_round.
    destruct (rooms_get c w) as [[r room]|] eqn:Hget;
      [|intros [= <-]; apply world_scores_kept_refl].
    apply rooms_get_Some in Hget as [_ Hh].
    case_decide; [|intros [= <-]; apply world_scores_kept_refl].
    case_bool_decide; [apply endGame_scores_kept|].
    intros Hs. apply startRound_scores_kept in Hs.
    eapply world_scores_kept_trans; [|exact Hs].
    eapply world_scores_kept_update; [done|]. by apply scores_kept_same.
  - apply disconnect_scores_kept.
  - unfold fire. destruct (timers w !! t) as [[d task]|];
      [|intros [= <-]; apply world_scores_kept_refl].
    assert (K0 : world_scores_kept w (clearTimeout t w)) by (by apply world_scores_kept_heap).
    destruct task as [r p|r p|r|r|r|c]; simpl.
    + change (heap (clearTimeout t w)) with (heap w).
      destruct (heap w !! r); [|done]. step_simpl. intros [= <-].
      by apply world_scores_kept_heap.
    + change (heap (clearTimeout t w)) with (heap w).
      destruct (heap w !! r); [|done]. step_simpl. intros [= <-].
      by apply world_scores_kept_heap.
    + intros He. apply endRound_scores_kept in He.
      eapply world_scores_kept_trans; [exact K0 | exact He].
    + intros Hs. pose proof Hs as Hs'. apply startRound_scores_kept in Hs.
      eapply world_scores_kept_trans; [exact K0|].
      eapply world_scores_kept_trans; [|exact Hs].
      destruct (startRound_spec _ _ _ _ Hs') as (room & _ & _ & E & _).
      destruct (heap (clearTimeout t w) !! r) as [room0|] eqn:E0.
      * eapply world_scores_kept_update; [done|]. by apply scores_kept_same.
      * revert E. unfold update_room. simpl. change (heap (clearTimeout t w)) with (heap w) in *.
        by rewrite lookup_alter_eq, E0.
    + intros He. apply endGame_scores_kept in He.
      eapply world_scores_kept_trans; [exact K0 | exact He].
    + destruct (rooms_get c (clearTimeout t w)) as [[r room]|];
        [|intros [= <-]; exact K0].
      case_decide; intros [= <-]; [|exact K0].
      eapply world_scores_kept_trans; [exact K0|].
      eapply world_scores_kept_trans; [apply (clearTimers_scores_kept r)|].
      by apply world_scores_kept_heap.
Qed.

Lemma seat_kept_update r0 f r sid pid w room0 :
  heap w !! r0 = Some room0 ->
  (r0 = r ->
   (sessions room0 !! sid = Some pid -> sessions (f room0) !! sid = Some pid) /\
   forall p, players room0 !! pid = Some p ->
     exists p', players (f room0) !! pid = Some p' /\ score p' = score p /\ id p' = id p) ->
  seat_kept r sid pid w (update_room r0 f w).
Proof.
  intros E K. destruct (decide (r0 = r)) as [->|Hne].
  - intros room Hr. exists (f room0). split; [by apply heap_update_room_eq|].
    simplify_eq. by apply K.
  - apply seat_kept_frame. by apply heap_update_room_ne.
Qed.

Lemma seat_join_room r sid pid sock c n sessionId now u1 u2 w w' :
  spares r sid pid w (JoinRoom sock c n sessionId now u1 u2) = true ->
  join_room sock c n sessionId now u1 u2 w = Some w' -> seat_kept r sid pid w w'.
Proof.
  unfold spares, join_room.
  destruct (rooms_get (toUpperCase c) w) as [[r' room]|] eqn:Hget;
    [|intros _ [= <-]; by apply seat_kept_frame].
  intros Hsp. apply rooms_get_Some in Hget as [Hr Hh].
  destruct (decide (state room = setup)); [intros [= <-]; by apply seat_kept_frame|].
  destruct (session_player room sessionId) as [[pid' p']|] eqn:Hs.
  - apply session_player_Some in Hs as (sid' & -> & _ & _ & _ & Hp').
    set (w1 := update_room r' _ w).
    assert (K1 : seat_kept r sid pid w w1).
    { subst w1. apply seat_kept_scores. eapply world_scores_kept_update; [done|].
      split; [done|]. intros pid0 p0 Hp0. simpl.
      destruct (decide (pid0 = pid')) as [->|Hne].
      - rewrite lookup_insert_eq. eexists. split; [done|]. by simplify_eq.
      - rewrite lookup_insert_ne by done. by exists p0. }
    intros Hj. eapply seat_kept_trans; [exact K1|]. apply seat_kept_frame.
    revert Hj. unfold emit_player_joined. step_simpl.
    destruct (decide (state room = playing)).
    + destruct (puzzles room !! currentRound room); [|done]. step_simpl.
      destruct (decide (pid' ∈ roundAnswered room)); step_simpl.
      * unfold join_socket. autorewrite with world.
        destruct (heap w1 !! r'); [|done]. step_simpl. intros [= <-].
        by autorewrite with world.
      * unfold join_socket. autorewrite with world.
        destruct (heap w1 !! r'); [|done]. step_simpl. intros [= <-].
        by autorewrite with world.
    + step_simpl.
      unfold join_socket. autorewrite with world.
        destruct (heap w1 !! r'); [|done]. step_simpl. intros [= <-].
        by autorewrite with world.
  - set (w1 := update_room r' _ w).
    assert (K1 : seat_kept r sid pid w w1).
    { subst w1. apply seat_kept_update with (room0 := room); [done|]. intros ->.
      rewrite (bool_decide_eq_true_2 (r = r)), (bool_decide_eq_false_2 (is_Some None)) in Hsp
        by (done || by intros [? ?]).
      simpl in Hsp. apply andb_prop in Hsp as [Hpid Hsid].
      apply negb_true_iff, bool_decide_eq_false_1 in Hpid.
      apply negb_true_iff, bool_decide_eq_false_1 in Hsid.
      split.
      - simpl. unfold obj_set. case_decide; [done|]. by rewrite lookup_insert_ne.
      - intros p Hp. simpl. rewrite lookup_insert_ne by done. by exists p. }
    intros Hj. eapply seat_kept_trans; [exact K1|]. apply seat_kept_frame.
    revert Hj. unfold emit_player_joined. step_simpl.
    unfold join_socket. autorewrite with world.
        destruct (heap w1 !! r'); [|done]. step_simpl. intros [= <-].
        by autorewrite with world.
Qed.

Lemma seat_start_game r sid pid sock c rounds tpr now w w' :
  spares r sid pid w (StartGame sock c rounds tpr now) = true ->
  start_game sock c rounds tpr now w = Some w' -> seat_kept r sid pid w w'.
Proof.
  unfold spares, start_game. intros Hsp.
  destruct (rooms_get c w) as [[r' room]|] eqn:Hget;
    [|intros [= <-]; apply seat_kept_refl].
  apply rooms_get_Some in Hget as [Hr Hh].
  destruct (decide (Some sock = hostId room)) as [Hhost|];
    [|intros [= <-]; apply seat_kept_refl].
  apply negb_true_iff, bool_decide_eq_false_1 in Hsp.
  assert (Hne : r' <> r) by (intros ->; by apply Hsp).
  intros Hs. destruct (startRound_spec _ _ _ _ Hs) as (_ & _ & _ & _ & _ & _ & _ & _ & F & _).
  apply seat_kept_frame. rewrite F by done. by apply heap_update_room_ne.
Qed.

Lemma seat_submit_guess r sid pid sock c guess now w w' :
  spares r sid pid w (SubmitGuess sock c guess now) = true ->
  submit_guess sock c guess now w = Some w' -> seat_kept r sid pid w w'.
Proof.
  unfold spares, submit_guess. intros Hsp.
  apply negb_true_iff, bool_decide_eq_false_1 in Hsp.
  destruct (rooms_get c w) as [[r' room]|] eqn:Hget;
    [|intros [= <-]; apply seat_kept_refl].
  apply rooms_get_Some in Hget as [Hr Hh].
  destruct (decide (state room <> playing)); [intros [= <-]; apply seat_kept_refl|].
  destruct (playerId (socket_of sock w)) as [pid'|] eqn:Hpid;
    [|intros [= <-]; apply seat_kept_refl].
  destruct (players room !! pid') as [player|];
    [|intros [= <-]; apply seat_kept_refl].
  destruct (decide (pid' ∈ roundAnswered room)); [intros [= <-]; apply seat_kept_refl|].
  destruct (puzzles room !! currentRound room) as [puzzle|]; [|done]. step_simpl.
  destruct (decide (match_ (checkGuess guess (answer puzzle)) = wrong));
    [intros [= <-]; by apply seat_kept_frame|].
  set (w1 := update_room r' _ w).
  assert (K1 : seat_kept r sid pid w w1).
  { subst w1. apply seat_kept_update with (room0 := room); [done|]. intros ->.
    assert (Hne : pid' <> pid) by (intros ->; by apply Hsp).
    split; [done|]. intros p Hp. simpl. rewrite lookup_insert_ne by done. by exists p. }
  destruct (heap w1 !! r') as [room1|]; [|done]. step_simpl.
  destruct (allAnswered room1).
  - intros He. apply endRound_scores_kept in He.
    eapply seat_kept_trans; [exact K1|].
    eapply seat_kept_trans; [|apply seat_kept_scores; exact He]. by apply seat_kept_frame.
  - intros [= <-]. eapply seat_kept_trans; [exact K1|]. by apply seat_kept_frame.
Qed.

(** A step that spares the player keeps its token, its identifier and its
    score. *)
Lemma seat_step r sid pid w i w' :
  spares r sid pid w i = true -> step w i = Some w' -> seat_kept r sid pid w w'.
Proof.
  intros Hsp Hs.
  destruct i as [rand|c ps|sock c s0|sock c n s0 now u1 u2|sock c rounds tpr now
                |sock c guess now|sock c now|sock|t now];
    try (apply seat_kept_scores; eapply step_scores_kept; [|exact Hs]; exact I).
  - by apply (seat_join_room r sid pid sock c n s0 now u1 u2).
  - by apply (seat_start_game r sid pid sock c rounds tpr now).
  - by apply (seat_submit_guess r sid pid sock c guess now).
Qed.

Lemma seat_run r sid pid inputs w w' :
  spared_run r sid pid w inputs = true -> run w inputs = Some w' -> seat_kept r sid pid w w'.
Proof.
  revert w. induction inputs as [|i inputs IH]; intros w Hsp; simpl.
  - intros [= <-]. apply seat_kept_refl.
  - simpl in Hsp. apply andb_prop in Hsp as [Hi Hrest].
    destruct (step w i) as [w1|] eqn:Hs; [|done]. simpl. intros Hrun.
    eapply seat_kept_trans; [by apply (seat_step r sid pid w i w1)|]. by apply IH.
Qed.

End SeatFacts.

Section SessionsAgain.
Context `{JSBuiltins}.

(** Claim C5, amended. A [join-room] whose session token names a player
    of the room answers with that player's identifier and the score that
    the player record holds, marks the player online on the new socket and,
    while the room is playing, replays the image of the current puzzle with
    the time left since [roundStartTime], followed by [already-answered]
    when the player is in [roundAnswered].  A [join-room] with no token or
    an unknown one stores a player with score 0 under the first eight
    characters of the new uuid, whoever had that identifier: the other
    players are as before.  The score that the record holds is the score
    held when a socket disconnected, and the reply carries it, when every
    input between that disconnection and the [join-room] spares the player:
    no [start-game] of the host of the room, no [join-room] that makes a new
    player under the same identifier or with the same token, and no guess
    of a socket that carries the identifier. *)
Theorem join_room_sessions (w : World) (sock roomCode playerName : jsstring)
    (sessionId : option jsstring) (now : Z) (uuid1 uuid2 : jsstring)
    (r : nat) (room : Room) :
  rooms_get (toUpperCase roomCode) w = Some (r, room) ->
  state room <> setup ->
  (* a token that names a player *)
  (forall pid p puzzle,
     session_player room sessionId = Some (pid, p) ->
     (state room = playing -> puzzles room !! currentRound room = Some puzzle) ->
     exists w' room' p',
       join_room sock roomCode playerName sessionId now uuid1 uuid2 w = Some w' /\
       heap w' !! r = Some room' /\
       dom (players room') = dom (players room) /\
       players room' !! pid = Some p' /\
       id p' = id p /\ score p' = score p /\ online p' = true /\
       socketId p' = Some sock /\
       playerId (socket_of sock w') = Some pid /\
       emitted w' = emitted w ++
         [(socket_emit sock,
           joined pid (toUpperCase roomCode) (name p') None (state room) (score p) true)] ++
         (if decide (state room = playing)
          then [(socket_emit sock,
                 new_round (currentRound room + 1) (totalRounds room) (image puzzle)
                   (timePerRound room) (Some (remaining_time room now)))] ++
               (if decide (pid ∈ roundAnswered room)
                then [(socket_emit sock, already_answered)] else [])
          else []) ++
         [(io_to (Some (toUpperCase roomCode)), leaderboard_update (getLeaderboard room'));
          (io_to (Some (toUpperCase roomCode)),
           player_joined (name p') (length (onlinePlayers room')) (player_list room'))]) /\
  (* no token, or an unknown one *)
  (truthy sessionId = None \/
   (exists sid, sessionId = Some sid /\ sessions room !! sid = None) ->
   exists w' room' p',
     join_room sock roomCode playerName sessionId now uuid1 uuid2 w = Some w' /\
     heap w' !! r = Some room' /\
     players room' !! take 8 uuid1 = Some p' /\
     id p' = take 8 uuid1 /\ score p' = 0%Z /\ online p' = true /\
     playerId (socket_of sock w') = Some (take 8 uuid1) /\
     dom (players room') = {[take 8 uuid1]} ∪ dom (players room) /\
     (forall pid, pid <> take 8 uuid1 -> players room' !! pid = players room !! pid) /\
     exists rest,
       emitted w' = emitted w ++
         (socket_emit sock,
          joined (take 8 uuid1) (toUpperCase roomCode) playerName
            (Some (default uuid2 (truthy sessionId))) (state room) 0 false) :: rest) /\
  (* the score held at a disconnection *)
  (forall w0 sock0 w1 inputs room0 sid pid p0,
     heap w0 !! r = Some room0 ->
     sessions room0 !! sid = Some pid -> players room0 !! pid = Some p0 ->
     disconnect sock0 w0 = Some w1 ->
     run w1 inputs = Some w -> spared_run r sid pid w1 inputs = true ->
     exists p,
       sessions room !! sid = Some pid /\ players room !! pid = Some p /\
       id p = id p0 /\ score p = score p0 /\
       forall puzzle,
         sessionId = Some sid -> sid <> [] -> pid <> [] ->
         (state room = playing -> puzzles room !! currentRound room = Some puzzle) ->
         exists w' rest,
           join_room sock roomCode playerName sessionId now uuid1 uuid2 w = Some w' /\
           emitted w' = emitted w ++
             (socket_emit sock,
              joined pid (toUpperCase roomCode) (default (name p) (truthy (Some playerName)))
                None (state room) (score p0) true) :: rest).
Proof.
  intros Hget Hst. split; [|split].
  - intros pid p puzzle Hsp Hpz.
    destruct (join_room_reconnect w sock roomCode playerName sessionId now uuid1 uuid2
                r room pid p puzzle) as (w' & room' & Hj & Hh & -> & Hs & _ & _ & He);
      [done..|].
    eexists w', _, _. split; [done|]. split; [done|].
    apply session_player_Some in Hsp as (sid & _ & _ & _ & _ & Hp).
    split. { simpl. by apply dom_insert_lookup_L. }
    split; [simpl; by rewrite lookup_insert_eq|].
    by repeat split.
  - intros Hnone. apply session_player_unknown in Hnone.
    destruct (join_room_new w sock roomCode playerName sessionId now uuid1 uuid2 r room)
      as (w' & room' & Hj & Hh & -> & Hs & _ & _ & He); [done..|].
    eexists w', _, _. split; [done|]. split; [done|].
    split; [simpl; by rewrite lookup_insert_eq|].
    do 4 (split; [done|]).
    split; [simpl; by rewrite dom_insert_L|].
    split; [intros pid Hne; simpl; by rewrite lookup_insert_ne|].
    eexists. exact He.
  - intros w0 sock0 w1 inputs room0 sid pid p0 Hh0 Hs0 Hp0 Hd Hrun Hsp.
    apply rooms_get_Some in Hget as Hget'. destruct Hget' as [_ Hh].
    assert (K : seat_kept r sid pid w0 w).
    { eapply seat_kept_trans; [|by apply (seat_run r sid pid inputs w1 w)].
      apply seat_kept_scores. by apply (disconnect_scores_kept sock0). }
    destruct (K room0 Hh0) as (room' & Hh' & Ks & Kp). simplify_eq.
    destruct (Kp p0 Hp0) as (p & Hp & Hsc & Hid).
    exists p. split; [by apply Ks|]. split; [done|]. split; [done|]. split; [done|].
    intros puzzle -> Hsid Hpid Hpz.
    assert (Hsess : session_player room (Some sid) = Some (pid, p)).
    { apply session_player_Some. exists sid. split; [done|]. split; [done|].
      split; [by apply Ks|]. by split. }
    destruct (join_room_reconnect w sock roomCode playerName (Some sid) now uuid1 uuid2
                r room pid p puzzle) as (w' & room' & Hj & _ & _ & _ & _ & _ & He);
      [done..|].
    exists w'. eexists. split; [done|]. rewrite He, Hsc. reflexivity.
Qed.

End SessionsAgain.

(** Ann rejoins with her token after the host has started the game again:
    the reply carries the score 0, not the 833 points that she had when she
    disconnected.  And a newcomer whose generated identifier begins like
    Ann's gets the identifier of Ann. *)
Lemma restart_resets_offline_score :
  ~ score_at_disconnect_restored (H := ascii_builtins) /\
  ~ unknown_token_fresh_id (H := ascii_builtins) /\
  player_score demo_ann_left 0 (js "a1a1a1a1") = Some 833%Z /\
  player_score (run_demo demo_restart) 0 (js "a1a1a1a1") = Some 0%Z.
Proof.
  split; [|split; [|split; by_evaluation]].
  - intros Hc.
    destruct (Hc demo_answered (js "socket-ann") demo_code 0 (demo_room demo_answered)
                (js "token-ann") (js "a1a1a1a1") (demo_player demo_answered "a1a1a1a1")
                demo_ann_left [StartGame (js "host") demo_code 2 30 20000]
                (run_demo demo_restart) (js "socket-new") (js "") 21000%Z
                (js "c3c3c3c3-0000") (js "unused")
                (run_demo (demo_restart ++
                   [JoinRoom (js "socket-new") demo_code (js "") (Some (js "token-ann"))
                      21000 (js "c3c3c3c3-0000") (js "unused")])))
      as (playerName & st & He).
    + apply run_demo_reachable. vm_compute. eauto.
    + by_evaluation.
    + by_evaluation.
    + by_evaluation.
    + by_evaluation.
    + by_evaluation.
    + constructor; [intros []|constructor].
    + by_evaluation.
    + vm_compute in He. congruence.
  - intros Hc.
    destruct (Hc demo_world (js "socket-cy") demo_code (js "Cy") None 8000%Z
                (js "a1a1a1a1-9999") (js "token-cy")
                (run_demo (demo_inputs ++
                   [JoinRoom (js "socket-cy") demo_code (js "Cy") None 8000
                      (js "a1a1a1a1-9999") (js "token-cy")]))
                0 (demo_room demo_world)) as (pid & Hp & Hnone).
    + apply run_demo_reachable. vm_compute. eauto.
    + by_evaluation.
    + vm_compute. discriminate.
    + by left.
    + by_evaluation.
    + vm_compute in Hp. injection Hp as <-. vm_compute in Hnone. discriminate.
Qed.

Lemma join_room_sessions_witness :
  score (demo_player demo_answered "a1a1a1a1") = 833%Z /\
  exists w' playerName st rest,
    join_room (H := ascii_builtins) (js "socket-new") demo_code (js "")
      (Some (js "token-ann")) 9000 (js "c3c3c3c3-0000") (js "unused")
      (run_demo demo_ann_away) = Some w' /\
    emitted w' = emitted (run_demo demo_ann_away) ++
      (socket_emit (js "socket-new"),
       joined (js "a1a1a1a1") (@toUpperCase ascii_builtins demo_code) playerName None st
         (score (demo_player demo_answered "a1a1a1a1")) true) :: rest.
Proof.
  split; [by_evaluation|].
  destruct (join_room_sessions (H := ascii_builtins) (run_demo demo_ann_away)
              (js "socket-new") demo_code (js "") (Some (js "token-ann")) 9000
              (js "c3c3c3c3-0000") (js "unused") 0 (demo_room (run_demo demo_ann_away)))
    as (_ & _ & Hkept); [by_evaluation | vm_compute; discriminate |].
  destruct (Hkept demo_answered (js "socket-ann") demo_ann_left
              [SubmitGuess (js "socket-bob") demo_code (js "the eiffel towr") 7000]
              (demo_room demo_answered) (js "token-ann") (js "a1a1a1a1")
              (demo_player demo_answered "a1a1a1a1"))
    as (p & _ & _ & _ & _ & Hjoin);
    [by_evaluation | by_evaluation | by_evaluation | by_evaluation | by_evaluation
    | by_evaluation |].
  destruct (Hjoin (demo_puzzle "The Eiffel Tower")) as (w' & rest & Hj & He).
  - reflexivity.
  - intros E; vm_compute in E; discriminate E.
  - intros E; vm_compute in E; discriminate E.
  - intros _. by_evaluation.
  - exists w'. eexists. eexists. exists rest. split; [exact Hj | exact He].
Defined.

(** * Part III: further properties of the program *)

(** ** The edit distance is a metric *)

Section LevenshteinMetric.
Context {A : Type} `{EqDecision A}.

Lemma edit_refl (a : list A) : edit a a 0.
Proof. induction a; by constructor. Qed.

Lemma edit_zero (a b : list A) : edit a b 0 -> a = b.
Proof.
  intros H. remember 0 as n eqn:E. induction H; try done. f_equal. auto.
Qed.

Lemma edit_sym (a b : list A) n : edit a b n -> edit b a n.
Proof. induction 1; by constructor. Qed.

(** Two alignments compose, and the operations add up at most. *)
Lemma edit_trans (a b c : list A) n m :
  edit a b n -> edit b c m -> exists k, k <= n + m /\ edit a c k.
Proof.
  intros H1. revert c m.
  induction H1 as [|x a b n H1 IH|x y a b n H1 IH|x a b n H1 IH|y a b n H1 IH];
    intros c m H2.
  - by exists m.
  - remember (x :: b) as xb eqn:E. revert E.
    induction H2 as [|x' b' c m H2 _|x' z b' c m H2 _|x' b' c m H2 _|z b' c m H2 IH2];
      intros E; simplify_eq.
    + destruct (IH _ _ H2) as (k & Hk & He). exists k. split; [lia | by constructor].
    + destruct (IH _ _ H2) as (k & Hk & He). exists (S k). split; [lia | by constructor].
    + destruct (IH _ _ H2) as (k & Hk & He). exists (S k). split; [lia | by constructor].
    + destruct (IH2 eq_refl) as (k & Hk & He). exists (S k). split; [lia | by constructor].
  - remember (y :: b) as yb eqn:E. revert E.
    induction H2 as [|x' b' c m H2 _|x' z b' c m H2 _|x' b' c m H2 _|z b' c m H2 IH2];
      intros E; simplify_eq.
    + destruct (IH _ _ H2) as (k & Hk & He). exists (S k). split; [lia | by constructor].
    + destruct (IH _ _ H2) as (k & Hk & He). exists (S k). split; [lia | by constructor].
    + destruct (IH _ _ H2) as (k & Hk & He). exists (S k). split; [lia | by constructor].
    + destruct (IH2 eq_refl) as (k & Hk & He). exists (S k). split; [lia | by constructor].
  - destruct (IH _ _ H2) as (k & Hk & He). exists (S k). split; [lia | by constructor].
  - remember (y :: b) as yb eqn:E. revert E.
    induction H2 as [|x' b' c m H2 _|x' z b' c m H2 _|x' b' c m H2 _|z b' c m H2 IH2];
      intros E; simplify_eq.
    + destruct (IH _ _ H2) as (k & Hk & He). exists (S k). split; [lia | by constructor].
    + destruct (IH _ _ H2) as (k & Hk & He). exists (S k). split; [lia | by constructor].
    + destruct (IH _ _ H2) as (k & Hk & He). exists k. split; [lia | done].
    + destruct (IH2 eq_refl) as (k & Hk & He). exists (S k). split; [lia | by constructor].
Qed.

(** [levenshtein] is 0 on equal strings only, and it is symmetric. *)
Theorem levenshtein_identity_symmetry (a b : list A) :
  (levenshtein a b = 0 <-> a = b) /\ levenshtein a b = levenshtein b a.
Proof.
  destruct (levenshtein_edit_distance a b) as [Hab Lab].
  destruct (levenshtein_edit_distance b a) as [Hba Lba].
  split; [split|].
  - intros E. rewrite E in Hab. by apply edit_zero.
  - intros ->. pose proof (Lab 0 (edit_refl b)). lia.
  - apply edit_sym in Hab as Hab'. apply edit_sym in Hba as Hba'.
    apply Lab in Hba'. apply Lba in Hab'. lia.
Qed.

(** The triangle inequality. *)
Theorem levenshtein_triangle (a b c : list A) :
  levenshtein a c <= levenshtein a b + levenshtein b c.
Proof.
  destruct (levenshtein_edit_distance a b) as [Hab _].
  destruct (levenshtein_edit_distance b c) as [Hbc _].
  destruct (levenshtein_edit_distance a c) as [_ Lac].
  destruct (edit_trans _ _ _ _ _ Hab Hbc) as (k & Hk & He).
  apply Lac in He. lia.
Qed.

(** The distance is at least the difference of the lengths and at most
    the greater length; to and from the empty string it is the length. *)
Theorem levenshtein_bounds (a b : list A) :
  length a - length b <= levenshtein a b /\
  length b - length a <= levenshtein a b /\
  levenshtein a b <= Nat.max (length a) (length b) /\
  levenshtein a [] = length a /\ levenshtein [] b = length b.
Proof.
  destruct (levenshtein_edit_distance a b) as [Hab _].
  pose proof (edit_length_l _ _ _ Hab). pose proof (edit_length_r _ _ _ Hab).
  split; [lia|]. split; [lia|]. split; [apply levenshtein_le_max|].
  split.
  - pose proof (levenshtein_le_max a []) as Hle.
    destruct (levenshtein_edit_distance a []) as [Ha _].
    apply edit_length_l in Ha. simpl in *. lia.
  - pose proof (levenshtein_le_max [] b) as Hle.
    destruct (levenshtein_edit_distance [] b) as [Hb _].
    apply edit_length_r in Hb. simpl in *. lia.
Qed.

End LevenshteinMetric.

(** ** Normal forms *)

Lemma filter_all {A : Type} (P : A -> Prop) `{forall x, Decision (P x)} (l : list A) :
  Forall P l -> filter P l = l.
Proof.
  induction 1 as [|x l Hx _ IH]; [done|]. by rewrite filter_cons, decide_True, IH.
Qed.

Lemma split_spaces_word_app (w rest : jsstring) :
  32%N ∉ w -> split_spaces (w ++ 32%N :: rest) = w :: split_spaces rest.
Proof.
  induction w as [|c w IH]; intros Hw; simpl.
  - done.
  - rewrite decide_False by (intros ->; apply Hw; left).
    rewrite IH by (intros ?; apply Hw; by right). done.
Qed.

Lemma split_spaces_word (w : jsstring) : 32%N ∉ w -> split_spaces w = [w].
Proof.
  induction w as [|c w IH]; intros Hw; simpl; [done|].
  rewrite decide_False by (intros ->; apply Hw; left).
  rewrite IH by (intros ?; apply Hw; by right). done.
Qed.

Lemma split_spaces_unwords (ws : list jsstring) :
  ws <> [] -> Forall (fun w => 32%N ∉ w) ws -> split_spaces (unwords ws) = ws.
Proof.
  intros Hne Hws. induction Hws as [|w ws Hw Hws IH]; [done|].
  destruct ws as [|w' ws].
  - simpl. by apply split_spaces_word.
  - rewrite unwords_cons by done. rewrite split_spaces_word_app by done.
    by rewrite IH.
Qed.

Lemma words_unwords (ws : list jsstring) :
  Forall (fun w => w <> [] /\ 32%N ∉ w) ws -> words (unwords ws) = ws.
Proof.
  intros Hws. unfold words. destruct ws as [|w ws]; [done|].
  rewrite split_spaces_unwords; [|done|].
  - apply filter_all. eapply Forall_impl; [exact Hws|]. by intros ? [? _].
  - eapply Forall_impl; [exact Hws|]. by intros ? [_ ?].
Qed.

Lemma kept_unwords (ws : list jsstring) :
  Forall (Forall (fun c => is_kept c = true)) ws ->
  Forall (fun c => is_kept c = true) (unwords ws).
Proof.
  induction 1 as [|w ws Hw Hws IH]; [constructor|].
  destruct ws as [|w' ws]; [done|].
  rewrite unwords_cons by done. apply Forall_app. split; [done|].
  constructor; [reflexivity | done].
Qed.

Lemma normal_word_no_blank (w : jsstring) : normal_word w -> w <> [] /\ 32%N ∉ w.
Proof.
  intros (Hne & Hw & _). split; [done|]. intros Hin.
  rewrite Forall_forall in Hw. by destruct (Hw _ Hin).
Qed.

Section NormalForms.
Context `{JSBuiltins}.

Lemma normalize_words (str : jsstring) :
  exists ws, normalize str = unwords ws /\ Forall normal_word ws.
Proof.
  rewrite normalize_refines. unfold normalize_spec.
  set (kept := filter _ (toLowerCase str)).
  exists (filter (fun w => w ∉ articles) (words kept)). split; [done|].
  assert (Hk : Forall (fun c => is_kept c = true) kept).
  { apply Forall_forall. intros c Hc. by apply list_elem_of_filter in Hc as [? _]. }
  pose proof (split_spaces_solid kept Hk) as Hps.
  apply Forall_forall. intros w Hw.
  apply list_elem_of_filter in Hw as [Hart Hw].
  apply list_elem_of_filter in Hw as [Hne Hw].
  split; [done|]. split; [|done].
  rewrite Forall_forall in Hps. specialize (Hps w Hw).
  assert (Hkw : Forall (fun c => is_kept c = true) w).
  { apply Forall_forall. intros c Hc. rewrite Forall_forall in Hk. apply Hk.
    rewrite <- (unwords_split_spaces kept).
    clear -Hw Hc. induction (split_spaces kept) as [|w' ws IH]; [by inversion Hw|].
    destruct ws as [|w'' ws].
    - apply list_elem_of_singleton in Hw as ->. done.
    - rewrite unwords_cons by done. apply elem_of_app.
      apply elem_of_cons in Hw as [->|Hw]; [by left|].
      right. right. by apply IH. }
  apply Forall_forall. intros c Hc. split.
  - rewrite Forall_forall in Hkw. by apply Hkw.
  - rewrite Forall_forall in Hps. by destruct (Hps c Hc) as (_ & _ & ?).
Qed.

(** The normal form is a list of words with one blank between two of them
    and none around; a word is made of [a-z0-9] and is not an article.  It
    has no other character, so it does not begin or end with a blank and has
    no two blanks in a row; and [normalize] leaves a normal form as it is,
    when [toLowerCase] leaves the strings of [[a-z0-9 ]] as they are. *)
Theorem normalize_normal_form (str : jsstring) :
  (exists ws, normalize str = unwords ws /\ Forall normal_word ws) /\
  Forall (fun c => is_kept c = true) (normalize str) /\
  head (normalize str) <> Some 32%N /\ last (normalize str) <> Some 32%N /\
  (forall i, normalize str !! i = Some 32%N -> normalize str !! S i <> Some 32%N) /\
  ((forall s, Forall (fun c => is_kept c = true) s -> toLowerCase s = s) ->
   normalize (normalize str) = normalize str).
Proof.
  destruct (normalize_words str) as (ws & E & Hws).
  assert (Hkept : Forall (fun c => is_kept c = true) (unwords ws)).
  { apply kept_unwords. eapply Forall_impl; [exact Hws|].
    intros w (_ & Hw & _). eapply Forall_impl; [exact Hw|]. by intros c [? _]. }
  assert (Hnb : Forall (fun w => w <> [] /\ 32%N ∉ w) ws).
  { eapply Forall_impl; [exact Hws|]. apply normal_word_no_blank. }
  split; [by exists ws|]. rewrite E.
  split; [done|].
  split.
  { destruct Hnb as [|w ws [Hne Hw] _]; [done|].
    destruct w as [|c w]; [done|].
    assert (c <> 32%N) by (intros ->; apply Hw; left).
    destruct ws; simpl; congruence. }
  split.
  { clear E Hws Hkept. induction Hnb as [|w ws [Hne Hw] Hnb IH]; [done|].
    destruct ws as [|w' ws].
    - simpl. intros El. apply last_Some in El as (u & ->).
      apply Hw. apply elem_of_app. right. left.
    - rewrite unwords_cons by done. rewrite last_app_cons, last_cons.
      destruct (last (unwords (w' :: ws))) eqn:El; [done|].
      apply last_None in El. inversion Hnb as [|? ? [Hne' _] _]; subst.
      destruct w'; [done|]. simpl in El. destruct ws; done. }
  split.
  { clear E Hws Hkept. induction Hnb as [|w ws [Hne Hw] Hnb IH]; [done|].
    intros i. destruct ws as [|w' ws].
    - simpl. intros Hi _. apply Hw. by eapply list_elem_of_lookup_2.
    - rewrite unwords_cons by done.
      destruct (decide (i < length w)) as [Hlt|Hge].
      + rewrite lookup_app_l by done. intros Hi. exfalso. apply Hw.
        by eapply list_elem_of_lookup_2.
      + destruct (decide (i = length w)) as [->|Hne'].
        * intros _. rewrite lookup_app_r by lia.
          replace (S (length w) - length w) with 1 by lia. simpl.
          inversion Hnb as [|? ? [Hne2 Hw2] _]; subst.
          destruct w' as [|c w']; [done|].
          assert (c <> 32%N) by (intros ->; apply Hw2; left).
          destruct ws; simpl; congruence.
        * rewrite !lookup_app_r by lia.
          replace (i - length w) with (S (i - length w - 1)) by lia.
          replace (S i - length w) with (S (S (i - length w - 1))) by lia.
          simpl. apply IH. }
  intros Hlow. rewrite normalize_refines. unfold normalize_spec. rewrite Hlow by done.
  rewrite (filter_all (fun c => is_kept c = true)) by done.
  rewrite words_unwords by done.
  rewrite filter_all; [done|].
  eapply Forall_impl; [exact Hws|]. by intros w (_ & _ & ?).
Qed.

End NormalForms.

Lemma normalize_normal_form_witness :
  normalize (H := ascii_builtins) (normalize (H := ascii_builtins) (js "The  Eiffel-Tower!")) =
  normalize (H := ascii_builtins) (js "The  Eiffel-Tower!").
Proof.
  apply (normalize_normal_form (H := ascii_builtins) (js "The  Eiffel-Tower!")).
  intros s Hs. simpl. induction Hs as [|c s Hc _ IH]; [done|].
  rewrite fmap_cons, IH. f_equal. unfold ascii_lower.
  destruct (in_range 65 90 c) eqn:E; [|done]. exfalso. char_facts.
Defined.

(** ** Edge cases of the evaluator *)

Lemma includes_nil (s : jsstring) : includes s [] = true.
Proof. by destruct s. Qed.

Section EvaluatorFacts.
Context `{JSBuiltins}.

(** A guess with an empty normal form is wrong, whatever the answer.  An
    answer with an empty normal form (an article alone, punctuation, a
    word of another script) accepts every other guess, and is itself
    rejected. *)
Theorem checkGuess_empty_forms (guess answer : jsstring) :
  (normalize guess = [] -> checkGuess guess answer = GuessResult wrong 0) /\
  (normalize answer = [] -> normalize guess <> [] ->
   match_ (checkGuess guess answer) = correct) /\
  (normalize answer = [] -> match_ (checkGuess answer answer) = wrong).
Proof.
  unfold checkGuess. split; [|split].
  - intros ->. done.
  - intros Ha Hg. rewrite Ha. rewrite decide_False by done.
    rewrite decide_False by done. cbv zeta.
    destruct (_ <=? _); [done|]. by rewrite includes_nil.
  - intros ->. done.
Qed.

(** A guess whose normal form is not empty and is a part of the normal
    form of the answer, or has it as a part, is correct: a single letter
    of the answer is accepted. *)
Theorem checkGuess_substring (guess answer : jsstring) :
  normalize guess <> [] ->
  substring (normalize guess) (normalize answer) \/
  substring (normalize answer) (normalize guess) ->
  match_ (checkGuess guess answer) = correct.
Proof.
  intros Hg Hsub. unfold checkGuess. rewrite decide_False by done.
  case_decide; [done|]. cbv zeta.
  destruct (_ <=? _); [done|].
  assert (E : includes (normalize guess) (normalize answer) ||
              includes (normalize answer) (normalize guess) = true).
  { apply orb_true_iff. destruct Hsub as [Hs|Hs]; [right|left];
      by apply includes_substring. }
  by rewrite E.
Qed.

End EvaluatorFacts.

Lemma checkGuess_substring_witness :
  match_ (checkGuess (H := ascii_builtins) (js "e") (js "The Eiffel Tower")) = correct.
Proof.
  apply (checkGuess_substring (H := ascii_builtins)).
  - vm_compute. discriminate.
  - left. exists [], (js "iffel tower"). vm_compute. reflexivity.
Defined.

(** ** The points of a guess *)

Lemma Math_round_Z (n : Z) : Math_round (inject_Z n) = n.
Proof.
  unfold Math_round.
  pose proof (Qfloor_le (inject_Z n + (1 # 2))) as Hle.
  pose proof (Qlt_floor (inject_Z n + (1 # 2))) as Hlt.
  rewrite inject_Z_plus in Hlt. change (inject_Z 1) with 1%Q in Hlt.
  set (f := Qfloor _) in *.
  assert (H1 : (inject_Z f < inject_Z (n + 1))%Q).
  { rewrite inject_Z_plus. change (inject_Z 1) with 1%Q. lra. }
  assert (H2 : (inject_Z n < inject_Z (f + 1))%Q).
  { rewrite inject_Z_plus. change (inject_Z 1) with 1%Q. lra. }
  rewrite <- Zlt_Qlt in H1, H2. lia.
Qed.


Lemma Math_round_lower (x : Q) (n : Z) : (inject_Z n <= x)%Q -> (n <= Math_round x)%Z.
Proof. intros Hx. rewrite <- (Math_round_Z n). by apply Math_round_le. Qed.



Section Points.
Context `{JSBuiltins}.



End Points.


(** ** The leaderboard *)

Lemma insert_by_score_perm (e : LeaderboardEntry) (l : list LeaderboardEntry) :
  insert_by_score e l ≡ₚ e :: l.
Proof.
  induction l as [|x l IH]; simpl; [done|].
  destruct (entry_score x <=? entry_score e)%Z; [done|].
  rewrite IH. apply Permutation_swap.
Qed.

Lemma insert_by_score_sorted (e : LeaderboardEntry) (l : list LeaderboardEntry) :
  StronglySorted (fun a b => (entry_score b <= entry_score a)%Z) l ->
  StronglySorted (fun a b => (entry_score b <= entry_score a)%Z) (insert_by_score e l).
Proof.
  induction 1 as [|x l Hl IH Hx]; simpl.
  - repeat constructor.
  - destruct (Z.leb_spec (entry_score x) (entry_score e)) as [Hle|Hgt].
    + constructor; [by constructor|].
      constructor; [done|]. eapply Forall_impl; [exact Hx|]. simpl. lia.
    + constructor; [done|].
      rewrite insert_by_score_perm. constructor; [lia | done].
Qed.

Lemma sort_by_score_perm (l : list LeaderboardEntry) :
  foldr insert_by_score [] l ≡ₚ l.
Proof.
  induction l as [|e l IH]; simpl; [done|]. by rewrite insert_by_score_perm, IH.
Qed.

Lemma sort_by_score_sorted (l : list LeaderboardEntry) :
  StronglySorted (fun a b => (entry_score b <= entry_score a)%Z)
    (foldr insert_by_score [] l).
Proof.
  induction l as [|e l IH]; simpl; [constructor|]. by apply insert_by_score_sorted.
Qed.

Lemma StronglySorted_lookup {A : Type} (R : A -> A -> Prop) (l : list A) i j a b :
  StronglySorted R l -> i < j -> l !! i = Some a -> l !! j = Some b -> R a b.
Proof.
  intros Hl. revert i j. induction Hl as [|x l Hl IH Hx]; intros i j Hij Hi Hj; [done|].
  destruct j as [|j]; [lia|]. destruct i as [|i]; simpl in *.
  - simplify_eq. rewrite Forall_forall in Hx. apply Hx.
    by eapply list_elem_of_lookup_2.
  - apply (IH i j); [lia | done | done].
Qed.

(** The leaderboard has one entry for each player of the room, with the
    player's identifier, name and score, and the scores go down the
    list. *)
Theorem getLeaderboard_sorted (room : Room) :
  getLeaderboard room ≡ₚ leaderboard_entry <$> Object_values (players room) /\
  length (getLeaderboard room) = size (players room) /\
  (forall pid p, players room !! pid = Some p ->
     leaderboard_entry p ∈ getLeaderboard room) /\
  (forall i j a b, i < j ->
     getLeaderboard room !! i = Some a -> getLeaderboard room !! j = Some b ->
     (entry_score b <= entry_score a)%Z).
Proof.
  unfold getLeaderboard, Object_values.
  set (l := leaderboard_entry <$> (map_to_list (players room)).*2).
  pose proof (sort_by_score_perm l) as Hperm.
  pose proof (sort_by_score_sorted l) as Hsorted.
  split; [done|]. split; [|split].
  - rewrite Hperm. subst l. by rewrite !length_fmap, length_map_to_list.
  - intros pid p Hp. rewrite Hperm. subst l.
    apply list_elem_of_fmap. exists p. split; [done|].
    apply list_elem_of_fmap. exists (pid, p). split; [done|].
    by apply elem_of_map_to_list.
  - intros i j a b Hij Hi Hj.
    exact (StronglySorted_lookup _ _ i j a b Hsorted Hij Hi Hj).
Qed.

(** ** Hints *)

Lemma ends_blank_cons (c : N) (s : jsstring) :
  ends_blank (c :: s) <-> (s = [] /\ is_space c = true) \/ ends_blank s.
Proof.
  unfold ends_blank. destruct s as [|d s].
  - simpl. split.
    + intros (x & [= <-] & Hx). by left.
    + intros [[_ Hc]|(x & [=] & _)]. by exists c.
  - rewrite last_cons_cons. split; [by right|]. by intros [[[=] _]|?].
Qed.

Lemma split_whitespace_nonempty (b : bool) (s : jsstring) : split_whitespace b s <> [].
Proof.
  revert b. induction s as [|c s IH]; intros b; simpl; [done|].
  destruct (is_space c); [destruct b; [apply IH | done]|].
  by destruct (split_whitespace false s).
Qed.

(** Where the empty pieces are: after the first piece, only at the end of
    a string that ends with a blank. *)
Lemma split_whitespace_empty_piece (s : jsstring) :
  ([] ∈ split_whitespace true s <-> s = [] \/ ends_blank s) /\
  ([] ∈ tail (split_whitespace false s) <-> ends_blank s).
Proof.
  induction s as [|c s [IH1 IH2]]; simpl.
  - split.
    + split; [by left | intros _; left].
    + split; [by intros ?%elem_of_nil | by intros (x & [=] & _)].
  - rewrite ends_blank_cons. destruct (is_space c) eqn:Hc.
    + simpl. rewrite IH1. split.
      * split; [intros [->|?]; [right; by left | right; by right]|].
        intros [[=]|[[-> _]|?]]; [by left | by right].
      * split; [intros [->|?]; [by left | by right]|].
        intros [[-> _]|?]; [by left | by right].
    + pose proof (split_whitespace_nonempty false s) as Hne.
      destruct (split_whitespace false s) as [|w ws]; [done|]. simpl in *.
      split.
      * rewrite elem_of_cons, IH2. split.
        -- intros [[=]|?]. right. by right.
        -- intros [[=]|[[_ [=]]|?]]. by right.
      * rewrite IH2. split; [by right|]. by intros [[_ [=]]|?].
Qed.

Lemma split_whitespace_has_empty (s : jsstring) :
  [] ∈ split_whitespace false s <->
  s = [] \/ (exists c, head s = Some c /\ is_space c = true) \/ ends_blank s.
Proof.
  destruct s as [|c s]; simpl.
  - split; [by left | intros _; left].
  - destruct (split_whitespace_empty_piece s) as [IH1 IH2].
    rewrite ends_blank_cons. destruct (is_space c) eqn:Hc.
    + split; [|intros _; left]. intros _. right. left. by exists c.
    + pose proof (split_whitespace_nonempty false s) as Hne.
      destruct (split_whitespace false s) as [|w ws]; [done|]. simpl in *.
      rewrite elem_of_cons, IH2. split.
      * intros [[=]|?]. right. right. by right.
      * intros [[=]|[(x & [= <-] & ?)|[[_ ?]|?]]]; [congruence.. | by right].
Qed.

Section Hints.
Context `{JSBuiltins}.

Lemma hint1_word_None (w : jsstring) : hint1_word w = None <-> w = [].
Proof. by destruct w. Qed.

(** [generateHints] throws on the empty string and on a string that
    begins or ends with a blank, and on no other. *)
Theorem generateHints_throws (answer : jsstring) :
  generateHints answer = None <->
  answer = [] \/ (exists c, head answer = Some c /\ is_space c = true) \/
  (exists c, last answer = Some c /\ is_space c = true).
Proof.
  rewrite <- split_whitespace_has_empty. unfold generateHints.
  destruct (mapM hint1_word (split_whitespace false answer)) as [letters|] eqn:E; simpl.
  - split; [done|]. intros Hin. apply mapM_Some in E.
    apply list_elem_of_lookup in Hin as [i Hi].
    destruct (Forall2_lookup_l _ _ _ _ _ E Hi) as (y & _ & Hy). by simpl in Hy.
  - split; [|done]. intros _. apply mapM_None in E.
    apply Exists_exists in E as (w & Hw & Hn). by apply hint1_word_None in Hn as ->.
Qed.

Lemma hint2_word_cons2 (c d : N) (w : jsstring) :
  hint2_word (c :: d :: w) = toUpperCase [c] ++ 95%N :: hint2_word w.
Proof.
  unfold hint2_word. rewrite !imap_cons. cbn [concat]. unfold compose.
  rewrite decide_True by done. rewrite decide_False by done.
  f_equal. cbn [app]. f_equal. f_equal.
  apply imap_ext. intros i x _.
  replace (S (S i) `mod` 2) with (i `mod` 2); [done|].
  change (S (S i)) with (2 + i). rewrite Nat.Div0.add_mod by done.
  rewrite Nat.Div0.mod_same, Nat.add_0_l, Nat.Div0.mod_mod; done.
Qed.

Lemma hint2_word_even (w w' : jsstring) :
  even_positions w = even_positions w' -> length w = length w' ->
  hint2_word w = hint2_word w'.
Proof.
  revert w'. induction w as [w IH] using (induction_ltof1 _ (@length N)).
  unfold ltof in IH. intros w' He Hl.
  destruct w as [|c [|d w]], w' as [|c' [|d' w']]; simplify_eq/=; try done.
  rewrite !hint2_word_cons2. f_equal. f_equal. apply IH; [simpl; lia | done | done].
Qed.

Lemma hint1_word_ext (w w' : jsstring) :
  head w = head w' -> length w = length w' -> hint1_word w = hint1_word w'.
Proof. destruct w, w'; intros; simplify_eq/=; by try replace (length w') with (length w). Qed.

Lemma mapM_ext_Forall2 {A B : Type} (f : A -> option B) (l l' : list A) :
  Forall2 (fun x x' => f x = f x') l l' -> mapM f l = mapM f l'.
Proof. induction 1 as [|x x' l l' Hx _ IH]; [done|]. cbn. by rewrite Hx, IH. Qed.

Lemma fmap_eq_Forall2 {A B : Type} (g : A -> B) (l l' : list A) :
  g <$> l = g <$> l' -> Forall2 (fun x x' => g x = g x') l l'.
Proof.
  revert l'. induction l as [|x l IH]; intros [|x' l'] E; simplify_eq/=; constructor; auto.
Qed.

(** The first hint is made of the first character and the length of each
    word of the answer, and of nothing else; the second hint of the
    characters at the even positions of each word and its length. *)
Theorem generateHints_hides (a b : jsstring) (ha hb : Hints) :
  generateHints a = Some ha -> generateHints b = Some hb ->
  ((fun w => (head w, length w)) <$> split_whitespace false a =
   (fun w => (head w, length w)) <$> split_whitespace false b ->
   hint1 ha = hint1 hb) /\
  ((fun w => (even_positions w, length w)) <$> split_whitespace false a =
   (fun w => (even_positions w, length w)) <$> split_whitespace false b ->
   hint2 ha = hint2 hb).
Proof.
  unfold generateHints.
  set (wa := split_whitespace false a). set (wb := split_whitespace false b).
  clearbody wa wb.
  destruct (mapM hint1_word wa) as [la|] eqn:Ea; [|done].
  destruct (mapM hint1_word wb) as [lb|] eqn:Eb; [|done].
  simpl. intros [= <-] [= <-]. simpl. split; intros E.
  - assert (Hlen : length wa = length wb).
    { apply (f_equal length) in E. by rewrite !length_fmap in E. }
    assert (Hl : Some la = Some lb).
    { rewrite <- Ea, <- Eb. apply mapM_ext_Forall2.
      apply fmap_eq_Forall2 in E. eapply Forall2_impl; [exact E|].
      intros w w' [= ? ?]. by apply hint1_word_ext. }
    injection Hl as ->. by rewrite Hlen.
  - apply fmap_eq_Forall2 in E.
    assert (Hw : hint2_word <$> wa = hint2_word <$> wb).
    { clear Ea Eb. induction E as [|w w' wa wb [= ? ?] _ IH]; [done|].
      rewrite !fmap_cons, IH. by rewrite (hint2_word_even w w'). }
    by rewrite Hw.
Qed.

End Hints.

Lemma generateHints_hides_witness :
  hint1 <$> generateHints (H := ascii_builtins) (js "cat flap") =
  hint1 <$> generateHints (H := ascii_builtins) (js "cow farm").
Proof.
  destruct (generateHints (H := ascii_builtins) (js "cat flap")) as [ha|] eqn:Ea;
    [|by vm_compute in Ea].
  destruct (generateHints (H := ascii_builtins) (js "cow farm")) as [hb|] eqn:Eb;
    [|by vm_compute in Eb].
  simpl. f_equal.
  apply (generateHints_hides (H := ascii_builtins) _ _ ha hb Ea Eb).
  vm_compute. reflexivity.
Defined.

(** ** Uploads *)

Section Uploads.
Context `{JSBuiltins}.

Lemma make_puzzles_Some (files : list UploadedFile) (answers : list jsstring)
    (ps : list Puzzle) :
  make_puzzles files answers = Some ps <->
  length ps = length files /\
  forall i file, files !! i = Some file ->
    exists p, ps !! i = Some p /\ make_puzzle answers i file = Some p.
Proof.
  unfold make_puzzles. rewrite mapM_Some. split.
  - intros HF. pose proof (Forall2_length _ _ _ HF) as Hlen.
    rewrite length_imap in Hlen. split; [done|].
    intros i file Hi.
    assert (Hi' : imap (make_puzzle answers) files !! i = Some (make_puzzle answers i file)).
    { by rewrite list_lookup_imap, Hi. }
    destruct (Forall2_lookup_l _ _ _ _ _ HF Hi') as (p & Hp & E). by exists p.
  - intros [Hlen Hall]. apply Forall2_same_length_lookup_2.
    + by rewrite length_imap.
    + intros i x p Hx Hp. rewrite list_lookup_imap in Hx.
      destruct (files !! i) as [file|] eqn:Hi; [|done]. simplify_eq/=.
      destruct (Hall i file Hi) as (p' & Hp' & E). congruence.
Qed.

Lemma make_puzzles_None (files : list UploadedFile) (answers : list jsstring) :
  make_puzzles files answers = None <->
  exists i, i < length files /\
    generateHints (default (js "Unknown") (truthy (answers !! i))) = None.
Proof.
  unfold make_puzzles. rewrite mapM_None, Exists_exists. split.
  - intros (x & Hx & ->). apply list_elem_of_lookup in Hx as [i Hi].
    rewrite list_lookup_imap in Hi.
    destruct (files !! i) as [file|] eqn:Hf; [|done]. simpl in Hi.
    exists i. split; [by eapply lookup_lt_Some|].
    unfold make_puzzle in Hi. injection Hi as Hi.
    by destruct (generateHints _).
  - intros (i & Hi & Hg). apply lookup_lt_is_Some in Hi as [file Hf].
    exists (make_puzzle answers i file). split.
    + apply list_elem_of_lookup. exists i. by rewrite list_lookup_imap, Hf.
    + unfold make_puzzle. by rewrite Hg.
Qed.

(** An upload to a code that is not registered answers 404 and changes
    nothing, whatever the files and answers.  An upload to a room throws
    when the answer of one of the files makes [generateHints] throw;
    otherwise the room gets one puzzle for each file, in the order of the
    files, with the answer of the same index ("Unknown" when it is missing
    or empty) and its hints; the room is in the lobby with as many rounds
    as files, also when a game was running, and its players, its sessions
    and the pending timeouts are untouched. *)
Theorem upload_request_effect (roomCode : jsstring) (files : list UploadedFile)
    (answers : list jsstring) (w : World) :
  (rooms_get roomCode w = None ->
   upload_request roomCode files answers w = Some (emit http_response http_not_found w)) /\
  (forall r room, rooms_get roomCode w = Some (r, room) ->
     (upload_request roomCode files answers w = None <->
      exists i, i < length files /\
        generateHints (default (js "Unknown") (truthy (answers !! i))) = None) /\
     forall w', upload_request roomCode files answers w = Some w' ->
       exists room',
         heap w' !! r = Some room' /\
         length (puzzles room') = length files /\
         (forall i p, puzzles room' !! i = Some p ->
            exists file, files !! i = Some file /\
              answer p = default (js "Unknown") (truthy (answers !! i)) /\
              generateHints (answer p) = Some (hints p) /\
              image p = js "data:" ++ mimetype file ++ js ";base64," ++ base64 file) /\
         totalRounds room' = Z.of_nat (length files) /\
         state room' = lobby /\
         players room' = players room /\ sessions room' = sessions room /\
         hostId room' = hostId room /\ currentRound room' = currentRound room /\
         roundTimer room' = roundTimer room /\ hintTimers room' = hintTimers room /\
         rooms w' = rooms w /\ timers w' = timers w /\
         (forall r', r' <> r -> heap w' !! r' = heap w !! r') /\
         emitted w' = emitted w ++ [(http_response, http_upload_ok (length files))]).
Proof.
  unfold upload_request. split.
  - by intros ->.
  - intros r room Hget. rewrite Hget. split.
    + rewrite <- make_puzzles_None. by destruct (make_puzzles files answers).
    + intros w'. destruct (make_puzzles files answers) as [ps|] eqn:E; [|done].
      simpl. intros [= <-]. apply make_puzzles_Some in E as [Hlen Hall].
      unfold upload. rewrite Hget.
      apply rooms_get_Some in Hget as [_ Hh].
      eexists. split.
      { autorewrite with world. by apply heap_update_room_eq. }
      simpl. split; [done|]. split.
      { intros i p Hp. assert (Hi : i < length files).
        { rewrite <- Hlen. by eapply lookup_lt_Some. }
        apply lookup_lt_is_Some in Hi as [file Hf].
        destruct (Hall i file Hf) as (p' & Hp' & Hm). simplify_eq.
        exists file. split; [done|]. unfold make_puzzle in Hm.
        destruct (generateHints _) as [h|] eqn:Hg; [|done]. simpl in Hm.
        injection Hm as <-. by simpl. }
      rewrite Hlen. repeat (split; [done|]). split.
      { intros r' Hne. autorewrite with world. by apply heap_update_room_ne. }
      done.
Qed.

End Uploads.

(** ** The bot simulator *)

(** Two capitalised words that are glued can be told apart again. *)
Lemma capitalised_app_inj (f f' l l' : jsstring) :
  capitalised f = true -> capitalised f' = true ->
  capitalised l = true -> capitalised l' = true ->
  f ++ l = f' ++ l' -> f = f' /\ l = l'.
Proof.
  destruct f as [|u fs]; [done|]. destruct f' as [|u' fs']; [done|].
  destruct l as [|v ls]; [done|]. destruct l' as [|v' ls']; [done|].
  simpl. intros [_ Hf]%andb_prop [_ Hf']%andb_prop [Hv _]%andb_prop [Hv' _]%andb_prop.
  intros [= <- E].
  revert fs' Hf' E. induction fs as [|x fs IH]; intros [|y fs'] Hf' E; simpl in *.
  - by simplify_eq.
  - simplify_eq. apply andb_prop in Hf' as [Hy _]. by rewrite Hv in Hy.
  - simplify_eq. apply andb_prop in Hf as [Hx _]. by rewrite Hv' in Hx.
  - apply andb_prop in Hf as [_ Hf]. apply andb_prop in Hf' as [_ Hf'].
    injection E as <- E. destruct (IH Hf fs' Hf' E) as [[= <-] [= <- <-]]. done.
Qed.

Lemma names_capitalised :
  Forall (fun s => capitalised (js s) = true) FIRST_NAMES /\
  Forall (fun s => capitalised (js s) = true) LAST_NAMES /\
  NoDup (js <$> FIRST_NAMES) /\ NoDup (js <$> LAST_NAMES).
Proof.
  split; [|split; [|split]].
  - apply (bool_decide_eq_true_1 _). vm_compute. reflexivity.
  - apply (bool_decide_eq_true_1 _). vm_compute. reflexivity.
  - apply (bool_decide_eq_true_1 _). vm_compute. reflexivity.
  - apply (bool_decide_eq_true_1 _). vm_compute. reflexivity.
Qed.

Lemma names_lookup_inj (names : list string) (a b : nat) :
  NoDup (js <$> names) -> a < length names -> b < length names ->
  js (names !!! a) = js (names !!! b) -> a = b.
Proof.
  intros Hnd Ha Hb E.
  apply (NoDup_lookup _ a b (js (names !!! a)) Hnd).
  - by rewrite list_lookup_fmap, (list_lookup_lookup_total_lt names a Ha).
  - by rewrite list_lookup_fmap, (list_lookup_lookup_total_lt names b Hb), E.
Qed.

(** The first 2500 bots get names that differ from one another, and the
    names repeat from there on. *)
Theorem getRandomName_distinct (i j : nat) :
  (i < 2500 -> j < 2500 -> getRandomName i = getRandomName j -> i = j) /\
  getRandomName (i + 2500) = getRandomName i.
Proof.
  split.
  - intros Hi Hj E. unfold getRandomName in E.
    change (length FIRST_NAMES) with 50 in E. change (length LAST_NAMES) with 50 in E.
    destruct names_capitalised as (Hf & Hl & Nf & Nl).
    assert (Mi : i `mod` 50 < 50) by (apply Nat.mod_upper_bound; lia).
    assert (Mj : j `mod` 50 < 50) by (apply Nat.mod_upper_bound; lia).
    assert (Di : (i `div` 50) `mod` 50 < 50) by (apply Nat.mod_upper_bound; lia).
    assert (Dj : (j `div` 50) `mod` 50 < 50) by (apply Nat.mod_upper_bound; lia).
    assert (Cap : forall names a, Forall (fun s => capitalised (js s) = true) names ->
                    a < length names -> capitalised (js (names !!! a)) = true).
    { intros names a HF Ha.
      exact (proj1 (Forall_lookup _ _) HF a _ (list_lookup_lookup_total_lt names a Ha)). }
    apply capitalised_app_inj in E as [E1 E2];
      [|by apply Cap|by apply Cap|by apply Cap|by apply Cap].
    apply (names_lookup_inj _ _ _ Nf Mi Mj) in E1.
    apply (names_lookup_inj _ _ _ Nl Di Dj) in E2.
    rewrite !Nat.mod_small in E2 by (apply Nat.Div0.div_lt_upper_bound; lia).
    rewrite (Nat.div_mod_eq i 50), (Nat.div_mod_eq j 50). congruence.
  - unfold getRandomName. change (length FIRST_NAMES) with 50.
    change (length LAST_NAMES) with 50.
    replace (i + 2500) with (i + 50 * 50) by lia.
    rewrite Nat.Div0.mod_add, Nat.div_add by done.
    replace (i `div` 50 + 50) with (i `div` 50 + 1 * 50) by lia.
    by rewrite Nat.Div0.mod_add.
Qed.



(** ** What every room of a run satisfies *)

Lemma room_pre_fields (room room' : Room) :
  players room' = players room -> sessions room' = sessions room ->
  length (hintTimers room') <= 2 ->
  puzzles room' = puzzles room -> totalRounds room' = totalRounds room ->
  room_pre room -> room_pre room'.
Proof.
  intros E1 E2 E3 E4 E5 (Hp & Hs & _ & Hr). unfold room_pre. by rewrite E1, E2, E4, E5.
Qed.

Lemma room_ok_fields (room room' : Room) :
  players room' = players room -> sessions room' = sessions room ->
  length (hintTimers room') <= 2 ->
  puzzles room' = puzzles room -> totalRounds room' = totalRounds room ->
  (state room' = playing -> state room = playing /\ currentRound room' = currentRound room) ->
  room_ok room -> room_ok room'.
Proof.
  intros E1 E2 E3 E4 E5 E6 [Hpre Hp]. split; [by eapply room_pre_fields|].
  intros Hs. destruct (E6 Hs) as [Hs' ->]. rewrite E4. auto.
Qed.

Lemma room_pre_keep (room room' : Room) :
  players room' = players room -> sessions room' = sessions room ->
  hintTimers room' = hintTimers room ->
  puzzles room' = puzzles room -> totalRounds room' = totalRounds room ->
  room_pre room -> room_pre room'.
Proof.
  intros E1 E2 E3 E4 E5 (Hp & Hs & Hh & Hr). unfold room_pre. by rewrite E1, E2, E3, E4, E5.
Qed.

Lemma room_ok_keep (room room' : Room) :
  players room' = players room -> sessions room' = sessions room ->
  hintTimers room' = hintTimers room ->
  puzzles room' = puzzles room -> totalRounds room' = totalRounds room ->
  (state room' = playing -> state room = playing /\ currentRound room' = currentRound room) ->
  room_ok room -> room_ok room'.
Proof.
  intros E1 E2 E3 E4 E5 E6 Hok. apply (room_ok_fields room); try done.
  rewrite E3. by destruct Hok as [(_ & _ & ? & _) _].
Qed.

Lemma room_ok_same_game (room room' : Room) :
  same_game room room' -> length (hintTimers room') <= 2 -> room_ok room -> room_ok room'.
Proof.
  intros (_&_&_&Gz&Gp&Gs&Gst&Gr&Gt&_) Hh. apply room_ok_fields; try done.
  intros Hs. by rewrite <- Gst.
Qed.

Lemma room_pre_insert (room : Room) (pid : jsstring) (p : Player) :
  player_ok pid p -> room_pre room ->
  room_pre (set_players (<[pid := p]> (players room)) room).
Proof.
  intros Hp (Hpl & Hs & Hh & Hr). split; [|split; [|done]].
  - by apply map_Forall_insert_2.
  - intros sid pid' Hsid. simpl. apply Hs in Hsid.
    destruct (decide (pid' = pid)) as [->|Hne].
    + rewrite lookup_insert_eq. by eauto.
    + by rewrite lookup_insert_ne.
Qed.

Lemma room_pre_fmap (room room' : Room) (f : Player -> Player) :
  players room' = f <$> players room -> sessions room' = sessions room ->
  length (hintTimers room') <= 2 ->
  (totalRounds room' <= Z.of_nat (length (puzzles room')))%Z ->
  (forall pid p, player_ok pid p -> player_ok pid (f p)) ->
  room_pre room -> room_pre room'.
Proof.
  intros E1 E2 E3 E4 Hf (Hpl & Hs & Hh & Hr). split; [|split; [|done]].
  - rewrite E1. intros pid p Hp. apply lookup_fmap_Some in Hp as (p0 & <- & Hp0).
    apply Hf. by apply Hpl.
  - intros sid pid Hsid. rewrite E1, lookup_fmap. rewrite E2 in Hsid.
    destruct (Hs _ _ Hsid) as [p ->]. by eauto.
Qed.

Lemma rooms_ok_heap (w w' : World) : heap w' = heap w -> rooms_ok w -> rooms_ok w'.
Proof. intros E Hw r room. rewrite E. apply Hw. Qed.

Lemma rooms_ok_update_room (r : nat) (f : Room -> Room) (X : World) :
  rooms_ok X ->
  (forall room, heap X !! r = Some room -> room_ok room -> room_ok (f room)) ->
  rooms_ok (update_room r f X).
Proof.
  intros HX Hf r' room'. destruct (decide (r' = r)) as [->|Hne].
  - destruct (heap X !! r) as [room|] eqn:E.
    + rewrite (heap_update_room_eq _ _ _ _ E). intros [= <-]. apply Hf; [done|].
      by apply (HX r).
    + unfold update_room. simpl. rewrite lookup_alter_eq, E. done.
  - rewrite heap_update_room_ne by done. apply HX.
Qed.

Lemma rooms_ok_but_update_room (r : nat) (f : Room -> Room) (X : World) :
  rooms_ok X ->
  (forall room, heap X !! r = Some room -> room_ok room -> room_pre (f room)) ->
  rooms_ok_but r (update_room r f X).
Proof.
  intros HX Hf r' room'. destruct (decide (r' = r)) as [->|Hne].
  - destruct (heap X !! r) as [room|] eqn:E.
    + rewrite (heap_update_room_eq _ _ _ _ E). intros [= <-]. apply Hf; [done|].
      by apply (HX r).
    + unfold update_room. simpl. rewrite lookup_alter_eq, E. done.
  - rewrite heap_update_room_ne by done. apply HX.
Qed.

Lemma rooms_ok_clearTimers (r : nat) (X : World) :
  rooms_ok X -> rooms_ok (clearTimers r X).
Proof.
  intros HX. destruct (heap X !! r) as [room|] eqn:E.
  - destruct (clearTimers_spec r X room E) as (_ & _ & _ & _ & O & (room' & E' & G & _ & HT) & _).
    cbv zeta in *. intros r' room1 Hr'. destruct (decide (r' = r)) as [->|Hne].
    + assert (room1 = room') as -> by congruence.
      apply (room_ok_same_game room); [done | by rewrite HT; simpl; lia | by apply (HX r)].
    + rewrite O in Hr' by done. by apply (HX r').
  - by rewrite clearTimers_None.
Qed.

Lemma rooms_ok_endRound (r : nat) (X w' : World) :
  endRound r X = Some w' -> rooms_ok X -> rooms_ok w'.
Proof.
  intros He HX. destruct (endRound_inv r X w' He) as (room & puzzle & E & Hp).
  destruct (endRound_spec r X room puzzle E Hp) as
    (w'' & He' & _ & _ & _ & _ & O & (room' & E' & G & _ & HT) & _).
  assert (w'' = w') as -> by congruence.
  intros r' room1 Hr'. destruct (decide (r' = r)) as [->|Hne].
  - assert (room1 = room') as -> by congruence.
    apply (room_ok_same_game room); [done | by rewrite HT; simpl; lia | by apply (HX r)].
  - rewrite O in Hr' by done. by apply (HX r').
Qed.

Lemma player_ok_reset_guessed (pid : jsstring) (p : Player) :
  player_ok pid p -> player_ok pid (reset_guessed p).
Proof. done. Qed.

(** The fields of the room that [startRound] leaves alone. *)
Lemma startRound_keeps (r : nat) (now : Z) (X w' : World) (room room' : Room) :
  startRound r now X = Some w' -> heap X !! r = Some room -> heap w' !! r = Some room' ->
  hostId room' = hostId room /\ hostSessionId room' = hostSessionId room /\
  totalRounds room' = totalRounds room /\ timePerRound room' = timePerRound room.
Proof.
  unfold startRound. intros Hs E. rewrite E in Hs. revert Hs. step_simpl.
  set (room1 := set_players (reset_guessed <$> players room)
                  (set_roundAnswered ∅ (set_roundStartTime (Some now) room))).
  set (w1 := update_room r _ X).
  assert (E1 : heap w1 !! r = Some room1).
  { subst w1. by rewrite (heap_update_room_eq _ _ _ _ E). }
  destruct (clearTimers_spec r w1 room1 E1) as (_ & _ & _ & _ & _ & (room2 & E2 & G & _) & _).
  cbv zeta in *. rewrite E2. step_simpl.
  destruct (puzzles room !! currentRound room) as [puzzle|]; [|done]. step_simpl.
  intros [= <-]. simpl. rewrite lookup_alter_eq, E2. simpl. intros [= <-]. simpl.
  by destruct G as (_ & -> & -> & _ & _ & _ & _ & _ & -> & -> & _).
Qed.

Lemma rooms_ok_startRound (r : nat) (now : Z) (X w' : World) :
  startRound r now X = Some w' -> rooms_ok_but r X -> rooms_ok w'.
Proof.
  intros Hs HX. destruct (startRound_spec r now X w' Hs) as
    (room & puzzle & room' & E & Hp & _ & _ & _ & O & E' & _ & HT & _ & Hpl & _ & _ & Hst &
     Hcr & Hpz & Hse & _).
  intros r' room1 Hr'. destruct (decide (r' = r)) as [->|Hne].
  - assert (room1 = room') as -> by congruence.
    specialize (HX r room E). rewrite decide_True in HX by done. split.
    + destruct (startRound_keeps r now X w' room room' Hs E E') as (_ & _ & Htr & _).
      apply (room_pre_fmap room room' reset_guessed); try done.
      * by rewrite HT.
      * rewrite Htr, Hpz. by destruct HX as (_ & _ & _ & ?).
    + intros _. rewrite Hpz, Hcr, Hp. by eauto.
  - rewrite O in Hr' by done. specialize (HX r' room1 Hr').
    by rewrite decide_False in HX.
Qed.

Lemma rooms_ok_weaken (r : nat) (X : World) : rooms_ok X -> rooms_ok_but r X.
Proof. intros HX r' room Hr'. case_decide; [by apply (HX r') | by apply (HX r')]. Qed.

Lemma rooms_ok_endGame (r : nat) (X w' : World) :
  endGame r X = Some w' -> rooms_ok X -> rooms_ok w'.
Proof.
  unfold endGame.
  destruct (heap (update_room r (set_state finished) (clearTimers r X)) !! r); [|done].
  step_simpl. intros [= <-] HX.
  apply (rooms_ok_heap (update_room r (set_state finished) (clearTimers r X))); [done|].
  apply rooms_ok_update_room; [by apply rooms_ok_clearTimers|].
  intros room _. by apply room_ok_keep.
Qed.

Lemma rooms_ok_create_room (rand : nat -> nat) (w : World) :
  rooms_ok w -> rooms_ok (create_room rand w).
Proof.
  intros Hw r room. unfold create_room, emit, set_rooms, set_heap. simpl.
  intros Hr. apply lookup_insert_Some in Hr as [[_ <-]|[_ Hr]]; [|by apply (Hw r)].
  split; [|done]. split; [|split]; simpl; [apply map_Forall_empty | | lia].
  intros sid pid. by rewrite lookup_empty.
Qed.

Lemma rooms_ok_upload (c : jsstring) (ps : list Puzzle) (w : World) :
  rooms_ok w -> rooms_ok (upload c ps w).
Proof.
  intros Hw. unfold upload. destruct (rooms_get c w) as [[r room]|].
  - apply (rooms_ok_heap (update_room r
      (fun room => set_state lobby (set_totalRounds (Z.of_nat (length ps))
                     (set_puzzles ps room))) w)); [done|].
    apply rooms_ok_update_room; [done|]. intros room' _ [(Hpl & Hs & Hh & _) _].
    split; [|done]. split; [done|]. split; [done|]. split; [done | simpl; lia].
  - by apply (rooms_ok_heap w).
Qed.

Lemma calcScore_nonneg (remaining total sim : Q) (kind : match_kind) :
  (0 <= sim)%Q -> (0 <= calcScore remaining total kind sim)%Z.
Proof.
  intros Hs. rewrite calcScore_spec_eq. pose proof (score_base_floor remaining total) as Hb.
  destruct kind; simpl; try lia.
  apply Math_round_lower. change (inject_Z 0) with 0%Q.
  assert (B : (0 <= inject_Z (score_base remaining total))%Q).
  { change 0%Q with (inject_Z 0). rewrite <- Zle_Qle. lia. }
  apply Qmult_le_0_compat; [|done]. apply Qmult_le_0_compat; [done | lra].
Qed.

(** The worlds between two mutations of a room differ in events, sockets
    and timeouts only. *)
Ltac ok_frame :=
  match goal with
  | |- rooms_ok ?W =>
      match W with
      | context [update_room ?r ?f ?X] =>
          apply (rooms_ok_heap (update_room r f X)); [done|]
      end
  end.

Section RoomsOk.
Context `{JSBuiltins}.

Lemma rooms_ok_host_join sock c sid w : rooms_ok w -> rooms_ok (host_join sock c sid w).
Proof.
  intros Hw. unfold host_join. destruct (rooms_get c w) as [[r room]|].
  - ok_frame. apply rooms_ok_update_room; [done|].
    intros room' _. by apply room_ok_keep.
  - by apply (rooms_ok_heap w).
Qed.

Lemma rooms_ok_emit_player_joined r c n X w' :
  emit_player_joined r c n X = Some w' -> rooms_ok X -> rooms_ok w'.
Proof.
  unfold emit_player_joined. destruct (heap X !! r); [|done]. step_simpl.
  intros [= <-]. by apply rooms_ok_heap.
Qed.

Lemma session_player_ok (room : Room) (sid : option jsstring) (pid : jsstring) (p : Player) :
  session_player room sid = Some (pid, p) -> players room !! pid = Some p.
Proof.
  unfold session_player. destruct (truthy sid) as [s|]; [|done]. simpl.
  destruct (truthy (sessions room !! s)) as [pid'|]; [|done]. simpl.
  destruct (players room !! pid') as [p'|] eqn:E; [|done]. simpl. by intros [= <- <-].
Qed.

Lemma rooms_ok_join_room sock c n sid now u1 u2 w w' :
  join_room sock c n sid now u1 u2 w = Some w' -> rooms_ok w -> rooms_ok w'.
Proof.
  intros Hj Hw. revert Hj. unfold join_room.
  destruct (rooms_get (toUpperCase c) w) as [[r room]|] eqn:Hget;
    [|intros [= <-]; by apply (rooms_ok_heap w)].
  apply rooms_get_Some in Hget as [_ Hh].
  case_decide; [intros [= <-]; by apply (rooms_ok_heap w)|].
  destruct (session_player room sid) as [[pid p]|] eqn:Hsp.
  - apply session_player_ok in Hsp.
    set (p' := {| id := id p; socketId := Some sock; name := _; score := score p;
                  online := true; guessedThisRound := guessedThisRound p |}).
    set (w1 := update_room r _ w).
    assert (Hw1 : rooms_ok w1).
    { subst w1. apply rooms_ok_update_room; [done|]. intros room' Hr' [Hpre Hpz].
      assert (room' = room) as -> by congruence.
      split; [|done]. apply room_pre_insert; [|done].
      destruct Hpre as (Hpl & _). destruct (Hpl pid p Hsp) as (Hid & Hsc & _).
      split; [done|]. split; [done|]. simpl. split; [by eauto | done]. }
    set (w2 := emit _ _ (join_socket _ _ _ _ w1)).
    assert (Hw2 : rooms_ok w2) by (by apply (rooms_ok_heap w1)).
    case_decide.
    + destruct (puzzles room !! currentRound room) as [puzzle|]; [|done].
      step_simpl. intros Hj. eapply rooms_ok_emit_player_joined; [exact Hj|].
      case_decide; by apply (rooms_ok_heap w1).
    + step_simpl. intros Hj. by eapply rooms_ok_emit_player_joined.
  - intros Hj. eapply rooms_ok_emit_player_joined; [exact Hj|].
    unfold join_socket. ok_frame. apply rooms_ok_update_room; [done|].
    intros room' Hr' [(Hpl & Hs & Hh') Hpz]. split; [|done].
    split; [|split; [|done]].
    + simpl. apply map_Forall_insert_2; [|done].
      split; [done|]. split; [done|]. simpl. split; [by eauto | done].
    + simpl. intros sid' pid'. unfold obj_set. case_decide.
      * intros Hsid. apply Hs in Hsid.
        destruct (decide (pid' = take 8 u1)) as [->|Hne];
          [rewrite lookup_insert_eq; by eauto | by rewrite lookup_insert_ne].
      * intros Hsid. apply lookup_insert_Some in Hsid as [[_ <-]|[_ Hsid]].
        -- rewrite lookup_insert_eq. by eauto.
        -- apply Hs in Hsid.
           destruct (decide (pid' = take 8 u1)) as [->|Hne];
             [rewrite lookup_insert_eq; by eauto | by rewrite lookup_insert_ne].
Qed.

Lemma player_ok_reset_player (pid : jsstring) (p : Player) :
  player_ok pid p -> player_ok pid (reset_player p).
Proof. intros (Hid & Hsc & Hon). split; [done|]. split; [simpl; lia | exact Hon]. Qed.

Lemma rooms_ok_start_game sock c rounds tpr now w w' :
  start_game sock c rounds tpr now w = Some w' -> rooms_ok w -> rooms_ok w'.
Proof.
  intros Hs Hw. revert Hs. unfold start_game.
  destruct (rooms_get c w) as [[r room]|]; [|by intros [= <-]].
  case_decide; [|by intros [= <-]].
  intros Hs. eapply rooms_ok_startRound; [exact Hs|].
  apply rooms_ok_but_update_room; [done|]. intros room' _ [Hpre _].
  eapply (room_pre_fmap room' _ reset_player); try done.
  - by destruct Hpre as (_ & _ & ? & _).
  - simpl. lia.
  - apply player_ok_reset_player.
Qed.

Lemma rooms_ok_submit_guess sock c guess now w w' :
  submit_guess sock c guess now w = Some w' -> rooms_ok w -> rooms_ok w'.
Proof.
  intros Hs Hw. revert Hs. unfold submit_guess.
  destruct (rooms_get c w) as [[r room]|] eqn:Hget; [|by intros [= <-]].
  apply rooms_get_Some in Hget as [_ Hh].
  case_decide; [by intros [= <-]|].
  destruct (playerId (socket_of sock w)) as [pid|]; [|by intros [= <-]].
  destruct (players room !! pid) as [player|] eqn:Hpl; [|by intros [= <-]].
  case_decide; [by intros [= <-]|].
  destruct (puzzles room !! currentRound room) as [puzzle|]; [|done]. step_simpl.
  case_decide; [intros [= <-]; by apply (rooms_ok_heap w)|].
  set (points := calcScore _ _ _ _).
  set (w1 := update_room r _ w).
  assert (Hw1 : rooms_ok w1).
  { subst w1. apply rooms_ok_update_room; [done|]. intros room' Hr' Hok.
    assert (room' = room) as -> by congruence.
    destruct Hok as [Hpre Hpz]. split; [|done].
    apply (room_pre_keep (set_players (<[pid := add_score points player]> (players room)) room));
      [done..|].
    apply room_pre_insert; [|done].
    destruct Hpre as (Hall & _). destruct (Hall pid player Hpl) as (Hid & Hsc & Hon).
    split; [done|]. split; [|done]. simpl.
    pose proof (calcScore_nonneg (remaining_time room now) (timePerRound room)
                  (similarity (checkGuess guess (answer puzzle)))
                  (match_ (checkGuess guess (answer puzzle)))) as Hn.
    pose proof (checkGuess_similarity_range guess (answer puzzle)) as [Hs0 _].
    specialize (Hn Hs0). subst points. lia. }
  destruct (heap w1 !! r) as [room1|]; [|done]. step_simpl.
  destruct (allAnswered room1).
  - intros He. eapply rooms_ok_endRound; [exact He|]. by apply (rooms_ok_heap w1).
  - intros [= <-]. by apply (rooms_ok_heap w1).
Qed.

Lemma rooms_ok_next_round sock c now w w' :
  next_round sock c now w = Some w' -> rooms_ok w -> rooms_ok w'.
Proof.
  intros Hs Hw. revert Hs. unfold next_round.
  destruct (rooms_get c w) as [[r room]|]; [|by intros [= <-]].
  case_decide; [|by intros [= <-]].
  case_bool_decide.
  - intros He. by eapply rooms_ok_endGame.
  - intros Hs. eapply rooms_ok_startRound; [exact Hs|].
    apply rooms_ok_but_update_room; [done|]. intros room' _ [Hpre _].
    by eapply room_pre_keep.
Qed.

Lemma rooms_ok_disconnect sock w w' :
  disconnect sock w = Some w' -> rooms_ok w -> rooms_ok w'.
Proof.
  intros Hd Hw. revert Hd. unfold disconnect.
  destruct (truthy (roomCode (socket_of sock w))) as [c|]; [|by intros [= <-]].
  destruct (rooms_get c w) as [[r room]|] eqn:Hget; [|by intros [= <-]].
  apply rooms_get_Some in Hget as [_ Hh].
  set (ph1 := match _ with Some (playerId, p) => _ | None => Some w end).
  assert (Hw1 : forall w1, ph1 = Some w1 -> rooms_ok w1).
  { subst ph1. intros w1.
    destruct (truthy (playerId (socket_of sock w)) ≫= _) as [[pid p]|] eqn:Hp;
      [|by intros [= <-]].
    assert (Hpl : players room !! pid = Some p).
    { destruct (truthy (playerId (socket_of sock w))) as [pid'|]; [|done]. simpl in Hp.
      destruct (players room !! pid') as [p'|] eqn:E; [|done]. by simplify_eq/=. }
    set (w0 := update_room r _ w).
    assert (Hw0 : rooms_ok w0).
    { subst w0. apply rooms_ok_update_room; [done|]. intros room' Hr' [Hpre Hpz].
      assert (room' = room) as -> by congruence.
      split; [|done]. apply room_pre_insert; [|done].
      destruct Hpre as (Hall & _). destruct (Hall pid p Hpl) as (Hid & Hsc & _).
      split; [done|]. split; [done|]. simpl. split; [done | by intros [? ?]]. }
    destruct (heap w0 !! r) as [room1|]; [|done]. step_simpl.
    intros [= <-]. by apply (rooms_ok_heap w0). }
  destruct ph1 as [w1|]; [|done]. specialize (Hw1 w1 eq_refl). step_simpl.
  destruct (heap w1 !! r) as [room1|]; [|done]. step_simpl.
  set (w2 := if isHost (socket_of sock w1) then _ else w1).
  assert (Hw2 : rooms_ok w2).
  { subst w2. destruct (isHost (socket_of sock w1)); [|done].
    destruct (head (onlinePlayers room1)); [|done].
    ok_frame. apply rooms_ok_update_room; [done|].
    intros room' _. by apply room_ok_keep. }
  destruct (heap w2 !! r) as [room2|]; [|done]. step_simpl. intros [= <-].
  case_decide; [|done]. by apply (rooms_ok_heap w2).
Qed.

Lemma rooms_ok_run_task task now X w' :
  run_task task now X = Some w' -> rooms_ok X -> rooms_ok w'.
Proof.
  intros Hr HX. revert Hr. destruct task as [r p|r p|r|r|r|c]; simpl.
  - destruct (heap X !! r); [|done]. step_simpl. intros [= <-]. by apply (rooms_ok_heap X).
  - destruct (heap X !! r); [|done]. step_simpl. intros [= <-]. by apply (rooms_ok_heap X).
  - intros He. by eapply rooms_ok_endRound.
  - intros Hs. eapply rooms_ok_startRound; [exact Hs|].
    apply rooms_ok_but_update_room; [done|]. intros room' _ [Hpre _].
    by eapply room_pre_keep.
  - intros He. by eapply rooms_ok_endGame.
  - destruct (rooms_get c X) as [[r room]|]; [|by intros [= <-]].
    case_decide; intros [= <-]; [|done].
    apply (rooms_ok_heap (clearTimers r X)); [done|]. by apply rooms_ok_clearTimers.
Qed.

Lemma rooms_ok_step (w w' : World) (i : Input) :
  step w i = Some w' -> rooms_ok w -> rooms_ok w'.
Proof.
  destruct i as [rand|c ps|sock c sid|sock c n sid now u1 u2|sock c rounds tpr now
                |sock c guess now|sock c now|sock|t now]; simpl.
  - intros [= <-]. apply rooms_ok_create_room.
  - intros [= <-]. apply rooms_ok_upload.
  - intros [= <-]. apply rooms_ok_host_join.
  - apply rooms_ok_join_room.
  - apply rooms_ok_start_game.
  - apply rooms_ok_submit_guess.
  - apply rooms_ok_next_round.
  - apply rooms_ok_disconnect.
  - unfold fire. destruct (timers w !! t) as [[d task]|]; [|by intros [= <-]].
    intros Hr Hw. eapply rooms_ok_run_task; [exact Hr|]. by apply (rooms_ok_heap w).
Qed.

Lemma rooms_ok_run (inputs : list Input) (w w' : World) :
  run w inputs = Some w' -> rooms_ok w -> rooms_ok w'.
Proof.
  revert w. induction inputs as [|i inputs IH]; intros w; simpl.
  - by intros [= <-].
  - destruct (step w i) as [w1|] eqn:E; [|done]. simpl. intros Hr Hw.
    apply (IH w1 Hr). by eapply rooms_ok_step.
Qed.

Lemma reachable_rooms_ok (w : World) : reachable w -> rooms_ok w.
Proof.
  intros [inputs Hr]. apply (rooms_ok_run inputs initial_world w Hr).
  intros r room Hh. simpl in Hh. by rewrite lookup_empty in Hh.
Qed.

End RoomsOk.

(** ** When a handler throws *)

Lemma startRound_None (r : nat) (now : Z) (X : World) (room : Room) :
  heap X !! r = Some room ->
  startRound r now X = None <-> puzzles room !! currentRound room = None.
Proof.
  intros E. unfold startRound. rewrite E. step_simpl.
  set (room1 := set_players (reset_guessed <$> players room)
                  (set_roundAnswered ∅ (set_roundStartTime (Some now) room))).
  set (w1 := update_room r _ X).
  assert (E1 : heap w1 !! r = Some room1).
  { subst w1. by rewrite (heap_update_room_eq _ _ _ _ E). }
  destruct (clearTimers_spec r w1 room1 E1) as (_ & _ & _ & _ & _ & (room2 & E2 & _) & _).
  cbv zeta in *. rewrite E2. step_simpl.
  destruct (puzzles room !! currentRound room) as [puzzle|]; by step_simpl.
Qed.

Lemma endRound_None (r : nat) (X : World) (room : Room) :
  heap X !! r = Some room ->
  endRound r X = None <-> puzzles room !! currentRound room = None.
Proof.
  intros E. split.
  - intros Hn. destruct (puzzles room !! currentRound room) as [puzzle|] eqn:Hp; [|done].
    destruct (endRound_spec r X room puzzle E Hp) as (w' & He & _). congruence.
  - intros Hp. destruct (endRound r X) as [w'|] eqn:He; [|done].
    destruct (endRound_inv r X w' He) as (room0 & puzzle & E0 & Hp0). congruence.
Qed.

Lemma endGame_Some (r : nat) (X : World) (room : Room) :
  heap X !! r = Some room -> is_Some (endGame r X).
Proof.
  intros E. unfold endGame.
  destruct (clearTimers_spec r X room E) as (_ & _ & _ & _ & _ & (room' & E' & _) & _).
  cbv zeta in *. rewrite (heap_update_room_eq _ _ _ _ E'). by eauto.
Qed.

Section Crashes.
Context `{JSBuiltins}.

Lemma join_room_Some sock c n sid now u1 u2 w :
  rooms_ok w -> is_Some (join_room sock c n sid now u1 u2 w).
Proof.
  intros Hw. unfold join_room.
  destruct (rooms_get (toUpperCase c) w) as [[r room]|] eqn:Hget; [|by eauto].
  apply rooms_get_Some in Hget as [_ Hh].
  case_decide; [by eauto|].
  assert (Hj : forall X n', heap X !! r = heap w !! r \/ is_Some (heap X !! r) ->
            is_Some (emit_player_joined r (toUpperCase c) n' X)).
  { intros X n' HX. unfold emit_player_joined.
    destruct (heap X !! r) as [room'|] eqn:E; [by eauto|].
    destruct HX as [HX|[? ?]]; congruence. }
  destruct (session_player room sid) as [[pid p]|].
  - case_decide as Hst.
    + destruct (Hw r room Hh) as [_ Hpz]. destruct (Hpz Hst) as [puzzle ->]. step_simpl.
      apply Hj. right. unfold join_socket. case_decide; autorewrite with world;
        rewrite (heap_update_room_eq _ _ _ _ Hh); by eauto.
    + step_simpl. apply Hj. right. unfold join_socket. autorewrite with world.
      rewrite (heap_update_room_eq _ _ _ _ Hh). by eauto.
  - apply Hj. right. unfold join_socket. autorewrite with world.
    rewrite (heap_update_room_eq _ _ _ _ Hh). by eauto.
Qed.

Lemma submit_guess_Some sock c guess now w :
  rooms_ok w -> is_Some (submit_guess sock c guess now w).
Proof.
  intros Hw. unfold submit_guess.
  destruct (rooms_get c w) as [[r room]|] eqn:Hget; [|by eauto].
  apply rooms_get_Some in Hget as [_ Hh].
  case_decide as Hst; [by eauto|].
  destruct (playerId (socket_of sock w)) as [pid|]; [|by eauto].
  destruct (players room !! pid) as [player|]; [|by eauto].
  case_decide; [by eauto|].
  destruct (Hw r room Hh) as [_ Hpz].
  destruct Hpz as [puzzle Hp]; [by destruct (state room)|]. rewrite Hp. step_simpl.
  case_decide; [by eauto|].
  rewrite (heap_update_room_eq _ _ _ _ Hh). step_simpl.
  destruct (allAnswered _); [|by eauto].
  match goal with |- is_Some (endRound r ?X) =>
    destruct (endRound_spec r X _ puzzle
                ltac:(autorewrite with world; by apply heap_update_room_eq) Hp)
      as (w' & -> & _) end.
  by eauto.
Qed.

Lemma disconnect_Some sock w : is_Some (disconnect sock w).
Proof.
  unfold disconnect.
  destruct (truthy (roomCode (socket_of sock w))) as [c|]; [|by eauto].
  destruct (rooms_get c w) as [[r room]|] eqn:Hget; [|by eauto].
  apply rooms_get_Some in Hget as [_ Hh].
  set (ph1 := match _ with Some (playerId, p) => _ | None => Some w end).
  assert (H1 : exists w1, ph1 = Some w1 /\ is_Some (heap w1 !! r)).
  { subst ph1.
    destruct (truthy (playerId (socket_of sock w)) ≫= _) as [[pid p]|]; [|by eauto].
    rewrite (heap_update_room_eq _ _ _ _ Hh). step_simpl.
    eexists. split; [done|]. autorewrite with world.
    rewrite (heap_update_room_eq _ _ _ _ Hh). by eauto. }
  destruct H1 as (w1 & -> & [room1 Hr1]). step_simpl. rewrite Hr1. step_simpl.
  set (w2 := if isHost (socket_of sock w1) then _ else w1).
  assert (H2 : is_Some (heap w2 !! r)).
  { subst w2. destruct (isHost (socket_of sock w1)); [|by eauto].
    destruct (head (onlinePlayers room1)); [|by eauto].
    autorewrite with world. rewrite (heap_update_room_eq _ _ _ _ Hr1). by eauto. }
  destruct H2 as [room2 ->]. step_simpl. by eauto.
Qed.

(** A step of a reachable state fails exactly when the handler reads a
    puzzle that is not there: [start-game] by the host of a room without
    puzzles, the round timeout when there is no puzzle for the current
    round, and the timeout of the pause when there is none for the next one
    (an upload has replaced the puzzles meanwhile).  Every other input is
    handled; [next-round] in particular finds its puzzle, since a room has
    at least as many puzzles as rounds. *)
Theorem step_crashes (w : World) (i : Input) :
  reachable w -> step w i = None <-> crashes w i.
Proof.
  intros Hreach. pose proof (reachable_rooms_ok w Hreach) as Hw.
  pose proof (reachable_ok w Hreach) as Hok.
  destruct i as [rand|c ps|sock c sid|sock c n sid now u1 u2|sock c rounds tpr now
                |sock c guess now|sock c now|sock|t now];
    simpl; try (split; [done|by intros []]).
  - destruct (join_room_Some sock c n sid now u1 u2 w Hw) as [w' ->].
    split; [done | by intros []].
  - unfold start_game.
    destruct (rooms_get c w) as [[r room]|] eqn:Hget.
    2:{ split; [done|]. by intros (? & ? & [=] & _). }
    case_decide as Hhost.
    2:{ split; [done|]. intros (? & ? & [= <- <-] & ? & _). done. }
    apply rooms_get_Some in Hget as [_ Hh].
    rewrite (startRound_None r now _ _ (heap_update_room_eq _ _ _ _ Hh)). simpl.
    split.
    + intros Hp. exists r, room. split; [done|]. split; [done|]. by destruct (puzzles room).
    + intros (? & ? & [= <- <-] & _ & ->). done.
  - destruct (submit_guess_Some sock c guess now w Hw) as [w' ->].
    split; [done | by intros []].
  - unfold next_round.
    destruct (rooms_get c w) as [[r room]|] eqn:Hget; [|split; [done | by intros []]].
    case_decide as Hhost; [|split; [done | by intros []]].
    apply rooms_get_Some in Hget as [_ Hh].
    case_bool_decide as Hlast.
    + destruct (endGame_Some r w room Hh) as [w' ->]. split; [done | by intros []].
    + split; [|by intros []].
      rewrite (startRound_None r now _ _ (heap_update_room_eq _ _ _ _ Hh)). simpl.
      intros Hp. apply lookup_ge_None in Hp.
      destruct (Hw r room Hh) as [(_ & _ & _ & Hr) _]. lia.
  - destruct (disconnect_Some sock w) as [w' ->]. split; [done | by intros []].
  - unfold fire. destruct (timers w !! t) as [[d task]|] eqn:Ht.
    2:{ split; [done|]. intros (? & ? & ? & _ & [[[=] _]|[[=] _]]). }
    assert (Hroom : forall r, task_room task = Some r -> is_Some (heap w !! r)).
    { intros r Hr. destruct (ok_tracked w Hok t d task r Ht Hr) as (room & ? & _). by eauto. }
    destruct task as [r p|r p|r|r|r|c]; simpl.
    + destruct (Hroom r eq_refl) as [room Hh].
      change (heap (clearTimeout t w)) with (heap w). rewrite Hh. step_simpl.
      split; [done|]. intros (? & ? & ? & _ & [[[=] _]|[[=] _]]).
    + destruct (Hroom r eq_refl) as [room Hh].
      change (heap (clearTimeout t w)) with (heap w). rewrite Hh. step_simpl.
      split; [done|]. intros (? & ? & ? & _ & [[[=] _]|[[=] _]]).
    + destruct (Hroom r eq_refl) as [room Hh].
      rewrite (endRound_None r (clearTimeout t w) room Hh). split.
      * intros Hp. exists d, r, room. split; [done|]. by left.
      * intros (? & ? & ? & Hh' & [[[= <- <-] ?]|[[=] _]]). congruence.
    + destruct (Hroom r eq_refl) as [room Hh].
      assert (Hh' : heap (clearTimeout t w) !! r = Some room) by done.
      rewrite (startRound_None r now _ _ (heap_update_room_eq _ _ _ _ Hh')). simpl.
      split.
      * intros Hp. exists d, r, room. split; [done|]. by right.
      * intros (? & ? & ? & Hh'' & [[[=] _]|[[= <- <-] ?]]). congruence.
    + destruct (Hroom r eq_refl) as [room Hh].
      destruct (endGame_Some r (clearTimeout t w) room Hh) as [w' ->].
      split; [done|]. intros (? & ? & ? & _ & [[[=] _]|[[=] _]]).
    + split; [|intros (? & ? & ? & _ & [[[=] _]|[[=] _]])].
      destruct (rooms_get c (clearTimeout t w)) as [[r room]|]; [|done].
      by case_decide.
Qed.

End Crashes.

Lemma step_crashes_witness :
  step (H := ascii_builtins)
    (run_demo [CreateRoom (fun _ => 0); HostJoin (js "host") demo_code None])
    (StartGame (js "host") demo_code 2 30 1000) = None.
Proof.
  apply (step_crashes (H := ascii_builtins)).
  - exists [CreateRoom (fun _ => 0); HostJoin (js "host") demo_code None].
    vm_compute. reflexivity.
  - exists 0, (demo_room (run_demo [CreateRoom (fun _ => 0); HostJoin (js "host") demo_code None])).
    split; [vm_compute; reflexivity|]. split; vm_compute; reflexivity.
Defined.

(** ** Players, sessions and timeouts of a reachable state *)

Section Reachable.
Context `{JSBuiltins}.

(** In every reachable state a player is stored under its own
    identifier, no score is negative, and a player is online exactly when
    it has the identifier of a socket. *)
Theorem reachable_players (w : World) (r : nat) (room : Room) (pid : jsstring) (p : Player) :
  reachable w -> heap w !! r = Some room -> players room !! pid = Some p ->
  id p = pid /\ (0 <= score p)%Z /\ (online p = true <-> is_Some (socketId p)).
Proof.
  intros Hreach Hr Hp. destruct (reachable_rooms_ok w Hreach r room Hr) as [(Hpl & _) _].
  by apply (Hpl pid p).
Qed.

(** In every reachable state a session token of a room names one of its
    players, so a [join-room] with a stored token finds the player. *)
Theorem reachable_sessions (w : World) (r : nat) (room : Room) (sid pid : jsstring) :
  reachable w -> heap w !! r = Some room -> sessions room !! sid = Some pid ->
  exists p, players room !! pid = Some p /\
    (sid <> [] -> pid <> [] -> session_player room (Some sid) = Some (pid, p)).
Proof.
  intros Hreach Hr Hs.
  destruct (reachable_rooms_ok w Hreach r room Hr) as [(_ & Hse & _) _].
  destruct (Hse sid pid Hs) as [p Hp]. exists p. split; [done|].
  intros Hsid Hpid. unfold session_player.
  destruct sid as [|c sid]; [done|]. simpl. rewrite Hs.
  destruct pid as [|c' pid]; [done|]. simpl. by rewrite Hp.
Qed.

(** In every reachable state at most three callbacks of a room are
    pending: the two hints and the round timeout, or the timeout of the
    pause alone. *)
Theorem room_timers_bound (w : World) (r : nat) (ts : list nat) :
  reachable w -> NoDup ts ->
  (forall t, t ∈ ts ->
     exists d task, timers w !! t = Some (d, task) /\ task_room task = Some r) ->
  length ts <= 3.
Proof.
  intros Hreach Hnd Hts.
  destruct ts as [|t0 ts0] eqn:Ets; [simpl; lia|]. rewrite <- Ets in *.
  pose proof (reachable_ok w Hreach) as Hok.
  destruct (Hts t0) as (d0 & task0 & Ht0 & Hr0); [rewrite Ets; left|].
  destruct (ok_tracked w Hok t0 d0 task0 r Ht0 Hr0) as (room & Hroom & _).
  destruct (reachable_rooms_ok w Hreach r room Hroom) as [(_ & _ & Hh & _) _].
  set (k := option_list (roundTimer room) ++ hintTimers room).
  assert (Hk : length k <= 3).
  { subst k. rewrite length_app. destruct (roundTimer room); simpl; lia. }
  assert (Hsub : ts ⊆+ k).
  { apply NoDup_submseteq; [done|]. intros t Ht.
    destruct (Hts t Ht) as (d & task & Htm & Hr).
    destruct (ok_tracked w Hok t d task r Htm Hr) as (room' & Hroom' & Htr).
    assert (room' = room) as -> by congruence.
    subst k. apply elem_of_app. destruct Htr as [Htr|Htr]; [left|by right].
    rewrite Htr. simpl. left. }
  apply submseteq_length in Hsub. lia.
Qed.

End Reachable.

Lemma reachable_players_witness :
  (0 <= score (demo_player demo_answered "a1a1a1a1"))%Z.
Proof.
  apply (reachable_players (H := ascii_builtins) demo_answered 0 (demo_room demo_answered)
           (js "a1a1a1a1")).
  - apply run_demo_reachable. vm_compute. eauto.
  - by_evaluation.
  - by_evaluation.
Defined.

Lemma reachable_sessions_witness :
  exists p, players (demo_room demo_answered) !! js "b2b2b2b2" = Some p.
Proof.
  destruct (reachable_sessions (H := ascii_builtins) demo_answered 0 (demo_room demo_answered)
              (js "token-bob") (js "b2b2b2b2")) as (p & Hp & _).
  - apply run_demo_reachable. vm_compute. eauto.
  - by_evaluation.
  - by_evaluation.
  - by exists p.
Defined.

Lemma room_timers_bound_witness : length [0; 1; 2] <= 3.
Proof.
  apply (room_timers_bound (H := ascii_builtins) demo_answered 0 [0; 1; 2]).
  - apply run_demo_reachable. vm_compute. eauto.
  - apply (bool_decide_eq_true_1 _). vm_compute. reflexivity.
  - intros t Ht. apply elem_of_cons in Ht as [->|Ht]; [|apply elem_of_cons in Ht as [->|Ht]];
      [| |apply list_elem_of_singleton in Ht as ->].
    + eexists _, _. split; vm_compute; reflexivity.
    + eexists _, _. split; vm_compute; reflexivity.
    + eexists _, _. split; vm_compute; reflexivity.
Defined.

Section MoreRounds.
Context `{JSBuiltins}.

(** [endGame] puts the room in the state [finished], tells the room the
    final leaderboard and clears every timeout the room held; from then on
    a guess for that room is ignored. *)
Theorem endGame_finishes (r : nat) (w w' : World) (room : Room) :
  heap w !! r = Some room -> endGame r w = Some w' ->
  exists room',
    heap w' !! r = Some room' /\ state room' = finished /\
    players room' = players room /\
    emitted w' = emitted w ++ [(io_to (Some (code room)), game_over (getLeaderboard room))] /\
    (forall t, tracks room t -> timers w' !! t = None) /\
    forall sock c guess now,
      rooms w' !! c = Some r -> submit_guess sock c guess now w' = Some w'.
Proof.
  intros E. unfold endGame.
  destruct (clearTimers_spec r w room E) as (_ & _ & M & _ & _ & (room1 & E1 & G & _) & P).
  cbv zeta in *. rewrite (heap_update_room_eq _ _ _ _ E1). step_simpl. intros [= <-].
  set (W := emit _ _ _).
  assert (EW : heap W !! r = Some (set_state finished room1)).
  { subst W. autorewrite with world. by apply heap_update_room_eq. }
  exists (set_state finished room1). split; [done|]. split; [done|].
  destruct G as (Gc & _ & _ & _ & Gp & _).
  split; [done|]. split.
  { subst W. autorewrite with world. rewrite M. simpl. rewrite Gc.
    unfold getLeaderboard. simpl. by rewrite Gp. }
  split.
  { intros t Ht. subst W. autorewrite with world. rewrite P. by rewrite decide_True. }
  intros sock c guess now Hc.
  assert (Hget : rooms_get c W = Some (r, set_state finished room1)).
  { by apply rooms_get_Some. }
  unfold submit_guess. rewrite Hget. by rewrite decide_True.
Qed.

(** A request that names a code that is not registered changes no room:
    [host-join] and [join-room] answer the socket with an error message,
    the upload answers 404, and [start-game], [submit-guess] and
    [next-round] do nothing at all. *)
Theorem unknown_room (w : World) (c : jsstring) :
  rooms_get c w = None ->
  (forall sock sid,
     host_join sock c sid w = emit (socket_emit sock) (error_msg (js "Room not found")) w) /\
  (forall sock c' n sid now u1 u2, toUpperCase c' = c ->
     join_room sock c' n sid now u1 u2 w =
       Some (emit (socket_emit sock) (error_msg (js "Room not found")) w)) /\
  (forall ps, upload c ps w = emit http_response http_not_found w) /\
  (forall sock rounds tpr now, start_game sock c rounds tpr now w = Some w) /\
  (forall sock guess now, submit_guess sock c guess now w = Some w) /\
  (forall sock now, next_round sock c now w = Some w).
Proof.
  intros Hget. repeat split; intros; unfold host_join, join_room, upload, start_game,
    submit_guess, next_round; subst; by rewrite Hget.
Qed.

Lemma rooms_disconnect sock w w' : disconnect sock w = Some w' -> rooms w' = rooms w.
Proof.
  unfold disconnect.
  destruct (truthy (roomCode (socket_of sock w))) as [c|]; [|by intros [= <-]].
  destruct (rooms_get c w) as [[r room]|]; [|by intros [= <-]].
  set (ph1 := match _ with Some (playerId, p) => _ | None => Some w end).
  assert (Hph : forall w1, ph1 = Some w1 -> rooms w1 = rooms w).
  { subst ph1. intros w1.
    destruct (truthy (playerId (socket_of sock w)) ≫= _) as [[pid p]|]; [|by intros [= <-]].
    destruct (heap (update_room r _ w) !! r) as [room1|]; [|done]. step_simpl.
    by intros [= <-]. }
  destruct ph1 as [w1|]; [|done]. specialize (Hph w1 eq_refl). step_simpl.
  destruct (heap w1 !! r) as [room1|]; [|done]. step_simpl.
  set (w2 := if isHost (socket_of sock w1) then _ else w1).
  assert (R2 : rooms w2 = rooms w1).
  { subst w2. destruct (isHost (socket_of sock w1)); [|done].
    by destruct (head (onlinePlayers room1)). }
  destruct (heap w2 !! r) as [room2|]; [|done]. step_simpl. intros [= <-].
  rewrite <- Hph, <- R2. by case_decide.
Qed.

End MoreRounds.

(** ** What a run keeps of a room *)

Lemma room_grows_refl (room : Room) : room_grows room room.
Proof. by repeat split. Qed.

Lemma room_grows_trans (r1 r2 r3 : Room) :
  room_grows r1 r2 -> room_grows r2 r3 -> room_grows r1 r3.
Proof.
  intros (A1 & A2 & A3 & A4) (B1 & B2 & B3 & B4).
  split; [congruence|]. split; [by etrans|]. split; [by etrans|]. auto.
Qed.

Lemma room_grows_same_game (room room' : Room) : same_game room room' -> room_grows room room'.
Proof.
  intros (Gc & Gh & _ & _ & Gp & Gs & _). unfold room_grows. by rewrite Gc, Gh, Gp, Gs.
Qed.

Lemma room_grows_keep (room room' : Room) :
  code room' = code room -> dom (players room') = dom (players room) ->
  sessions room' = sessions room -> hostId room' = hostId room ->
  room_grows room room'.
Proof. intros E1 E2 E3 E4. unfold room_grows. by rewrite E1, E2, E3, E4. Qed.

Lemma heap_grows_refl (w : World) : heap_grows w w.
Proof. intros r room Hr. exists room. split; [done | apply room_grows_refl]. Qed.

Lemma heap_grows_trans (w1 w2 w3 : World) :
  heap_grows w1 w2 -> heap_grows w2 w3 -> heap_grows w1 w3.
Proof.
  intros H12 H23 r room Hr. destruct (H12 r room Hr) as (room2 & Hr2 & G2).
  destruct (H23 r room2 Hr2) as (room3 & Hr3 & G3).
  exists room3. split; [done | by eapply room_grows_trans].
Qed.

Lemma heap_grows_heap (X X' : World) : heap X' = heap X -> heap_grows X X'.
Proof. intros E r room Hr. exists room. rewrite E. split; [done | apply room_grows_refl]. Qed.

Lemma heap_grows_update_room (r : nat) (f : Room -> Room) (X : World) :
  (forall room, heap X !! r = Some room -> room_grows room (f room)) ->
  heap_grows X (update_room r f X).
Proof.
  intros Hf r' room Hr'. destruct (decide (r' = r)) as [->|Hne].
  - exists (f room). split; [by apply heap_update_room_eq | by apply Hf].
  - exists room. rewrite heap_update_room_ne by done. split; [done | apply room_grows_refl].
Qed.

Lemma heap_grows_heap_r (w X X' : World) :
  heap X' = heap X -> heap_grows w X -> heap_grows w X'.
Proof. intros E HX. eapply heap_grows_trans; [exact HX | by apply heap_grows_heap]. Qed.

Lemma heap_grows_update_room_r (w : World) (r : nat) (f : Room -> Room) (X : World) :
  (forall room, heap X !! r = Some room -> room_grows room (f room)) ->
  heap_grows w X -> heap_grows w (update_room r f X).
Proof. intros Hf HX. eapply heap_grows_trans; [exact HX | by apply heap_grows_update_room]. Qed.

(** The worlds between two mutations of a room have the same room
    objects. *)
Ltac grows_frame :=
  match goal with
  | |- heap_grows ?w0 ?W =>
      match W with
      | context [update_room ?r ?f ?X] =>
          apply (heap_grows_heap_r w0 (update_room r f X) W); [done|]
      end
  end.

Lemma heap_grows_clearTimers (r : nat) (X : World) : heap_grows X (clearTimers r X).
Proof.
  destruct (heap X !! r) as [room|] eqn:E.
  - destruct (clearTimers_spec r X room E) as (_ & _ & _ & _ & O & (room' & E' & G & _) & _).
    cbv zeta in *. intros r' room1 Hr'. destruct (decide (r' = r)) as [->|Hne].
    + assert (room1 = room) as -> by congruence. exists room'.
      split; [done | by apply room_grows_same_game].
    + exists room1. rewrite O by done. split; [done | apply room_grows_refl].
  - rewrite clearTimers_None by done. apply heap_grows_refl.
Qed.

Lemma heap_grows_endRound (r : nat) (X w' : World) :
  endRound r X = Some w' -> rooms w' = rooms X /\ heap_grows X w'.
Proof.
  intros He. destruct (endRound_inv r X w' He) as (room & puzzle & E & Hp).
  destruct (endRound_spec r X room puzzle E Hp) as
    (w'' & He' & R & _ & _ & _ & O & (room' & E' & G & _) & _).
  assert (w'' = w') as -> by congruence. split; [done|].
  intros r' room1 Hr'. destruct (decide (r' = r)) as [->|Hne].
  - assert (room1 = room) as -> by congruence. exists room'.
    split; [done | by apply room_grows_same_game].
  - exists room1. rewrite O by done. split; [done | apply room_grows_refl].
Qed.

Lemma heap_grows_startRound (r : nat) (now : Z) (X w' : World) :
  startRound r now X = Some w' -> rooms w' = rooms X /\ heap_grows X w'.
Proof.
  intros Hs. destruct (startRound_spec r now X w' Hs) as
    (room & puzzle & room' & E & Hp & R & _ & _ & O & E' & _ & _ & _ & Hpl & _ & Hc & _ &
     _ & _ & Hse & _).
  split; [done|].
  intros r' room1 Hr'. destruct (decide (r' = r)) as [->|Hne].
  - assert (room1 = room) as -> by congruence. exists room'. split; [done|].
    apply room_grows_keep; [done | by rewrite Hpl, dom_fmap_L | done |].
    by destruct (startRound_keeps r now X w' room room' Hs E E') as (? & _).
  - exists room1. rewrite O by done. split; [done | apply room_grows_refl].
Qed.

Lemma heap_grows_endGame (r : nat) (X w' : World) :
  endGame r X = Some w' -> rooms w' = rooms X /\ heap_grows X w'.
Proof.
  unfold endGame.
  destruct (heap (update_room r (set_state finished) (clearTimers r X)) !! r); [|done].
  step_simpl. intros [= <-]. split.
  - autorewrite with world. apply rooms_clearTimers.
  - eapply heap_grows_trans; [apply heap_grows_clearTimers|].
    eapply heap_grows_trans; [|by apply heap_grows_heap].
    apply heap_grows_update_room. intros room _. by apply room_grows_keep.
Qed.

Lemma room_grows_insert (room : Room) (pid : jsstring) (p : Player) :
  room_grows room (set_players (<[pid := p]> (players room)) room).
Proof.
  split; [done|]. split; [apply dom_insert_subseteq|]. by split.
Qed.

Section Grows.
Context `{JSBuiltins}.

Lemma grows_emit_player_joined r c n X w' :
  emit_player_joined r c n X = Some w' -> rooms w' = rooms X /\ heap w' = heap X.
Proof.
  unfold emit_player_joined. destruct (heap X !! r); [|done]. step_simpl.
  by intros [= <-].
Qed.

Lemma grows_join_room sock c n sid now u1 u2 w w' :
  join_room sock c n sid now u1 u2 w = Some w' -> rooms w' = rooms w /\ heap_grows w w'.
Proof.
  unfold join_room.
  destruct (rooms_get (toUpperCase c) w) as [[r room]|];
    [|intros [= <-]; split; [done | by apply heap_grows_heap]].
  case_decide; [intros [= <-]; split; [done | by apply heap_grows_heap]|].
  destruct (session_player room sid) as [[pid p]|].
  - set (w1 := update_room r _ w).
    assert (G1 : heap_grows w w1).
    { subst w1. apply heap_grows_update_room. intros room' _. apply room_grows_insert. }
    case_decide.
    + destruct (puzzles room !! currentRound room) as [puzzle|]; [|done].
      step_simpl. intros Hj. apply grows_emit_player_joined in Hj as [-> Hh].
      split; [by case_decide|].
      eapply heap_grows_trans; [exact G1|]. apply heap_grows_heap.
      rewrite Hh. by case_decide.
    + step_simpl. intros Hj. apply grows_emit_player_joined in Hj as [-> Hh].
      split; [done|]. eapply heap_grows_trans; [exact G1|]. by apply heap_grows_heap.
  - intros Hj. apply grows_emit_player_joined in Hj as [-> Hh].
    split; [done|]. apply (heap_grows_heap_r _ _ _ Hh).
    unfold join_socket. grows_frame.
    apply heap_grows_update_room. intros room' _.
    split; [done|]. split; [apply dom_insert_subseteq|]. split; [|done].
    simpl. unfold obj_set. case_decide; [done | apply dom_insert_subseteq].
Qed.

Lemma grows_start_game sock c rounds tpr now w w' :
  start_game sock c rounds tpr now w = Some w' -> rooms w' = rooms w /\ heap_grows w w'.
Proof.
  unfold start_game.
  destruct (rooms_get c w) as [[r room]|];
    [|intros [= <-]; split; [done | apply heap_grows_refl]].
  case_decide; [|intros [= <-]; split; [done | apply heap_grows_refl]].
  intros Hs. apply heap_grows_startRound in Hs as [-> Hg]. split; [done|].
  eapply heap_grows_trans; [|exact Hg].
  apply heap_grows_update_room. intros room' _.
  apply room_grows_keep; try done. simpl. by rewrite dom_fmap_L.
Qed.

Lemma grows_submit_guess sock c guess now w w' :
  submit_guess sock c guess now w = Some w' -> rooms w' = rooms w /\ heap_grows w w'.
Proof.
  unfold submit_guess.
  destruct (rooms_get c w) as [[r room]|];
    [|intros [= <-]; split; [done | apply heap_grows_refl]].
  case_decide; [intros [= <-]; split; [done | apply heap_grows_refl]|].
  destruct (playerId (socket_of sock w)) as [pid|];
    [|intros [= <-]; split; [done | apply heap_grows_refl]].
  destruct (players room !! pid) as [player|];
    [|intros [= <-]; split; [done | apply heap_grows_refl]].
  case_decide; [intros [= <-]; split; [done | apply heap_grows_refl]|].
  destruct (puzzles room !! currentRound room) as [puzzle|]; [|done]. step_simpl.
  case_decide; [intros [= <-]; split; [done | by apply heap_grows_heap]|].
  set (w1 := update_room r _ w).
  assert (G1 : heap_grows w w1).
  { subst w1. apply heap_grows_update_room. intros room' _.
    split; [done|]. split; [apply dom_insert_subseteq | by split]. }
  destruct (heap w1 !! r) as [room1|]; [|done]. step_simpl.
  destruct (allAnswered room1).
  - intros He. apply heap_grows_endRound in He as [-> Hg]. split; [done|].
    eapply heap_grows_trans; [exact G1|].
    eapply heap_grows_trans; [|exact Hg]. by apply heap_grows_heap.
  - intros [= <-]. split; [done|].
    eapply heap_grows_trans; [exact G1|]. by apply heap_grows_heap.
Qed.

Lemma grows_next_round sock c now w w' :
  next_round sock c now w = Some w' -> rooms w' = rooms w /\ heap_grows w w'.
Proof.
  unfold next_round.
  destruct (rooms_get c w) as [[r room]|];
    [|intros [= <-]; split; [done | apply heap_grows_refl]].
  case_decide; [|intros [= <-]; split; [done | apply heap_grows_refl]].
  case_bool_decide.
  - apply heap_grows_endGame.
  - intros Hs. apply heap_grows_startRound in Hs as [-> Hg]. split; [done|].
    eapply heap_grows_trans; [|exact Hg].
    apply heap_grows_update_room. intros room' _. by apply room_grows_keep.
Qed.

Lemma grows_disconnect sock w w' :
  rooms_ok w ->
  disconnect sock w = Some w' -> rooms w' = rooms w /\ heap_grows w w'.
Proof.
  intros Hw. unfold disconnect.
  destruct (truthy (roomCode (socket_of sock w))) as [c|];
    [|intros [= <-]; split; [done | apply heap_grows_refl]].
  destruct (rooms_get c w) as [[r room]|] eqn:Hget;
    [|intros [= <-]; split; [done | apply heap_grows_refl]].
  apply rooms_get_Some in Hget as [_ Hh].
  set (ph1 := match _ with Some (playerId, p) => _ | None => Some w end).
  assert (Hph : forall w1, ph1 = Some w1 ->
            rooms w1 = rooms w /\ heap_grows w w1 /\ rooms_ok w1).
  { subst ph1. intros w1.
    destruct (truthy (playerId (socket_of sock w)) ≫= _) as [[pid p]|] eqn:Hp;
      [|intros [= <-]; split; [done | split; [apply heap_grows_refl | done]]].
    assert (Hpl : players room !! pid = Some p).
    { destruct (truthy (playerId (socket_of sock w))) as [pid'|]; [|done]. simpl in Hp.
      destruct (players room !! pid') as [p'|] eqn:E; [|done]. by simplify_eq/=. }
    set (w0 := update_room r _ w).
    assert (Hw0 : rooms_ok w0).
    { subst w0. apply rooms_ok_update_room; [done|]. intros room' Hr' [Hpre Hpz].
      assert (room' = room) as -> by congruence.
      split; [|done]. apply room_pre_insert; [|done].
      destruct Hpre as (Hall & _). destruct (Hall pid p Hpl) as (Hid & Hsc & _).
      split; [done|]. split; [done|]. simpl. split; [done | by intros [? ?]]. }
    destruct (heap w0 !! r) as [room1|]; [|done]. step_simpl.
    intros [= <-]. split; [done|]. split; [|by apply (rooms_ok_heap w0)].
    eapply heap_grows_trans; [|by apply heap_grows_heap].
    apply heap_grows_update_room. intros room' _. apply room_grows_insert. }
  destruct ph1 as [w1|]; [|done]. destruct (Hph w1 eq_refl) as (R1 & G1 & Hw1).
  step_simpl. destruct (heap w1 !! r) as [room1|] eqn:Hr1; [|done]. step_simpl.
  set (w2 := if isHost (socket_of sock w1) then _ else w1).
  assert (G2 : rooms w2 = rooms w1 /\ heap_grows w1 w2).
  { subst w2. destruct (isHost (socket_of sock w1)); [|split; [done | apply heap_grows_refl]].
    destruct (head (onlinePlayers room1)) as [p|] eqn:Hhead;
      [|split; [done | apply heap_grows_refl]].
    split; [done|]. eapply heap_grows_trans; [|by apply heap_grows_heap].
    apply heap_grows_update_room. intros room' _.
    split; [done|]. split; [done|]. split; [done|]. intros _. simpl.
    assert (Hin : p ∈ onlinePlayers room1) by (by apply head_Some_elem_of).
    apply list_elem_of_filter in Hin as [Hon Hin].
    apply list_elem_of_fmap in Hin as ([pid p'] & -> & Hin).
    apply elem_of_map_to_list in Hin.
    destruct (Hw1 r room1 Hr1) as [(Hall & _) _].
    destruct (Hall pid p' Hin) as (_ & _ & Ho). by apply Ho. }
  destruct G2 as [R2 G2].
  destruct (heap w2 !! r) as [room2|]; [|done]. step_simpl. intros [= <-].
  split.
  - rewrite <- R1, <- R2. by case_decide.
  - eapply heap_grows_trans; [exact G1|]. eapply heap_grows_trans; [exact G2|].
    apply heap_grows_heap. by case_decide.
Qed.

(** From a reachable state, a step grows every room object. *)
Lemma heap_grows_step (w w' : World) (i : Input) :
  rooms_ok w -> step w i = Some w' -> heap_grows w w'.
Proof.
  intros Hw. destruct i as [rand|c ps|sock c sid|sock c n sid now u1 u2|sock c rounds tpr now
                |sock c guess now|sock c now|sock|t now]; simpl.
  - intros [= <-]. intros r room Hr. exists room. split; [|apply room_grows_refl].
    unfold create_room, emit, set_rooms, set_heap. simpl.
    rewrite lookup_insert_ne; [done|]. intros <-.
    pose proof (is_fresh (dom (heap w))) as Hf. apply Hf. by apply elem_of_dom.
  - intros [= <-]. unfold upload. destruct (rooms_get c w) as [[r room]|];
      [|by apply heap_grows_heap].
    eapply heap_grows_trans; [|by apply heap_grows_heap].
    apply heap_grows_update_room. intros room' _. by apply room_grows_keep.
  - intros [= <-]. unfold host_join. destruct (rooms_get c w) as [[r room]|];
      [|by apply heap_grows_heap].
    eapply heap_grows_trans; [|by apply heap_grows_heap].
    apply heap_grows_update_room. intros room' _.
    split; [done|]. split; [done|]. split; [done|]. simpl. by eauto.
  - intros Hs. by apply grows_join_room in Hs as [_ ?].
  - intros Hs. by apply grows_start_game in Hs as [_ ?].
  - intros Hs. by apply grows_submit_guess in Hs as [_ ?].
  - intros Hs. by apply grows_next_round in Hs as [_ ?].
  - intros Hs. by apply grows_disconnect in Hs as [_ ?].
  - unfold fire. destruct (timers w !! t) as [[d task]|]; [|intros [= <-]; apply heap_grows_refl].
    destruct task as [r p|r p|r|r|r|c]; simpl.
    + change (heap (clearTimeout t w)) with (heap w).
      destruct (heap w !! r); [|done]. step_simpl. intros [= <-]. by apply heap_grows_heap.
    + change (heap (clearTimeout t w)) with (heap w).
      destruct (heap w !! r); [|done]. step_simpl. intros [= <-]. by apply heap_grows_heap.
    + intros He. apply heap_grows_endRound in He as [_ Hg].
      eapply heap_grows_trans; [|exact Hg]. by apply heap_grows_heap.
    + intros Hs. apply heap_grows_startRound in Hs as [_ Hg].
      eapply heap_grows_trans; [|exact Hg].
      eapply heap_grows_trans; [by apply (heap_grows_heap w (clearTimeout t w))|].
      apply heap_grows_update_room. intros room' _. by apply room_grows_keep.
    + intros He. apply heap_grows_endGame in He as [_ Hg].
      eapply heap_grows_trans; [|exact Hg]. by apply heap_grows_heap.
    + destruct (rooms_get c (clearTimeout t w)) as [[r room]|];
        [|intros [= <-]; by apply heap_grows_heap].
      case_decide; intros [= <-]; [|by apply heap_grows_heap].
      eapply heap_grows_trans; [by apply (heap_grows_heap w (clearTimeout t w))|].
      eapply heap_grows_trans; [apply heap_grows_clearTimers|]. by apply heap_grows_heap.
Qed.

(** Whatever happens to a room object of a reachable state, it keeps its
    code, its players and its session tokens, and it keeps having a host
    identifier when it has one. *)
Theorem room_never_shrinks (w w' : World) (inputs : list Input) (r : nat) (room : Room) :
  reachable w -> run w inputs = Some w' -> heap w !! r = Some room ->
  exists room',
    heap w' !! r = Some room' /\
    code room' = code room /\
    dom (players room) ⊆ dom (players room') /\
    dom (sessions room) ⊆ dom (sessions room') /\
    (is_Some (hostId room) -> is_Some (hostId room')).
Proof.
  intros Hreach Hrun. pose proof (reachable_rooms_ok w Hreach) as Hw. clear Hreach.
  revert w Hw Hrun room. induction inputs as [|i inputs IH]; intros w Hw; simpl.
  - intros [= <-] room Hr. exists room. split; [done | apply room_grows_refl].
  - destruct (step w i) as [w1|] eqn:Hs; [|done]. simpl. intros Hrun room Hr.
    destruct (heap_grows_step w w1 i Hw Hs r room Hr) as (room1 & Hr1 & G1).
    destruct (IH w1 (rooms_ok_step w w1 i Hs Hw) Hrun room1 Hr1) as (room' & Hr' & G').
    exists room'. split; [done|]. by apply (room_grows_trans room room1 room').
Qed.

(** Only [create-room] and the timeout of an empty room change the
    registry. *)
Theorem registry_changes (w w' : World) (i : Input) :
  step w i = Some w' -> registry_after w i w'.
Proof.
  destruct i as [rand|c ps|sock c sid|sock c n sid now u1 u2|sock c rounds tpr now
                |sock c guess now|sock c now|sock|t now]; simpl.
  - by intros [= <-].
  - intros [= <-]. unfold upload. by destruct (rooms_get c w) as [[r room]|].
  - intros [= <-]. unfold host_join. by destruct (rooms_get c w) as [[r room]|].
  - intros Hs. by apply grows_join_room in Hs as [? _].
  - intros Hs. by apply grows_start_game in Hs as [? _].
  - intros Hs. by apply grows_submit_guess in Hs as [? _].
  - intros Hs. by apply grows_next_round in Hs as [? _].
  - apply rooms_disconnect.
  - unfold fire. destruct (timers w !! t) as [[d task]|] eqn:Ht; [|intros [= <-]; by left].
    destruct task as [r p|r p|r|r|r|c]; simpl.
    + change (heap (clearTimeout t w)) with (heap w).
      destruct (heap w !! r); [|done]. step_simpl. intros [= <-]. by left.
    + change (heap (clearTimeout t w)) with (heap w).
      destruct (heap w !! r); [|done]. step_simpl. intros [= <-]. by left.
    + intros He. apply heap_grows_endRound in He as [-> _]. by left.
    + intros Hs. apply heap_grows_startRound in Hs as [-> _]. by left.
    + intros He. apply heap_grows_endGame in He as [-> _]. by left.
    + change (rooms_get c (clearTimeout t w)) with (rooms_get c w).
      destruct (rooms_get c w) as [[r room]|] eqn:Hget; [|intros [= <-]; by left].
      case_decide as Hnone; intros [= <-]; [|by left].
      right. exists d, c, r, room. split; [done|]. split; [done|].
      split; [by apply length_zero_iff_nil|]. done.
Qed.

End Grows.

(** ** Rounds *)

(** [startRound] schedules the first hint at half of the time of the
    round, the second at three quarters and the end of the round at its
    full time, under three new handles that the room keeps; a timeout that
    was pending stays pending unless the room held its handle. *)
Theorem startRound_schedule (r : nat) (now : Z) (X w' : World) (room : Room) :
  heap X !! r = Some room -> startRound r now X = Some w' ->
  exists puzzle room',
    puzzles room !! currentRound room = Some puzzle /\
    heap w' !! r = Some room' /\
    timers w' !! next_timer X = Some ((timePerRound room * 500)%Q, hint1_task r puzzle) /\
    timers w' !! (next_timer X + 1) =
      Some ((timePerRound room * 750)%Q, hint2_task r puzzle) /\
    timers w' !! (next_timer X + 2) = Some ((timePerRound room * 1000)%Q, round_end_task r) /\
    hintTimers room' = [next_timer X; next_timer X + 1] /\
    roundTimer room' = Some (next_timer X + 2) /\
    next_timer w' = next_timer X + 3 /\
    forall t, t < next_timer X ->
      timers w' !! t = if decide (tracks room t) then None else timers X !! t.
Proof.
  intros E Hs.
  destruct (startRound_spec r now X w' Hs) as
    (room0 & puzzle & room' & E0 & Hp & _ & _ & N & _ & E' & T & HT & _ & _ & _ & _ & _ &
     _ & _ & _ & _ & _ & _ & _ & P).
  assert (room0 = room) as -> by congruence.
  exists puzzle, room'. split; [done|]. split; [done|].
  assert (Htimers : timers w' !! next_timer X =
            Some ((timePerRound room * 500)%Q, hint1_task r puzzle) /\
          timers w' !! (next_timer X + 1) =
            Some ((timePerRound room * 750)%Q, hint2_task r puzzle) /\
          timers w' !! (next_timer X + 2) =
            Some ((timePerRound room * 1000)%Q, round_end_task r)).
  { revert Hs. unfold startRound. rewrite E. step_simpl.
    set (room1 := set_players (reset_guessed <$> players room)
                    (set_roundAnswered ∅ (set_roundStartTime (Some now) room))).
    set (w1 := update_room r _ X).
    assert (E1 : heap w1 !! r = Some room1).
    { subst w1. by rewrite (heap_update_room_eq _ _ _ _ E). }
    destruct (clearTimers_spec r w1 room1 E1) as
      (_ & _ & _ & N1 & _ & (room2 & E2 & G & _) & _).
    cbv zeta in *. rewrite E2. step_simpl. rewrite Hp. step_simpl.
    intros [= <-]. simpl. rewrite N1.
    destruct G as (_ & _ & _ & _ & _ & _ & _ & _ & _ & Gt & _). simpl in Gt. rewrite Gt.
    change (next_timer w1) with (next_timer X).
    replace (next_timer X + 1) with (S (next_timer X)) by lia.
    replace (next_timer X + 2) with (S (S (next_timer X))) by lia.
    split; [|split].
    - rewrite lookup_insert_ne by lia. rewrite lookup_insert_ne by lia.
      by rewrite lookup_insert_eq.
    - rewrite lookup_insert_ne by lia. by rewrite lookup_insert_eq.
    - by rewrite lookup_insert_eq. }
  destruct Htimers as (H1 & H2 & H3).
  split; [done|]. split; [done|]. split; [done|]. split; [done|]. split; [done|].
  split; [done|]. intros t Ht. rewrite P by lia. unfold tracks.
  destruct (decide (roundTimer room = Some t \/ t ∈ hintTimers room)); done.
Qed.

(** The [round-end] event says that the round is the last one exactly
    when the timeout that [endRound] schedules is the one that ends the
    game, after three seconds; otherwise it is the one that starts the next
    round, after five. *)
Theorem endRound_announces (r : nat) (w w' : World) (room : Room) :
  heap w !! r = Some room -> endRound r w = Some w' ->
  exists puzzle,
    puzzles room !! currentRound room = Some puzzle /\
    let isLastRound := bool_decide (totalRounds room - 1 <= Z.of_nat (currentRound room))%Z in
    emitted w' = emitted w ++
      [(io_to (Some (code room)),
        round_end (answer puzzle) (currentRound room + 1) (totalRounds room)
          (getLeaderboard room) isLastRound)] /\
    timers w' !! next_timer w =
      Some (if isLastRound then (3000%Q, end_game_task r) else (5000%Q, advance_task r)).
Proof.
  intros E He. destruct (endRound_inv r w w' He) as (room0 & puzzle & E0 & Hp).
  assert (room0 = room) as -> by congruence.
  destruct (endRound_spec r w room puzzle E Hp) as (w'' & He' & _ & _ & _ & M & _).
  assert (w'' = w') as -> by congruence.
  exists puzzle. split; [done|]. cbv zeta. split; [done|].
  clear He' M. revert He. unfold endRound.
  destruct (clearTimers_spec r w room E) as
    (_ & _ & _ & N1 & _ & (room1 & E1 & G1 & _) & _).
  cbv zeta in *. rewrite E1. simpl.
  destruct G1 as (_&_&_&Gp&_&_&_&Gr&Gt&_). rewrite Gp, Gr, Hp. simpl. rewrite Gt.
  case_bool_decide as Hlt.
  - rewrite bool_decide_eq_false_2 by lia. intros [= <-]. simpl.
    by rewrite N1, lookup_insert_eq.
  - rewrite bool_decide_eq_true_2 by lia. intros [= <-]. simpl.
    by rewrite N1, lookup_insert_eq.
Qed.

Section Rounds.
Context `{JSBuiltins}.

(** When the host starts the game in a room that has a puzzle, the room
    is playing its first round: the number of rounds is the one asked for,
    at most the number of puzzles, and all of them when 0 is asked; the time
    of a round is the one asked for, 30 when 0 is asked; every player is
    still there with score 0; nobody has answered. *)
Theorem start_game_effect (sock roomCode : jsstring) (rounds : Z) (tpr : Q)
    (now : Z) (w : World) (r : nat) (room : Room) :
  rooms_get roomCode w = Some (r, room) -> Some sock = hostId room -> puzzles room <> [] ->
  exists w' room',
    start_game sock roomCode rounds tpr now w = Some w' /\
    heap w' !! r = Some room' /\
    state room' = playing /\ currentRound room' = 0 /\
    totalRounds room' =
      Z.min (if decide (rounds = 0%Z) then Z.of_nat (length (puzzles room)) else rounds)
        (Z.of_nat (length (puzzles room))) /\
    timePerRound room' = (if Qeq_bool tpr 0 then 30%Q else tpr) /\
    puzzles room' = puzzles room /\
    dom (players room') = dom (players room) /\
    (forall pid p, players room' !! pid = Some p ->
       score p = 0%Z /\ guessedThisRound p = false) /\
    roundAnswered room' = ∅ /\ roundStartTime room' = Some now.
Proof.
  intros Hget Hhost Hpz. unfold start_game. rewrite Hget, decide_True by done.
  apply rooms_get_Some in Hget as [_ Hh].
  match goal with |- context [update_room r ?f w] => set (room1 := f) end.
  set (w1 := update_room r room1 w).
  assert (E1 : heap w1 !! r = Some (room1 room)).
  { subst w1. by apply heap_update_room_eq. }
  destruct (startRound r now w1) as [w'|] eqn:Hs.
  2:{ apply (startRound_None r now w1 _ E1) in Hs. simpl in Hs. by destruct (puzzles room). }
  destruct (startRound_spec r now w1 w' Hs) as
    (room0 & puzzle & room' & E0 & Hp & _ & _ & _ & _ & E' & _ & _ & Ha & Hpl & Hst & _ & Hstate &
     Hcr & Hpuz & _).
  assert (room0 = room1 room) as -> by congruence.
  destruct (startRound_keeps r now w1 w' _ room' Hs E1 E') as (_ & _ & Htr & Htp).
  exists w', room'. split; [done|]. split; [done|].
  split; [by rewrite Hstate|]. split; [by rewrite Hcr|].
  split; [rewrite Htr; reflexivity|]. split; [rewrite Htp; reflexivity|].
  split; [by rewrite Hpuz|].
  split; [rewrite Hpl; simpl; by rewrite !dom_fmap_L|].
  split; [|done].
  intros pid p. rewrite Hpl. simpl. rewrite <- map_fmap_compose, lookup_fmap.
  destruct (players room !! pid); [|done]. by intros [= <-].
Qed.

End Rounds.

(** In every reachable state a room has at least as many puzzles as
    rounds, a room that is playing has a puzzle for its current round, and
    a room keeps at most two handles of hint timeouts. *)
Theorem reachable_rounds `{JSBuiltins} (w : World) (r : nat) (room : Room) :
  reachable w -> heap w !! r = Some room ->
  (totalRounds room <= Z.of_nat (length (puzzles room)))%Z /\
  (state room = playing -> exists puzzle, puzzles room !! currentRound room = Some puzzle) /\
  length (hintTimers room) <= 2.
Proof.
  intros Hreach Hr.
  destruct (reachable_rooms_ok w Hreach r room Hr) as [(_ & _ & Hh & Hrounds) Hp].
  split; [done|]. split; [|done]. intros Hs. by destruct (Hp Hs) as [puzzle ?]; eauto.
Qed.

(** *** The sample run, once more *)

Lemma reachable_rounds_witness :
  exists puzzle,
    puzzles (demo_room demo_answered) !! currentRound (demo_room demo_answered) = Some puzzle.
Proof.
  destruct (reachable_rounds (H := ascii_builtins) demo_answered 0 (demo_room demo_answered))
    as (_ & Hp & _).
  - apply run_demo_reachable. vm_compute. eauto.
  - by_evaluation.
  - apply Hp. by_evaluation.
Defined.

Lemma room_never_shrinks_witness :
  dom (players (demo_room demo_world)) ⊆ dom (players (demo_room demo_answered)).
Proof.
  destruct (room_never_shrinks (H := ascii_builtins) demo_world demo_answered
              [SubmitGuess (js "socket-ann") demo_code (js "eifel tower") 6000] 0
              (demo_room demo_world)) as (room' & Hr' & _ & Hp & _).
  - apply run_demo_reachable. vm_compute. eauto.
  - by_evaluation.
  - by_evaluation.
  - assert (Hroom : room' = demo_room demo_answered).
    { apply (inj Some). rewrite <- Hr'. by_evaluation. }
    by rewrite <- Hroom.
Defined.

Lemma registry_changes_witness : rooms demo_answered = rooms demo_world.
Proof.
  apply (registry_changes (H := ascii_builtins) demo_world demo_answered
           (SubmitGuess (js "socket-ann") demo_code (js "eifel tower") 6000)).
  by_evaluation.
Defined.

Lemma startRound_schedule_witness :
  exists w',
    startRound 0 1000 demo_lobby = Some w' /\
    exists puzzle, timers w' !! next_timer demo_lobby =
      Some ((timePerRound (demo_room demo_lobby) * 500)%Q, hint1_task 0 puzzle).
Proof.
  destruct (startRound 0 1000 demo_lobby) as [w'|] eqn:Hs; [|by vm_compute in Hs].
  exists w'. split; [reflexivity|].
  destruct (startRound_schedule 0 1000 demo_lobby w' (demo_room demo_lobby))
    as (puzzle & room' & _ & _ & Ht & _); [by_evaluation | exact Hs |].
  exists puzzle. exact Ht.
Defined.

Lemma endRound_announces_witness :
  exists w',
    endRound 0 demo_answered = Some w' /\
    timers w' !! next_timer demo_answered = Some (5000%Q, advance_task 0).
Proof.
  destruct (endRound 0 demo_answered) as [w'|] eqn:He; [|by vm_compute in He].
  exists w'. split; [reflexivity|].
  destruct (endRound_announces 0 demo_answered w' (demo_room demo_answered))
    as (puzzle & _ & _ & Ht); [by_evaluation | exact He |].
  rewrite Ht. by_evaluation.
Defined.

Lemma start_game_effect_witness :
  exists w' room',
    start_game (js "host") demo_code 2 30 1000 demo_lobby = Some w' /\
    heap w' !! 0 = Some room' /\ state room' = playing.
Proof.
  destruct (start_game_effect (js "host") demo_code 2 30 1000
              demo_lobby 0 (demo_room demo_lobby))
    as (w' & room' & Hs & Hr & Hst & _).
  - by_evaluation.
  - by_evaluation.
  - vm_compute. discriminate.
  - exists w', room'. split; [exact Hs|]. split; [exact Hr | exact Hst].
Defined.

Lemma endGame_finishes_witness :
  exists w' room',
    endGame 0 demo_answered = Some w' /\ heap w' !! 0 = Some room' /\ state room' = finished.
Proof.
  destruct (endGame 0 demo_answered) as [w'|] eqn:He; [|by vm_compute in He].
  destruct (endGame_finishes (H := ascii_builtins) 0 demo_answered w' (demo_room demo_answered))
    as (room' & Hr & Hst & _); [by_evaluation | exact He |].
  exists w', room'. split; [reflexivity|]. split; [exact Hr | exact Hst].
Defined.

Lemma unknown_room_witness :
  submit_guess (H := ascii_builtins) (js "socket-ann") (js "ZZZZZZ") (js "cat") 5000
    demo_world = Some demo_world.
Proof.
  apply (unknown_room (H := ascii_builtins) demo_world (js "ZZZZZZ")).
  by_evaluation.
Defined.

(** ** Disconnections *)

Lemma truthy_Some (s : jsstring) : s <> [] -> truthy (Some s) = Some s.
Proof. by destruct s. Qed.

(** The disconnection of the socket of a player, step by step. *)
Lemma disconnect_player_steps (sock c pid : jsstring) (w : World) (r : nat) (room : Room)
    (p : Player) :
  c <> [] -> pid <> [] ->
  roomCode (socket_of sock w) = Some c -> playerId (socket_of sock w) = Some pid ->
  rooms_get c w = Some (r, room) -> players room !! pid = Some p ->
  exists w' room' p',
    disconnect sock w = Some w' /\ heap w' !! r = Some room' /\
    players room' = <[pid := p']> (players room) /\
    online p' = false /\ socketId p' = None /\ id p' = id p /\ name p' = name p /\
    score p' = score p /\ guessedThisRound p' = guessedThisRound p /\
    roundAnswered room' = roundAnswered room /\ state room' = state room /\
    sessions room' = sessions room /\
    hostId room' =
      (if isHost (socket_of sock w)
       then match head (onlinePlayers room') with
            | Some onlinePlayer => socketId onlinePlayer
            | None => hostId room
            end
       else hostId room) /\
    emitted w' = emitted w ++
      [(io_to (Some c),
        player_left (name p) (length (onlinePlayers room')) (player_list room'));
       (io_to (Some c), leaderboard_update (getLeaderboard room'))] ++
      (if isHost (socket_of sock w)
       then match head (onlinePlayers room') with
            | Some onlinePlayer => [(io_to (socketId onlinePlayer), host_promoted)]
            | None => []
            end
       else []) /\
    timers w' =
      (if decide (length (onlinePlayers room') = 0 /\ truthy (hostId room') = None)
       then <[next_timer w := ((10 * 60 * 1000)%Q, reap_task c)]> (timers w)
       else timers w) /\
    rooms w' = rooms w /\ sockets w' = sockets w.
Proof.
  intros Hc Hpid Hrc Hpi Hget Hp. unfold disconnect.
  rewrite Hrc, (truthy_Some c Hc), Hget, Hpi, (truthy_Some pid Hpid). step_simpl.
  rewrite Hp. step_simpl.
  apply rooms_get_Some in Hget as [Hr Hh].
  rewrite (heap_update_room_eq _ _ _ _ Hh). step_simpl.
  set (room1 := set_players (<[pid := go_offline p]> (players room)) room).
  set (w1 := emit _ _ (emit _ _ (update_room r _ w))).
  assert (E1 : heap w1 !! r = Some room1).
  { subst w1. autorewrite with world. by rewrite (heap_update_room_eq _ _ _ _ Hh). }
  rewrite E1. step_simpl.
  assert (Hs1 : socket_of sock w1 = socket_of sock w) by done. rewrite Hs1.
  destruct (isHost (socket_of sock w)) eqn:Hhost.
  - destruct (head (onlinePlayers room1)) as [op|] eqn:Hop.
    + set (room2 := set_hostId (socketId op) room1).
      assert (E2 : heap (emit (io_to (socketId op)) host_promoted
                           (update_room r (set_hostId (socketId op)) w1)) !! r
                   = Some room2).
      { autorewrite with world. by rewrite (heap_update_room_eq _ _ _ _ E1). }
      rewrite E2. step_simpl.
      exists (if decide (length (onlinePlayers room2) = 0 /\ truthy (hostId room2) = None)
              then (setTimeout (reap_task c) (10 * 60 * 1000)
                      (emit (io_to (socketId op)) host_promoted
                         (update_room r (set_hostId (socketId op)) w1))).2
              else emit (io_to (socketId op)) host_promoted
                     (update_room r (set_hostId (socketId op)) w1)),
        room2, (go_offline p).
      split; [done|]. split.
      { case_decide; autorewrite with world; by apply heap_update_room_eq. }
      split; [done|]. do 9 (split; [done|]).
      assert (Ho : onlinePlayers room2 = onlinePlayers room1) by done.
      rewrite Ho, Hop. split; [done|]. split.
      { case_decide; autorewrite with world; subst w1; autorewrite with world;
          by rewrite <- ?app_assoc. }
      split.
      { case_decide; autorewrite with world; [|done].
        subst w1. by autorewrite with world. }
      split; case_decide; by autorewrite with world.
    + rewrite E1. step_simpl.
      exists (if decide (length (onlinePlayers room1) = 0 /\ truthy (hostId room1) = None)
              then (setTimeout (reap_task c) (10 * 60 * 1000) w1).2 else w1),
        room1, (go_offline p).
      split; [done|]. split; [by case_decide|].
      split; [done|]. do 9 (split; [done|]).
      rewrite Hop. split; [done|]. split.
      { case_decide; autorewrite with world; subst w1; autorewrite with world;
          by rewrite <- ?app_assoc, ?app_nil_r. }
      split.
      { case_decide; autorewrite with world; [|done].
        subst w1. by autorewrite with world. }
      split; case_decide; by autorewrite with world.
  - rewrite E1. step_simpl.
    exists (if decide (length (onlinePlayers room1) = 0 /\ truthy (hostId room1) = None)
            then (setTimeout (reap_task c) (10 * 60 * 1000) w1).2 else w1),
      room1, (go_offline p).
    split; [done|]. split; [by case_decide|].
    split; [done|]. do 9 (split; [done|]).
    split; [done|]. split.
    { case_decide; autorewrite with world; subst w1; autorewrite with world;
        by rewrite <- ?app_assoc, ?app_nil_r. }
    split.
    { case_decide; autorewrite with world; [|done].
      subst w1. by autorewrite with world. }
    split; case_decide; by autorewrite with world.
Qed.

(** The disconnection of a socket that is no player, step by step. *)
Lemma disconnect_other_steps (sock c : jsstring) (w : World) (r : nat) (room : Room) :
  c <> [] ->
  roomCode (socket_of sock w) = Some c ->
  truthy (playerId (socket_of sock w)) = None ->
  rooms_get c w = Some (r, room) ->
  exists w' room',
    disconnect sock w = Some w' /\ heap w' !! r = Some room' /\
    players room' = players room /\ sessions room' = sessions room /\
    state room' = state room /\ roundAnswered room' = roundAnswered room /\
    hostId room' =
      (if isHost (socket_of sock w)
       then match head (onlinePlayers room) with
            | Some onlinePlayer => socketId onlinePlayer
            | None => hostId room
            end
       else hostId room) /\
    emitted w' = emitted w ++
      (if isHost (socket_of sock w)
       then match head (onlinePlayers room) with
            | Some onlinePlayer => [(io_to (socketId onlinePlayer), host_promoted)]
            | None => []
            end
       else []) /\
    timers w' =
      (if decide (length (onlinePlayers room) = 0 /\ truthy (hostId room') = None)
       then <[next_timer w := ((10 * 60 * 1000)%Q, reap_task c)]> (timers w)
       else timers w) /\
    rooms w' = rooms w /\ sockets w' = sockets w.
Proof.
  intros Hc Hrc Hpi Hget. unfold disconnect.
  rewrite Hrc, (truthy_Some c Hc), Hget, Hpi. step_simpl.
  apply rooms_get_Some in Hget as [Hr Hh]. rewrite Hh. step_simpl.
  destruct (isHost (socket_of sock w)) eqn:Hhost.
  - destruct (head (onlinePlayers room)) as [op|] eqn:Hop.
    + set (room2 := set_hostId (socketId op) room).
      assert (E2 : heap (emit (io_to (socketId op)) host_promoted
                           (update_room r (set_hostId (socketId op)) w)) !! r
                   = Some room2).
      { autorewrite with world. by rewrite (heap_update_room_eq _ _ _ _ Hh). }
      rewrite E2. step_simpl.
      assert (Ho : onlinePlayers room2 = onlinePlayers room) by done. rewrite Ho.
      exists (if decide (length (onlinePlayers room) = 0 /\ truthy (hostId room2) = None)
              then (setTimeout (reap_task c) (10 * 60 * 1000)
                      (emit (io_to (socketId op)) host_promoted
                         (update_room r (set_hostId (socketId op)) w))).2
              else emit (io_to (socketId op)) host_promoted
                     (update_room r (set_hostId (socketId op)) w)),
        room2.
      split; [done|]. split.
      { case_decide; autorewrite with world; by rewrite (heap_update_room_eq _ _ _ _ Hh). }
      do 5 (split; [done|]).
      split; [case_decide; by autorewrite with world|].
      split; [case_decide; by autorewrite with world|].
      split; case_decide; by autorewrite with world.
    + rewrite Hh. step_simpl.
      exists (if decide (length (onlinePlayers room) = 0 /\ truthy (hostId room) = None)
              then (setTimeout (reap_task c) (10 * 60 * 1000) w).2 else w), room.
      split; [done|]. split; [by case_decide|]. do 5 (split; [done|]).
      split; [case_decide; autorewrite with world; by rewrite ?app_nil_r|].
      split; [case_decide; by autorewrite with world|].
      split; case_decide; by autorewrite with world.
  - rewrite Hh. step_simpl.
    exists (if decide (length (onlinePlayers room) = 0 /\ truthy (hostId room) = None)
            then (setTimeout (reap_task c) (10 * 60 * 1000) w).2 else w), room.
    split; [done|]. split; [by case_decide|]. do 5 (split; [done|]).
    split; [case_decide; autorewrite with world; by rewrite ?app_nil_r|].
    split; [case_decide; by autorewrite with world|].
    split; case_decide; by autorewrite with world.
Qed.

(** The player that takes over from a host that left: none when the
    socket was not the host or nobody is online, else an online player. *)
Lemma promoted_player (sock : jsstring) (w : World) (room : Room) :
  let promoted := if isHost (socket_of sock w) then head (onlinePlayers room) else None in
  (promoted = None <-> isHost (socket_of sock w) = false \/ onlinePlayers room = []) /\
  (forall onlinePlayer, promoted = Some onlinePlayer -> onlinePlayer ∈ onlinePlayers room).
Proof.
  simpl. destruct (isHost (socket_of sock w)).
  - destruct (onlinePlayers room) as [|op l] eqn:E; simpl.
    + split; [by split; [right|]|done].
    + split; [split; [done|by intros [|]]|]. intros ? [= <-]. apply list_elem_of_here.
  - split; [by split; [left|]|done].
Qed.

(** When the socket of a player disconnects, the player stays in the room
    with its name and score, offline and without a socket; [roundAnswered],
    the session tokens and the state of the room are as before; the room is
    told who left, and gets the leaderboard.  If the socket had joined as
    host and a player is still online, one of the online players becomes
    the host and is told so; otherwise the room keeps its host identifier.
    A timeout that reaps the room after ten minutes is created exactly when
    nobody is online and the room has no host identifier. *)
Theorem disconnect_effect (sock c pid : jsstring) (w : World) (r : nat) (room : Room)
    (p : Player) :
  c <> [] -> pid <> [] ->
  roomCode (socket_of sock w) = Some c -> playerId (socket_of sock w) = Some pid ->
  rooms_get c w = Some (r, room) -> players room !! pid = Some p ->
  exists w' room' p' promoted,
    disconnect sock w = Some w' /\ heap w' !! r = Some room' /\
    players room' = <[pid := p']> (players room) /\
    online p' = false /\ socketId p' = None /\ id p' = id p /\ name p' = name p /\
    score p' = score p /\ guessedThisRound p' = guessedThisRound p /\
    roundAnswered room' = roundAnswered room /\ state room' = state room /\
    sessions room' = sessions room /\
    (promoted = None <->
     isHost (socket_of sock w) = false \/ onlinePlayers room' = []) /\
    (forall onlinePlayer, promoted = Some onlinePlayer ->
       onlinePlayer ∈ onlinePlayers room') /\
    hostId room' = match promoted with
                   | Some onlinePlayer => socketId onlinePlayer
                   | None => hostId room
                   end /\
    emitted w' = emitted w ++
      [(io_to (Some c),
        player_left (name p) (length (onlinePlayers room')) (player_list room'));
       (io_to (Some c), leaderboard_update (getLeaderboard room'))] ++
      match promoted with
      | Some onlinePlayer => [(io_to (socketId onlinePlayer), host_promoted)]
      | None => []
      end /\
    timers w' =
      (if decide (length (onlinePlayers room') = 0 /\ truthy (hostId room') = None)
       then <[next_timer w := ((10 * 60 * 1000)%Q, reap_task c)]> (timers w)
       else timers w) /\
    rooms w' = rooms w /\ sockets w' = sockets w.
Proof.
  intros Hc Hpid Hrc Hpi Hget Hp.
  destruct (disconnect_player_steps sock c pid w r room p Hc Hpid Hrc Hpi Hget Hp)
    as (w' & room' & p' & Hd & Hh & Hpl & Ho & Hs & Hid & Hn & Hsc & Hg & Hra & Hst &
        Hse & Hhost & Hem & Ht & Hrooms & Hsock).
  destruct (promoted_player sock w room') as [Hnone Hsome].
  exists w', room', p',
    (if isHost (socket_of sock w) then head (onlinePlayers room') else None).
  do 12 (split; [assumption|]). split; [exact Hnone|]. split; [exact Hsome|].
  split; [|split; [|by repeat split]].
  - rewrite Hhost. by destruct (isHost (socket_of sock w)).
  - rewrite Hem. by destruct (isHost (socket_of sock w)).
Qed.

Lemma disconnect_effect_witness :
  exists w' room',
    disconnect (js "socket-bob") demo_world = Some w' /\
    heap w' !! 0 = Some room' /\ sessions room' = sessions (demo_room demo_world).
Proof.
  destruct (disconnect_effect (js "socket-bob") demo_code
              (js "b2b2b2b2") demo_world 0 (demo_room demo_world)
              (demo_player demo_world "b2b2b2b2"))
    as (w' & room' & p' & promoted & Hd & Hh & _ & _ & _ & _ & _ & _ & _ & _ & _ &
        Hs & _);
    [intros E; vm_compute in E; discriminate E
    |intros E; vm_compute in E; discriminate E
    |by_evaluation..|].
  exists w', room'. split; [exact Hd|]. split; [exact Hh|exact Hs].
Defined.

(** When a socket that is in a room without being one of its players
    disconnects (the socket of the host is one), the players of the room
    are as before and nothing is sent about them.  If the socket had joined
    as host and a player is online, one of the online players becomes the
    host and is told so; if nobody is online, the room keeps the identifier
    of the socket that is gone.  A reaping timeout is created exactly when
    nobody is online and the room has no host identifier. *)
Theorem disconnect_host (sock c : jsstring) (w : World) (r : nat) (room : Room) :
  c <> [] ->
  roomCode (socket_of sock w) = Some c ->
  truthy (playerId (socket_of sock w)) = None ->
  rooms_get c w = Some (r, room) ->
  exists w' room' promoted,
    disconnect sock w = Some w' /\ heap w' !! r = Some room' /\
    players room' = players room /\ sessions room' = sessions room /\
    state room' = state room /\ roundAnswered room' = roundAnswered room /\
    (promoted = None <->
     isHost (socket_of sock w) = false \/ onlinePlayers room = []) /\
    (forall onlinePlayer, promoted = Some onlinePlayer ->
       onlinePlayer ∈ onlinePlayers room) /\
    hostId room' = match promoted with
                   | Some onlinePlayer => socketId onlinePlayer
                   | None => hostId room
                   end /\
    emitted w' = emitted w ++
      match promoted with
      | Some onlinePlayer => [(io_to (socketId onlinePlayer), host_promoted)]
      | None => []
      end /\
    timers w' =
      (if decide (length (onlinePlayers room) = 0 /\ truthy (hostId room') = None)
       then <[next_timer w := ((10 * 60 * 1000)%Q, reap_task c)]> (timers w)
       else timers w) /\
    rooms w' = rooms w /\ sockets w' = sockets w.
Proof.
  intros Hc Hrc Hpi Hget.
  destruct (disconnect_other_steps sock c w r room Hc Hrc Hpi Hget)
    as (w' & room' & Hd & Hh & Hpl & Hse & Hst & Hra & Hhost & Hem & Ht & Hrooms & Hsock).
  destruct (promoted_player sock w room) as [Hnone Hsome].
  exists w', room',
    (if isHost (socket_of sock w) then head (onlinePlayers room) else None).
  do 6 (split; [assumption|]). split; [exact Hnone|]. split; [exact Hsome|].
  split; [|split; [|by repeat split]].
  - rewrite Hhost. by destruct (isHost (socket_of sock w)).
  - rewrite Hem. by destruct (isHost (socket_of sock w)).
Qed.

Lemma disconnect_host_witness :
  exists w' room',
    disconnect (js "host") demo_world = Some w' /\
    heap w' !! 0 = Some room' /\ players room' = players (demo_room demo_world).
Proof.
  destruct (disconnect_host (js "host") demo_code demo_world 0 (demo_room demo_world))
    as (w' & room' & promoted & Hd & Hh & Hp & _);
    [intros E; vm_compute in E; discriminate E|by_evaluation..|].
  exists w', room'. split; [exact Hd|]. split; [exact Hh|exact Hp].
Defined.

(** ** The host *)

Lemma endGame_steps (r : nat) (w : World) (room : Room) :
  heap w !! r = Some room ->
  exists w' room',
    endGame r w = Some w' /\ heap w' !! r = Some room' /\ state room' = finished /\
    currentRound room' = currentRound room /\ players room' = players room /\
    rooms w' = rooms w /\
    emitted w' = emitted w ++ [(io_to (Some (code room)), game_over (getLeaderboard room))] /\
    forall t, timers w' !! t = if decide (tracks room t) then None else timers w !! t.
Proof.
  intros E. unfold endGame.
  destruct (clearTimers_spec r w room E) as (R & _ & M & _ & _ & (room1 & E1 & G & _) & P).
  cbv zeta in *. rewrite (heap_update_room_eq _ _ _ _ E1). step_simpl.
  set (W := emit _ _ _).
  assert (EW : heap W !! r = Some (set_state finished room1)).
  { subst W. autorewrite with world. by apply heap_update_room_eq. }
  destruct G as (Gc & _ & _ & _ & Gp & _ & _ & Gcr & _).
  exists W, (set_state finished room1). split; [done|]. split; [done|]. split; [done|].
  split; [done|]. split; [done|]. split; [subst W; by autorewrite with world|]. split.
  { subst W. autorewrite with world. rewrite M. simpl. rewrite Gc.
    unfold getLeaderboard. simpl. by rewrite Gp. }
  intros t. subst W. autorewrite with world. by rewrite P.
Qed.

(** [next-round] of a socket that is not the host of the room is
    ignored.  From the host, in the last round or past it, it ends the
    game: the room is finished and is told the final leaderboard.
    Otherwise it starts the next round: the round number goes up by one,
    nobody has answered, the scores are as they were, and the room gets the
    new puzzle; the state of the room is as before, so that a room in the
    lobby is not playing after it. *)
Theorem next_round_effect (sock c : jsstring) (now : Z) (w : World) (r : nat) (room : Room) :
  rooms_get c w = Some (r, room) ->
  (Some sock <> hostId room -> next_round sock c now w = Some w) /\
  (Some sock = hostId room ->
   (totalRounds room - 1 <= Z.of_nat (currentRound room))%Z ->
   exists w' room',
     next_round sock c now w = Some w' /\ heap w' !! r = Some room' /\
     state room' = finished /\ currentRound room' = currentRound room /\
     players room' = players room /\
     emitted w' = emitted w ++
       [(io_to (Some (code room)), game_over (getLeaderboard room))] /\
     forall t, tracks room t -> timers w' !! t = None) /\
  (Some sock = hostId room ->
   (Z.of_nat (currentRound room) < totalRounds room - 1)%Z ->
   (totalRounds room <= Z.of_nat (length (puzzles room)))%Z ->
   exists w' room' puzzle,
     next_round sock c now w = Some w' /\ heap w' !! r = Some room' /\
     puzzles room !! (currentRound room + 1) = Some puzzle /\
     currentRound room' = currentRound room + 1 /\
     state room' = state room /\ totalRounds room' = totalRounds room /\
     roundAnswered room' = ∅ /\ roundStartTime room' = Some now /\
     dom (players room') = dom (players room) /\
     (forall pid p, players room !! pid = Some p ->
        exists p', players room' !! pid = Some p' /\ score p' = score p /\
          name p' = name p /\ online p' = online p /\ guessedThisRound p' = false) /\
     emitted w' = emitted w ++
       [(io_to (Some (code room)),
         new_round (currentRound room + 2) (totalRounds room) (image puzzle)
           (timePerRound room) None);
        (io_to (Some (code room)), leaderboard_update (getLeaderboard room'))]).
Proof.
  intros Hget. unfold next_round. rewrite Hget.
  apply rooms_get_Some in Hget as [Hr Hh].
  split; [|split].
  - intros Hne. by rewrite decide_False.
  - intros Hhost Hlast. rewrite decide_True, bool_decide_eq_true_2 by done.
    destruct (endGame_steps r w room Hh)
      as (w' & room' & He & Hh' & Hst & Hcr & Hpl & _ & Hem & Ht).
    exists w', room'. do 6 (split; [assumption|]).
    intros t Htr. by rewrite Ht, decide_True.
  - intros Hhost Hnot Hlen. rewrite decide_True by done.
    rewrite bool_decide_eq_false_2 by lia.
    set (X := update_room r _ w).
    set (room1 := set_currentRound (currentRound room + 1) room).
    assert (E1 : heap X !! r = Some room1).
    { subst X. by rewrite (heap_update_room_eq _ _ _ _ Hh). }
    destruct (lookup_lt_is_Some_2 (puzzles room) (currentRound room + 1)) as [puzzle Hpz];
      [lia|].
    destruct (startRound r now X) as [w'|] eqn:Hs.
    + destruct (startRound_spec r now X w' Hs)
        as (room0 & puzzle0 & room' & E0 & Hp0 & _ & _ & _ & _ & Hh' & _ & _ & Hra &
            Hpl & Hrs & Hco & Hst & Hcr & _ & _ & Hem & _).
      assert (room0 = room1) as -> by congruence.
      assert (puzzle0 = puzzle) as -> by (simpl in Hp0; congruence).
      destruct (startRound_keeps r now X w' room1 room' Hs E1 Hh') as (_ & _ & Htr & _).
      exists w', room', puzzle. split; [done|]. split; [done|]. split; [done|].
      split; [done|]. split; [done|]. split; [done|]. split; [done|]. split; [done|].
      split; [rewrite Hpl; simpl; apply dom_fmap_L|]. split.
      { intros pid p Hp. rewrite Hpl. simpl. rewrite lookup_fmap, Hp. simpl.
        by eexists. }
      rewrite Hem. subst X. autorewrite with world. simpl.
      by replace (currentRound room + 1 + 1) with (currentRound room + 2) by lia.
    + apply (startRound_None r now X room1 E1) in Hs. simpl in Hs. congruence.
Qed.

Lemma next_round_effect_witness :
  exists w' room',
    next_round (js "host") demo_code 9000 demo_answered = Some w' /\
    heap w' !! 0 = Some room' /\ currentRound room' = 1.
Proof.
  destruct (next_round_effect (js "host") demo_code 9000 demo_answered 0
              (demo_room demo_answered)) as (_ & _ & Hnext); [by_evaluation|].
  destruct Hnext as (w' & room' & puzzle & Hn & Hh & _ & Hc & _);
    [by_evaluation | by_evaluation | vm_compute; discriminate |].
  exists w', room'. split; [exact Hn|]. split; [exact Hh|exact Hc].
Defined.

(** [host-join] asks for no credential: a socket that names a registered
    code becomes the host of the room, whoever was the host before, and
    from then on [start-game] and [next-round] of every other socket are
    ignored, those of the former host too.  The players, the puzzles and
    the state of the room are as before. *)
Theorem host_join_takes_over (sock c : jsstring) (sid : option jsstring) (w : World)
    (r : nat) (room : Room) :
  rooms_get c w = Some (r, room) ->
  let w' := host_join sock c sid w in
  exists room',
    rooms_get c w' = Some (r, room') /\
    hostId room' = Some sock /\ hostSessionId room' = sid /\
    players room' = players room /\ sessions room' = sessions room /\
    puzzles room' = puzzles room /\ state room' = state room /\
    isHost (socket_of sock w') = true /\ roomCode (socket_of sock w') = Some c /\
    emitted w' = emitted w ++ [(socket_emit sock, host_joined c (length (puzzles room)))] /\
    forall other, other <> sock ->
      (forall rounds tpr now, start_game other c rounds tpr now w' = Some w') /\
      (forall now, next_round other c now w' = Some w').
Proof.
  intros Hget w'. subst w'. unfold host_join. rewrite Hget.
  apply rooms_get_Some in Hget as [Hr Hh].
  set (W := emit _ _ _).
  set (room' := set_hostSessionId sid (set_hostId (Some sock) room)).
  assert (Hget' : rooms_get c W = Some (r, room')).
  { apply rooms_get_Some. subst W. autorewrite with world. split; [done|].
    unfold update_socket. simpl. by rewrite lookup_alter_eq, Hh. }
  exists room'. split; [done|]. do 6 (split; [done|]).
  assert (Hsock : socket_of sock W = host_socket c (socket_of sock w)).
  { subst W. unfold socket_of at 1. unfold update_socket. simpl.
    by rewrite lookup_insert_eq. }
  split; [by rewrite Hsock|]. split; [by rewrite Hsock|]. split; [done|].
  intros other Hne. split.
  - intros rounds tpr now. unfold start_game. rewrite Hget'.
    rewrite decide_False; [done|]. simpl. congruence.
  - intros now. unfold next_round. rewrite Hget'.
    rewrite decide_False; [done|]. simpl. congruence.
Qed.

Lemma host_join_takes_over_witness :
  start_game (js "host") demo_code 2 30 1000
    (host_join (js "intruder") demo_code None demo_lobby)
  = Some (host_join (js "intruder") demo_code None demo_lobby).
Proof.
  destruct (host_join_takes_over (js "intruder") demo_code None demo_lobby 0
              (demo_room demo_lobby)) as (room' & _ & _ & _ & _ & _ & _ & _ & _ & _ & _ & Ho);
    [by_evaluation|].
  apply (Ho (js "host")). intros E. vm_compute in E. discriminate E.
Defined.
